(** * dosprobe: address model, remote-debug client, golden comparison,
      memory watches, the two backends and the capture pipeline.

    A shallow embedding of the TypeScript sources, one module per source
    file, followed by the properties of each.  JavaScript numbers are
    modelled as [NaN] or an exact integer (the code only produces
    integers well below 2^53), strings as sequences of one-byte code
    units, Buffers as lists of bytes. *)

From Stdlib Require Import ZArith Lia List String Ascii Bool.
From Stdlib.Strings Require Import Byte.
From Stdlib Require Import DecimalString DecimalNat.
From stdpp Require Import gmap strings list.
Import ListNotations.

Local Open Scope string_scope.
Local Open Scope Z_scope.

(* ===================================================================== *)
(** ** JavaScript numbers and the string primitives the sources use *)
(* ===================================================================== *)

Module JS.

(** A JS number as the sources meet it: the result of [parseInt] is
    [NaN] or an integer. *)
Inductive number : Type :=
| NaN
| Num (z : Z).

(** ToInt32: reduce modulo 2^32 into the signed range; [NaN] maps to 0. *)
Definition wrap32 (z : Z) : Z := (z + 2 ^ 31) mod 2 ^ 32 - 2 ^ 31.

Definition ToInt32 (n : number) : Z :=
  match n with
  | NaN => 0
  | Num z => wrap32 z
  end.

(** [a & b] *)
Definition band (a b : number) : number :=
  Num (Z.land (ToInt32 a) (ToInt32 b)).

(** [a >> k] (sign-propagating, shift count taken modulo 32) *)
Definition shr (a : number) (k : Z) : number :=
  Num (Z.shiftr (ToInt32 a) (k mod 32)).

(** [a << k] *)
Definition shl (a : number) (k : Z) : number :=
  Num (wrap32 (Z.shiftl (ToInt32 a) (k mod 32))).

(** [a + b] on numbers *)
Definition add (a b : number) : number :=
  match a, b with
  | Num x, Num y => Num (x + y)
  | _, _ => NaN
  end.

(** [Math.max(a, b)]: [NaN] as soon as one of the two is. *)
Definition Math_max (a b : number) : number :=
  match a, b with
  | Num x, Num y => Num (Z.max x y)
  | _, _ => NaN
  end.

(** Value of a character as a digit: 0-9, then a-z and A-Z as 10..35. *)
Definition digit_value (c : ascii) : option Z :=
  let n := Z.of_N (N_of_ascii c) in
  if (48 <=? n) && (n <=? 57) then Some (n - 48)
  else if (97 <=? n) && (n <=? 122) then Some (n - 87)
  else if (65 <=? n) && (n <=? 90) then Some (n - 55)
  else None.

Definition radix_digit (radix : Z) (c : ascii) : option Z :=
  match digit_value c with
  | Some d => if d <? radix then Some d else None
  | None => None
  end.

(** The longest prefix of digits of [s], folded most significant first;
    [acc] is [None] until a digit has been read. *)
Fixpoint parse_digits (radix : Z) (s : string) (acc : option Z) : option Z :=
  match s with
  | EmptyString => acc
  | String c rest =>
      match radix_digit radix c with
      | Some d =>
          parse_digits radix rest
            (Some (match acc with Some v => v * radix + d | None => d end))
      | None => acc
      end
  end.

Definition is_whitespace (c : ascii) : bool :=
  let n := N_of_ascii c in
  ((9 <=? n) && (n <=? 13) || (n =? 32) || (n =? 160))%N.

Fixpoint trim_start (s : string) : string :=
  match s with
  | String c rest => if is_whitespace c then trim_start rest else s
  | EmptyString => s
  end.

Definition strip_0x (s : string) : string :=
  match s with
  | String "0" (String "x" rest) => rest
  | String "0" (String "X" rest) => rest
  | _ => s
  end.

(** [parseInt(s, radix)] for an explicit radix (the sources pass 10 or
    16): leading white space, an optional sign, for radix 16 an optional
    [0x]/[0X], then the longest run of digits; [NaN] when there is none.
    The value is the exact integer the digits denote.  The code's
    [parseInt] returns the nearest double, which is that integer whenever
    it is a double, as every integer up to 2^53 is; above, the two can
    differ, and what is proved of the value of a literal is either
    relative to it or stays within [Number.MAX_SAFE_INTEGER]. *)
Definition parseInt (s : string) (radix : Z) : number :=
  let s1 := trim_start s in
  let '(sign, s2) :=
    match s1 with
    | String "-" r => (-1, r)
    | String "+" r => (1, r)
    | _ => (1, s1)
    end in
  let s3 := if radix =? 16 then strip_0x s2 else s2 in
  match parse_digits radix s3 None with
  | Some v => Num (sign * v)
  | None => NaN
  end.

(** [s.startsWith(p)] *)
Fixpoint startsWith (s p : string) : bool :=
  match p, s with
  | EmptyString, _ => true
  | String a p', String b s' => Ascii.eqb a b && startsWith s' p'
  | String _ _, EmptyString => false
  end.

(** [s.includes(c)] for a one-character needle *)
Fixpoint includes (s : string) (c : ascii) : bool :=
  match s with
  | EmptyString => false
  | String a rest => Ascii.eqb a c || includes rest c
  end.

(** [s.split(c)] for a one-character separator *)
Fixpoint split (s : string) (c : ascii) : list string :=
  match s with
  | EmptyString => [EmptyString]
  | String a rest =>
      if Ascii.eqb a c then EmptyString :: split rest c
      else match split rest c with
           | hd :: tl => String a hd :: tl
           | [] => [String a EmptyString]
           end
  end.

(** An array element used as a string: a missing one is [undefined]. *)
Definition element (l : list string) (i : nat) : string :=
  nth i l "undefined".

Definition hex_char (d : Z) : ascii :=
  if d <? 10 then ascii_of_N (Z.to_N (48 + d)) else ascii_of_N (Z.to_N (87 + d)).

(** The hexadecimal digits of a non-negative integer, most significant
    first; [fuel] bounds the number of digits. *)
Fixpoint hex_digits (fuel : nat) (n : Z) : string :=
  match fuel with
  | O => String (hex_char (n mod 16)) EmptyString
  | S f =>
      if n / 16 =? 0 then String (hex_char (n mod 16)) EmptyString
      else hex_digits f (n / 16) ++ String (hex_char (n mod 16)) EmptyString
  end.

(** [n.toString(16)] for an integer [n] *)
Definition toString16 (n : number) : string :=
  match n with
  | NaN => "NaN"
  | Num z =>
      if z <? 0 then String "-" (hex_digits (Z.to_nat (Z.log2 (- z))) (- z))
      else hex_digits (Z.to_nat (Z.log2 z)) z
  end.

Definition upper_char (c : ascii) : ascii :=
  let n := N_of_ascii c in
  if ((97 <=? n) && (n <=? 122))%N then ascii_of_N (n - 32) else c.

(** [s.toUpperCase()] *)
Fixpoint toUpperCase (s : string) : string :=
  match s with
  | EmptyString => EmptyString
  | String c rest => String (upper_char c) (toUpperCase rest)
  end.

Fixpoint repeat_char (c : ascii) (k : nat) : string :=
  match k with
  | O => EmptyString
  | S k' => String c (repeat_char c k')
  end.

(** [s.padStart(width, c)] for a one-character filler *)
Definition padStart (s : string) (width : nat) (c : ascii) : string :=
  repeat_char c (width - String.length s) ++ s.

Definition newline : string := String (ascii_of_N 10) EmptyString.

(** [lines.join('\n')] *)
Fixpoint join_lines (lines : list string) : string :=
  match lines with
  | [] => EmptyString
  | [l] => l
  | l :: rest => l ++ newline ++ join_lines rest
  end.

End JS.

(* ===================================================================== *)
(** ** packages/core/src/address.ts *)
(* ===================================================================== *)

Module Address.
Import JS.

Record SegOff : Type := { segment : number; offset : number }.

Record DosAddress : Type := { linear : number; segOff : SegOff }.

Definition segOffToLinear (seg off : number) : number :=
  add (shl (band seg (Num 65535)) 4) (band off (Num 65535)).

Definition linearToSegOff (lin : number) : SegOff :=
  {| segment := band (shr lin 4) (Num 65535);
     offset := band lin (Num 15) |}.

Definition parseAddress (input : string) : DosAddress :=
  if includes input ":" then
    let parts := split input ":" in
    let segment := parseInt (element parts 0) 16 in
    let offset := parseInt (element parts 1) 16 in
    {| linear := segOffToLinear segment offset;
       segOff := {| segment := segment; offset := offset |} |}
  else
    let linear :=
      if startsWith input "0x" || startsWith input "0X"
      then parseInt input 16
      else parseInt input 10 in
    {| linear := linear; segOff := linearToSegOff linear |}.

Definition formatSegOff (seg off : number) : string :=
  padStart (toUpperCase (toString16 seg)) 4 "0"
    ++ ":" ++ padStart (toUpperCase (toString16 off)) 4 "0".

End Address.


(** Vocabulary for the properties of the address literals: strings made of
    the digits [0-9A-F] and the number such a string denotes. *)
Module HexText.

Definition upper_hex_digit (c : ascii) : bool :=
  let n := N_of_ascii c in
  ((48 <=? n) && (n <=? 57) || (65 <=? n) && (n <=? 70))%N.

Fixpoint all_upper_hex (s : string) : bool :=
  match s with
  | EmptyString => true
  | String c rest => upper_hex_digit c && all_upper_hex rest
  end.

Definition digit_or_zero (c : ascii) : Z :=
  match JS.digit_value c with
  | Some d => d
  | None => 0
  end.

Fixpoint hex_value (s : string) (acc : Z) : Z :=
  match s with
  | EmptyString => acc
  | String c rest => hex_value rest (acc * 16 + digit_or_zero c)
  end.

End HexText.

(* ===================================================================== *)
(** ** The content hash *)
(* ===================================================================== *)

(** A Node [Buffer]: a sequence of bytes. *)
Abbreviation Buffer := (list byte).

#[global] Instance byte_eq_decision : EqDecision byte := Byte.byte_eq_dec.

Module Sha256.

Definition byte_value (b : byte) : Z := Z.of_N (Byte.to_N b).

Definition w32 (x : Z) : Z := x mod 4294967296.

Definition rotr (n x : Z) : Z :=
  Z.lor (Z.shiftr x n) (w32 (Z.shiftl x (32 - n))).

Definition Ch (x y z : Z) : Z :=
  Z.lxor (Z.land x y) (Z.land (Z.lxor x 4294967295) z).

Definition Maj (x y z : Z) : Z :=
  Z.lxor (Z.lxor (Z.land x y) (Z.land x z)) (Z.land y z).

Definition Sigma0 (x : Z) : Z := Z.lxor (Z.lxor (rotr 2 x) (rotr 13 x)) (rotr 22 x).
Definition Sigma1 (x : Z) : Z := Z.lxor (Z.lxor (rotr 6 x) (rotr 11 x)) (rotr 25 x).
Definition sigma0 (x : Z) : Z := Z.lxor (Z.lxor (rotr 7 x) (rotr 18 x)) (Z.shiftr x 3).
Definition sigma1 (x : Z) : Z := Z.lxor (Z.lxor (rotr 17 x) (rotr 19 x)) (Z.shiftr x 10).

Definition K : list Z :=
  [1116352408; 1899447441; 3049323471; 3921009573; 961987163; 1508970993;
   2453635748; 2870763221; 3624381080; 310598401; 607225278; 1426881987;
   1925078388; 2162078206; 2614888103; 3248222580; 3835390401; 4022224774;
   264347078; 604807628; 770255983; 1249150122; 1555081692; 1996064986;
   2554220882; 2821834349; 2952996808; 3210313671; 3336571891; 3584528711;
   113926993; 338241895; 666307205; 773529912; 1294757372; 1396182291;
   1695183700; 1986661051; 2177026350; 2456956037; 2730485921; 2820302411;
   3259730800; 3345764771; 3516065817; 3600352804; 4094571909; 275423344;
   430227734; 506948616; 659060556; 883997877; 958139571; 1322822218;
   1537002063; 1747873779; 1955562222; 2024104815; 2227730452; 2361852424;
   2428436474; 2756734187; 3204031479; 3329325298].

Definition H0 : list Z :=
  [1779033703; 3144134277; 1013904242; 2773480762;
   1359893119; 2600822924; 528734635; 1541459225].

(** The message followed by the byte 0x80, zero bytes up to 56 modulo 64,
    and the bit length as a 64-bit big-endian integer. *)
Definition be_bytes (width : nat) (x : Z) : list Z :=
  map (fun i => (Z.shiftr x (8 * Z.of_nat i)) mod 256) (rev (seq 0 width)).

Definition pad (msg : list Z) : list Z :=
  let len := Z.of_nat (length msg) in
  let zeros := Z.to_nat ((55 - len) mod 64) in
  msg ++ [128] ++ repeat 0 zeros ++ be_bytes 8 (8 * len).

Fixpoint words (bytes : list Z) : list Z :=
  match bytes with
  | a :: b :: c :: d :: rest =>
      (a * 16777216 + b * 65536 + c * 256 + d) :: words rest
  | _ => []
  end.

(** One step of the message schedule on the words so far, newest first. *)
Definition schedule_step (w : list Z) : list Z :=
  w32 (sigma1 (nth 1 w 0) + nth 6 w 0 + sigma0 (nth 14 w 0) + nth 15 w 0) :: w.

Definition schedule (block : list Z) : list Z :=
  rev (Nat.iter 48 schedule_step (rev block)).

Definition round (st : list Z) (kw : Z * Z) : list Z :=
  match st with
  | [a; b; c; d; e; f; g; h] =>
      let t1 := h + Sigma1 e + Ch e f g + fst kw + snd kw in
      let t2 := Sigma0 a + Maj a b c in
      [w32 (t1 + t2); a; b; c; w32 (d + t1); e; f; g]
  | _ => st
  end.

Definition add_state (x y : list Z) : list Z :=
  map (fun p => w32 (fst p + snd p)) (combine x y).

Definition compress (st block : list Z) : list Z :=
  add_state st (fold_left round (combine K (schedule block)) st).

Fixpoint blocks (fuel : nat) (ws : list Z) (st : list Z) : list Z :=
  match fuel, ws with
  | S f, _ :: _ => blocks f (skipn 16 ws) (compress st (firstn 16 ws))
  | _, _ => st
  end.

Definition digest (msg : list Z) : list Z :=
  let ws := words (pad msg) in
  blocks (length ws) ws H0.

Fixpoint hex_fixed (digits : nat) (x : Z) : string :=
  match digits with
  | O => EmptyString
  | S d => hex_fixed d (x / 16) ++ String (JS.hex_char (x mod 16)) EmptyString
  end.

Definition hex_words (ws : list Z) : string :=
  fold_right (fun w acc => hex_fixed 8 w ++ acc) EmptyString ws.

(** Modelled from the spec: [sha256] of [@dosprobe/shared], whose source
    is not part of the tree; the spec calls it the content hash and its
    output [sha256hex].  SHA-256 of the bytes, as 64 lower-case hex
    digits. *)
Definition sha256 (data : Buffer) : string :=
  hex_words (digest (map byte_value data)).

End Sha256.

(* ===================================================================== *)
(** ** Golden-file comparison ([compareWithGolden]) *)
(* ===================================================================== *)

Module Golden.
Import Sha256.

(** The files the call can see: [existsSync p] is [is_Some (fs p)] and
    [readFileSync p] is the content. *)
Definition FileSystem : Type := string -> option Buffer.

(** [match] is reserved, the field is spelled [match_]; the three optional
    fields are [None] when the source leaves them out. *)
Record GoldenComparison : Type := {
  match_ : bool;
  goldenChecksum : string;
  actualChecksum : string;
  firstDiffOffset : option nat;
  goldenByte : option byte;
  actualByte : option byte;
}.

(** The loop [for (let i = 0; i < len; i++)], [remaining] being [len - i]:
    the first index where the two buffers disagree. *)
Fixpoint first_difference (goldenData actualData : Buffer) (i remaining : nat)
  : option nat :=
  match remaining with
  | O => None
  | S r =>
      if decide (goldenData !! i = actualData !! i)
      then first_difference goldenData actualData (S i) r
      else Some i
  end.

Definition compareWithGolden (fs : FileSystem) (goldenPath : string)
  (actualData : Buffer) : GoldenComparison :=
  match fs goldenPath with
  | None =>
      {| match_ := false; goldenChecksum := EmptyString; actualChecksum := sha256 actualData;
         firstDiffOffset := None; goldenByte := None; actualByte := None |}
  | Some goldenData =>
      let goldenChecksum := sha256 goldenData in
      let actualChecksum := sha256 actualData in
      if String.eqb goldenChecksum actualChecksum then
        {| match_ := true; goldenChecksum := goldenChecksum;
           actualChecksum := actualChecksum;
           firstDiffOffset := None; goldenByte := None; actualByte := None |}
      else
        let len := Nat.min (length goldenData) (length actualData) in
        match first_difference goldenData actualData 0 len with
        | Some i =>
            {| match_ := false; goldenChecksum := goldenChecksum;
               actualChecksum := actualChecksum;
               firstDiffOffset := Some i;
               goldenByte := goldenData !! i; actualByte := actualData !! i |}
        | None =>
            {| match_ := false; goldenChecksum := goldenChecksum;
               actualChecksum := actualChecksum;
               firstDiffOffset := Some len;
               goldenByte := None; actualByte := None |}
        end
  end.

End Golden.

(* ===================================================================== *)
(** ** Errors and outcomes of asynchronous calls *)
(* ===================================================================== *)

Module Errors.

(** Modelled from the spec: the error classes of [@dosprobe/shared], whose
    source is not part of the tree ([ConnectionError], [ProtocolError],
    [TimeoutError]); [PlainError] is the built-in [Error]. *)
Inductive ErrorClass : Type :=
| PlainError
| ConnectionError
| ProtocolError
| TimeoutError.

Record JsError : Type := { error_class : ErrorClass; message : string }.

(** How an awaited call ends: with a value, with a thrown error, never
    (the promise is not settled), or, for the loops that are run with
    fuel, with the fuel used up. *)
Inductive outcome (A : Type) : Type :=
| Returned (a : A)
| Thrown (e : JsError)
| Unsettled
| OutOfFuel.

Arguments Returned {A} a.
Arguments Thrown {A} e.
Arguments Unsettled {A}.
Arguments OutOfFuel {A}.

End Errors.

(* ===================================================================== *)
(** ** The remote-debug client ([GdbClient]) *)
(* ===================================================================== *)

Module Gdb.
Import JS Errors.

Definition CHUNK_SIZE : Z := 4096.

(** The client at the level of packet payloads: whether the socket is
    there, the payloads written so far (oldest first), and the payloads the
    stub will answer with, in order. *)
Record GdbClient : Type := {
  connected : bool;
  sent : list string;
  replies : list string;
}.

(** [command(cmd)]: [sendPacket] throws when there is no socket; otherwise
    the packet is written and [recvPacket] yields the next payload, or
    times out when none arrives. *)
Definition command (cmd : string) (c : GdbClient) : outcome string * GdbClient :=
  if connected c then
    let c' := {| connected := true; sent := sent c ++ [cmd]; replies := tl (replies c) |} in
    match replies c with
    | r :: _ => (Returned r, c')
    | [] => (Thrown {| error_class := TimeoutError; message := "GDB recv timeout" |}, c')
    end
  else
    (Thrown {| error_class := ConnectionError; message := "GDB not connected" |}, c).

Definition byte_of_Z (z : Z) : byte :=
  match Byte.of_N (Z.to_N z) with
  | Some b => b
  | None => x00
  end.

(** [Buffer.from(s, 'hex')]: pairs of hex digits, up to the first pair that
    is not one. *)
Fixpoint buffer_from_hex (s : string) : Buffer :=
  match s with
  | String a (String b rest) =>
      match radix_digit 16 a, radix_digit 16 b with
      | Some x, Some y => byte_of_Z (16 * x + y) :: buffer_from_hex rest
      | _, _ => []
      end
  | _ => []
  end.

Definition read_request (addr remaining : Z) : string :=
  "m" ++ toString16 (Num addr) ++ "," ++ toString16 (Num remaining).

Definition read_error (addr : Z) (resp : string) : JsError :=
  {| error_class := ProtocolError;
     message := "GDB memory read error at 0x" ++ toString16 (Num addr) ++ ": " ++ resp |}.

(** The loop of [readMemory], entered with the current [offset] and the
    chunks pushed so far. *)
Fixpoint readMemory_loop (fuel : nat) (addr length offset : Z)
  (result : list Buffer) (c : GdbClient) : outcome Buffer * GdbClient :=
  match fuel with
  | O => (OutOfFuel, c)
  | S f =>
      if offset <? length then
        let remaining := Z.min CHUNK_SIZE (length - offset) in
        match command (read_request (addr + offset) remaining) c with
        | (Returned resp, c') =>
            if startsWith resp "E"
            then (Thrown (read_error (addr + offset) resp), c')
            else readMemory_loop f addr length (offset + CHUNK_SIZE)
                   (result ++ [buffer_from_hex resp]) c'
        | (Thrown e, c') => (Thrown e, c')
        | (Unsettled, c') => (Unsettled, c')
        | (OutOfFuel, c') => (OutOfFuel, c')
        end
      else (Returned (concat result), c)
  end.

(** [readMemory(addr, length)]; every turn of the loop advances [offset] by
    4096, so [length + 1] turns are more than the loop can take. *)
Definition readMemory (addr length : Z) (c : GdbClient) : outcome Buffer * GdbClient :=
  readMemory_loop (S (Z.to_nat length)) addr length 0 [] c.

(** [setBreakpoint(addr)] *)
Definition setBreakpoint (addr : number) (c : GdbClient) : outcome unit * GdbClient :=
  match command ("Z0," ++ toString16 addr ++ ",1") c with
  | (Returned resp, c') =>
      if String.eqb resp "OK" then (Returned tt, c')
      else (Thrown {| error_class := ProtocolError;
                      message := "Failed to set breakpoint at 0x"
                                 ++ toString16 addr ++ ": " ++ resp |}, c')
  | (Thrown e, c') => (Thrown e, c')
  | (Unsettled, c') => (Unsettled, c')
  | (OutOfFuel, c') => (OutOfFuel, c')
  end.

(** [removeBreakpoint(addr)]: the reply is awaited and not looked at. *)
Definition removeBreakpoint (addr : number) (c : GdbClient) : outcome unit * GdbClient :=
  match command ("z0," ++ toString16 addr ++ ",1") c with
  | (Returned _, c') => (Returned tt, c')
  | (Thrown e, c') => (Thrown e, c')
  | (Unsettled, c') => (Unsettled, c')
  | (OutOfFuel, c') => (OutOfFuel, c')
  end.

(** What the properties of [readMemory] speak about: the number of chunks
    and the request for the [i]-th one. *)
Definition chunk_count (length : Z) : nat := Z.to_nat ((length + 4095) / 4096).

Definition chunk_address (addr : Z) (i : nat) : Z := addr + 4096 * Z.of_nat i.

Definition chunk_request (addr length : Z) (i : nat) : string :=
  read_request (chunk_address addr i) (Z.min 4096 (length - 4096 * Z.of_nat i)).

Definition chunk_requests (addr length : Z) : list string :=
  map (chunk_request addr length) (seq 0 (chunk_count length)).

Definition error_reply (resp : string) : bool := startsWith resp "E".

End Gdb.

(* ===================================================================== *)
(** ** Memory watches (ws/handlers/memory-watch.ts) and the connection
       handlers of ws/index.ts that drive them *)
(* ===================================================================== *)

Module MemoryWatch.
Import Errors Sha256.

(** A [Watch] object.  Objects live in a store and the [watches] map holds
    references to them, because a running poll keeps the object it found
    at its start even when the map entry is replaced meanwhile. *)
Record Watch : Type := {
  id : string;
  address : string;
  size : Z;
  intervalMs : JS.number;
  timer : nat;
  lastHash : option string;
  inFlight : bool;
}.

Definition set_lastHash (h : option string) (w : Watch) : Watch :=
  {| id := id w; address := address w; size := size w; intervalMs := intervalMs w;
     timer := timer w; lastHash := h; inFlight := inFlight w |}.

Definition set_inFlight (b : bool) (w : Watch) : Watch :=
  {| id := id w; address := address w; size := size w; intervalMs := intervalMs w;
     timer := timer w; lastHash := lastHash w; inFlight := b |}.

(** What the [setInterval] callback of [startMemoryWatch] closes over. *)
Record Closure : Type := {
  c_ws : nat;
  c_id : string;
  c_address : string;
  c_addr : Address.DosAddress;
  c_size : Z;
}.

(** A callback suspended at [await backend.readMemory]: the [watch] it
    read from the map, and its closure. *)
Record Poll : Type := {
  p_watch : nat;
  p_closure : Closure;
}.

(** The metadata frame of a [memory:update]. *)
Record MemoryUpdate : Type := {
  mu_type : string;
  mu_id : string;
  mu_address : string;
  mu_size : nat;
  mu_sha256 : string;
  mu_timestamp : Z;
}.

Inductive Frame : Type :=
| JsonFrame (m : MemoryUpdate)
| BinaryFrame (data : Buffer).

Definition MIN_INTERVAL_MS : Z := 200.

(** Module state of memory-watch.ts ([watches], [watchesSuspended]), the
    objects and timers it created, the polls in flight, and the
    [ChannelManager] subscriptions of ws/index.ts. *)
Record State : Type := {
  watches : gmap string nat;
  heap : list Watch;
  watchesSuspended : bool;
  timers : gmap nat Closure;
  nextTimer : nat;
  polls : gmap nat Poll;
  nextPoll : nat;
  subscriptions : gmap string (gset nat);
  hasBackend : bool;
}.

Definition initial : State :=
  {| watches := ∅; heap := []; watchesSuspended := false; timers := ∅;
     nextTimer := 0; polls := ∅; nextPoll := 0; subscriptions := ∅;
     hasBackend := true |}.

Definition with_watches (f : gmap string nat -> gmap string nat) (s : State) : State :=
  {| watches := f (watches s); heap := heap s; watchesSuspended := watchesSuspended s;
     timers := timers s; nextTimer := nextTimer s; polls := polls s;
     nextPoll := nextPoll s; subscriptions := subscriptions s;
     hasBackend := hasBackend s |}.

Definition with_heap (f : list Watch -> list Watch) (s : State) : State :=
  {| watches := watches s; heap := f (heap s); watchesSuspended := watchesSuspended s;
     timers := timers s; nextTimer := nextTimer s; polls := polls s;
     nextPoll := nextPoll s; subscriptions := subscriptions s;
     hasBackend := hasBackend s |}.

Definition with_suspended (b : bool) (s : State) : State :=
  {| watches := watches s; heap := heap s; watchesSuspended := b;
     timers := timers s; nextTimer := nextTimer s; polls := polls s;
     nextPoll := nextPoll s; subscriptions := subscriptions s;
     hasBackend := hasBackend s |}.

Definition with_timers (f : gmap nat Closure -> gmap nat Closure) (s : State) : State :=
  {| watches := watches s; heap := heap s; watchesSuspended := watchesSuspended s;
     timers := f (timers s); nextTimer := nextTimer s; polls := polls s;
     nextPoll := nextPoll s; subscriptions := subscriptions s;
     hasBackend := hasBackend s |}.

Definition with_polls (f : gmap nat Poll -> gmap nat Poll) (s : State) : State :=
  {| watches := watches s; heap := heap s; watchesSuspended := watchesSuspended s;
     timers := timers s; nextTimer := nextTimer s; polls := f (polls s);
     nextPoll := nextPoll s; subscriptions := subscriptions s;
     hasBackend := hasBackend s |}.

Definition with_subscriptions
  (f : gmap string (gset nat) -> gmap string (gset nat)) (s : State) : State :=
  {| watches := watches s; heap := heap s; watchesSuspended := watchesSuspended s;
     timers := timers s; nextTimer := nextTimer s; polls := polls s;
     nextPoll := nextPoll s; subscriptions := f (subscriptions s);
     hasBackend := hasBackend s |}.

(** [stopMemoryWatch(id)] *)
Definition stopMemoryWatch (i : string) (s : State) : State :=
  match watches s !! i with
  | Some r =>
      let s1 :=
        match heap s !! r with
        | Some w => with_timers (delete (timer w)) s
        | None => s
        end in
      with_watches (delete i) s1
  | None => s
  end.

(** [startMemoryWatch(backend, ws, id, address, size, intervalMs, _)].
    The handler passes [msg.intervalMs] of the parsed message as it is,
    so it need not be a number; [intervalMs] here is the number that
    [Math.max] converts it to, [NaN] when the field is missing or
    converts to no number.  The period given to [setInterval] is then
    [NaN] as well. *)
Definition startMemoryWatch (ws : nat) (i address : string) (size : Z)
  (intervalMs : JS.number) (s : State) : State :=
  let s1 := stopMemoryWatch i s in
  let addr := Address.parseAddress address in
  let effectiveIntervalMs := JS.Math_max intervalMs (JS.Num MIN_INTERVAL_MS) in
  let t := nextTimer s1 in
  let r := length (heap s1) in
  {| watches := <[i := r]> (watches s1);
     heap := heap s1 ++ [ {| id := i; address := address; size := size;
                             intervalMs := effectiveIntervalMs; timer := t;
                             lastHash := None; inFlight := false |} ];
     watchesSuspended := watchesSuspended s1;
     timers := <[t := {| c_ws := ws; c_id := i; c_address := address;
                         c_addr := addr; c_size := size |}]> (timers s1);
     nextTimer := S t;
     polls := polls s1;
     nextPoll := nextPoll s1;
     subscriptions := subscriptions s1;
     hasBackend := hasBackend s1 |}.

(** [stopAllWatches()] *)
Definition stopAllWatches (s : State) : State :=
  foldr stopMemoryWatch s (map fst (map_to_list (watches s))).

(** [suspendAllWatches()] *)
Definition suspendAllWatches (s : State) : State := with_suspended true s.

(** [invalidateAllWatches()] *)
Definition invalidateAllWatches (s : State) : State :=
  with_heap
    (fun h => foldr (fun r h' => alter (set_lastHash None) r h') h
                (map snd (map_to_list (watches s))))
    s.

(** [resumeAllWatches(invalidateHashes)] *)
Definition resumeAllWatches (invalidateHashes : bool) (s : State) : State :=
  let s1 := with_suspended false s in
  if invalidateHashes then invalidateAllWatches s1 else s1.

(** The timer callback up to its [await]: the guard, then [inFlight] is
    set and the read is in flight. *)
Definition tick (t : nat) (s : State) : State :=
  match timers s !! t with
  | None => s
  | Some c =>
      match watches s !! c_id c with
      | None => s
      | Some r =>
          match heap s !! r with
          | None => s
          | Some w =>
              if inFlight w || watchesSuspended s then s
              else
                {| watches := watches s;
                   heap := alter (set_inFlight true) r (heap s);
                   watchesSuspended := watchesSuspended s;
                   timers := timers s; nextTimer := nextTimer s;
                   polls := <[nextPoll s := {| p_watch := r; p_closure := c |}]> (polls s);
                   nextPoll := S (nextPoll s);
                   subscriptions := subscriptions s;
                   hasBackend := hasBackend s |}
          end
      end
  end.

Definition update_frames (c : Closure) (data : Buffer) (hash : string) (now : Z)
  : list (nat * Frame) :=
  [ (c_ws c, JsonFrame {| mu_type := "memory:update"; mu_id := c_id c;
                          mu_address := c_address c; mu_size := length data;
                          mu_sha256 := hash; mu_timestamp := now |});
    (c_ws c, BinaryFrame data) ].

(** The rest of the callback, once the read has settled: the [try] body
    after the [await], the empty [catch], and the [finally]. *)
Definition settle (p : nat) (res : outcome Buffer) (now : Z) (s : State)
  : State * list (nat * Frame) :=
  match polls s !! p with
  | None => (s, [])
  | Some q =>
      let s0 := with_polls (delete p) s in
      let '(s1, out) :=
        match res with
        | Returned data =>
            let hash := sha256 data in
            match heap s0 !! p_watch q with
            | Some w =>
                if decide (Some hash = lastHash w) then (s0, [])
                else (with_heap (alter (set_lastHash (Some hash)) (p_watch q)) s0,
                      update_frames (p_closure q) data hash now)
            | None => (s0, [])
            end
        | _ => (s0, [])
        end in
      let s2 :=
        match watches s1 !! c_id (p_closure q) with
        | Some r' => with_heap (alter (set_inFlight false) r') s1
        | None => s1
        end in
      (s2, out)
  end.

(** [ChannelManager.removeClient(ws)] *)
Definition removeClient (ws : nat) (s : State) : State :=
  with_subscriptions (fmap (fun subscribers => subscribers ∖ {[ws]})) s.

(** What can happen to the module: a client message that concerns watches,
    a timer firing, a read settling, the three snapshot events of the
    backend, a connection or the server closing. *)
Inductive Event : Type :=
| MemoryWatchMsg (ws : nat) (i address : string) (size : Z) (intervalMs : JS.number)
| MemoryUnwatchMsg (ws : nat) (i : string)
| TimerFires (t : nat)
| ReadSettles (p : nat) (res : outcome Buffer) (now : Z)
| SnapshotLoading
| SnapshotLoaded
| SnapshotLoadFailed
| ConnectionClosed (ws : nat)
| ServerClosed.

Definition step (e : Event) (s : State) : State * list (nat * Frame) :=
  match e with
  | MemoryWatchMsg ws i address size intervalMs =>
      (if hasBackend s then startMemoryWatch ws i address size intervalMs s else s, [])
  | MemoryUnwatchMsg _ i => (stopMemoryWatch i s, [])
  | TimerFires t => (tick t s, [])
  | ReadSettles p res now => settle p res now s
  | SnapshotLoading => (suspendAllWatches s, [])
  | SnapshotLoaded => (resumeAllWatches true s, [])
  | SnapshotLoadFailed => (resumeAllWatches true s, [])
  | ConnectionClosed ws => (removeClient ws s, [])
  | ServerClosed => (stopAllWatches s, [])
  end.

(** The settling of a successful read by a poll that holds watch object
    [r]. *)
Definition settles_read_of (r : nat) (e : Event) (s : State) : bool :=
  match e with
  | ReadSettles p (Returned _) _ =>
      match polls s !! p with
      | Some q => Nat.eqb (p_watch q) r
      | None => false
      end
  | _ => false
  end.

(** Run the events in order, stopping with [None] at a successful read for
    the watch object [r]. *)
Fixpoint run_without_read_of (r : nat) (evs : list Event) (s : State) : option State :=
  match evs with
  | [] => Some s
  | e :: rest =>
      if settles_read_of r e s then None
      else run_without_read_of r rest (fst (step e s))
  end.

End MemoryWatch.

(* ===================================================================== *)
(** ** JS [Map] objects *)
(* ===================================================================== *)

Module JsMap.

(** A JS [Map] with string keys, in insertion order. *)
Fixpoint map_set {V : Type} (k : string) (v : V) (m : list (string * V))
  : list (string * V) :=
  match m with
  | [] => [(k, v)]
  | (k', v') :: rest =>
      if String.eqb k k' then (k, v) :: rest else (k', v') :: map_set k v rest
  end.

Fixpoint map_get {V : Type} (k : string) (m : list (string * V)) : option V :=
  match m with
  | [] => None
  | (k', v') :: rest => if String.eqb k k' then Some v' else map_get k rest
  end.

Definition map_delete {V : Type} (k : string) (m : list (string * V))
  : list (string * V) :=
  filter (fun kv => negb (String.eqb k (fst kv))) m.

End JsMap.

(* ===================================================================== *)
(** ** The socket-based backend ([QmpClient], [QemuBackend]) *)
(* ===================================================================== *)

Module Qemu.
Import JS Errors Address JsMap.

Inductive BackendStatus : Type :=
| disconnected | launching | running | paused | error.

Inductive BreakpointType : Type :=
| execution | memory | interrupt.

Definition type_name (t : BreakpointType) : string :=
  match t with
  | execution => "execution"
  | memory => "memory"
  | interrupt => "interrupt"
  end.

Record Breakpoint : Type := {
  id : string;
  type : BreakpointType;
  address : DosAddress;
  enabled : bool;
}.

(** A message of the machine-control socket: a reply with [return], a
    reply with [error], or an asynchronous event. *)
Inductive QmpMessage : Type :=
| QmpReturn (value : string)
| QmpError (cls desc : string)
| QmpEvent (name : string).

(** [QmpClient]: whether the socket is there, and what the emulator will
    send, in order. *)
Record QmpClient : Type := {
  socket : bool;
  inbox : list QmpMessage;
}.

(** The events the backend emits. *)
Inductive BackendEvent : Type :=
| StatusEvent (s : BackendStatus)
| SnapshotLoadingEvent (name : string) (timestamp : Z)
| SnapshotLoadedEvent (name : string) (timestamp : Z)
| SnapshotLoadFailedEvent (name : string) (timestamp : Z) (error_message : string).

(** What an operation does that can be observed from outside, in the order
    it does it: a request written to the machine-control socket, a message
    read from it, an event emitted to the listeners. *)
Inductive Action : Type :=
| QmpSend (command : string) (arguments : list (string * string))
| QmpReceive (m : QmpMessage)
| Emit (e : BackendEvent).

(** The loop of [execute] after the request is written: events are passed
    on and skipped, the first reply ends it; with nothing more to read the
    promise stays unsettled. *)
Fixpoint await_response (msgs : list QmpMessage)
  : outcome string * list QmpMessage * list Action :=
  match msgs with
  | [] => (Unsettled, [], [])
  | QmpReturn v :: rest => (Returned v, rest, [QmpReceive (QmpReturn v)])
  | QmpError c d :: rest =>
      (Thrown {| error_class := ProtocolError;
                 message := "QMP error (" ++ c ++ "): " ++ d |},
       rest, [QmpReceive (QmpError c d)])
  | QmpEvent n :: rest =>
      let '(o, rest', acts) := await_response rest in
      (o, rest', QmpReceive (QmpEvent n) :: acts)
  end.

(** [QmpClient.execute(command, args)] *)
Definition execute (command : string) (arguments : list (string * string))
  (c : QmpClient) : outcome string * QmpClient * list Action :=
  if socket c then
    let '(o, rest, acts) := await_response (inbox c) in
    (o, {| socket := true; inbox := rest |}, QmpSend command arguments :: acts)
  else
    (Thrown {| error_class := ConnectionError;
               message := "QMP socket not connected" |}, c, []).

(** [QmpClient.loadSnapshot(name)] *)
Definition qmp_loadSnapshot (name : string) (c : QmpClient)
  : outcome string * QmpClient * list Action :=
  execute "human-monitor-command" [("command-line", "loadvm " ++ name)] c.

(** The backend object, with the module counter [nextBpId] and the
    actions performed so far. *)
Record QemuBackend : Type := {
  qmp : option QmpClient;
  gdb : option Gdb.GdbClient;
  currentStatus : BackendStatus;
  breakpoints : list (string * (number * Breakpoint));
  nextBpId : nat;
  trace : list Action;
}.

Definition plain_error (m : string) : JsError :=
  {| error_class := PlainError; message := m |}.

Definition decimal (n : nat) : string :=
  DecimalString.NilZero.string_of_uint (Nat.to_uint n).

(** [setBreakpoint(type, address)] *)
Definition setBreakpoint (t : BreakpointType) (a : DosAddress) (b : QemuBackend)
  : outcome Breakpoint * QemuBackend :=
  match gdb b with
  | None => (Thrown (plain_error "GDB not connected"), b)
  | Some g =>
      match t with
      | execution =>
          let '(o, g') := Gdb.setBreakpoint (linear a) g in
          match o with
          | Returned _ =>
              let i := "bp_" ++ decimal (nextBpId b) in
              let bp := {| id := i; type := t; address := a; enabled := true |} in
              (Returned bp,
               {| qmp := qmp b; gdb := Some g'; currentStatus := currentStatus b;
                  breakpoints := map_set i (linear a, bp) (breakpoints b);
                  nextBpId := S (nextBpId b); trace := trace b |})
          | Thrown e =>
              (Thrown e,
               {| qmp := qmp b; gdb := Some g'; currentStatus := currentStatus b;
                  breakpoints := breakpoints b; nextBpId := nextBpId b;
                  trace := trace b |})
          | Unsettled | OutOfFuel =>
              (Unsettled,
               {| qmp := qmp b; gdb := Some g'; currentStatus := currentStatus b;
                  breakpoints := breakpoints b; nextBpId := nextBpId b;
                  trace := trace b |})
          end
      | _ =>
          (Thrown (plain_error ("QEMU GDB only supports execution breakpoints, got: "
                                ++ type_name t)), b)
      end
  end.

(** [removeBreakpoint(id)] *)
Definition removeBreakpoint (i : string) (b : QemuBackend)
  : outcome unit * QemuBackend :=
  match gdb b with
  | None => (Thrown (plain_error "GDB not connected"), b)
  | Some g =>
      match map_get i (breakpoints b) with
      | Some entry =>
          let '(o, g') := Gdb.removeBreakpoint (fst entry) g in
          match o with
          | Returned _ =>
              (Returned tt,
               {| qmp := qmp b; gdb := Some g'; currentStatus := currentStatus b;
                  breakpoints := map_delete i (breakpoints b);
                  nextBpId := nextBpId b; trace := trace b |})
          | other =>
              (other,
               {| qmp := qmp b; gdb := Some g'; currentStatus := currentStatus b;
                  breakpoints := breakpoints b; nextBpId := nextBpId b;
                  trace := trace b |})
          end
      | None => (Returned tt, b)
      end
  end.

(** [listBreakpoints()] *)
Definition listBreakpoints (b : QemuBackend) : outcome (list Breakpoint) * QemuBackend :=
  (Returned (map (fun e => snd (snd e)) (breakpoints b)), b).

(** The state after part of [loadSnapshot] has run. *)
Definition progress (b : QemuBackend) (c : QmpClient) (st : BackendStatus)
  (bps : list (string * (number * Breakpoint))) (acts : list Action) : QemuBackend :=
  {| qmp := Some c; gdb := gdb b; currentStatus := st; breakpoints := bps;
     nextBpId := nextBpId b; trace := trace b ++ acts |}.

(** [loadSnapshot(name)]; [t0] and [t1] are the two readings of
    [Date.now()], for [snapshot:loading] and for the closing event. *)
Definition loadSnapshot (name : string) (t0 t1 : Z) (b : QemuBackend)
  : outcome unit * QemuBackend :=
  match qmp b with
  | None => (Thrown (plain_error "QMP not connected"), b)
  | Some c =>
      let start := [Emit (StatusEvent paused); Emit (SnapshotLoadingEvent name t0)] in
      let failed (e : JsError) := Emit (SnapshotLoadFailedEvent name t1 (message e)) in
      let '(o1, c1, a1) := qmp_loadSnapshot name c in
      match o1 with
      | Returned _ =>
          let '(o2, c2, a2) := execute "cont" [] c1 in
          match o2 with
          | Returned _ =>
              (Returned tt,
               progress b c2 running []
                 (start ++ a1 ++ a2
                  ++ [Emit (StatusEvent running); Emit (SnapshotLoadedEvent name t1)]))
          | Thrown e =>
              (Thrown e, progress b c2 paused [] (start ++ a1 ++ a2 ++ [failed e]))
          | Unsettled | OutOfFuel =>
              (Unsettled, progress b c2 paused [] (start ++ a1 ++ a2))
          end
      | Thrown e =>
          (Thrown e, progress b c1 paused (breakpoints b) (start ++ a1 ++ [failed e]))
      | Unsettled | OutOfFuel =>
          (Unsettled, progress b c1 paused (breakpoints b) (start ++ a1))
      end
  end.

(** The breakpoint registry of the debug stub.  The stub is outside the
    repository; as the remote-debug protocol has it, an acknowledged
    [Z0,addr,1] registers [addr], an acknowledged [z0,addr,1] removes it,
    and nothing else the backend sends addresses the registry.  Addresses
    are kept as the hex text of the packets. *)
Definition stub_step (registered : list string) (exchange : string * string)
  : list string :=
  let '(request, reply) := exchange in
  match split request ",", String.eqb reply "OK" with
  | [kind; addr; _], true =>
      if String.eqb kind "Z0" then
        if existsb (String.eqb addr) registered then registered
        else registered ++ [addr]
      else if String.eqb kind "z0" then
        filter (fun a => negb (String.eqb a addr)) registered
      else registered
  | _, _ => registered
  end.

(** The requests the client wrote from [before] to [after], each with the
    reply it got. *)
Definition exchanges (before after : Gdb.GdbClient) : list (string * string) :=
  combine (skipn (length (Gdb.sent before)) (Gdb.sent after)) (Gdb.replies before).

Definition stub_registered (before after : Gdb.GdbClient) : list string :=
  fold_left stub_step (exchanges before after) [].

(** The addresses in the backend's breakpoint table, as hex text. *)
Definition table_addresses (b : QemuBackend) : list string :=
  map (fun e => toString16 (fst (snd e))) (breakpoints b).

(** Asynchronous events with the given names, as the emulator sends them
    between replies, and the reads of them. *)
Definition events (names : list string) : list QmpMessage := map QmpEvent names.

Definition received (names : list string) : list Action :=
  map (fun n => QmpReceive (QmpEvent n)) names.

(** A connected backend in its initial state, with what the two sockets
    will deliver. *)
Definition connected_backend (qmp_msgs : list QmpMessage) (gdb_replies : list string)
  : QemuBackend :=
  {| qmp := Some {| socket := true; inbox := qmp_msgs |};
     gdb := Some {| Gdb.connected := true; Gdb.sent := []; Gdb.replies := gdb_replies |};
     currentStatus := running; breakpoints := []; nextBpId := 1; trace := [] |}.

End Qemu.

(* ===================================================================== *)
(** ** The capture pipeline ([CapturePipeline.run]) *)
(* ===================================================================== *)

Module Capture.
Import JS Errors Address Sha256 JsMap.

(** Modelled from the spec: [MODE_13H_ADDRESS] and [MODE_13H_SIZE] of
    capture/framebuffer.ts, which is not part of the tree; the spec gives
    linear address 0xA0000 and 64,000 bytes. *)
Definition MODE_13H_ADDRESS : Z := 655360.
Definition MODE_13H_SIZE : Z := 64000.

Record MemoryRange : Type := {
  range_address : DosAddress;
  range_size : Z;
  range_filename : string;
}.

Record CaptureRequest : Type := {
  prefix : string;
  snapshot : option string;
  breakpoint : option DosAddress;
  keys : option (list string);
  keyDelay : option Z;
  waitTime : option Z;
  memoryRanges : option (list MemoryRange);
  captureFramebuffer : option bool;
  captureRegisters : option bool;
  captureScreenshot : option bool;
  timeout : option Z;
}.

(** The calls the pipeline makes to the backend and to the file system. *)
Inductive Call : Type :=
| CLoadSnapshot (name : string)
| CSleep (ms : Z)
| CSendKeys
| CSetBreakpoint
| CResume
| CWaitForStop (ms : Z)
| CRemoveBreakpoint (bp : string)
| CPause
| CReadMemory (a : DosAddress) (size : Z)
| CScreenshot
| CReadRegisters
| CWriteFile (path : string).

(** The calls of the stages before the pause: snapshot load, key
    injection and the waits after them. *)
Definition is_prelude (c : Call) : bool :=
  match c with
  | CLoadSnapshot _ | CSleep _ | CSendKeys => true
  | _ => false
  end.

(** The calls of the capture stages: the reads of framebuffer, screenshot,
    registers and memory ranges, and the writes of their files. *)
Definition is_capture (c : Call) : bool :=
  match c with
  | CReadMemory _ _ | CScreenshot | CReadRegisters | CWriteFile _ => true
  | _ => false
  end.

Section Pipeline.

(** The register file and the state of everything outside the pipeline
    (emulator, backend object, disk). *)
Context {Registers World : Type}.

(** The [Backend] contract as far as the pipeline uses it.  [getGdb] is
    present on a QEMU-like backend only and tells whether it yields a
    client; [waitForStop] is that client's method. *)
Class Backend : Type := {
  backend_type : string;
  loadSnapshot : string -> World -> outcome unit * World;
  sendKeys : list string -> option Z -> World -> outcome unit * World;
  setBreakpoint : DosAddress -> World -> outcome string * World;
  removeBreakpoint : string -> World -> outcome unit * World;
  pause : World -> outcome unit * World;
  resume : World -> outcome unit * World;
  readMemory : DosAddress -> Z -> World -> outcome Buffer * World;
  screenshot : World -> outcome (Buffer * string) * World;
  readRegisters : World -> outcome Registers * World;
  getGdb : option (World -> bool);
  waitForStop : Z -> World -> outcome string * World;
}.

Context {backend : Backend}.

(** [writeFileSync] and [JSON.stringify(registers, null, 2)]. *)
Context (writeFileSync : string -> Buffer -> World -> outcome unit * World).
Context (stringify : Registers -> Buffer).

Record CaptureResult : Type := {
  r_prefix : string;
  framebuffer : option Buffer;
  r_screenshot : option Buffer;
  screenshotFormat : string;
  registers : option Registers;
  memoryDumps : list (string * Buffer);
  checksums : list (string * string);
  timestamp : Z;
}.

(** A run in progress: the outside world and the calls made so far, each
    with whether it returned. *)
Record RunState : Type := {
  world : World;
  calls : list (Call * bool);
}.

Definition M (A : Type) : Type := RunState -> outcome A * RunState.

Definition ret {A : Type} (a : A) : M A := fun st => (Returned a, st).

Definition throw {A : Type} (e : JsError) : M A := fun st => (Thrown e, st).

Definition bind {A B : Type} (m : M A) (k : A -> M B) : M B :=
  fun st =>
    match m st with
    | (Returned a, st') => k a st'
    | (Thrown e, st') => (Thrown e, st')
    | (Unsettled, st') => (Unsettled, st')
    | (OutOfFuel, st') => (OutOfFuel, st')
    end.

Definition returned {A : Type} (o : outcome A) : bool :=
  match o with
  | Returned _ => true
  | _ => false
  end.

(** An awaited call: it acts on the world and is written down. *)
Definition invoke {A : Type} (c : Call) (op : World -> outcome A * World) : M A :=
  fun st =>
    let '(o, w) := op (world st) in
    (o, {| world := w; calls := calls st ++ [(c, returned o)] |}).

Definition sleep (ms : Z) : M unit := invoke (CSleep ms) (fun w => (Returned tt, w)).

(** How an operation ended, without what it returned. *)
Definition erase {A : Type} (o : outcome A) : outcome unit :=
  match o with
  | Returned _ => Returned tt
  | Thrown e => Thrown e
  | Unsettled => Unsettled
  | OutOfFuel => OutOfFuel
  end.

(** The operation behind each entry of the log. *)
Inductive performs : Call -> forall A : Type, (World -> outcome A * World) -> Prop :=
| performs_loadSnapshot (name : string) :
    performs (CLoadSnapshot name) unit (loadSnapshot name)
| performs_sleep (ms : Z) :
    performs (CSleep ms) unit (fun w => (Returned tt, w))
| performs_sendKeys (ks : list string) (delay : option Z) :
    performs CSendKeys unit (sendKeys ks delay)
| performs_setBreakpoint (a : DosAddress) :
    performs CSetBreakpoint string (setBreakpoint a)
| performs_resume :
    performs CResume unit resume
| performs_waitForStop (ms : Z) :
    performs (CWaitForStop ms) string (waitForStop ms)
| performs_removeBreakpoint (bp : string) :
    performs (CRemoveBreakpoint bp) unit (removeBreakpoint bp)
| performs_pause :
    performs CPause unit pause
| performs_readMemory (a : DosAddress) (size : Z) :
    performs (CReadMemory a size) Buffer (readMemory a size)
| performs_screenshot :
    performs CScreenshot (Buffer * string)%type screenshot
| performs_readRegisters :
    performs CReadRegisters Registers readRegisters
| performs_writeFile (path : string) (data : Buffer) :
    performs (CWriteFile path) unit (writeFileSync path data).

(** The run ended as the call [c] did: the operation behind [c], made in
    some world, did not return and left the world [w']; the run did not
    return either and ended the same way, with the same error if the
    operation threw one. *)
Definition ended_as {A : Type} (c : Call) (o : outcome A) (w' : World) : Prop :=
  returned o = false
  /\ exists (B : Type) (op : World -> outcome B * World) (w0 : World),
       performs c B op /\ snd (op w0) = w' /\ erase (fst (op w0)) = erase o.

Definition the_world : M World := fun st => (Returned (world st), st).

(** [M] with stdpp's monad notation: [x ← m; k] and [m;; k]. *)
#[export] Instance M_ret : MRet M := @ret.
#[export] Instance M_bind : MBind M := fun A B k m => bind m k.

Definition join (dir name : string) : string := dir ++ "/" ++ name.

Definition or_default (x : option Z) (d : Z) : Z :=
  match x with
  | Some v => v
  | None => d
  end.

(** [flag !== false] *)
Definition not_false (flag : option bool) : bool :=
  match flag with
  | Some false => false
  | _ => true
  end.

Definition with_framebuffer (data : Buffer) (r : CaptureResult) : CaptureResult :=
  {| r_prefix := r_prefix r; framebuffer := Some data; r_screenshot := r_screenshot r;
     screenshotFormat := screenshotFormat r; registers := registers r;
     memoryDumps := memoryDumps r;
     checksums := map_set "framebuffer" (sha256 data) (checksums r);
     timestamp := timestamp r |}.

Definition with_screenshot (data : Buffer) (format : string) (r : CaptureResult)
  : CaptureResult :=
  {| r_prefix := r_prefix r; framebuffer := framebuffer r; r_screenshot := Some data;
     screenshotFormat := format; registers := registers r;
     memoryDumps := memoryDumps r;
     checksums := map_set "screenshot" (sha256 data) (checksums r);
     timestamp := timestamp r |}.

Definition with_registers (regs : Registers) (r : CaptureResult) : CaptureResult :=
  {| r_prefix := r_prefix r; framebuffer := framebuffer r; r_screenshot := r_screenshot r;
     screenshotFormat := screenshotFormat r; registers := Some regs;
     memoryDumps := memoryDumps r; checksums := checksums r;
     timestamp := timestamp r |}.

Definition with_dump (filename : string) (data : Buffer) (r : CaptureResult)
  : CaptureResult :=
  {| r_prefix := r_prefix r; framebuffer := framebuffer r; r_screenshot := r_screenshot r;
     screenshotFormat := screenshotFormat r; registers := registers r;
     memoryDumps := map_set filename data (memoryDumps r);
     checksums := map_set filename (sha256 data) (checksums r);
     timestamp := timestamp r |}.

(** The loop over [request.memoryRanges]. *)
Fixpoint capture_ranges (capturesDir : string) (ranges : list MemoryRange)
  (result : CaptureResult) : M CaptureResult :=
  match ranges with
  | [] => ret result
  | range :: rest =>
      data ← invoke (CReadMemory (range_address range) (range_size range))
               (readMemory (range_address range) (range_size range));
      let memPath := join capturesDir (range_filename range) in
      invoke (CWriteFile memPath) (writeFileSync memPath data);;
      capture_ranges capturesDir rest (with_dump (range_filename range) data result)
  end.

(** [run(request)]; [now] is the reading of [Date.now()]. *)
Definition run (capturesDir : string) (request : CaptureRequest) (now : Z)
  : M CaptureResult :=
  let result :=
    {| r_prefix := prefix request; framebuffer := None; r_screenshot := None;
       screenshotFormat := if String.eqb backend_type "qemu" then "ppm" else "bmp";
       registers := None; memoryDumps := []; checksums := []; timestamp := now |} in
  (* Load snapshot if specified *)
  match snapshot request with
  | Some (String c s) =>
      invoke (CLoadSnapshot (String c s)) (loadSnapshot (String c s));;
      sleep 1000
  | _ => ret tt
  end;;
  (* Inject keys if specified *)
  match keys request with
  | Some (k :: ks) =>
      invoke CSendKeys (sendKeys (k :: ks) (keyDelay request));;
      sleep (or_default (waitTime request) 2 * 1000)
  | _ => ret tt
  end;;
  (* Set breakpoint and wait if specified, otherwise pause *)
  match breakpoint request with
  | Some a =>
      bp ← invoke CSetBreakpoint (setBreakpoint a);
      invoke CResume resume;;
      match getGdb with
      | Some get =>
          w ← the_world;
          if get w then
            invoke (CWaitForStop (or_default (timeout request) 30 * 1000))
              (waitForStop (or_default (timeout request) 30 * 1000));;
            ret tt
          else
            throw {| error_class := PlainError;
                     message := "QEMU GDB connection is not available for breakpoint capture" |}
      | None => sleep (or_default (timeout request) 30 * 1000)
      end;;
      invoke (CRemoveBreakpoint bp) (removeBreakpoint bp)
  | None => invoke CPause pause
  end;;
  (* Capture framebuffer *)
  result ←
    (if not_false (captureFramebuffer request) then
       let addr := parseAddress ("0x" ++ toString16 (Num MODE_13H_ADDRESS)) in
       data ← invoke (CReadMemory addr MODE_13H_SIZE) (readMemory addr MODE_13H_SIZE);
       let fbPath := join capturesDir (prefix request ++ "_framebuffer.bin") in
       invoke (CWriteFile fbPath) (writeFileSync fbPath data);;
       ret (with_framebuffer data result)
     else ret result);
  (* Capture screenshot *)
  result ←
    (if not_false (captureScreenshot request) then
       ss ← invoke CScreenshot screenshot;
       let ssPath := join capturesDir (prefix request ++ "_screenshot." ++ snd ss) in
       invoke (CWriteFile ssPath) (writeFileSync ssPath (fst ss));;
       ret (with_screenshot (fst ss) (snd ss) result)
     else ret result);
  (* Capture registers *)
  result ←
    (if not_false (captureRegisters request) then
       regs ← invoke CReadRegisters readRegisters;
       let regPath := join capturesDir (prefix request ++ "_registers.json") in
       invoke (CWriteFile regPath) (writeFileSync regPath (stringify regs));;
       ret (with_registers regs result)
     else ret result);
  (* Capture additional memory ranges *)
  result ←
    match memoryRanges request with
    | Some ranges => capture_ranges capturesDir ranges result
    | None => ret result
    end;
  (* Resume execution *)
  invoke CResume resume;;
  ret result.

(** Shapes of the list of calls a step adds. *)
Definition succeeded (e : Call * bool) : Prop := snd e = true.

(** [m] adds calls that satisfy [P]; they all returned when [m] returns,
    and otherwise the last one is the one that did not, and [m] ends as
    that call did. *)
Definition stage (P : Call -> bool) {A : Type} (m : M A) : Prop :=
  forall st, exists l,
    calls (snd (m st)) = (calls st ++ l)%list
    /\ Forall (fun e => P (fst e) = true) l
    /\ match fst (m st) with
       | Returned _ => Forall succeeded l
       | o => exists pre c, l = (pre ++ [(c, false)])%list /\ Forall succeeded pre
                            /\ ended_as c o (world (snd (m st)))
       end.

(** [m] adds capture calls that returned, and then either a capture call
    that did not return, as which [m] ends; or a [resume], as which [m]
    ends when it did not return, and with which [m] returns when it did. *)
Definition captures_then_resume {A : Type} (m : M A) : Prop :=
  forall st, exists captures,
    Forall succeeded captures
    /\ Forall (fun e => is_capture (fst e) = true) captures
    /\ ((exists c, is_capture c = true
                   /\ calls (snd (m st)) = (calls st ++ captures ++ [(c, false)])%list
                   /\ ended_as c (fst (m st)) (world (snd (m st))))
        \/ (calls (snd (m st)) = (calls st ++ captures ++ [(CResume, false)])%list
            /\ ended_as CResume (fst (m st)) (world (snd (m st))))
        \/ (calls (snd (m st)) = (calls st ++ captures ++ [(CResume, true)])%list
            /\ exists result, fst (m st) = Returned result)).

(** [m] adds prelude calls that returned, and then either a prelude call
    or the [pause] that did not return, as which [m] ends; or a [pause]
    that returned, followed by captures and resume as above. *)
Definition pause_branch {A : Type} (m : M A) : Prop :=
  forall st, exists before,
    Forall succeeded before
    /\ Forall (fun e => is_prelude (fst e) = true) before
    /\ ((exists c, (is_prelude c = true \/ c = CPause)
                   /\ calls (snd (m st)) = (calls st ++ before ++ [(c, false)])%list
                   /\ ended_as c (fst (m st)) (world (snd (m st))))
        \/ exists captures,
             Forall succeeded captures
             /\ Forall (fun e => is_capture (fst e) = true) captures
             /\ ((exists c, is_capture c = true
                            /\ calls (snd (m st))
                               = (calls st ++ before ++ [(CPause, true)] ++ captures
                                  ++ [(c, false)])%list
                            /\ ended_as c (fst (m st)) (world (snd (m st))))
                 \/ (calls (snd (m st))
                     = (calls st ++ before ++ [(CPause, true)] ++ captures
                        ++ [(CResume, false)])%list
                     /\ ended_as CResume (fst (m st)) (world (snd (m st))))
                 \/ (calls (snd (m st))
                     = (calls st ++ before ++ [(CPause, true)] ++ captures
                        ++ [(CResume, true)])%list
                     /\ exists result, fst (m st) = Returned result))).

End Pipeline.

Arguments Backend : clear implicits.
Arguments CaptureResult : clear implicits.
Arguments RunState : clear implicits.

(** A small backend to run the pipeline on: the world is the paused flag,
    [pause] sets it, [resume] clears it, reads return two bytes and the
    screenshot is refused, as on the session-based backend. *)
#[export] Instance flag_backend : Backend unit bool := {|
  backend_type := "dosbox";
  loadSnapshot := fun _ w => (Returned tt, w);
  sendKeys := fun _ _ w => (Returned tt, w);
  setBreakpoint := fun _ w => (Returned "bp_1", w);
  removeBreakpoint := fun _ w => (Returned tt, w);
  pause := fun _ => (Returned tt, true);
  resume := fun _ => (Returned tt, false);
  readMemory := fun _ _ w => (Returned [x00; x01], w);
  screenshot := fun w =>
    (Thrown {| error_class := PlainError;
               message := "Screenshots require interactive DOSBox-X session (Ctrl+F5)" |}, w);
  readRegisters := fun w => (Returned tt, w);
  getGdb := None;
  waitForStop := fun _ w => (Returned EmptyString, w);
|}.

Definition flag_writeFileSync (path : string) (data : Buffer) (w : bool)
  : outcome unit * bool := (Returned tt, w).

Definition flag_stringify (regs : unit) : Buffer := [].

Definition sample_request : CaptureRequest :=
  {| prefix := "t1"; snapshot := None; breakpoint := None; keys := None;
     keyDelay := None; waitTime := None; memoryRanges := None;
     captureFramebuffer := Some false; captureRegisters := None;
     captureScreenshot := None; timeout := None |}.

End Capture.

(* ===================================================================== *)
(** ** The configuration file of the session-based backend
       ([DosboxConfig]: dosbox/config-generator.ts) *)
(* ===================================================================== *)

Module ConfigFile.
Import JS JsMap.

Definition LF : ascii := ascii_of_N 10.

(** [s.trimEnd()] *)
Fixpoint trimEnd (s : string) : string :=
  match s with
  | EmptyString => EmptyString
  | String c rest =>
      match trimEnd rest with
      | EmptyString => if is_whitespace c then EmptyString else String c EmptyString
      | r => String c r
      end
  end.

(** [s.trim()] *)
Definition trim (s : string) : string := trim_start (trimEnd s).

(** [s.endsWith(c)] for a one-character suffix *)
Fixpoint endsWith (s : string) (c : ascii) : bool :=
  match s with
  | EmptyString => false
  | String a EmptyString => Ascii.eqb a c
  | String _ rest => endsWith rest c
  end.

Fixpoint drop_last (s : string) : string :=
  match s with
  | EmptyString => EmptyString
  | String _ EmptyString => EmptyString
  | String a rest => String a (drop_last rest)
  end.

(** [s.slice(1, -1)] *)
Definition slice_inner (s : string) : string :=
  match s with
  | EmptyString => EmptyString
  | String _ rest => drop_last rest
  end.

Definition lower_char (c : ascii) : ascii :=
  let n := N_of_ascii c in
  if ((65 <=? n) && (n <=? 90) || (192 <=? n) && (n <=? 222) && negb (n =? 215))%N
  then ascii_of_N (n + 32) else c.

(** [s.toLowerCase()] *)
Fixpoint toLowerCase (s : string) : string :=
  match s with
  | EmptyString => EmptyString
  | String c rest => String (lower_char c) (toLowerCase rest)
  end.

(** [s.substring(0, s.indexOf(c))] and [s.substring(s.indexOf(c) + 1)] for
    a character that occurs in [s]. *)
Fixpoint before (s : string) (c : ascii) : string :=
  match s with
  | EmptyString => EmptyString
  | String a rest => if Ascii.eqb a c then EmptyString else String a (before rest c)
  end.

Fixpoint after (s : string) (c : ascii) : string :=
  match s with
  | EmptyString => EmptyString
  | String a rest => if Ascii.eqb a c then rest else after rest c
  end.

(** The fields of a [DosboxConfig]: the sections, each a map from key to
    value, and the lines of the autoexec section. *)
Record Config : Type := {
  sections : list (string * list (string * string));
  autoexecLines : list string;
}.

Definition empty : Config := {| sections := []; autoexecLines := [] |}.

(** [set(section, key, value)] *)
Definition set (section key value : string) (c : Config) : Config :=
  let sec := toLowerCase section in
  let secs :=
    match map_get sec (sections c) with
    | None => map_set sec [] (sections c)
    | Some _ => sections c
    end in
  {| sections :=
       match map_get sec secs with
       | Some entries => map_set sec (map_set key value entries) secs
       | None => secs
       end;
     autoexecLines := autoexecLines c |}.

(** [get(section, key)] *)
Definition get (section key : string) (c : Config) : option string :=
  match map_get (toLowerCase section) (sections c) with
  | Some entries => map_get key entries
  | None => None
  end.

(** [setAutoexec(lines)] *)
Definition setAutoexec (lines : list string) (c : Config) : Config :=
  {| sections := sections c; autoexecLines := lines |}.

(** [appendAutoexec(...lines)] *)
Definition appendAutoexec (lines : list string) (c : Config) : Config :=
  {| sections := sections c; autoexecLines := (autoexecLines c ++ lines)%list |}.

Definition entry_line (e : string * string) : string := fst e ++ "=" ++ snd e.

Definition section_lines (s : string * list (string * string)) : list string :=
  ("[" ++ fst s ++ "]")%string :: (map entry_line (snd s) ++ [EmptyString])%list.

(** The lines [write(path)] joins, and the text it writes. *)
Definition lines_of (c : Config) : list string :=
  (flat_map section_lines (sections c) ++ "[autoexec]" :: autoexecLines c)%list.

Definition write (c : Config) : string := join_lines (lines_of c).

(** The state of the loop of [load]: the configuration so far,
    [currentSection] and [inAutoexec]. *)
Record Loader : Type := {
  config : Config;
  currentSection : option string;
  inAutoexec : bool;
}.

Definition bracketed (stripped : string) : bool :=
  startsWith stripped "[" && endsWith stripped "]".

(** A string as a condition: [null] and the empty string are falsy. *)
Definition truthy (s : option string) : option string :=
  match s with
  | Some EmptyString => None
  | other => other
  end.

(** One turn of the loop of [load]. *)
Definition load_line (st : Loader) (rawLine : string) : Loader :=
  let line := trimEnd rawLine in
  let stripped := trim line in
  if bracketed stripped then
    let cur := toLowerCase (slice_inner stripped) in
    let auto := String.eqb cur "autoexec" in
    {| config :=
         if negb auto && negb (match map_get cur (sections (config st)) with
                               | Some _ => true
                               | None => false
                               end)
         then {| sections := map_set cur [] (sections (config st));
                 autoexecLines := autoexecLines (config st) |}
         else config st;
       currentSection := Some cur;
       inAutoexec := auto |}
  else if inAutoexec st then
    {| config := {| sections := sections (config st);
                    autoexecLines := (autoexecLines (config st) ++ [line])%list |};
       currentSection := currentSection st;
       inAutoexec := true |}
  else
    match truthy (currentSection st) with
    | Some cur =>
        if includes stripped "=" && negb (startsWith stripped "#") then
          let key := trim (before stripped "=") in
          let value := trim (after stripped "=") in
          {| config :=
               match map_get cur (sections (config st)) with
               | Some entries =>
                   {| sections := map_set cur (map_set key value entries)
                                    (sections (config st));
                      autoexecLines := autoexecLines (config st) |}
               | None => config st
               end;
             currentSection := currentSection st;
             inAutoexec := false |}
        else st
    | None => st
    end.

(** [new DosboxConfig(path)] on a file that holds [content] *)
Definition load (content : string) : Config :=
  config (fold_left load_line (split content LF)
            {| config := empty; currentSection := None; inAutoexec := false |}).

(** What a configuration must be like to be read back as it is. *)
Definition plain (s : string) : bool := negb (includes s LF).

Definition well_formed_name (name : string) : bool :=
  plain name && negb (String.eqb name EmptyString)
  && negb (String.eqb name "autoexec") && String.eqb (toLowerCase name) name.

Definition well_formed_entry (e : string * string) : bool :=
  plain (fst e) && plain (snd e) && negb (includes (fst e) "=")
  && String.eqb (trim (fst e)) (fst e) && String.eqb (trim (snd e)) (snd e)
  && negb (startsWith (fst e) "#") && negb (bracketed (entry_line e)).

Definition well_formed_line (l : string) : bool :=
  plain l && String.eqb (trimEnd l) l && negb (bracketed (trim l)).

Definition well_formed (c : Config) : Prop :=
  List.NoDup (map fst (sections c))
  /\ (forall s, In s (sections c) ->
        well_formed_name (fst s) = true
        /\ List.NoDup (map fst (snd s))
        /\ forallb well_formed_entry (snd s) = true)
  /\ forallb well_formed_line (autoexecLines c) = true.

(** The defaults of [loadDefaults()]. *)
Definition defaults : Config :=
  {| sections :=
       [("sdl", [("output", "surface"); ("windowresolution", "original");
                 ("autolock", "false")]);
        ("dosbox", [("memsize", "16"); ("machine", "svga_s3")]);
        ("cpu", [("cputype", "auto"); ("cycles", "max")]);
        ("sblaster", [("sbtype", "sb16"); ("sbbase", "220"); ("irq", "5");
                      ("dma", "1"); ("hdma", "5")])];
     autoexecLines := ["MOUNT C drive_c"; "C:"] |}.

End ConfigFile.

(* ===================================================================== *)
(** ** Looking up the emulator binary and the video output (util.ts) *)
(* ===================================================================== *)

Module Lookup.
Import JS.

(** What the look-up reads: the two environment variables and which paths
    exist. *)
Record Env : Type := {
  PATH : option string;
  DOSBOX_X_BIN : option string;
  existsSync : string -> bool;
}.

Definition DEFAULT_DOSBOX_PATH : string := "/opt/homebrew/bin/dosbox-x".

Definition DOSBOX_APP_CANDIDATES : list string :=
  ["/Applications/dosbox-x.app/Contents/MacOS/dosbox-x";
   "/Applications/DOSBox-X.app/Contents/MacOS/dosbox-x"].

(** The loop of [which] over the directories. *)
Fixpoint which_in (env : Env) (command : string) (paths : list string)
  : option string :=
  match paths with
  | [] => None
  | dir :: rest =>
      let fullPath := dir ++ "/" ++ command in
      if existsSync env fullPath then Some fullPath else which_in env command rest
  end.

(** [which(command)] *)
Definition which (env : Env) (command : string) : option string :=
  which_in env command
    (split (match PATH env with Some p => p | None => EmptyString end) ":").

(** The loop of [resolveDosboxBinary] over the candidates; an absent or
    empty candidate is skipped. *)
Fixpoint first_existing (env : Env) (candidates : list (option string))
  : option string :=
  match candidates with
  | [] => None
  | Some (String c s) :: rest =>
      if existsSync env (String c s) then Some (String c s)
      else first_existing env rest
  | _ :: rest => first_existing env rest
  end.

Definition candidates (env : Env) (preferredPath : option string)
  : list (option string) :=
  ([preferredPath; DOSBOX_X_BIN env] ++ map Some DOSBOX_APP_CANDIDATES
   ++ [which env "dosbox-x"; which env "dosbox"; Some DEFAULT_DOSBOX_PATH])%list.

(** [resolveDosboxBinary(preferredPath)] *)
Definition resolveDosboxBinary (env : Env) (preferredPath : option string)
  : option string :=
  first_existing env (candidates env preferredPath).

(** [resolveDosboxOutput(preferredOutput)]; [DOSBOX_X_OUTPUT] is the
    environment variable of that name. *)
Definition resolveDosboxOutput (DOSBOX_X_OUTPUT preferredOutput : option string)
  : string :=
  let chosen :=
    match preferredOutput with
    | Some p => p
    | None => match DOSBOX_X_OUTPUT with
              | Some e => e
              | None => "surface"
              end
    end in
  let output := ConfigFile.toLowerCase (ConfigFile.trim chosen) in
  if (0 <? String.length output)%nat then output else "surface".

(** A machine with the emulator in [/usr/local/bin] only. *)
Definition sample_env : Env :=
  {| PATH := Some "/usr/bin:/usr/local/bin";
     DOSBOX_X_BIN := Some EmptyString;
     existsSync := fun p => String.eqb p "/usr/local/bin/dosbox-x" |}.

End Lookup.

(* ===================================================================== *)
(** ** The session-based backend ([DosboxBackend], [DosboxSession]) *)
(* ===================================================================== *)

Module Dosbox.
Import JS Errors Address Sha256 JsMap.

(** The files on disk. *)
Abbreviation Files := (gmap string Buffer).

(** One spawn of the emulator, as [DosboxSession.launch] makes it. *)
Record Spawn : Type := {
  s_bin : string;
  s_args : list string;
  s_cwd : string;
  s_env : option (string * string);
  s_timeout : Z;
}.

(** Everything outside the backend object: the disk and the emulator
    processes spawned so far. *)
Record World : Type := {
  files : Files;
  spawned : list Spawn;
}.

(** The fields of the backend object that the operations read. *)
Record DosboxBackend : Type := {
  capturesDir : string;
  confDir : string;
  driveCPath : string;
  dosboxBin : option string;
  dosboxOutput : string;
  workingDir : string;
}.

Definition plain_error (m : string) : JsError :=
  {| error_class := PlainError; message := m |}.

(** The operations the backend does not serve. *)

Definition writeMemory (a : DosAddress) (data : Buffer) (w : World)
  : outcome unit * World :=
  (Thrown (plain_error "DOSBox-X does not support live memory writes from host"), w).

Definition screenshot (w : World) : outcome (Buffer * string) * World :=
  (Thrown (plain_error "Screenshots require interactive DOSBox-X session (Ctrl+F5)"), w).

Definition setBreakpoint (t : Qemu.BreakpointType) (a : DosAddress) (w : World)
  : outcome Qemu.Breakpoint * World :=
  (Thrown (plain_error "Breakpoints in DOSBox-X are set via debug scripts, not live"), w).

(** No-op for DOSBox-X *)
Definition removeBreakpoint (i : string) (w : World) : outcome unit * World :=
  (Returned tt, w).

Definition listBreakpoints (w : World) : outcome (list Qemu.Breakpoint) * World :=
  (Returned [], w).

(** DOSBox-X session model doesn't support live pause from host *)
Definition pause (w : World) : outcome unit * World := (Returned tt, w).

(** DOSBox-X session model doesn't support live resume from host *)
Definition resume (w : World) : outcome unit * World := (Returned tt, w).

Definition step (w : World) : outcome unit * World :=
  (Thrown (plain_error "Stepping in DOSBox-X requires a debug session"), w).

Definition saveSnapshot (name : string) (w : World) : outcome unit * World :=
  (Thrown (plain_error "Save states in DOSBox-X are created interactively"), w).

Definition loadSnapshot (name : string) (w : World) : outcome unit * World :=
  (Thrown (plain_error "Save states in DOSBox-X are loaded interactively"), w).

(** [DebugScript]: the commands, and [write(path)]. *)
Definition hex16 (n : number) : string :=
  padStart (toUpperCase (toString16 n)) 4 "0".

Definition cmd_breakpoint (seg off : number) : string :=
  "BP " ++ hex16 seg ++ ":" ++ hex16 off.

Definition cmd_continueExec : string := "C".

Definition cmd_showRegisters : string := "SR".

Definition cmd_memdumpBin (seg off : number) (len : Z) (filepath : string) : string :=
  "MEMDUMPBIN " ++ hex16 seg ++ ":" ++ hex16 off ++ " "
    ++ toUpperCase (toString16 (Num len)) ++ " " ++ filepath.

Definition write_file (path : string) (data : Buffer) (w : World) : World :=
  {| files := <[path := data]> (files w); spawned := spawned w |}.

Definition rmSync (path : string) (w : World) : World :=
  {| files := delete path (files w); spawned := spawned w |}.

Definition script_write (commands : list string) (path : string) (w : World) : World :=
  write_file path (list_byte_of_string (join_lines commands ++ newline)) w.

(** [DosboxConfig.write(path)], as far as the disk goes. *)
Definition conf_write (conf : ConfigFile.Config) (path : string) (w : World) : World :=
  write_file path (list_byte_of_string (ConfigFile.write conf)) w.

Definition join (dir name : string) : string := dir ++ "/" ++ name.

Section Served.

(** The partial register file that the debug-log parser produces. *)
Context {Registers : Type}.

(** What the operations take from their surroundings: the environment
    variables [PATH], [DOSBOX_X_BIN], [DOSBOX_X_OUTPUT] and
    [SDL_RENDER_DRIVER]; what a run of the emulator does to the disk; the
    empty register file and the registers that the debug-log parser finds
    in the text of a log (the parser works by regular expressions and is
    taken as given); and [JSON.stringify]. *)
Context (PATH DOSBOX_X_BIN DOSBOX_X_OUTPUT SDL_RENDER_DRIVER : option string).
Context (emulator : Spawn -> Files -> Files).
Context (no_registers : Registers).
Context (registers_in_log : Buffer -> Registers).
Context (stringify : Registers -> Buffer).

(** What [resolveDosboxBinary] reads: the environment, and the disk for
    [existsSync]. *)
Definition lookup_env (w : World) : Lookup.Env :=
  {| Lookup.PATH := PATH;
     Lookup.DOSBOX_X_BIN := DOSBOX_X_BIN;
     Lookup.existsSync := fun p => bool_decide (is_Some (files w !! p)) |}.

(** [applyVideoSettings(conf, preferredOutput)] *)
Definition applyVideoSettings (b : DosboxBackend) (conf : ConfigFile.Config)
  (preferredOutput : option string) : ConfigFile.Config * string :=
  let output :=
    Lookup.resolveDosboxOutput DOSBOX_X_OUTPUT
      (Some (match preferredOutput with
             | Some p => p
             | None => dosboxOutput b
             end)) in
  let conf1 := ConfigFile.set "sdl" "output" output conf in
  (if String.eqb output "surface"
   then ConfigFile.set "sdl" "windowresolution" "original" conf1
   else conf1, output).

(** [resolveDosboxEnv(output)] *)
Definition resolveDosboxEnv (output : string) : option (string * string) :=
  if negb (String.eqb output "surface") then None
  else match ConfigFile.truthy SDL_RENDER_DRIVER with
       | Some _ => None
       | None => Some ("SDL_RENDER_DRIVER", "software")
       end.

(** [parseLastRegisters(logPath)]: nothing when the log is not there. *)
Definition parseLastRegisters (logPath : string) (w : World) : Registers :=
  match files w !! logPath with
  | None => no_registers
  | Some text => registers_in_log text
  end.

(** [new DosboxSession(confPath, workingDir).launch(options)], awaited:
    it throws when no binary is found, and otherwise resolves when the
    emulator has exited. *)
Definition session_launch (confPath cwd : string) (extraArgs : list string)
  (timeout : Z) (bin : option string) (env : option (string * string)) (w : World)
  : outcome unit * World :=
  match Lookup.resolveDosboxBinary (lookup_env w) bin with
  | None =>
      (Thrown (plain_error
         "DOSBox-X binary not found. Set DOSBOX_X_BIN or install dosbox-x in PATH."), w)
  | Some path =>
      let job := {| s_bin := path; s_args := "-conf" :: confPath :: extraArgs;
                    s_cwd := cwd; s_env := env; s_timeout := timeout |} in
      (Returned tt, {| files := emulator job (files w); spawned := spawned w ++ [job] |})
  end.

Definition dquote : string := String (ascii_of_N 34) EmptyString.

Definition mount_lines (b : DosboxBackend) : list string :=
  ["MOUNT C " ++ dquote ++ driveCPath b ++ dquote; "C:"].

Fixpoint join_spaces (words : list string) : string :=
  match words with
  | [] => EmptyString
  | [x] => x
  | x :: rest => x ++ " " ++ join_spaces rest
  end.

(** [n.toFixed(1)] for a whole number of seconds. *)
Definition toFixed1 (n : Z) : string :=
  (if n <? 0 then "-" else EmptyString) ++ Qemu.decimal (Z.to_nat (Z.abs n)) ++ ".0".

Definition autotype_line (wait : Z) (keys : list string) : string :=
  "AUTOTYPE -w " ++ toFixed1 wait ++ " -p 0.15 " ++ join_spaces keys.

(** [readMemory(address, size)]; [now] is the reading of [Date.now()]. *)
Definition readMemory (b : DosboxBackend) (a : DosAddress) (size : Z) (now : nat)
  (w : World) : outcome Buffer * World :=
  let outPath := join (capturesDir b) ("_mem_" ++ Qemu.decimal now ++ ".bin") in
  let logPath := join (capturesDir b) "_mem_read.log" in
  let w1 := rmSync logPath w in
  let dbgPath := join (capturesDir b) "_mem_read.cmd" in
  let w2 :=
    script_write
      [cmd_continueExec;
       cmd_memdumpBin (segment (segOff a)) (offset (segOff a)) size outPath]
      dbgPath w1 in
  let '(conf, output) := applyVideoSettings b ConfigFile.defaults None in
  let conf := ConfigFile.set "log" "logfile" logPath conf in
  let conf := ConfigFile.set "debugger" "debugrunfile" dbgPath conf in
  let conf := ConfigFile.setAutoexec (mount_lines b) conf in
  let confPath := join (confDir b) "_mem_read.conf" in
  let w3 := conf_write conf confPath w2 in
  match session_launch confPath (workingDir b) ["-startdebugger"] 30 (dosboxBin b)
          (resolveDosboxEnv output) w3 with
  | (Returned _, w4) =>
      match files w4 !! outPath with
      | Some data => (Returned data, w4)
      | None => (Thrown (plain_error ("Memory dump failed. Check " ++ logPath)), w4)
      end
  | (Thrown e, w4) => (Thrown e, w4)
  | (_, w4) => (Unsettled, w4)
  end.

(** [readRegisters()] *)
Definition readRegisters (b : DosboxBackend) (w : World) : outcome Registers * World :=
  let logPath := join (capturesDir b) "_regs.log" in
  let w1 := rmSync logPath w in
  let dbgPath := join (capturesDir b) "_regs.cmd" in
  let w2 := script_write [cmd_continueExec; cmd_showRegisters] dbgPath w1 in
  let '(conf, output) := applyVideoSettings b ConfigFile.defaults None in
  let conf := ConfigFile.set "log" "logfile" logPath conf in
  let conf := ConfigFile.set "debugger" "debugrunfile" dbgPath conf in
  let conf := ConfigFile.setAutoexec (mount_lines b) conf in
  let confPath := join (confDir b) "_regs.conf" in
  let w3 := conf_write conf confPath w2 in
  match session_launch confPath (workingDir b) ["-startdebugger"] 30 (dosboxBin b)
          (resolveDosboxEnv output) w3 with
  | (Returned _, w4) => (Returned (parseLastRegisters logPath w4), w4)
  | (Thrown e, w4) => (Thrown e, w4)
  | (_, w4) => (Unsettled, w4)
  end.

(** [sendKeys(keys, delay = 3.0)] *)
Definition sendKeys (b : DosboxBackend) (keys : list string) (delay : option Z)
  (w : World) : outcome unit * World :=
  let '(conf, output) := applyVideoSettings b ConfigFile.defaults None in
  let autoexec :=
    (mount_lines b
     ++ [autotype_line (match delay with Some d => d | None => 3 end) keys])%list in
  let conf := ConfigFile.setAutoexec autoexec conf in
  let confPath := join (confDir b) "_keys.conf" in
  let w1 := conf_write conf confPath w in
  session_launch confPath (workingDir b) [] 30 (dosboxBin b) (resolveDosboxEnv output) w1.

(** Modelled from the spec: [MODE_13H_SEG], [MODE_13H_OFF] and
    [MODE_13H_SIZE] of capture/framebuffer.ts, which is not part of the
    tree: the 64,000 bytes at A000:0000. *)
Definition MODE_13H_SEG : number := Num 40960.
Definition MODE_13H_OFF : number := Num 0.
Definition MODE_13H_SIZE : Z := 64000.

(** [capture(request)]; [now] is the reading of [Date.now()]. *)
Definition capture (b : DosboxBackend) (request : Capture.CaptureRequest)
  (now : Z) (w : World)
  : outcome (Capture.CaptureResult Registers) * World :=
  let prefix := Capture.prefix request in
  let fbPath := join (capturesDir b) (prefix ++ "_framebuffer.bin") in
  let logPath := join (capturesDir b) (prefix ++ "_debug.log") in
  let w1 := rmSync logPath w in
  let commands :=
    (match Capture.breakpoint request with
     | Some bp => [cmd_breakpoint (segment (segOff bp)) (offset (segOff bp))]
     | None => []
     end
     ++ [cmd_continueExec]
     ++ (if Capture.not_false (Capture.captureFramebuffer request)
         then [cmd_memdumpBin MODE_13H_SEG MODE_13H_OFF MODE_13H_SIZE fbPath]
         else [])
     ++ [cmd_showRegisters])%list in
  let dbgPath := join (capturesDir b) (prefix ++ "_debug.cmd") in
  let w2 := script_write commands dbgPath w1 in
  let '(conf, output) := applyVideoSettings b ConfigFile.defaults None in
  let conf := ConfigFile.set "log" "logfile" logPath conf in
  let conf := ConfigFile.set "debugger" "debugrunfile" dbgPath conf in
  let autoexec :=
    (mount_lines b
     ++ match Capture.keys request with
        | Some (k :: ks) =>
            [autotype_line (match Capture.waitTime request with
                            | Some s => s
                            | None => 3
                            end) (k :: ks)]
        | _ => []
        end
     ++ ["CD \GAME"])%list in
  let conf := ConfigFile.setAutoexec autoexec conf in
  let confPath := join (confDir b) ("_" ++ prefix ++ "_session.conf") in
  let w3 := conf_write conf confPath w2 in
  match session_launch confPath (workingDir b) ["-startdebugger"]
          (Capture.or_default (Capture.timeout request) 45) (dosboxBin b)
          (resolveDosboxEnv output) w3 with
  | (Returned _, w4) =>
      let fb := files w4 !! fbPath in
      let regs :=
        if Capture.not_false (Capture.captureRegisters request)
        then Some (parseLastRegisters logPath w4) else None in
      let w5 :=
        match regs with
        | Some r =>
            write_file (join (capturesDir b) (prefix ++ "_registers.json")) (stringify r) w4
        | None => w4
        end in
      (Returned
         {| Capture.r_prefix := prefix;
            Capture.framebuffer := fb;
            Capture.r_screenshot := None;
            Capture.screenshotFormat := "bmp";
            Capture.registers := regs;
            Capture.memoryDumps := [];
            Capture.checksums :=
              match fb with
              | Some data => [("framebuffer", sha256 data)]
              | None => []
              end;
            Capture.timestamp := now |}, w5)
  | (Thrown e, w4) => (Thrown e, w4)
  | (_, w4) => (Unsettled, w4)
  end.

End Served.

(** A backend object and surroundings to run the served operations on:
    the emulator is installed in [/usr/bin], and a session leaves a
    two-byte dump behind. *)
Definition sample_backend : DosboxBackend :=
  {| capturesDir := "captures"; confDir := "conf"; driveCPath := "drive_c";
     dosboxBin := Some "/usr/bin/dosbox-x"; dosboxOutput := "surface";
     workingDir := "." |}.

Definition sample_disk : World :=
  {| files := {["/usr/bin/dosbox-x" := [x7f; x45]]}; spawned := [] |}.

Definition sample_emulator (job : Spawn) (f : Files) : Files :=
  <["captures/_mem_7.bin" := [x4d; x5a]]> f.

End Dosbox.

(* ===================================================================== *)
(** ** Further vocabulary for address literals *)
(* ===================================================================== *)

Module Literal.
Import JS.

(** The characters [parseInt] accepts as digits of the given radix. *)
Definition is_digit (radix : Z) (c : ascii) : bool :=
  match radix_digit radix c with
  | Some _ => true
  | None => false
  end.

Fixpoint all_digits (radix : Z) (s : string) : bool :=
  match s with
  | EmptyString => true
  | String c rest => is_digit radix c && all_digits radix rest
  end.

(** The number a run of digits denotes, most significant first. *)
Fixpoint digits_value (radix : Z) (s : string) (acc : Z) : Z :=
  match s with
  | EmptyString => acc
  | String c rest => digits_value radix rest (acc * radix + HexText.digit_or_zero c)
  end.

(** A number read as an integer, [NaN] counting as 0 (what [x & m] sees). *)
Definition value_or_zero (n : number) : Z :=
  match n with
  | NaN => 0
  | Num z => z
  end.

(** The decimal numeral of a natural number, as [String(n)] prints it. *)
Definition decimal (n : nat) : string :=
  DecimalString.NilZero.string_of_uint (Nat.to_uint n).

(** [Number.MAX_SAFE_INTEGER]: up to here every integer is a double, so
    [parseInt], [n.toString(16)] and [String(n)] are exact. *)
Definition MAX_SAFE_INTEGER : Z := 2 ^ 53 - 1.

End Literal.

(* ===================================================================== *)
(** ** The remote-debug client: memory writes, registers, packet framing *)
(* ===================================================================== *)

Module GdbCodec.
Import JS Errors Gdb.

(** [data.toString('hex')]: two lower-case digits for every byte. *)
Definition hex_of_byte (b : byte) : string :=
  let n := Z.of_N (Byte.to_N b) in
  String (hex_char (n / 16)) (String (hex_char (n mod 16)) EmptyString).

Fixpoint buffer_to_hex (data : Buffer) : string :=
  match data with
  | [] => EmptyString
  | b :: rest => hex_of_byte b ++ buffer_to_hex rest
  end.

Definition write_header (addr : number) (data : Buffer) : string :=
  toString16 addr ++ "," ++ toString16 (Num (Z.of_nat (length data))).

Definition write_error (resp : string) : JsError :=
  {| error_class := ProtocolError;
     message := "GDB memory write error: " ++ resp |}.

(** [writeMemory(addr, data)] *)
Definition writeMemory (addr : number) (data : Buffer) (c : GdbClient)
  : outcome unit * GdbClient :=
  match command ("M" ++ write_header addr data ++ ":" ++ buffer_to_hex data) c with
  | (Returned resp, c') =>
      if String.eqb resp "OK" then (Returned tt, c')
      else (Thrown (write_error resp), c')
  | (Thrown e, c') => (Thrown e, c')
  | (Unsettled, c') => (Unsettled, c')
  | (OutOfFuel, c') => (OutOfFuel, c')
  end.

(** The [Registers] of types.ts. *)
Record Registers : Type := {
  eax : number; ecx : number; edx : number; ebx : number;
  esp : number; ebp : number; esi : number; edi : number;
  eip : number; eflags : number;
  cs : number; ss : number; ds : number; es : number; fs : number; gs : number;
}.

Definition byte_value (b : byte) : Z := Z.of_N (Byte.to_N b).

(** [raw.readUInt32LE(offset)]; [None] is the [RangeError] Node throws
    when fewer than four bytes lie at [offset]. *)
Definition readUInt32LE (raw : Buffer) (offset : nat) : option Z :=
  match skipn offset raw with
  | b0 :: b1 :: b2 :: b3 :: _ =>
      Some (byte_value b0 + 256 * byte_value b1
            + 65536 * byte_value b2 + 16777216 * byte_value b3)
  | _ => None
  end.

(** How [readRegisters] ends: as an awaited call does, or with the
    [RangeError] of [readUInt32LE]. *)
Inductive RegistersOutcome : Type :=
| Settled (o : outcome Registers)
| RangeError.

Definition reg32 (raw : Buffer) (i : nat) : option number :=
  v ← readUInt32LE raw (i * 4); Some (Num v).

Definition reg16 (raw : Buffer) (i : nat) : option number :=
  v ← readUInt32LE raw ((10 + i) * 4); Some (band (Num v) (Num 65535)).

(** The two loops over [REG_NAMES_32] and [REG_NAMES_16], in the order
    they read. *)
Definition decode_registers (raw : Buffer) : option Registers :=
  r0 ← reg32 raw 0; r1 ← reg32 raw 1; r2 ← reg32 raw 2; r3 ← reg32 raw 3;
  r4 ← reg32 raw 4; r5 ← reg32 raw 5; r6 ← reg32 raw 6; r7 ← reg32 raw 7;
  r8 ← reg32 raw 8; r9 ← reg32 raw 9;
  s0 ← reg16 raw 0; s1 ← reg16 raw 1; s2 ← reg16 raw 2;
  s3 ← reg16 raw 3; s4 ← reg16 raw 4; s5 ← reg16 raw 5;
  Some {| eax := r0; ecx := r1; edx := r2; ebx := r3; esp := r4; ebp := r5;
          esi := r6; edi := r7; eip := r8; eflags := r9;
          cs := s0; ss := s1; ds := s2; es := s3; fs := s4; gs := s5 |}.

Definition registers_error (resp : string) : JsError :=
  {| error_class := ProtocolError;
     message := "GDB register read error: " ++ resp |}.

(** [readRegisters()] *)
Definition readRegisters (c : GdbClient) : RegistersOutcome * GdbClient :=
  match command "g" c with
  | (Returned resp, c') =>
      if startsWith resp "E" then (Settled (Thrown (registers_error resp)), c')
      else match decode_registers (buffer_from_hex resp) with
           | Some regs => (Settled (Returned regs), c')
           | None => (RangeError, c')
           end
  | (Thrown e, c') => (Settled (Thrown e), c')
  | (Unsettled, c') => (Settled Unsettled, c')
  | (OutOfFuel, c') => (Settled OutOfFuel, c')
  end.

(** The registers in the order of the reply: the ten of [REG_NAMES_32],
    then the six of [REG_NAMES_16]. *)
Definition register (i : nat) (r : Registers) : number :=
  nth i [eax r; ecx r; edx r; ebx r; esp r; ebp r; esi r; edi r; eip r; eflags r;
         cs r; ss r; ds r; es r; fs r; gs r] NaN.

(** The [i]-th little-endian 32-bit word of a buffer. *)
Definition word (raw : Buffer) (i : nat) : Z :=
  byte_value (nth (4 * i) raw x00) + 256 * byte_value (nth (4 * i + 1) raw x00)
  + 65536 * byte_value (nth (4 * i + 2) raw x00)
  + 16777216 * byte_value (nth (4 * i + 3) raw x00).

(** A client whose stub answers the next request with [reply]. *)
Definition answering (reply : string) : GdbClient :=
  {| connected := true; sent := []; replies := [reply] |}.

(** A register dump as the stub sends it: 16 words of eight hex digits. *)
Definition sample_dump : string :=
  "78563412010000000200000003000000fcff0000000000000000000000000000"
  ++ "007c0000020200003412ffff000000004000000000b800000000000000000000".

End GdbCodec.

Module GdbWire.
Import JS Errors.

(** [Buffer.from(data)]: the UTF-8 bytes of a string, for the code units
    below 256 that a [string] here holds. *)
Definition utf8 (c : ascii) : list Z :=
  let n := Z.of_N (N_of_ascii c) in
  if n <? 128 then [n] else [192 + n / 64; 128 + n mod 64].

Fixpoint utf8_bytes (s : string) : list Z :=
  match s with
  | EmptyString => []
  | String c rest => (utf8 c ++ utf8_bytes rest)%list
  end.

Definition checksum (data : string) : Z :=
  fold_left Z.add (utf8_bytes data) 0 mod 256.

(** The text [sendPacket(data)] writes. *)
Definition packet (data : string) : string :=
  "$" ++ data ++ "#" ++ padStart (toString16 (Num (checksum data))) 2 "0".

(** [socket.write(text)]: the bytes that go on the wire. *)
Definition wire (text : string) : Buffer :=
  map Gdb.byte_of_Z (utf8_bytes text).

(** [buffer.toString('ascii')]: one character for every byte, its high bit
    cleared. *)
Definition ascii_char (b : byte) : ascii :=
  ascii_of_N (N.land (Byte.to_N b) 127).

Definition toString_ascii (buffer : Buffer) : list ascii :=
  map ascii_char buffer.

Fixpoint index_of (c : ascii) (str : list ascii) : option nat :=
  match str with
  | [] => None
  | a :: rest =>
      if Ascii.eqb a c then Some 0%nat
      else i ← index_of c rest; Some (S i)
  end.

(** [str.indexOf(c, from)] *)
Definition indexOf (str : list ascii) (c : ascii) (from : nat) : option nat :=
  i ← index_of c (skipn from str); Some (from + i)%nat.

(** [str.substring(a, b)] for [a <= b] *)
Definition substring (str : list ascii) (a b : nat) : string :=
  string_of_list_ascii (firstn (b - a) (skipn a str)).

(** One run of [tryParse] in [recvPacket]: the payload and the buffer that
    is left, or [None] when it goes back to waiting for data. *)
Definition tryParse (buffer : Buffer) : option (string * Buffer) :=
  let str := toString_ascii buffer in
  match indexOf str "$" 0 with
  | None => None
  | Some dollarIdx =>
      match indexOf str "#" dollarIdx with
      | None => None
      | Some hashIdx =>
          if (length str <=? hashIdx + 2)%nat then None
          else Some (substring str (dollarIdx + 1) hashIdx,
                     skipn (hashIdx + 3) buffer)
      end
  end.

(** [recvPacket()]: [tryParse] runs on what is buffered and again after
    every chunk the socket delivers; with nothing more to come the timer
    rejects.  The result comes with the buffer left and the chunks not yet
    delivered. *)
Fixpoint recvPacket (incoming : list Buffer) (buffer : Buffer)
  : outcome string * Buffer * list Buffer :=
  match tryParse buffer with
  | Some (payload, remaining) => (Returned payload, remaining, incoming)
  | None =>
      match incoming with
      | [] => (Thrown {| error_class := TimeoutError;
                         message := "GDB recv timeout" |}, buffer, [])
      | chunk :: later => recvPacket later (buffer ++ chunk)%list
      end
  end.

(** The bytes of a text of 7-bit characters. *)
Definition bytes_of (text : string) : Buffer :=
  map byte_of_ascii (list_ascii_of_string text).

Definition seven_bit (text : string) : bool :=
  forallb (fun c => (N_of_ascii c <? 128)%N) (list_ascii_of_string text).

Definition free_of (c : ascii) (buffer : Buffer) : bool :=
  forallb (fun b => negb (Ascii.eqb (ascii_char b) c)) buffer.

End GdbWire.

(* ===================================================================== *)
(** ** The machine-control client: key injection; the backend: sequences
       of breakpoint operations, connecting with retries *)
(* ===================================================================== *)

Module QmpKeys.
Import JS Errors Qemu.

(** [sendKey(key, holdMs)].  The arguments object
    [{ keys: [{ type: 'qcode', data: key }], 'hold-time': holdMs }] is
    written down as the qcode and the hold time. *)
Definition key_arguments (key : string) (holdMs : nat) : list (string * string) :=
  [("keys", key); ("hold-time", decimal holdMs)].

Definition sendKey (key : string) (holdMs : nat) (c : QmpClient)
  : outcome string * QmpClient * list Action :=
  execute "send-key" (key_arguments key holdMs) c.

(** [sendKeysSequence(keys, delayMs)]; the sleep after every key acts on
    nothing that is modelled. *)
Fixpoint sendKeysSequence (keys : list string) (c : QmpClient)
  : outcome unit * QmpClient * list Action :=
  match keys with
  | [] => (Returned tt, c, [])
  | key :: rest =>
      let '(o, c1, a1) := sendKey key 100 c in
      match o with
      | Returned _ =>
          let '(o2, c2, a2) := sendKeysSequence rest c1 in
          (o2, c2, (a1 ++ a2)%list)
      | Thrown e => (Thrown e, c1, a1)
      | Unsettled => (Unsettled, c1, a1)
      | OutOfFuel => (OutOfFuel, c1, a1)
      end
  end.

(** The requests among the actions, in order. *)
Definition requests (acts : list Action) : list (string * list (string * string)) :=
  flat_map (fun a => match a with
                     | QmpSend command arguments => [(command, arguments)]
                     | _ => []
                     end) acts.

Definition key_request (key : string) : string * list (string * string) :=
  ("send-key", key_arguments key 100).

Definition qmp_error (cls desc : string) : JsError :=
  {| error_class := ProtocolError;
     message := "QMP error (" ++ cls ++ "): " ++ desc |}.

(** The result a reply stands for. *)
Definition reply_outcome (m : QmpMessage) : outcome string :=
  match m with
  | QmpReturn v => Returned v
  | QmpError cls desc => Thrown (qmp_error cls desc)
  | QmpEvent _ => Unsettled
  end.

Definition is_event (m : QmpMessage) : bool :=
  match m with
  | QmpEvent _ => true
  | _ => false
  end.

End QmpKeys.

Module QemuOps.
Import JS Errors Address Qemu.

(** The operations on a backend that touch the breakpoint table. *)
Inductive Op : Type :=
| OpSet (t : BreakpointType) (a : DosAddress)
| OpRemove (i : string)
| OpLoad (name : string) (t0 t1 : Z).

(** One operation, run to its end inside [runExclusive]; with it the ids
    that [setBreakpoint] handed out. *)
Definition apply_op (op : Op) (b : QemuBackend) : list string * QemuBackend :=
  match op with
  | OpSet t a =>
      match setBreakpoint t a b with
      | (Returned bp, b') => ([id bp], b')
      | (_, b') => ([], b')
      end
  | OpRemove i => ([], snd (removeBreakpoint i b))
  | OpLoad name t0 t1 => ([], snd (loadSnapshot name t0 t1 b))
  end.

Fixpoint run_ops (ops : list Op) (b : QemuBackend) : list string * QemuBackend :=
  match ops with
  | [] => ([], b)
  | op :: rest =>
      let '(ids, b1) := apply_op op b in
      let '(ids', b2) := run_ops rest b1 in
      ((ids ++ ids')%list, b2)
  end.

Definition bp_id (k : nat) : string := "bp_" ++ decimal k.

Definition table_ids (b : QemuBackend) : list string := map fst (breakpoints b).

(** The table holds ids handed out before, each once. *)
Definition table_ok (b : QemuBackend) : Prop :=
  (forall i, In i (table_ids b) -> exists k, (k < nextBpId b)%nat /\ i = bp_id k)
  /\ List.NoDup (table_ids b).

End QemuOps.

Module QemuConnect.
Import JS Errors Qemu.

Definition maxAttempts : nat := 20.
Definition delayMs : Z := 500.

Definition failure (label : string) (e : JsError) : JsError :=
  plain_error ("Failed to connect " ++ label ++ " after " ++ decimal maxAttempts
               ++ " attempts: " ++ message e).

(** The loop of [connectWithRetry], entered with [attempt]; [factory k] is
    how the [k]-th call of the factory ends.  The result comes with the
    number of calls made and the time slept. *)
Fixpoint retry {T : Type} (fuel attempt : nat) (factory : nat -> outcome T)
  (label : string) (slept : Z) : outcome T * nat * Z :=
  match fuel with
  | O => (OutOfFuel, (attempt - 1)%nat, slept)
  | S f =>
      if (attempt <=? maxAttempts)%nat then
        match factory attempt with
        | Returned v => (Returned v, attempt, slept)
        | Thrown e =>
            if (attempt =? maxAttempts)%nat
            then (Thrown (failure label e), attempt, slept)
            else retry f (attempt + 1)%nat factory label (slept + delayMs)
        | Unsettled => (Unsettled, attempt, slept)
        | OutOfFuel => (OutOfFuel, attempt, slept)
        end
      else (Thrown (plain_error "Unreachable"), (attempt - 1)%nat, slept)
  end.

(** [connectWithRetry(factory, label)] *)
Definition connectWithRetry {T : Type} (factory : nat -> outcome T) (label : string)
  : outcome T * nat * Z :=
  retry (S maxAttempts) 1 factory label 0.

(** A factory that fails [n] times and then connects. *)
Definition failing_first (n : nat) (k : nat) : outcome nat :=
  if (k <=? n)%nat
  then Thrown {| error_class := ConnectionError; message := "GDB connection error: ECONNREFUSED" |}
  else Returned k.

End QemuConnect.

(* ===================================================================== *)
(** ** The capture pipeline: what a result holds *)
(* ===================================================================== *)

Module CaptureChecks.
Import JS Errors Address Sha256 JsMap Capture.

(** The file names of the memory ranges of a request. *)
Definition range_names (request : CaptureRequest) : list string :=
  match memoryRanges request with
  | Some ranges => map range_filename ranges
  | None => []
  end.

(** A request that captures one memory range and nothing else. *)
Definition ranges_request : CaptureRequest :=
  {| prefix := "t2"; snapshot := None; breakpoint := None; keys := None;
     keyDelay := None; waitTime := None;
     memoryRanges := Some [{| range_address := parseAddress "0x400";
                              range_size := 2; range_filename := "bda.bin" |}];
     captureFramebuffer := None; captureRegisters := None;
     captureScreenshot := Some false; timeout := None |}.

Definition is_pause (c : Call) : bool :=
  match c with
  | CPause => true
  | _ => false
  end.

Definition is_wait (c : Call) : bool :=
  match c with
  | CWaitForStop _ => true
  | _ => false
  end.

Definition is_remove (c : Call) : bool :=
  match c with
  | CRemoveBreakpoint _ => true
  | _ => false
  end.

Section Shapes.

Context {World : Type}.

(** [m] adds calls that satisfy [P], and makes no call after one that did
    not return: such a call is the last one, every call before it
    returned, and [m] does not return. *)
Definition fail_stop (P : Call -> bool) {A : Type} (m : @M World A) : Prop :=
  forall st, exists l,
    calls (snd (m st)) = (calls st ++ l)%list
    /\ Forall (fun e => P (fst e) = true) l
    /\ (forall c, In (c, false) l ->
          returned (fst (m st)) = false
          /\ exists pre, l = (pre ++ [(c, false)])%list /\ Forall succeeded pre).

(** Among the calls [m] adds, no removal of a breakpoint comes before a
    wait for the stop. *)
Definition waits_before_removes {A : Type} (m : @M World A) : Prop :=
  forall st, exists l1 l2,
    calls (snd (m st)) = (calls st ++ l1 ++ l2)%list
    /\ Forall (fun e => is_remove (fst e) = false) l1
    /\ Forall (fun e => is_wait (fst e) = false) l2.

End Shapes.

(** A socket-based backend whose stub never reports the stop: the world
    counts the breakpoints set and not removed. *)
Definition timeout_backend : Backend unit nat := {|
  backend_type := "qemu";
  loadSnapshot := fun _ w => (Returned tt, w);
  sendKeys := fun _ _ w => (Returned tt, w);
  setBreakpoint := fun _ w => (Returned "bp_1", S w);
  removeBreakpoint := fun _ w => (Returned tt, pred w);
  pause := fun w => (Returned tt, w);
  resume := fun w => (Returned tt, w);
  readMemory := fun _ _ w => (Returned [x00; x01], w);
  screenshot := fun w => (Returned ([x50], "ppm"), w);
  readRegisters := fun w => (Returned tt, w);
  getGdb := Some (fun _ => true);
  waitForStop := fun _ w =>
    (Thrown {| error_class := TimeoutError; message := "GDB recv timeout" |}, w);
|}.

Definition breakpoint_request : CaptureRequest :=
  {| prefix := "t3"; snapshot := None; breakpoint := Some (parseAddress "0x7c00");
     keys := None; keyDelay := None; waitTime := None; memoryRanges := None;
     captureFramebuffer := None; captureRegisters := None;
     captureScreenshot := None; timeout := Some 5 |}.

End CaptureChecks.

(* ===================================================================== *)
(** ** Memory watches: the table and the timers *)
(* ===================================================================== *)

Module WatchTable.
Import MemoryWatch.

(** The events in order, from a state. *)
Definition run (evs : list Event) (s : State) : State :=
  fold_left (fun s e => fst (step e s)) evs s.

(** A period as [Math.max(_, MIN_INTERVAL_MS)] gives it: at least
    [MIN_INTERVAL_MS] when it is a number at all. *)
Definition clamped (period : JS.number) : Prop :=
  match period with
  | JS.NaN => True
  | JS.Num ms => MIN_INTERVAL_MS <= ms
  end.

(** Every registered watch has a live timer that polls for its id and its
    range, with a clamped period; every live timer is the timer of the
    watch registered under the id it polls for. *)
Definition consistent (s : State) : Prop :=
  (forall i r, watches s !! i = Some r ->
     exists w c, heap s !! r = Some w /\ id w = i /\ clamped (intervalMs w)
                 /\ timers s !! timer w = Some c /\ c_id c = i
                 /\ c_address c = address w /\ c_size c = size w)
  /\ (forall t c, timers s !! t = Some c ->
        (t < nextTimer s)%nat
        /\ exists r w, watches s !! c_id c = Some r /\ heap s !! r = Some w
                       /\ timer w = t).

(** [h'] holds the objects of [h] in the same places, with only [lastHash]
    and [inFlight] possibly changed. *)
Definition same_watches (h h' : list Watch) : Prop :=
  forall r w, h !! r = Some w ->
    exists w', h' !! r = Some w' /\ id w' = id w /\ timer w' = timer w
               /\ intervalMs w' = intervalMs w /\ address w' = address w
               /\ size w' = size w.

End WatchTable.

(* ===================================================================== *)
(** ** Channel subscriptions (ws/channels.ts) *)
(* ===================================================================== *)

Module Channels.
Import JsMap.

(** A [Set<WebSocket>] in insertion order; sockets are numbered. *)
Definition set_add (ws : nat) (subscribers : list nat) : list nat :=
  if existsb (Nat.eqb ws) subscribers then subscribers
  else (subscribers ++ [ws])%list.

Definition set_delete (ws : nat) (subscribers : list nat) : list nat :=
  List.filter (fun x => negb (Nat.eqb ws x)) subscribers.

(** [subscriptions]: a [Map] from channel to its set. *)
Definition Subscriptions : Type := list (string * list nat).

(** [subscribe(ws, channel)] *)
Definition subscribe (ws : nat) (channel : string) (subs : Subscriptions)
  : Subscriptions :=
  let subs1 :=
    match map_get channel subs with
    | None => map_set channel [] subs
    | Some _ => subs
    end in
  match map_get channel subs1 with
  | Some subscribers => map_set channel (set_add ws subscribers) subs1
  | None => subs1
  end.

(** [unsubscribe(ws, channel)] *)
Definition unsubscribe (ws : nat) (channel : string) (subs : Subscriptions)
  : Subscriptions :=
  match map_get channel subs with
  | Some subscribers => map_set channel (set_delete ws subscribers) subs
  | None => subs
  end.

(** [removeClient(ws)] *)
Definition removeClient (ws : nat) (subs : Subscriptions) : Subscriptions :=
  map (fun entry => (fst entry, set_delete ws (snd entry))) subs.

(** What is handed to [ws.send]. *)
Inductive Sent : Type :=
| SendText (json : string)
| SendBinary (data : Buffer).

(** [broadcast(channel, message)]; [json] is the message serialised and
    [is_open] tells which sockets are in state [OPEN]. *)
Definition broadcast (is_open : nat -> bool) (channel json : string)
  (subs : Subscriptions) : list (nat * Sent) :=
  match map_get channel subs with
  | None => []
  | Some subscribers =>
      flat_map (fun ws => if is_open ws then [(ws, SendText json)] else [])
        subscribers
  end.

(** [broadcastBinary(channel, metadata, data)] *)
Definition broadcastBinary (is_open : nat -> bool) (channel json : string)
  (data : Buffer) (subs : Subscriptions) : list (nat * Sent) :=
  match map_get channel subs with
  | None => []
  | Some subscribers =>
      flat_map (fun ws => if is_open ws
                          then [(ws, SendText json); (ws, SendBinary data)]
                          else [])
        subscribers
  end.

(** The calls made on a [ChannelManager]. *)
Inductive Op : Type :=
| Subscribe (ws : nat) (channel : string)
| Unsubscribe (ws : nat) (channel : string)
| RemoveClient (ws : nat).

Definition apply_op (op : Op) (subs : Subscriptions) : Subscriptions :=
  match op with
  | Subscribe ws channel => subscribe ws channel subs
  | Unsubscribe ws channel => unsubscribe ws channel subs
  | RemoveClient ws => removeClient ws subs
  end.

Definition run (ops : list Op) (subs : Subscriptions) : Subscriptions :=
  fold_left (fun s op => apply_op op s) ops subs.

Definition subscribes (ws : nat) (op : Op) : bool :=
  match op with
  | Subscribe ws' _ => Nat.eqb ws ws'
  | _ => false
  end.

(** No socket is twice in a set. *)
Definition sets_ok (subs : Subscriptions) : Prop :=
  forall channel subscribers,
    map_get channel subs = Some subscribers -> List.NoDup subscribers.

(** [ws] is in no set. *)
Definition absent (ws : nat) (subs : Subscriptions) : Prop :=
  forall channel subscribers,
    map_get channel subs = Some subscribers -> ~ In ws subscribers.

End Channels.

(* ===================================================================== *)
(** ** The memory routes (routes/memory.ts) *)
(* ===================================================================== *)

Module Base64.
Import JS.

Definition alphabet : list ascii :=
  list_ascii_of_string
    "ABCDEFGHIJKLMNOPQRSTUVWXYZabcdefghijklmnopqrstuvwxyz0123456789+/".

Definition digit (i : Z) : ascii := nth (Z.to_nat i) alphabet "A"%char.

Definition byte_value (b : byte) : Z := Z.of_N (Byte.to_N b).

(** [data.toString('base64')] *)
Fixpoint encode (data : Buffer) : string :=
  match data with
  | [] => EmptyString
  | [a] =>
      let x := byte_value a in
      String (digit (x / 4)) (String (digit (x mod 4 * 16)) "==")
  | [a; b] =>
      let x := byte_value a in
      let y := byte_value b in
      String (digit (x / 4))
        (String (digit (x mod 4 * 16 + y / 16))
           (String (digit (y mod 16 * 4)) "="))
  | a :: b :: c :: rest =>
      let x := byte_value a in
      let y := byte_value b in
      let z := byte_value c in
      String (digit (x / 4))
        (String (digit (x mod 4 * 16 + y / 16))
           (String (digit (y mod 16 * 4 + z / 64))
              (String (digit (z mod 64)) (encode rest))))
  end.

(** The value of a character in the decoder's table: the alphabet, and
    [-] and [_] of the URL-safe variant. *)
Definition value (c : ascii) : option Z :=
  let n := Z.of_N (N_of_ascii c) in
  if (65 <=? n) && (n <=? 90) then Some (n - 65)
  else if (97 <=? n) && (n <=? 122) then Some (n - 71)
  else if (48 <=? n) && (n <=? 57) then Some (n + 4)
  else if (n =? 43) || (n =? 45) then Some 62
  else if (n =? 47) || (n =? 95) then Some 63
  else None.

(** The values of the legal characters up to the first [=]; other
    characters are skipped. *)
Fixpoint values (s : string) : list Z :=
  match s with
  | EmptyString => []
  | String c rest =>
      match value c with
      | Some v => v :: values rest
      | None => if Ascii.eqb c "=" then [] else values rest
      end
  end.

(** Four values make three bytes; what is left at the end makes as many
    whole bytes as it holds. *)
Fixpoint pack (vs : list Z) : Buffer :=
  match vs with
  | v0 :: v1 :: v2 :: v3 :: rest =>
      Gdb.byte_of_Z (v0 * 4 + v1 / 16)
        :: Gdb.byte_of_Z (v1 mod 16 * 16 + v2 / 4)
        :: Gdb.byte_of_Z (v2 mod 4 * 64 + v3) :: pack rest
  | [v0; v1; v2] =>
      [Gdb.byte_of_Z (v0 * 4 + v1 / 16); Gdb.byte_of_Z (v1 mod 16 * 16 + v2 / 4)]
  | [v0; v1] => [Gdb.byte_of_Z (v0 * 4 + v1 / 16)]
  | _ => []
  end.

(** [Buffer.from(s, 'base64')] *)
Definition decode (s : string) : Buffer := pack (values s).

End Base64.

Module MemoryRoutes.
Import JS Errors Address Sha256.

(** The backend as the routes use it; [None] is [c.get('backend')] being
    null. *)
Record Backend : Type := {
  readMemory : DosAddress -> number -> outcome Buffer;
  writeMemory : DosAddress -> Buffer -> outcome unit;
}.

Inductive Response : Type :=
| Unavailable
| ReadJson (address : string) (size : nat) (data : string) (digest : string)
| ReadRaw (data : Buffer)
| WriteJson (ok : bool) (bytesWritten : nat)
| Failed (o : outcome unit).

Definition failed {A : Type} (o : outcome A) : Response :=
  match o with
  | Returned _ => Failed (Returned tt)
  | Thrown e => Failed (Thrown e)
  | Unsettled => Failed Unsettled
  | OutOfFuel => Failed OutOfFuel
  end.

(** [GET /memory/:address/:size] *)
Definition get_memory (backend : option Backend) (address_param size_param : string)
  (format : option string) : Response :=
  match backend with
  | None => Unavailable
  | Some b =>
      let address := parseAddress address_param in
      let size := parseInt size_param 10 in
      match readMemory b address size with
      | Returned data =>
          match format with
          | Some "raw" => ReadRaw data
          | _ => ReadJson ("0x" ++ toString16 (linear address)) (length data)
                   (Base64.encode data) (sha256 data)
          end
      | other => failed other
      end
  end.

(** [POST /memory/:address] with the [data] of the body *)
Definition post_memory (backend : option Backend) (address_param body_data : string)
  : Response :=
  match backend with
  | None => Unavailable
  | Some b =>
      let address := parseAddress address_param in
      let data := Base64.decode body_data in
      match writeMemory b address data with
      | Returned _ => WriteJson true (length data)
      | other => failed other
      end
  end.

(** A backend over one buffer at linear address 0x400 that accepts every
    write. *)
Definition sample_backend : Backend :=
  {| readMemory := fun _ _ => Returned [x4d; x5a; x90; x00];
     writeMemory := fun _ _ => Returned tt |}.

End MemoryRoutes.


(* ===================================================================== *)
(** ** The emulator command line (qemu/qemu-launcher.ts) *)
(* ===================================================================== *)

Module Launcher.
Import JS.

Inductive Mode : Type := Interactive | Headless | Record_ | Replay.

(** [QemuLaunchConfig] of types.ts; the numbers are integers here. *)
Record QemuLaunchConfig : Type := {
  mode : Mode;
  diskImage : string;
  sharedIso : option string;
  gameIso : option string;
  accel : option string;
  cpu : option string;
  smp : option Z;
  ram : option Z;
  gdbPort : option Z;
  qmpSocketPath : option string;
  vncPort : option Z;
  display : option string;
  audio : option bool;
  snapshot : option string;
  recordFile : option string;
  serialLogPath : option string;
}.

(** A string used as a condition: absent and empty are falsy. *)
Definition given (s : option string) : option string :=
  match s with
  | Some EmptyString => None
  | other => other
  end.

(** An integer in a template literal. *)
Definition show (z : Z) : string :=
  if z <? 0 then "-" ++ Qemu.decimal (Z.to_nat (- z)) else Qemu.decimal (Z.to_nat z).

Definition or_else {A : Type} (x : option A) (d : A) : A :=
  match x with
  | Some v => v
  | None => d
  end.

Definition is_headless (m : Mode) : bool :=
  match m with
  | Headless => true
  | _ => false
  end.

Definition boot_drive (config : QemuLaunchConfig) : string :=
  "file=" ++ diskImage config ++ ",format=qcow2,if=ide,index=0"
    ++ match mode config with
       | Record_ | Replay => ",snapshot=on"
       | _ => EmptyString
       end.

Definition cdrom (iso : string) (index : string) : string :=
  "file=" ++ iso ++ ",media=cdrom,index=" ++ index.

Definition audiodev (config : QemuLaunchConfig) : string :=
  (if is_headless (mode config) then "none" else "coreaudio") ++ ",id=audio0".

Definition gdb_stub (config : QemuLaunchConfig) : string :=
  "tcp::" ++ show (or_else (gdbPort config) 1234).

Definition qmp_socket (path : string) : string := "unix:" ++ path ++ ",server,nowait".

Definition vnc_display (port : Z) : string := ":" ++ show (port - 5900).

Definition serial_file (path : string) : string := "file:" ++ path.

Definition icount (rr file : string) : string :=
  "shift=auto,rr=" ++ rr ++ ",rrfile=" ++ file.

Definition monitor_on_stdio (interactive : bool) (config : QemuLaunchConfig) : bool :=
  interactive && match mode config with
                 | Interactive | Record_ => true
                 | _ => false
                 end.

(** [buildArgs(config)]; [interactive] is the field of the launcher. *)
Definition buildArgs (interactive : bool) (config : QemuLaunchConfig) : list string :=
  (match given (accel config) with Some a => ["-accel"; a] | None => [] end
   ++ match given (cpu config) with Some c => ["-cpu"; c] | None => [] end
   ++ match smp config with
      | Some n => if 0 <? n then ["-smp"; show n] else []
      | None => []
      end
   ++ ["-machine"; "pc"; "-m"; show (or_else (ram config) 32);
       "-rtc"; "base=localtime"]
   ++ ["-drive"; boot_drive config]
   ++ ["-boot"; "order=c"]
   ++ match given (gameIso config), given (sharedIso config) with
      | Some g, Some s => ["-drive"; cdrom g "2"; "-drive"; cdrom s "3"]
      | None, Some s => ["-drive"; cdrom s "2"]
      | Some g, None => ["-drive"; cdrom g "2"]
      | None, None => []
      end
   ++ (if is_headless (mode config) then
         "-display" :: "none"
           :: match vncPort config with
              | Some p => if p =? 0 then [] else ["-vnc"; vnc_display p]
              | None => []
              end
       else ["-display"; or_else (display config) "cocoa"])
   ++ ["-vga"; "std"]
   ++ match audio config with
      | Some false => []
      | _ =>
          ["-audiodev"; audiodev config;
           "-device"; "sb16,audiodev=audio0,iobase=0x220,irq=5,dma=1,dma16=5"]
      end
   ++ ["-gdb"; gdb_stub config]
   ++ match given (qmpSocketPath config) with
      | Some p => ["-qmp"; qmp_socket p]
      | None => []
      end
   ++ (if monitor_on_stdio interactive config
       then ["-monitor"; "stdio"] else ["-monitor"; "none"])
   ++ match mode config, given (serialLogPath config) with
      | Headless, Some p => ["-serial"; serial_file p]
      | _, _ => []
      end
   ++ match mode config, given (recordFile config) with
      | Record_, Some f => ["-icount"; icount "record" f]
      | Replay, Some f => ["-icount"; icount "replay" f]
      | _, _ => []
      end
   ++ match given (snapshot config) with
      | Some s => ["-loadvm"; s]
      | None => []
      end)%list.

(** The arguments taken two by two: an option and its value. *)
Fixpoint options (args : list string) : list (string * string) :=
  match args with
  | flag :: value :: rest => (flag, value) :: options rest
  | _ => []
  end.

Definition flatten (opts : list (string * string)) : list string :=
  flat_map (fun o => [fst o; snd o]) opts.

Definition flags : list string :=
  ["-accel"; "-cpu"; "-smp"; "-machine"; "-m"; "-rtc"; "-drive"; "-boot";
   "-display"; "-vnc"; "-vga"; "-audiodev"; "-device"; "-gdb"; "-qmp";
   "-monitor"; "-serial"; "-icount"; "-loadvm"].

Definition sample_config : QemuLaunchConfig :=
  {| mode := Headless; diskImage := "dos.qcow2"; sharedIso := None;
     gameIso := Some "game.iso"; accel := None; cpu := None; smp := None;
     ram := None; gdbPort := None; qmpSocketPath := Some "/tmp/qmp.sock";
     vncPort := None; display := None; audio := None; snapshot := None;
     recordFile := None; serialLogPath := None |}.

End Launcher.

(* ===================================================================== *)
(** ** The session-based backend: what is on disk before a run *)
(* ===================================================================== *)

Module DosboxDisk.
Import JS Errors Address Dosbox.

(** The file that [capture] reads the framebuffer from, and the log it
    removes before the session. *)
Definition framebuffer_path (b : DosboxBackend) (request : Capture.CaptureRequest)
  : string :=
  join (capturesDir b) (Capture.prefix request ++ "_framebuffer.bin").

Definition capture_log (b : DosboxBackend) (request : Capture.CaptureRequest)
  : string :=
  join (capturesDir b) (Capture.prefix request ++ "_debug.log").

(** The log that [readRegisters] reads the registers from. *)
Definition registers_log (b : DosboxBackend) : string :=
  join (capturesDir b) "_regs.log".

(** A session that ends without writing anything. *)
Definition idle_emulator (job : Spawn) (f : Files) : Files := f.

(** A request that asks for no framebuffer and no registers. *)
Definition bare_request : Capture.CaptureRequest :=
  {| Capture.prefix := "t4"; Capture.snapshot := None; Capture.breakpoint := None;
     Capture.keys := None; Capture.keyDelay := None; Capture.waitTime := None;
     Capture.memoryRanges := None; Capture.captureFramebuffer := Some false;
     Capture.captureRegisters := Some false; Capture.captureScreenshot := None;
     Capture.timeout := None |}.

(** A disk that holds the emulator and a framebuffer of an earlier
    capture. *)
Definition old_disk : World :=
  {| files := <["captures/t4_framebuffer.bin" := [x0f; x0f]]> (files sample_disk);
     spawned := [] |}.

End DosboxDisk.
(* ===================================================================== *)
(** * Properties *)
(* ===================================================================== *)

Example parseAddress_segoff :
  Address.parseAddress "A000:0010"
  = {| Address.linear := JS.Num 655376;
       Address.segOff := {| Address.segment := JS.Num 40960;
                            Address.offset := JS.Num 16 |} |}.
Proof. reflexivity. Qed.

Example parseAddress_hex :
  Address.parseAddress "0xB8000"
  = {| Address.linear := JS.Num 753664;
       Address.segOff := {| Address.segment := JS.Num 47104;
                            Address.offset := JS.Num 0 |} |}.
Proof. reflexivity. Qed.

Example formatSegOff_example :
  Address.formatSegOff (JS.Num 40960) (JS.Num 31) = "A000:001F".
Proof. reflexivity. Qed.

Module AddressFacts.
Import JS Address.

Lemma wrap32_id (z : Z) : - 2 ^ 31 <= z < 2 ^ 31 -> wrap32 z = z.
Proof.
  intros H. unfold wrap32.
  rewrite Z.mod_small; lia.
Qed.

Lemma wrap32_range (z : Z) : - 2 ^ 31 <= wrap32 z < 2 ^ 31.
Proof.
  unfold wrap32.
  pose proof (Z.mod_pos_bound (z + 2 ^ 31) (2 ^ 32) ltac:(lia)). lia.
Qed.

(** ToInt32 keeps the residue modulo 2^32. *)
Lemma wrap32_mod (z : Z) : wrap32 z mod 2 ^ 32 = z mod 2 ^ 32.
Proof.
  unfold wrap32.
  rewrite Zminus_mod, Zmod_mod, <- Zminus_mod.
  f_equal. lia.
Qed.

Lemma land_ones16 (z : Z) : Z.land z 65535 = z mod 2 ^ 16.
Proof. change 65535 with (Z.ones 16). apply Z.land_ones. lia. Qed.

Lemma land_ones4 (z : Z) : Z.land z 15 = z mod 2 ^ 4.
Proof. change 15 with (Z.ones 4). apply Z.land_ones. lia. Qed.

(** The low 20 bits survive ToInt32. *)
Lemma wrap32_low_bits (z : Z) :
  (wrap32 z / 16) mod 2 ^ 16 = (z / 16) mod 2 ^ 16
  /\ wrap32 z mod 16 = z mod 16.
Proof.
  pose proof (wrap32_mod z) as H.
  pose proof (Z.div_mod (wrap32 z) (2 ^ 32) ltac:(lia)) as Hw.
  pose proof (Z.div_mod z (2 ^ 32) ltac:(lia)) as Hz.
  set (qw := wrap32 z / 2 ^ 32) in *. set (qz := z / 2 ^ 32) in *.
  assert (Hrel : wrap32 z = z + (qw - qz) * 2 ^ 32) by lia.
  rewrite Hrel. split.
  - replace (z + (qw - qz) * 2 ^ 32) with (z + ((qw - qz) * 2 ^ 28) * 16) by lia.
    rewrite Z.div_add by lia.
    replace ((qw - qz) * 2 ^ 28) with (((qw - qz) * 2 ^ 12) * 2 ^ 16) by lia.
    apply Z.mod_add. lia.
  - replace (z + (qw - qz) * 2 ^ 32) with (z + ((qw - qz) * 2 ^ 28) * 16) by lia.
    apply Z.mod_add. lia.
Qed.

Lemma linearToSegOff_fields (L : Z) :
  linearToSegOff (Num L)
  = {| segment := Num ((L / 16) mod 65536); offset := Num (L mod 16) |}.
Proof.
  unfold linearToSegOff, band, shr, ToInt32.
  destruct (wrap32_low_bits L) as [Hs Ho].
  rewrite (wrap32_id 65535), (wrap32_id 15) by lia.
  change (4 mod 32) with 4.
  rewrite Z.shiftr_div_pow2 by lia.
  rewrite land_ones16, land_ones4.
  change (2 ^ 4) with 16.
  pose proof (wrap32_range L) as Hr.
  rewrite (wrap32_id (wrap32 L / 16)).
  - rewrite Hs, Ho. reflexivity.
  - split.
    + apply Z.div_le_lower_bound; lia.
    + apply Z.div_lt_upper_bound; lia.
Qed.

Lemma segOffToLinear_small (s o : Z) :
  0 <= s < 65536 -> 0 <= o < 65536 ->
  segOffToLinear (Num s) (Num o) = Num (s * 16 + o).
Proof.
  intros Hs Ho. unfold segOffToLinear, add, shl, band, ToInt32.
  rewrite (wrap32_id 65535), (wrap32_id s), (wrap32_id o) by lia.
  rewrite !land_ones16, !Z.mod_small by lia.
  rewrite (wrap32_id s) by lia.
  change (4 mod 32) with 4. rewrite Z.shiftl_mul_pow2 by lia.
  rewrite wrap32_id by lia. f_equal.
Qed.

Lemma roundtrip_value (L : Z) :
  let so := linearToSegOff (Num L) in
  segOffToLinear (segment so) (offset so) = Num (L mod 2 ^ 20).
Proof.
  cbv zeta. rewrite linearToSegOff_fields. cbn [segment offset].
  pose proof (Z.mod_pos_bound (L / 16) 65536 ltac:(lia)).
  pose proof (Z.mod_pos_bound L 16 ltac:(lia)).
  rewrite segOffToLinear_small by lia. f_equal.
  change (2 ^ 20) with (16 * 65536).
  rewrite Z.rem_mul_r by lia. lia.
Qed.

(** C1, as the code has it: for every integer linear address [L],
    [linearToSegOff] gives segment [(L >> 4) & 0xFFFF] (bits 4..19 of [L])
    and offset [L & 0xF]; converting the pair back with [segOffToLinear]
    gives [L] reduced modulo 2^20, which is [L] exactly when
    [0 <= L < 2^20]; [parseAddress] stores this pair next to the parsed
    linear for every literal without a colon. *)
Theorem C1_linear_segoff_agree_below_1MiB :
  (forall L : Z,
     let so := linearToSegOff (Num L) in
     segment so = band (shr (Num L) 4) (Num 65535)
     /\ offset so = band (Num L) (Num 15)
     /\ segment so = Num ((L / 16) mod 65536)
     /\ offset so = Num (L mod 16)
     /\ segOffToLinear (segment so) (offset so) = Num (L mod 2 ^ 20)
     /\ (segOffToLinear (segment so) (offset so) = Num L <-> 0 <= L < 2 ^ 20))
  /\ (forall input : string,
        includes input ":" = false ->
        segOff (parseAddress input) = linearToSegOff (linear (parseAddress input))).
Proof.
  split.
  - intros L so.
    pose proof (roundtrip_value L) as Hrt. cbv zeta in Hrt. fold so in Hrt.
    pose proof (linearToSegOff_fields L) as Hf. fold so in Hf.
    pose proof (Z.mod_pos_bound L (2 ^ 20) ltac:(lia)) as Hb.
    split; [reflexivity |]. split; [reflexivity |].
    split; [rewrite Hf; reflexivity |]. split; [rewrite Hf; reflexivity |].
    split; [exact Hrt |]. rewrite Hrt. split.
    + intros Heq. injection Heq as Heq. lia.
    + intros HL. f_equal. apply Z.mod_small. lia.
  - intros input Hc. unfold parseAddress. rewrite Hc. reflexivity.
Qed.

(** C1 as stated fails: the well-formed literal [0x100000] parses to linear
    1048576, its pair is 0000:0000, and that pair converts back to 0. *)
Lemma C1_linear_roundtrip_fails_at_1MiB :
  let a := parseAddress "0x100000" in
  linear a = Num 1048576
  /\ segOff a = {| segment := Num 0; offset := Num 0 |}
  /\ segOffToLinear (segment (segOff a)) (offset (segOff a)) = Num 0
  /\ segOffToLinear (segment (segOff a)) (offset (segOff a)) <> linear a.
Proof.
  cbv zeta. repeat split; try reflexivity.
  vm_compute. discriminate.
Qed.

End AddressFacts.

Module FormatFacts.
Import JS Address HexText.

Ltac split_ascii c := destruct c as [[] [] [] [] [] [] [] []].

Lemma upper_hex_digit_radix (c : ascii) :
  upper_hex_digit c = true ->
  radix_digit 16 c = Some (digit_or_zero c)
  /\ Ascii.eqb c ":" = false
  /\ is_whitespace c = false.
Proof.
  split_ascii c; intros H; try discriminate H; repeat split; reflexivity.
Qed.

Lemma hex_char_upper (d : Z) :
  0 <= d < 16 ->
  upper_hex_digit (upper_char (hex_char d)) = true
  /\ digit_or_zero (upper_char (hex_char d)) = d.
Proof.
  intros H.
  destruct d as [| p | p]; [split; reflexivity | | lia].
  do 5 (try destruct p as [p | p |]); try lia; split; reflexivity.
Qed.

Lemma parse_digits_upper_hex (s : string) (v : Z) :
  all_upper_hex s = true ->
  parse_digits 16 s (Some v) = Some (hex_value s v).
Proof.
  revert v. induction s as [| c rest IH]; intros v H; cbn in *.
  - reflexivity.
  - apply andb_prop in H as [Hc Hr].
    destruct (upper_hex_digit_radix c Hc) as (-> & _ & _).
    apply IH. exact Hr.
Qed.

Lemma parse_digits_upper_hex_start (c : ascii) (rest : string) :
  all_upper_hex (String c rest) = true ->
  parse_digits 16 (String c rest) None = Some (hex_value (String c rest) 0).
Proof.
  intros H. cbn in *. apply andb_prop in H as [Hc Hr].
  destruct (upper_hex_digit_radix c Hc) as (-> & _ & _).
  apply parse_digits_upper_hex. exact Hr.
Qed.

(** [parseInt(s, 16)] on a non-empty string of upper-case hex digits. *)
Lemma parseInt16_upper_hex (s : string) :
  all_upper_hex s = true -> s <> EmptyString ->
  parseInt s 16 = Num (hex_value s 0).
Proof.
  intros H Hne. destruct s as [| c rest]; [congruence |].
  pose proof (parse_digits_upper_hex_start c rest H) as Hp.
  pose proof H as H'. cbn in H'. apply andb_prop in H' as [Hc Hr].
  assert (Hstrip : strip_0x (String c rest) = String c rest).
  { destruct rest as [| c2 r2]; [split_ascii c; reflexivity |].
    cbn in Hr. apply andb_prop in Hr as [Hc2 _].
    split_ascii c; try discriminate Hc; try reflexivity.
    split_ascii c2; try discriminate Hc2; reflexivity. }
  destruct (upper_hex_digit_radix c Hc) as (_ & _ & Hws).
  unfold parseInt. cbn [trim_start]. rewrite Hws.
  assert (Hsign :
    match String c rest with
    | String "-" r => (-1, r)
    | String "+" r => (1, r)
    | _ => (1, String c rest)
    end = (1, String c rest)).
  { split_ascii c; try discriminate Hc; reflexivity. }
  rewrite Hsign. cbn [Z.eqb Pos.eqb]. rewrite Hstrip, Hp.
  f_equal. lia.
Qed.

Lemma append_nil (s : string) : EmptyString ++ s = s.
Proof. reflexivity. Qed.

Lemma append_cons (c : ascii) (a b : string) :
  String c a ++ b = String c (a ++ b).
Proof. reflexivity. Qed.

Lemma toUpperCase_app (a b : string) :
  toUpperCase (a ++ b) = toUpperCase a ++ toUpperCase b.
Proof. induction a as [| c a IH]; simpl; [reflexivity | ]. rewrite IH. reflexivity. Qed.

Lemma all_upper_hex_app (a b : string) :
  all_upper_hex (a ++ b) = all_upper_hex a && all_upper_hex b.
Proof.
  induction a as [| c a IH]; [reflexivity |].
  change (String c a ++ b) with (String c (a ++ b)). cbn [all_upper_hex].
  rewrite IH. now rewrite andb_assoc.
Qed.

Lemma hex_value_app (a b : string) (v : Z) :
  hex_value (a ++ b) v = hex_value b (hex_value a v).
Proof.
  revert v. induction a as [| c a IH]; intros v; [reflexivity |].
  change (String c a ++ b) with (String c (a ++ b)). cbn [hex_value]. apply IH.
Qed.

(** The digits printed for [n] denote [n]. *)
Lemma hex_digits_value (fuel : nat) (n : Z) :
  0 <= n < 16 ^ (Z.of_nat fuel + 1) ->
  all_upper_hex (toUpperCase (hex_digits fuel n)) = true
  /\ hex_value (toUpperCase (hex_digits fuel n)) 0 = n
  /\ hex_digits fuel n <> EmptyString.
Proof.
  revert n. induction fuel as [| f IH]; intros n Hn.
  - change (16 ^ (Z.of_nat 0 + 1)) with 16 in Hn.
    destruct (hex_char_upper (n mod 16)) as [Hu Hd].
    { apply Z.mod_pos_bound. lia. }
    cbn. rewrite Hu, Hd. repeat split; try discriminate.
    apply Z.mod_small. lia.
  - cbn [hex_digits].
    destruct (hex_char_upper (n mod 16)) as [Hu Hd].
    { apply Z.mod_pos_bound. lia. }
    destruct (Z.eqb_spec (n / 16) 0) as [Hz | Hz].
    + cbn. rewrite Hu, Hd. repeat split; try discriminate.
      pose proof (Z.div_mod n 16 ltac:(lia)). lia.
    + assert (Hq : 0 <= n / 16 < 16 ^ (Z.of_nat f + 1)).
      { split; [apply Z.div_pos; lia |].
        apply Z.div_lt_upper_bound; [lia |].
        replace (Z.of_nat (S f) + 1) with (Z.succ (Z.of_nat f + 1)) in Hn by lia.
        rewrite Z.pow_succ_r in Hn by lia. lia. }
      destruct (IH (n / 16) Hq) as (Ha & Hv & Hne).
      rewrite toUpperCase_app, all_upper_hex_app, hex_value_app.
      cbn. rewrite Ha, Hu, Hv, Hd. repeat split.
      * pose proof (Z.div_mod n 16 ltac:(lia)). lia.
      * destruct (hex_digits f (n / 16)); [congruence | discriminate].
Qed.

Lemma toString16_value (n : Z) :
  0 <= n ->
  all_upper_hex (toUpperCase (toString16 (Num n))) = true
  /\ hex_value (toUpperCase (toString16 (Num n))) 0 = n
  /\ toString16 (Num n) <> EmptyString.
Proof.
  intros Hn. unfold toString16.
  destruct (Z.ltb_spec n 0) as [Hneg | _]; [lia |].
  apply hex_digits_value. split; [lia |].
  rewrite Z2Nat.id by apply Z.log2_nonneg.
  destruct (Z.eq_dec n 0) as [-> | Hnz]; [reflexivity |].
  pose proof (Z.log2_spec n ltac:(lia)) as [_ Hlt].
  eapply Z.lt_le_trans; [exact Hlt |].
  replace (Z.succ (Z.log2 n)) with (Z.log2 n + 1) by lia.
  apply Z.pow_le_mono_l. lia.
Qed.

Lemma padStart_zero_value (s : string) (w : nat) :
  all_upper_hex s = true -> s <> EmptyString ->
  all_upper_hex (padStart s w "0") = true
  /\ hex_value (padStart s w "0") 0 = hex_value s 0
  /\ padStart s w "0" <> EmptyString.
Proof.
  intros Ha Hne. unfold padStart.
  generalize (w - String.length s)%nat as k.
  induction k as [| k (IH1 & IH2 & IH3)]; cbn [repeat_char].
  - rewrite append_nil. repeat split; assumption.
  - rewrite append_cons. cbn [all_upper_hex hex_value].
    repeat split; [exact IH1 | exact IH2 | discriminate].
Qed.

Lemma includes_app_sep (a b : string) (c : ascii) :
  includes (a ++ String c b) c = true.
Proof.
  induction a as [| x a IH].
  - rewrite append_nil. cbn. now rewrite Ascii.eqb_refl.
  - rewrite append_cons. cbn. rewrite IH. apply orb_true_r.
Qed.

Lemma split_upper_hex (s : string) :
  all_upper_hex s = true -> split s ":" = [s].
Proof.
  induction s as [| c s IH]; cbn; intros H; [reflexivity |].
  apply andb_prop in H as [Hc Hs].
  destruct (upper_hex_digit_radix c Hc) as (_ & -> & _).
  now rewrite (IH Hs).
Qed.

Lemma split_upper_hex_pair (a b : string) :
  all_upper_hex a = true -> all_upper_hex b = true ->
  split (a ++ String ":" b) ":" = [a; b].
Proof.
  intros Ha Hb. induction a as [| c a IH].
  - rewrite append_nil. cbn. now rewrite (split_upper_hex b Hb).
  - rewrite append_cons. cbn in Ha. apply andb_prop in Ha as [Hc Ha].
    cbn [split].
    destruct (upper_hex_digit_radix c Hc) as (_ & -> & _).
    now rewrite (IH Ha).
Qed.

(** C2: for 0 <= seg, off < 2^16 the literal printed by [formatSegOff]
    parses back to the same pair, and its linear is [(seg << 4) + off],
    that is [seg * 16 + off]. *)
Theorem C2_parse_format_linear (seg off : Z) :
  0 <= seg < 2 ^ 16 -> 0 <= off < 2 ^ 16 ->
  let a := parseAddress (formatSegOff (Num seg) (Num off)) in
  linear a = add (shl (Num seg) 4) (Num off)
  /\ linear a = Num (seg * 16 + off)
  /\ segOff a = {| segment := Num seg; offset := Num off |}.
Proof.
  intros Hs Ho a.
  destruct (toString16_value seg ltac:(lia)) as (Hsa & Hsv & Hsn).
  destruct (toString16_value off ltac:(lia)) as (Hoa & Hov & Hon).
  assert (Hsn' : toUpperCase (toString16 (Num seg)) <> EmptyString).
  { destruct (toString16 (Num seg)); [congruence | discriminate]. }
  assert (Hon' : toUpperCase (toString16 (Num off)) <> EmptyString).
  { destruct (toString16 (Num off)); [congruence | discriminate]. }
  destruct (padStart_zero_value _ 4 Hsa Hsn') as (Hpa & Hpv & Hpn).
  destruct (padStart_zero_value _ 4 Hoa Hon') as (Hqa & Hqv & Hqn).
  assert (Ha : a = {| linear := segOffToLinear (Num seg) (Num off);
                      segOff := {| segment := Num seg; offset := Num off |} |}).
  { subst a. unfold parseAddress, formatSegOff.
    change (":" ++ ?x) with (String ":" x).
    rewrite includes_app_sep, (split_upper_hex_pair _ _ Hpa Hqa).
    cbn [element nth].
    rewrite (parseInt16_upper_hex _ Hpa Hpn), (parseInt16_upper_hex _ Hqa Hqn).
    rewrite Hpv, Hqv, Hsv, Hov. reflexivity. }
  rewrite Ha. cbn [linear segOff].
  rewrite AddressFacts.segOffToLinear_small by lia.
  repeat split. unfold add, shl, ToInt32. f_equal.
  change (4 mod 32) with 4.
  rewrite (AddressFacts.wrap32_id seg) by lia.
  rewrite Z.shiftl_mul_pow2 by lia.
  rewrite AddressFacts.wrap32_id by lia. lia.
Qed.

Lemma C2_parse_format_linear_witness :
  let a := parseAddress (formatSegOff (Num 40960) (Num 31)) in
  linear a = add (shl (Num 40960) 4) (Num 31)
  /\ linear a = Num (40960 * 16 + 31)
  /\ segOff a = {| segment := Num 40960; offset := Num 31 |}.
Proof. apply (C2_parse_format_linear 40960 31); lia. Defined.

End FormatFacts.

Module Sha256Facts.
Import Sha256.

(** The two standard test vectors: the empty message and "abc". *)
Example sha256_empty :
  sha256 [] = "e3b0c44298fc1c149afbf4c8996fb92427ae41e4649b934ca495991b7852b855".
Proof. vm_compute. reflexivity. Qed.

Example sha256_abc :
  sha256 [x61; x62; x63]
  = "ba7816bf8f01cfea414140de5dae2223b00361a396177a9cb410ff61f20015ad".
Proof. vm_compute. reflexivity. Qed.

End Sha256Facts.

Module GoldenFacts.
Import Sha256 Golden.

Lemma first_difference_some (g a : Buffer) (r i k : nat) :
  first_difference g a i r = Some k ->
  (i <= k < i + r)%nat
  /\ g !! k <> a !! k
  /\ (forall j, (i <= j < k)%nat -> g !! j = a !! j).
Proof.
  revert i. induction r as [| r IH]; intros i H; cbn in H; [discriminate |].
  destruct (decide (g !! i = a !! i)) as [Heq | Hne].
  - destruct (IH (S i) H) as (Hk & Hd & Hlow).
    split; [lia |]. split; [exact Hd |].
    intros j Hj. destruct (Nat.eq_dec j i) as [-> | Hji]; [exact Heq |].
    apply Hlow. lia.
  - injection H as <-. split; [lia |]. split; [exact Hne |].
    intros j Hj. lia.
Qed.

Lemma first_difference_none (g a : Buffer) (r i : nat) :
  first_difference g a i r = None ->
  forall j, (i <= j < i + r)%nat -> g !! j = a !! j.
Proof.
  revert i. induction r as [| r IH]; intros i H j Hj; [lia |].
  cbn in H. destruct (decide (g !! i = a !! i)) as [Heq | Hne]; [| discriminate].
  destruct (Nat.eq_dec j i) as [-> | Hji]; [exact Heq |].
  apply (IH (S i) H). lia.
Qed.

(** The scan finds the least disagreeing index when there is one. *)
Lemma first_difference_least (g a : Buffer) (len i : nat) :
  (i < len)%nat -> g !! i <> a !! i ->
  (forall j, (j < i)%nat -> g !! j = a !! j) ->
  first_difference g a 0 len = Some i.
Proof.
  intros Hi Hd Hlow.
  destruct (first_difference g a 0 len) as [k |] eqn:E.
  - destruct (first_difference_some _ _ _ _ _ E) as (Hk & Hdk & Hlk).
    f_equal. destruct (Nat.lt_trichotomy k i) as [Hlt | [-> | Hgt]].
    + exfalso. apply Hdk, Hlow, Hlt.
    + reflexivity.
    + exfalso. apply Hd, Hlk. lia.
  - exfalso. apply Hd. apply (first_difference_none _ _ _ _ E). lia.
Qed.

Lemma agree_below_min_same_length (g a : Buffer) :
  length g = length a ->
  (forall j, (j < Nat.min (length g) (length a))%nat -> g !! j = a !! j) ->
  g = a.
Proof.
  intros Hlen Hall. apply list_eq. intros j.
  destruct (Nat.lt_ge_cases j (length g)) as [Hlt | Hge].
  - apply Hall. lia.
  - rewrite (lookup_ge_None_2 g j), (lookup_ge_None_2 a j) by lia. reflexivity.
Qed.

(** C7, as the code has it.  A missing golden gives [match = false], an
    empty [goldenChecksum] and the hash of the actual data.  When the
    golden exists both hashes are reported and [match] is true exactly when
    the two hashes are equal (always when the bytes are equal, and only
    then for a pair without a hash collision); a match carries no offset.
    When the hashes differ the first-difference offset is the least index
    below the shorter length at which the buffers disagree, reported with
    the golden and the actual byte there (with equal lengths there always
    is such an index); only when the buffers agree on every index below the
    shorter length, so that one is a proper prefix of the other, is the
    offset the shorter length, with no byte values. *)
Theorem C7_compareWithGolden_cases
  (fs : FileSystem) (goldenPath : string) (actual : Buffer) :
  let r := compareWithGolden fs goldenPath actual in
  (fs goldenPath = None ->
     r = {| match_ := false; goldenChecksum := EmptyString; actualChecksum := sha256 actual;
            firstDiffOffset := None; goldenByte := None; actualByte := None |})
  /\ (forall golden, fs goldenPath = Some golden ->
        let len := Nat.min (length golden) (length actual) in
        goldenChecksum r = sha256 golden
        /\ actualChecksum r = sha256 actual
        /\ (match_ r = true <-> sha256 golden = sha256 actual)
        /\ (golden = actual -> match_ r = true)
        /\ ((sha256 golden = sha256 actual -> golden = actual) ->
            (match_ r = true <-> golden = actual))
        /\ (match_ r = true ->
            firstDiffOffset r = None /\ goldenByte r = None /\ actualByte r = None)
        /\ (sha256 golden <> sha256 actual ->
            (forall i, (i < len)%nat -> golden !! i <> actual !! i ->
               (forall j, (j < i)%nat -> golden !! j = actual !! j) ->
               firstDiffOffset r = Some i
               /\ goldenByte r = golden !! i /\ actualByte r = actual !! i
               /\ is_Some (golden !! i) /\ is_Some (actual !! i))
            /\ ((forall j, (j < len)%nat -> golden !! j = actual !! j) ->
                length golden <> length actual
                /\ firstDiffOffset r = Some len
                /\ goldenByte r = None /\ actualByte r = None)
            /\ (length golden = length actual ->
                exists i, (i < len)%nat /\ golden !! i <> actual !! i
                          /\ firstDiffOffset r = Some i))).
Proof.
  intros r. subst r. unfold compareWithGolden. split.
  - intros ->. reflexivity.
  - intros golden ->. cbv zeta.
    destruct (String.eqb_spec (sha256 golden) (sha256 actual)) as [Heq | Hne].
    + cbn. repeat split; try tauto; try congruence.
    + cbn [match_ goldenChecksum actualChecksum].
      assert (Hdiff : golden <> actual) by congruence.
      set (len := Nat.min (length golden) (length actual)).
      destruct (first_difference golden actual 0 len) as [k |] eqn:E;
        cbn [match_ goldenChecksum actualChecksum firstDiffOffset goldenByte actualByte].
      * destruct (first_difference_some _ _ _ _ _ E) as (Hk & Hdk & Hlk).
        split; [reflexivity |]. split; [reflexivity |].
        split; [split; [discriminate | tauto] |].
        split; [tauto |].
        split; [intros _; split; [discriminate | tauto] |].
        split; [discriminate |]. intros _. split; [| split].
        -- intros i Hi Hd Hlow.
           rewrite (first_difference_least _ _ _ _ Hi Hd Hlow) in E.
           injection E as <-. repeat split.
           ++ apply lookup_lt_is_Some. lia.
           ++ apply lookup_lt_is_Some. lia.
        -- intros Hall. exfalso. apply Hdk, Hall. lia.
        -- intros _. exists k. repeat split; [lia | exact Hdk].
      * pose proof (first_difference_none _ _ _ _ E) as Hall.
        split; [reflexivity |]. split; [reflexivity |].
        split; [split; [discriminate | tauto] |].
        split; [tauto |].
        split; [intros _; split; [discriminate | tauto] |].
        split; [discriminate |]. intros _. split; [| split].
        -- intros i Hi Hd _. exfalso. apply Hd, Hall. lia.
        -- intros _. repeat split.
           intros Hlen. apply Hdiff.
           apply agree_below_min_same_length; [exact Hlen |].
           intros j Hj. apply Hall. fold len in Hj. lia.
        -- intros Hlen. exfalso. apply Hdiff.
           apply agree_below_min_same_length; [exact Hlen |].
           intros j Hj. apply Hall. fold len in Hj. lia.
Qed.

(** C7 as stated fails: the golden [01 02 03] and the actual [09 02] have
    different lengths, yet the reported offset is 0, with the bytes 01 and
    09, and not the shorter length 2. *)
Lemma C7_lengths_differ_offset_not_shorter_length :
  let fs : FileSystem :=
    fun p => if String.eqb p "golden.bin" then Some [x01; x02; x03] else None in
  let r := compareWithGolden fs "golden.bin" [x09; x02] in
  length [x01; x02; x03] <> length [x09; x02]
  /\ match_ r = false
  /\ firstDiffOffset r = Some 0%nat
  /\ firstDiffOffset r <> Some (Nat.min 3 2)
  /\ goldenByte r = Some x01
  /\ actualByte r = Some x09.
Proof.
  vm_compute. repeat split; try reflexivity; discriminate.
Qed.

End GoldenFacts.

Module GdbFacts.
Import JS Errors Gdb.

(** Offset [4096 * i] is inside the range exactly for the first
    [chunk_count length] values of [i]. *)
Lemma chunk_in_range (length : Z) (i : nat) :
  (4096 * Z.of_nat i <? length) = true <-> (i < chunk_count length)%nat.
Proof.
  unfold chunk_count. rewrite Z.ltb_lt.
  pose proof (Z.div_mod (length + 4095) 4096 ltac:(lia)) as Hdm.
  pose proof (Z.mod_pos_bound (length + 4095) 4096 ltac:(lia)) as Hb.
  split; intros H.
  - assert (Z.of_nat i < (length + 4095) / 4096) by lia. lia.
  - assert (Z.of_nat i < (length + 4095) / 4096) by lia. lia.
Qed.

Lemma command_connected (cmd r : string) (s rs : list string) :
  command cmd {| connected := true; sent := s; replies := r :: rs |}
  = (Returned r, {| connected := true; sent := s ++ [cmd]; replies := rs |}).
Proof. reflexivity. Qed.

(** The loop on a stub that answers the next chunks with data. *)
Lemma readMemory_loop_data (rs : list string) :
  forall (fuel : nat) (addr length : Z) (i : nat) (acc : list Buffer)
         (s rest : list string),
    Forall (fun r => error_reply r = false) rs ->
    (i + List.length rs = chunk_count length)%nat ->
    (List.length rs < fuel)%nat ->
    readMemory_loop fuel addr length (4096 * Z.of_nat i) acc
      {| connected := true; sent := s; replies := rs ++ rest |}
    = (Returned (concat (acc ++ map buffer_from_hex rs)),
       {| connected := true;
          sent := s ++ map (chunk_request addr length) (seq i (List.length rs));
          replies := rest |}).
Proof.
  induction rs as [| r rs IH]; intros fuel addr length i acc s rest Hok Hn Hf.
  - destruct fuel as [| f]; [cbn in Hf; lia |]. cbn [readMemory_loop].
    assert (Hout : (4096 * Z.of_nat i <? length) = false).
    { apply not_true_is_false. rewrite chunk_in_range. cbn in Hn. lia. }
    rewrite Hout. cbn. now rewrite !app_nil_r.
  - destruct fuel as [| f]; [cbn in Hf; lia |]. cbn [readMemory_loop].
    assert (Hin : (4096 * Z.of_nat i <? length) = true).
    { apply chunk_in_range. cbn in Hn. lia. }
    rewrite Hin. cbn [app]. rewrite command_connected.
    inversion Hok as [| ? ? Hr Hrs]; subst.
    unfold error_reply in Hr. rewrite Hr.
    replace (4096 * Z.of_nat i + CHUNK_SIZE) with (4096 * Z.of_nat (S i))
      by (unfold CHUNK_SIZE; lia).
    rewrite IH; [| exact Hrs | cbn in Hn; lia | cbn in Hf; lia].
    cbn [List.length seq map]. f_equal.
    + now rewrite <- app_assoc.
    + f_equal. now rewrite <- app_assoc.
Qed.

(** The loop on a stub that answers some chunks with data and the next
    one with an error reply. *)
Lemma readMemory_loop_error (rs : list string) :
  forall (fuel : nat) (addr length : Z) (i : nat) (acc : list Buffer)
         (s rest : list string) (e : string),
    Forall (fun r => error_reply r = false) rs ->
    error_reply e = true ->
    (i + List.length rs < chunk_count length)%nat ->
    (List.length rs < fuel)%nat ->
    readMemory_loop fuel addr length (4096 * Z.of_nat i) acc
      {| connected := true; sent := s; replies := rs ++ e :: rest |}
    = (Thrown (read_error (chunk_address addr (i + List.length rs)) e),
       {| connected := true;
          sent := s ++ map (chunk_request addr length) (seq i (S (List.length rs)));
          replies := rest |}).
Proof.
  induction rs as [| r rs IH]; intros fuel addr length i acc s rest e Hok He Hn Hf.
  - destruct fuel as [| f]; [cbn in Hf; lia |]. cbn [readMemory_loop].
    assert (Hin : (4096 * Z.of_nat i <? length) = true).
    { apply chunk_in_range. cbn in Hn. lia. }
    rewrite Hin. cbn [app]. rewrite command_connected.
    unfold error_reply in He. rewrite He.
    cbn [List.length]. rewrite Nat.add_0_r. reflexivity.
  - destruct fuel as [| f]; [cbn in Hf; lia |]. cbn [readMemory_loop].
    assert (Hin : (4096 * Z.of_nat i <? length) = true).
    { apply chunk_in_range. cbn in Hn. lia. }
    rewrite Hin. cbn [app]. rewrite command_connected.
    inversion Hok as [| ? ? Hr Hrs]; subst.
    unfold error_reply in Hr. rewrite Hr.
    replace (4096 * Z.of_nat i + CHUNK_SIZE) with (4096 * Z.of_nat (S i))
      by (unfold CHUNK_SIZE; lia).
    rewrite (IH f addr length (S i) _ _ rest e Hrs He);
      [| cbn in Hn; lia | cbn in Hf; lia].
    cbn [List.length]. replace (S i + List.length rs)%nat with (i + S (List.length rs))%nat by lia.
    f_equal. f_equal. cbn [seq map]. now rewrite <- app_assoc.
Qed.

Lemma chunk_count_fuel (length : Z) : (chunk_count length < S (Z.to_nat length))%nat.
Proof.
  unfold chunk_count.
  destruct (Z.le_gt_cases length 0) as [Hle | Hgt].
  - assert ((length + 4095) / 4096 <= 0).
    { apply Z.lt_succ_r. apply Z.div_lt_upper_bound; lia. }
    lia.
  - assert ((length + 4095) / 4096 <= length).
    { apply Z.lt_succ_r. apply Z.div_lt_upper_bound; lia. }
    lia.
Qed.

(** C6: on a connected client [readMemory(addr, length)] sends one
    [m<addr>,<len>] request per 4096-byte chunk, by increasing address
    ([chunk_requests]); when the stub answers each with data the result is
    the decoded replies concatenated in order; when the chunk at index [k]
    is the first answered with a reply starting with [E], the call throws a
    [ProtocolError] whose message names the address of that chunk, after
    sending the requests up to and including that one; for [length = 0]
    the result is the empty buffer and nothing is sent, connected or not. *)
Theorem C6_readMemory_chunked (addr length : Z) (s : list string) :
  (forall rs rest : list string,
     List.length rs = chunk_count length ->
     Forall (fun r => error_reply r = false) rs ->
     readMemory addr length {| connected := true; sent := s; replies := rs ++ rest |}
     = (Returned (concat (map buffer_from_hex rs)),
        {| connected := true; sent := s ++ chunk_requests addr length;
           replies := rest |}))
  /\ (forall (rs rest : list string) (e : string),
        (List.length rs < chunk_count length)%nat ->
        Forall (fun r => error_reply r = false) rs ->
        error_reply e = true ->
        readMemory addr length
          {| connected := true; sent := s; replies := rs ++ e :: rest |}
        = (Thrown {| error_class := ProtocolError;
                     message := "GDB memory read error at 0x"
                                ++ toString16 (Num (addr + 4096 * Z.of_nat (List.length rs)))
                                ++ ": " ++ e |},
           {| connected := true;
              sent := s ++ firstn (S (List.length rs)) (chunk_requests addr length);
              replies := rest |}))
  /\ (forall c : GdbClient, readMemory addr 0 c = (Returned [], c))
  /\ chunk_requests addr 0 = [].
Proof.
  pose proof (chunk_count_fuel length) as Hfuel.
  split; [| split; [| split]].
  - intros rs rest Hlen Hok. unfold readMemory.
    change 0 with (4096 * Z.of_nat 0).
    rewrite readMemory_loop_data; [| exact Hok | cbn; lia | lia].
    unfold chunk_requests. rewrite Hlen. reflexivity.
  - intros rs rest e Hlen Hok He. unfold readMemory.
    change 0 with (4096 * Z.of_nat 0).
    rewrite readMemory_loop_error; [| exact Hok | exact He | cbn; lia | lia].
    cbn [Nat.add]. unfold read_error, chunk_address, chunk_requests.
    f_equal. f_equal.
    rewrite List.firstn_map. f_equal.
    rewrite take_seq. rewrite Nat.min_l by lia. reflexivity.
  - intros c. reflexivity.
  - reflexivity.
Qed.

(** A 5000-byte read at 0xA0000 takes two requests; a second reply [E14]
    names 0xa1000. *)
Lemma C6_readMemory_chunked_witness :
  readMemory 655360 5000
    {| connected := true; sent := []; replies := ["0102"; "ff"] ++ ["OK"] |}
  = (Returned [x01; x02; xff],
     {| connected := true; sent := ["ma0000,1000"; "ma1000,388"];
        replies := ["OK"] |})
  /\ readMemory 655360 5000
       {| connected := true; sent := []; replies := ["0102"] ++ "E14" :: [] |}
     = (Thrown {| error_class := ProtocolError;
                  message := "GDB memory read error at 0xa1000: E14" |},
        {| connected := true; sent := ["ma0000,1000"; "ma1000,388"];
           replies := [] |}).
Proof.
  destruct (C6_readMemory_chunked 655360 5000 []) as (Hdata & Herr & _ & _).
  split.
  - apply (Hdata ["0102"; "ff"] ["OK"]); [reflexivity |].
    repeat constructor.
  - apply (Herr ["0102"] [] "E14"); [vm_compute; lia | repeat constructor | reflexivity].
Defined.

End GdbFacts.

Module MemoryWatchFacts.
Import Errors Sha256 MemoryWatch.

Lemma stopMemoryWatch_heap (i : string) (s : State) :
  heap (stopMemoryWatch i s) = heap s.
Proof.
  unfold stopMemoryWatch.
  destruct (watches s !! i) as [r |]; [| reflexivity].
  destruct (heap s !! r); reflexivity.
Qed.

Lemma stopMemoryWatch_polls (i : string) (s : State) :
  polls (stopMemoryWatch i s) = polls s.
Proof.
  unfold stopMemoryWatch.
  destruct (watches s !! i) as [r |]; [| reflexivity].
  destruct (heap s !! r); reflexivity.
Qed.

Lemma stop_fold_heap (l : list string) (s : State) :
  heap (foldr stopMemoryWatch s l) = heap s.
Proof.
  induction l as [| i l IH]; [reflexivity |].
  cbn [foldr]. now rewrite stopMemoryWatch_heap.
Qed.

(** Clearing the hash of the objects in [l] leaves every object in place,
    with its hash kept or cleared, and cleared for the members of [l]. *)
Lemma invalidate_fold_lookup (l : list nat) (h : list Watch) (r : nat) (w : Watch) :
  h !! r = Some w ->
  exists w',
    foldr (fun r h' => alter (set_lastHash None) r h') h l !! r = Some w'
    /\ (lastHash w' = lastHash w \/ lastHash w' = None)
    /\ (r ∈ l -> lastHash w' = None).
Proof.
  intros Hw. induction l as [| a l (w' & Hl & Hkeep & Hin)]; cbn [foldr].
  - exists w. split; [exact Hw |]. split; [now left |].
    intros H. inversion H.
  - destruct (decide (a = r)) as [-> | Hne].
    + exists (set_lastHash None w').
      rewrite list_lookup_alter_eq, Hl. split; [reflexivity |].
      split; [now right | reflexivity].
    + exists w'. rewrite list_lookup_alter_ne by exact Hne.
      split; [exact Hl |]. split; [exact Hkeep |].
      intros H. apply Hin. inversion H; subst; [congruence | assumption].
Qed.

(** One event changes the hash of watch object [r] only by clearing it,
    unless it is the settling of a successful read that holds [r]. *)
Lemma step_lastHash (e : Event) (s : State) (r : nat) (w : Watch) :
  heap s !! r = Some w ->
  settles_read_of r e s = false ->
  exists w', heap (fst (step e s)) !! r = Some w'
             /\ (lastHash w' = lastHash w \/ lastHash w' = None).
Proof.
  intros Hw Hq. destruct e; cbn [step fst].
  - destruct (hasBackend s); [| eauto].
    unfold startMemoryWatch. cbn [heap]. rewrite stopMemoryWatch_heap.
    exists w. split; [| now left].
    rewrite lookup_app_l; [exact Hw |]. eapply lookup_lt_Some, Hw.
  - rewrite stopMemoryWatch_heap. eauto.
  - unfold tick.
    destruct (timers s !! t) as [c |]; [| eauto].
    destruct (watches s !! c_id c) as [r0 |]; [| eauto].
    destruct (heap s !! r0) as [w0 |] eqn:Hw0; [| eauto].
    destruct (inFlight w0 || watchesSuspended s); [eauto |]. cbn [heap].
    destruct (decide (r0 = r)) as [-> | Hne].
    + rewrite list_lookup_alter_eq, Hw. eexists; split; [reflexivity | now left].
    + rewrite list_lookup_alter_ne by exact Hne. eauto.
  - unfold settle. cbn [settles_read_of] in Hq.
    destruct (polls s !! p) as [q |] eqn:Hp; [| eauto].
    assert (Hfin : forall s1 : State, (exists w1, heap s1 !! r = Some w1
                     /\ (lastHash w1 = lastHash w \/ lastHash w1 = None)) ->
              exists w', heap (match watches s1 !! c_id (p_closure q) with
                               | Some r' => with_heap (alter (set_inFlight false) r') s1
                               | None => s1
                               end) !! r = Some w'
                         /\ (lastHash w' = lastHash w \/ lastHash w' = None)).
    { intros s1 (w1 & H1 & Hk).
      destruct (watches s1 !! c_id (p_closure q)) as [r' |]; [| eauto].
      cbn [with_heap heap].
      destruct (decide (r' = r)) as [-> | Hne].
      - rewrite list_lookup_alter_eq, H1. eexists; split; [reflexivity | exact Hk].
      - rewrite list_lookup_alter_ne by exact Hne. eauto. }
    destruct res as [data | err | |]; cbn [fst].
    + cbn [with_polls heap].
      destruct (heap s !! p_watch q) as [wq |] eqn:Hwq.
      * destruct (decide (Some (sha256 data) = lastHash wq)); cbn [fst].
        -- apply Hfin. cbn [with_polls heap]. eauto.
        -- apply Hfin. cbn [with_heap with_polls heap].
           assert (Hne : p_watch q <> r).
           { intros Heq. rewrite Heq, Nat.eqb_refl in Hq. discriminate. }
           rewrite list_lookup_alter_ne by exact Hne. eauto.
      * cbn [fst]. apply Hfin. cbn [with_polls heap]. eauto.
    + apply Hfin. cbn [with_polls heap]. eauto.
    + apply Hfin. cbn [with_polls heap]. eauto.
    + apply Hfin. cbn [with_polls heap]. eauto.
  - eauto.
  - unfold resumeAllWatches, invalidateAllWatches. cbn [with_heap with_suspended heap watches].
    destruct (invalidate_fold_lookup (map snd (map_to_list (watches s))) _ _ _ Hw)
      as (w' & Hl & Hk & _). eauto.
  - unfold resumeAllWatches, invalidateAllWatches. cbn [with_heap with_suspended heap watches].
    destruct (invalidate_fold_lookup (map snd (map_to_list (watches s))) _ _ _ Hw)
      as (w' & Hl & Hk & _). eauto.
  - eauto.
  - unfold stopAllWatches. rewrite stop_fold_heap. eauto.
Qed.

(** A cleared hash stays cleared along a run without a successful read for
    that watch object. *)
Lemma run_keeps_cleared (r : nat) (evs : list Event) :
  forall (s s' : State) (w : Watch),
    heap s !! r = Some w -> lastHash w = None ->
    run_without_read_of r evs s = Some s' ->
    exists w', heap s' !! r = Some w' /\ lastHash w' = None.
Proof.
  induction evs as [| e evs IH]; intros s s' w Hw Hnone Hrun; cbn in Hrun.
  - injection Hrun as <-. eauto.
  - destruct (settles_read_of r e s) eqn:Hq; [discriminate |].
    destruct (step_lastHash e s r w Hw Hq) as (w1 & H1 & Hk).
    eapply IH; [exact H1 | | exact Hrun].
    destruct Hk as [Hk | Hk]; congruence.
Qed.

(** Resuming clears the hash of every registered watch. *)
Lemma resume_clears (s : State) (i : string) (r : nat) (w : Watch) :
  watches s !! i = Some r -> heap s !! r = Some w ->
  let s' := resumeAllWatches true s in
  watchesSuspended s' = false
  /\ heap s' !! r = Some (set_lastHash None w)
  /\ watches s' = watches s.
Proof.
  intros Hi Hw. cbv zeta.
  unfold resumeAllWatches, invalidateAllWatches.
  cbn [with_heap with_suspended heap watches watchesSuspended].
  split; [reflexivity |]. split; [| reflexivity].
  assert (Hin : r ∈ map snd (map_to_list (watches s))).
  { apply list_elem_of_In, in_map_iff. exists (i, r). split; [reflexivity |].
    apply list_elem_of_In, elem_of_map_to_list, Hi. }
  revert Hin. generalize (map snd (map_to_list (watches s))) as l.
  induction l as [| a l IH]; intros Hin; [inversion Hin |].
  cbn [foldr]. destruct (decide (a = r)) as [-> | Hne].
  - rewrite list_lookup_alter_eq.
    destruct (decide (r ∈ l)) as [Hl | Hl].
    + rewrite (IH Hl). reflexivity.
    + assert (Hsame : foldr (fun r h' => alter (set_lastHash None) r h') (heap s) l !! r
                      = Some w).
      { clear IH Hin. induction l as [| b l IHl]; [exact Hw |].
        cbn [foldr]. rewrite list_lookup_alter_ne.
        - apply IHl. intros H. apply Hl. now right.
        - intros ->. apply Hl. now left. }
      rewrite Hsame. reflexivity.
  - rewrite list_lookup_alter_ne by exact Hne. apply IH.
    inversion Hin; subst; [congruence | assumption].
Qed.

Lemma settle_output (s : State) (p : nat) (q : Poll) (w : Watch)
  (data : Buffer) (now : Z) :
  polls s !! p = Some q -> heap s !! p_watch q = Some w ->
  snd (settle p (Returned data) now s)
  = if decide (Some (sha256 data) = lastHash w) then []
    else update_frames (p_closure q) data (sha256 data) now.
Proof.
  intros Hp Hw. unfold settle. rewrite Hp. cbn [with_polls heap]. rewrite Hw.
  destruct (decide (Some (sha256 data) = lastHash w)); reflexivity.
Qed.

Lemma settle_records_hash (s : State) (p : nat) (q : Poll) (w : Watch)
  (data : Buffer) (now : Z) :
  polls s !! p = Some q -> heap s !! p_watch q = Some w ->
  exists w', heap (fst (settle p (Returned data) now s)) !! p_watch q = Some w'
             /\ lastHash w' = Some (sha256 data).
Proof.
  intros Hp Hw. unfold settle. rewrite Hp. cbn [with_polls heap]. rewrite Hw.
  assert (Hfin : forall s1 : State,
            (exists w1, heap s1 !! p_watch q = Some w1
                        /\ lastHash w1 = Some (sha256 data)) ->
            exists w', heap (match watches s1 !! c_id (p_closure q) with
                             | Some r' => with_heap (alter (set_inFlight false) r') s1
                             | None => s1
                             end) !! p_watch q = Some w'
                       /\ lastHash w' = Some (sha256 data)).
  { intros s1 (w1 & H1 & Hh).
    destruct (watches s1 !! c_id (p_closure q)) as [r' |]; [| eauto].
    cbn [with_heap heap].
    destruct (decide (r' = p_watch q)) as [-> | Hne].
    - rewrite list_lookup_alter_eq, H1. eexists; split; [reflexivity | exact Hh].
    - rewrite list_lookup_alter_ne by exact Hne. eauto. }
  destruct (decide (Some (sha256 data) = lastHash w)) as [Heq | Hne]; cbn [fst].
  - apply Hfin. cbn [with_polls heap]. eauto.
  - apply Hfin. cbn [with_heap with_polls heap].
    rewrite list_lookup_alter_eq, Hw. eexists; split; reflexivity.
Qed.

Lemma tick_suspended (s : State) (t : nat) :
  watchesSuspended s = true -> tick t s = s.
Proof.
  intros Hs. unfold tick.
  destruct (timers s !! t) as [c |]; [| reflexivity].
  destruct (watches s !! c_id c) as [r |]; [| reflexivity].
  destruct (heap s !! r) as [w |]; [| reflexivity].
  now rewrite Hs, orb_true_r.
Qed.

(** C3: a read that settles successfully sends the [memory:update]
    metadata frame followed by the binary payload exactly when the hash of
    the bytes differs from the last hash of the watch object the poll
    holds, and then records the new hash; no other event sends anything.
    [snapshot:loading] suspends all watches and a timer that fires while
    suspended returns without starting a read.  [snapshot:loaded] and
    [snapshot:load-failed] resume and set the last hash of every
    registered watch to null, so the first successful read of such a watch
    that settles afterwards sends its two frames whatever the bytes are. *)
Theorem C3_watch_emits_on_change_and_after_snapshot :
  (forall (s : State) (p : nat) (q : Poll) (w : Watch) (data : Buffer) (now : Z),
     polls s !! p = Some q -> heap s !! p_watch q = Some w ->
     let e := ReadSettles p (Returned data) now in
     (lastHash w <> Some (sha256 data) ->
        snd (step e s)
        = [ (c_ws (p_closure q),
             JsonFrame {| mu_type := "memory:update"; mu_id := c_id (p_closure q);
                          mu_address := c_address (p_closure q);
                          mu_size := length data; mu_sha256 := sha256 data;
                          mu_timestamp := now |});
            (c_ws (p_closure q), BinaryFrame data) ])
     /\ (lastHash w = Some (sha256 data) -> snd (step e s) = [])
     /\ (exists w', heap (fst (step e s)) !! p_watch q = Some w'
                    /\ lastHash w' = Some (sha256 data)))
  /\ (forall (e : Event) (s : State),
        snd (step e s) <> [] ->
        exists p data now, e = ReadSettles p (Returned data) now)
  /\ (forall s : State, watchesSuspended (fst (step SnapshotLoading s)) = true)
  /\ (forall (s : State) (t : nat),
        watchesSuspended s = true -> step (TimerFires t) s = (s, []))
  /\ (forall (s : State) (e : Event) (i : string) (r : nat) (w : Watch),
        e = SnapshotLoaded \/ e = SnapshotLoadFailed ->
        watches s !! i = Some r -> heap s !! r = Some w ->
        watchesSuspended (fst (step e s)) = false
        /\ watches (fst (step e s)) !! i = Some r
        /\ heap (fst (step e s)) !! r = Some (set_lastHash None w))
  /\ (forall (s : State) (e : Event) (i : string) (r : nat) (w : Watch)
             (evs : list Event) (s2 : State) (p : nat) (q : Poll)
             (data : Buffer) (now : Z),
        e = SnapshotLoaded \/ e = SnapshotLoadFailed ->
        watches s !! i = Some r -> heap s !! r = Some w ->
        run_without_read_of r evs (fst (step e s)) = Some s2 ->
        polls s2 !! p = Some q -> p_watch q = r ->
        snd (step (ReadSettles p (Returned data) now) s2)
        = update_frames (p_closure q) data (sha256 data) now).
Proof.
  split; [| split; [| split; [| split; [| split]]]].
  - intros s p q w data now Hp Hw e. subst e. cbn [step].
    rewrite (settle_output s p q w data now Hp Hw).
    split; [| split].
    + intros Hne. destruct (decide (Some (sha256 data) = lastHash w)); [congruence |].
      reflexivity.
    + intros Heq. destruct (decide (Some (sha256 data) = lastHash w)); [reflexivity |].
      congruence.
    + apply (settle_records_hash s p q w data now Hp Hw).
  - intros e s Hout.
    destruct e as [ | | | p res now | | | | | ]; cbn [step snd] in Hout; try congruence.
    destruct res as [data | err | |]; [eauto | | |];
      exfalso; apply Hout; unfold settle;
      destruct (polls s !! p) as [q |]; reflexivity.
  - reflexivity.
  - intros s t Hs. cbn [step]. now rewrite tick_suspended.
  - intros s e i r w He Hi Hw.
    destruct (resume_clears s i r w Hi Hw) as (Hsusp & Hheap & Hwatches).
    destruct He as [-> | ->]; cbn [step fst]; rewrite Hwatches; auto.
  - intros s e i r w evs s2 p q data now He Hi Hw Hrun Hp Hq.
    destruct (resume_clears s i r w Hi Hw) as (_ & Hheap & _).
    assert (Hstart : heap (fst (step e s)) !! r = Some (set_lastHash None w)).
    { destruct He as [-> | ->]; exact Hheap. }
    destruct (run_keeps_cleared r evs _ s2 _ Hstart eq_refl Hrun) as (w2 & Hw2 & Hnone).
    cbn [step]. subst r.
    rewrite (settle_output s2 p q w2 data now Hp Hw2).
    destruct (decide (Some (sha256 data) = lastHash w2)); [congruence | reflexivity].
Qed.

(** A watch on four stable bytes: its first read is sent, the second is
    not, a timer firing during a snapshot load does nothing, and the first
    read after [snapshot:loaded] is sent again although the bytes are the
    same. *)
Lemma C3_watch_emits_on_change_and_after_snapshot_witness :
  let data := [x41; x07; x42; x07] in
  let s1 := fst (step (MemoryWatchMsg 1 "w" "0xB8000" 4 (JS.Num 50)) initial) in
  let s2 := fst (step (TimerFires 0) s1) in
  let s3 := fst (step (ReadSettles 0 (Returned data) 1000) s2) in
  let s4 := fst (step SnapshotLoading s3) in
  let after := [TimerFires 0] in
  match run_without_read_of 0 after (fst (step SnapshotLoaded s4)) with
  | Some s5 =>
      snd (step (ReadSettles 1 (Returned data) 2000) s5)
      = update_frames {| c_ws := 1; c_id := "w"; c_address := "0xB8000";
                         c_addr := Address.parseAddress "0xB8000"; c_size := 4 |}
          data (sha256 data) 2000
  | None => False
  end.
Proof.
  cbv zeta.
  destruct C3_watch_emits_on_change_and_after_snapshot as (_ & _ & _ & _ & _ & Hfirst).
  set (s4 := fst (step SnapshotLoading _)).
  destruct (run_without_read_of 0 [TimerFires 0] (fst (step SnapshotLoaded s4)))
    as [s5 |] eqn:Hrun; [| vm_compute in Hrun; discriminate Hrun].
  assert (Hq : polls s5 !! 1%nat
               = Some {| p_watch := 0;
                         p_closure := {| c_ws := 1; c_id := "w"; c_address := "0xB8000";
                                         c_addr := Address.parseAddress "0xB8000";
                                         c_size := 4 |} |}).
  { vm_compute in Hrun. injection Hrun as <-. vm_compute. reflexivity. }
  refine (Hfirst s4 SnapshotLoaded "w" 0%nat _ [TimerFires 0] s5 1%nat _ _ 2000
            (or_introl eq_refl) _ _ Hrun Hq eq_refl).
  - vm_compute. reflexivity.
  - vm_compute. reflexivity.
Defined.

Lemma stopMemoryWatch_watches (i : string) (s : State) :
  watches (stopMemoryWatch i s) = delete i (watches s).
Proof.
  unfold stopMemoryWatch.
  destruct (watches s !! i) as [r |] eqn:Hi.
  - destruct (heap s !! r); reflexivity.
  - symmetry. apply delete_id. exact Hi.
Qed.

Lemma stop_fold_watches (l : list string) (s : State) (k : string) :
  watches (foldr stopMemoryWatch s l) !! k
  = if decide (k ∈ l) then None else watches s !! k.
Proof.
  induction l as [| i l IH]; cbn [foldr].
  - destruct (decide (k ∈ [])) as [H | _]; [inversion H | reflexivity].
  - rewrite stopMemoryWatch_watches.
    destruct (decide (i = k)) as [-> | Hne].
    + rewrite lookup_delete_eq.
      destruct (decide (k ∈ k :: l)) as [_ | H]; [reflexivity |].
      exfalso. apply H. now left.
    + rewrite lookup_delete_ne by exact Hne. rewrite IH.
      destruct (decide (k ∈ l)) as [Hl | Hl];
        destruct (decide (k ∈ i :: l)) as [Hil | Hil]; try reflexivity.
      * exfalso. apply Hil. now right.
      * exfalso. inversion Hil; subst; [congruence | contradiction].
Qed.

Lemma stopAllWatches_empty (s : State) : watches (stopAllWatches s) = ∅.
Proof.
  apply map_eq. intros k. rewrite lookup_empty.
  unfold stopAllWatches. rewrite stop_fold_watches.
  destruct (decide (k ∈ map fst (map_to_list (watches s)))) as [_ | Hk]; [reflexivity |].
  destruct (watches s !! k) as [r |] eqn:Hr; [| reflexivity].
  exfalso. apply Hk. apply list_elem_of_In, in_map_iff. exists (k, r).
  split; [reflexivity |]. apply list_elem_of_In, elem_of_map_to_list, Hr.
Qed.


Lemma same_watches_refl (h : list Watch) : WatchTable.same_watches h h.
Proof. intros r w H. exists w. repeat split; assumption. Qed.

Lemma same_watches_trans (h1 h2 h3 : list Watch) :
  WatchTable.same_watches h1 h2 -> WatchTable.same_watches h2 h3 -> WatchTable.same_watches h1 h3.
Proof.
  intros H12 H23 r w H.
  destruct (H12 r w H) as (w2 & L2 & ? & ? & ? & ? & ?).
  destruct (H23 r w2 L2) as (w3 & L3 & ? & ? & ? & ? & ?).
  exists w3. repeat split; congruence.
Qed.

Lemma same_watches_alter (f : Watch -> Watch) (k : nat) (h : list Watch) :
  (forall w, id (f w) = id w /\ timer (f w) = timer w
             /\ intervalMs (f w) = intervalMs w /\ address (f w) = address w
             /\ size (f w) = size w) ->
  WatchTable.same_watches h (alter f k h).
Proof.
  intros Hf r w H. destruct (decide (k = r)) as [-> | Hne].
  - exists (f w). rewrite list_lookup_alter_eq, H. split; [reflexivity | apply Hf].
  - exists w. rewrite list_lookup_alter_ne by exact Hne. repeat split; assumption.
Qed.

Lemma same_watches_fold (f : Watch -> Watch) (l : list nat) (h : list Watch) :
  (forall w, id (f w) = id w /\ timer (f w) = timer w
             /\ intervalMs (f w) = intervalMs w /\ address (f w) = address w
             /\ size (f w) = size w) ->
  WatchTable.same_watches h (foldr (fun r h' => alter f r h') h l).
Proof.
  intros Hf. induction l as [| a l IH]; cbn [foldr]; [apply same_watches_refl |].
  eapply same_watches_trans; [exact IH | now apply same_watches_alter].
Qed.

(** A change of the objects' hashes and flags keeps the table consistent. *)
Lemma consistent_same (s s' : State) :
  WatchTable.consistent s -> watches s' = watches s -> timers s' = timers s ->
  nextTimer s' = nextTimer s -> WatchTable.same_watches (heap s) (heap s') ->
  WatchTable.consistent s'.
Proof.
  intros [H1 H2] Hw Ht Hn Hh. split.
  - intros i r Hi. rewrite Hw in Hi.
    destruct (H1 i r Hi) as (w & c & Hr & Hid & Hint & Htm & Hc & Ha & Hs).
    destruct (Hh r w Hr) as (w' & Hr' & Hid' & Htm' & Hint' & Ha' & Hs').
    exists w', c. rewrite Ht, Htm', Hid', Hint', Ha', Hs'. repeat split; assumption.
  - intros t c Htc. rewrite Ht in Htc. destruct (H2 t c Htc) as (Hlt & r & w & Hi & Hr & Htm).
    rewrite Hn. split; [exact Hlt |].
    destruct (Hh r w Hr) as (w' & Hr' & _ & Htm' & _).
    exists r, w'. rewrite Hw. repeat split; [assumption | assumption | congruence].
Qed.

Lemma consistent_stop (i : string) (s : State) :
  WatchTable.consistent s -> WatchTable.consistent (stopMemoryWatch i s).
Proof.
  intros [H1 H2]. unfold stopMemoryWatch.
  destruct (watches s !! i) as [r |] eqn:Hi; [| now split].
  destruct (H1 i r Hi) as (w & c & Hr & Hid & Hint & Htm & Hc & _).
  rewrite Hr. split; cbn [with_watches with_timers watches heap timers nextTimer].
  - intros j r' Hj. apply lookup_delete_Some in Hj as [Hne Hj].
    destruct (H1 j r' Hj) as (w' & c' & Hr' & Hid' & Hint' & Htm' & Hc' & Hrest).
    exists w', c'. repeat split; try assumption; try apply Hrest.
    rewrite lookup_delete_ne; [exact Htm' |].
    intros Heq. rewrite <- Heq in Htm'. congruence.
  - intros t c' Ht. apply lookup_delete_Some in Ht as [Hne Ht].
    destruct (H2 t c' Ht) as (Hlt & r' & w' & Hi' & Hr' & Htm').
    split; [exact Hlt |]. exists r', w'. repeat split; try assumption.
    rewrite lookup_delete_ne; [exact Hi' |].
    intros Heq. rewrite <- Heq in Hi'. congruence.
Qed.

Lemma consistent_start (ws : nat) (i a : string) (sz : Z) (ms : JS.number) (s : State) :
  WatchTable.consistent s -> WatchTable.consistent (startMemoryWatch ws i a sz ms s).
Proof.
  intros Hs. pose proof (consistent_stop i s Hs) as [H1 H2].
  pose proof (stopMemoryWatch_watches i s) as Hw.
  unfold startMemoryWatch.
  set (s1 := stopMemoryWatch i s) in *.
  assert (Hnone : watches s1 !! i = None) by (rewrite Hw; apply lookup_delete_eq).
  split; cbn [watches heap timers nextTimer].
  - intros j r Hj. destruct (decide (i = j)) as [<- | Hne].
    + rewrite lookup_insert_eq in Hj. injection Hj as <-.
      eexists _, _. rewrite lookup_app_r, Nat.sub_diag by lia. cbn [lookup list_lookup].
      split; [reflexivity |]. cbn [id intervalMs timer address size].
      rewrite lookup_insert_eq.
      repeat split; try reflexivity.
      destruct ms as [| z]; [exact I |]. cbn [JS.Math_max WatchTable.clamped]. lia.
    + rewrite lookup_insert_ne in Hj by exact Hne.
      destruct (H1 j r Hj) as (w' & c' & Hr' & Hid' & Hint' & Htm' & Hc' & Hrest).
      exists w', c'. rewrite lookup_app_l by (eapply lookup_lt_Some, Hr').
      repeat split; try assumption; try apply Hrest.
      rewrite lookup_insert_ne; [exact Htm' |].
      destruct (H2 _ _ Htm') as [Hlt _]. lia.
  - intros t c Ht. destruct (decide (nextTimer s1 = t)) as [<- | Hne].
    + rewrite lookup_insert_eq in Ht. injection Ht as <-. split; [lia |].
      cbn [c_id]. rewrite lookup_insert_eq.
      eexists _, _. split; [reflexivity |].
      rewrite lookup_app_r, Nat.sub_diag by lia. split; reflexivity.
    + rewrite lookup_insert_ne in Ht by exact Hne.
      destruct (H2 t c Ht) as (Hlt & r' & w' & Hi' & Hr' & Htm').
      split; [lia |]. exists r', w'.
      rewrite lookup_insert_ne by (intros Heq; rewrite <- Heq in Hi'; congruence).
      rewrite lookup_app_l by (eapply lookup_lt_Some, Hr').
      repeat split; assumption.
Qed.

Lemma consistent_stop_fold (l : list string) (s : State) :
  WatchTable.consistent s -> WatchTable.consistent (foldr stopMemoryWatch s l).
Proof.
  intros Hs. induction l as [| i l IH]; cbn [foldr]; [exact Hs |].
  now apply consistent_stop.
Qed.

Lemma consistent_step (e : Event) (s : State) :
  WatchTable.consistent s -> WatchTable.consistent (fst (step e s)).
Proof.
  intros Hs. destruct e; cbn [step fst].
  - destruct (hasBackend s); [now apply consistent_start | exact Hs].
  - now apply consistent_stop.
  - unfold tick.
    destruct (timers s !! t) as [c |]; [| exact Hs].
    destruct (watches s !! c_id c) as [r |]; [| exact Hs].
    destruct (heap s !! r) as [w |]; [| exact Hs].
    destruct (inFlight w || watchesSuspended s); [exact Hs |].
    apply (consistent_same s); try reflexivity; [exact Hs |].
    cbn [heap]. now apply same_watches_alter.
  - unfold settle.
    destruct (polls s !! p) as [q |]; [| exact Hs]. cbn [fst].
    set (s0 := with_polls (delete p) s).
    assert (H0 : WatchTable.consistent s0) by (apply (consistent_same s); try reflexivity;
                                    [exact Hs | apply same_watches_refl]).
    assert (H1 : forall s1 out,
               WatchTable.consistent s1 ->
               WatchTable.consistent (fst (match watches s1 !! c_id (p_closure q) with
                                | Some r' => with_heap (alter (set_inFlight false) r') s1
                                | None => s1
                                end, out : list (nat * Frame)))).
    { intros s1 out Hs1. cbn [fst].
      destruct (watches s1 !! c_id (p_closure q)); [| exact Hs1].
      apply (consistent_same s1); try reflexivity; [exact Hs1 |].
      cbn [heap with_heap]. now apply same_watches_alter. }
    destruct res as [data | e | |]; try (apply (H1 s0 []); exact H0).
    destruct (heap s0 !! p_watch q) as [w |]; [| apply (H1 s0 []); exact H0].
    destruct (decide (Some (sha256 data) = lastHash w)); [apply (H1 s0 []); exact H0 |].
    apply H1. apply (consistent_same s0); try reflexivity; [exact H0 |].
    cbn [heap with_heap]. now apply same_watches_alter.
  - exact Hs.
  - unfold resumeAllWatches, invalidateAllWatches.
    apply (consistent_same s); try reflexivity; [exact Hs |].
    cbn [heap with_heap with_suspended]. now apply same_watches_fold.
  - unfold resumeAllWatches, invalidateAllWatches.
    apply (consistent_same s); try reflexivity; [exact Hs |].
    cbn [heap with_heap with_suspended]. now apply same_watches_fold.
  - exact Hs.
  - unfold stopAllWatches. now apply consistent_stop_fold.
Qed.

Lemma consistent_run (evs : list Event) :
  forall s, WatchTable.consistent s -> WatchTable.consistent (WatchTable.run evs s).
Proof.
  induction evs as [| e evs IH]; intros s Hs; [exact Hs |].
  cbn [WatchTable.run fold_left]. apply IH. now apply consistent_step.
Qed.

Lemma stopMemoryWatch_frame (i : string) (s : State) :
  nextTimer (stopMemoryWatch i s) = nextTimer s
  /\ hasBackend (stopMemoryWatch i s) = hasBackend s.
Proof.
  unfold stopMemoryWatch. destruct (watches s !! i) as [r |]; [| now split].
  destruct (heap s !! r); now split.
Qed.

Lemma stop_fold_hasBackend (l : list string) (s : State) :
  hasBackend (foldr stopMemoryWatch s l) = hasBackend s.
Proof.
  induction l as [| i l IH]; [reflexivity |].
  cbn [foldr]. now rewrite (proj2 (stopMemoryWatch_frame i _)).
Qed.

(** No event takes the backend away. *)
Lemma step_hasBackend (e : Event) (s : State) :
  hasBackend (fst (step e s)) = hasBackend s.
Proof.
  destruct e; cbn [step fst].
  - destruct (hasBackend s) eqn:Hb; [| exact Hb].
    unfold startMemoryWatch. cbn [hasBackend].
    now rewrite (proj2 (stopMemoryWatch_frame i s)).
  - apply stopMemoryWatch_frame.
  - unfold tick.
    destruct (timers s !! t) as [c |]; [| reflexivity].
    destruct (watches s !! c_id c) as [r |]; [| reflexivity].
    destruct (heap s !! r) as [w |]; [| reflexivity].
    destruct (inFlight w || watchesSuspended s); reflexivity.
  - unfold settle.
    destruct (polls s !! p) as [q |]; [| reflexivity].
    assert (Hfin : forall (s1 : State) (out : list (nat * Frame)),
              hasBackend s1 = hasBackend s ->
              hasBackend (fst (match watches s1 !! c_id (p_closure q) with
                               | Some r' => with_heap (alter (set_inFlight false) r') s1
                               | None => s1
                               end, out)) = hasBackend s).
    { intros s1 out H1. cbn [fst].
      destruct (watches s1 !! c_id (p_closure q)); exact H1. }
    destruct res as [data | err | |]; try (apply Hfin; reflexivity).
    destruct (heap (with_polls (delete p) s) !! p_watch q) as [w |];
      [| apply Hfin; reflexivity].
    destruct (decide (Some (sha256 data) = lastHash w)); apply Hfin; reflexivity.
  - reflexivity.
  - reflexivity.
  - reflexivity.
  - reflexivity.
  - unfold stopAllWatches. apply stop_fold_hasBackend.
Qed.

Lemma run_hasBackend (evs : list Event) :
  forall s, hasBackend (WatchTable.run evs s) = hasBackend s.
Proof.
  induction evs as [| e evs IH]; intros s; [reflexivity |].
  cbn [WatchTable.run fold_left]. change (fold_left _ evs ?x) with (WatchTable.run evs x).
  now rewrite IH, step_hasBackend.
Qed.

Lemma initial_consistent : WatchTable.consistent initial.
Proof.
  split; intros ? ? H; cbn in H; rewrite lookup_empty in H; discriminate H.
Qed.


(** When the server closes, the timers of a consistent table all go. *)
Lemma stopAllWatches_timers (s : State) :
  WatchTable.consistent s -> timers (stopAllWatches s) = ∅.
Proof.
  intros Hs.
  pose proof (consistent_stop_fold (map fst (map_to_list (watches s))) s Hs) as [_ H2].
  fold (stopAllWatches s) in H2.
  apply map_eq. intros t. rewrite lookup_empty.
  destruct (timers (stopAllWatches s) !! t) as [c |] eqn:Ht; [| reflexivity].
  destruct (H2 t c Ht) as (_ & r & w & Hi & _).
  rewrite stopAllWatches_empty, lookup_empty in Hi. discriminate Hi.
Qed.



End MemoryWatchFacts.

Module QemuFacts.
Import JS Errors Address Qemu.
Local Open Scope list_scope.

(** [await_response] reads the events that come before the first reply,
    and ends as the reply says; with only events to read it stays
    unsettled. *)
Lemma await_response_reads_return (names : list string) (v : string)
  (rest : list QmpMessage) :
  await_response (events names ++ QmpReturn v :: rest)
  = (Returned v, rest, received names ++ [QmpReceive (QmpReturn v)]).
Proof.
  induction names as [| n names IH]; cbn [events received map app await_response];
    [reflexivity |].
  unfold events, received in IH. now rewrite IH.
Qed.

Lemma await_response_reads_error (names : list string) (cls desc : string)
  (rest : list QmpMessage) :
  await_response (events names ++ QmpError cls desc :: rest)
  = (Thrown {| error_class := ProtocolError;
               message := ("QMP error (" ++ cls ++ "): " ++ desc)%string |},
     rest, received names ++ [QmpReceive (QmpError cls desc)]).
Proof.
  induction names as [| n names IH]; cbn [events received map app await_response];
    [reflexivity |].
  unfold events, received in IH. now rewrite IH.
Qed.

Lemma await_response_reads_events (names : list string) :
  await_response (events names) = (Unsettled, [], received names).
Proof.
  induction names as [| n names IH]; cbn [events received map await_response];
    [reflexivity |].
  unfold events, received in IH. now rewrite IH.
Qed.

(** What the socket delivers is a run of events, alone or followed by a
    first reply. *)
Lemma inbox_first_reply (msgs : list QmpMessage) :
  (exists names, msgs = events names)
  \/ (exists names v rest, msgs = events names ++ QmpReturn v :: rest)
  \/ (exists names cls desc rest, msgs = events names ++ QmpError cls desc :: rest).
Proof.
  induction msgs as [| m msgs IH]; [left; now exists [] |].
  destruct m as [v | cls desc | n].
  - right. left. now exists [], v, msgs.
  - right. right. now exists [], cls, desc, msgs.
  - destruct IH as [[names ->] | [(names & v & rest & ->) | (names & cls & desc & rest & ->)]].
    + left. now exists (n :: names).
    + right. left. now exists (n :: names), v, rest.
    + right. right. now exists (n :: names), cls, desc, rest.
Qed.

(** Without a machine-control client nothing is emitted or sent. *)
Lemma loadSnapshot_requires_qmp (b : QemuBackend) (name : string) (t0 t1 : Z) :
  qmp b = None ->
  loadSnapshot name t0 t1 b = (Thrown (plain_error "QMP not connected"), b).
Proof. intros H. unfold loadSnapshot. now rewrite H. Qed.

(** C9: on a backend whose machine-control client is connected,
    [loadSnapshot] first emits the status event [paused] and
    [snapshot:loading], and only then writes the [loadvm] request.  What
    follows depends on what the emulator sends back, events aside:
    - a [return] and, to the [cont] request written next, another
      [return]: status [running] and [snapshot:loaded] are emitted right
      after the second reply is read, the call returns and the status is
      [running];
    - an [error] to [loadvm], or a [return] and then an [error] to [cont]:
      [snapshot:load-failed] with the message of the error is emitted
      right after that reply is read, nothing else is emitted, the same
      error is thrown to the caller and the status stays [paused];
    - no reply: nothing is emitted after [snapshot:loading], the call does
      not settle and the status stays [paused]. *)
Theorem C9_loadSnapshot_event_order
  (b : QemuBackend) (c : QmpClient) (name : string) (t0 t1 : Z) :
  qmp b = Some c -> socket c = true ->
  let r := loadSnapshot name t0 t1 b in
  let request :=
    [Emit (StatusEvent paused); Emit (SnapshotLoadingEvent name t0);
     QmpSend "human-monitor-command" [("command-line", ("loadvm " ++ name)%string)]] in
  let failure cls desc :=
    {| error_class := ProtocolError;
       message := ("QMP error (" ++ cls ++ "): " ++ desc)%string |} in
  (forall n1 v1 n2 v2 rest,
     inbox c = events n1 ++ QmpReturn v1 :: events n2 ++ QmpReturn v2 :: rest ->
     fst r = Returned tt
     /\ trace (snd r)
        = trace b ++ request
          ++ received n1 ++ [QmpReceive (QmpReturn v1); QmpSend "cont" []]
          ++ received n2
          ++ [QmpReceive (QmpReturn v2);
              Emit (StatusEvent running); Emit (SnapshotLoadedEvent name t1)]
     /\ currentStatus (snd r) = running)
  /\ (forall n1 cls desc rest,
        inbox c = events n1 ++ QmpError cls desc :: rest ->
        fst r = Thrown (failure cls desc)
        /\ trace (snd r)
           = trace b ++ request
             ++ received n1
             ++ [QmpReceive (QmpError cls desc);
                 Emit (SnapshotLoadFailedEvent name t1 (message (failure cls desc)))]
        /\ currentStatus (snd r) = paused)
  /\ (forall n1 v1 n2 cls desc rest,
        inbox c = events n1 ++ QmpReturn v1 :: events n2 ++ QmpError cls desc :: rest ->
        fst r = Thrown (failure cls desc)
        /\ trace (snd r)
           = trace b ++ request
             ++ received n1 ++ [QmpReceive (QmpReturn v1); QmpSend "cont" []]
             ++ received n2
             ++ [QmpReceive (QmpError cls desc);
                 Emit (SnapshotLoadFailedEvent name t1 (message (failure cls desc)))]
        /\ currentStatus (snd r) = paused)
  /\ (forall n1,
        inbox c = events n1 ->
        fst r = Unsettled
        /\ trace (snd r) = trace b ++ request ++ received n1
        /\ currentStatus (snd r) = paused)
  /\ (forall n1 v1 n2,
        inbox c = events n1 ++ QmpReturn v1 :: events n2 ->
        fst r = Unsettled
        /\ trace (snd r)
           = trace b ++ request
             ++ received n1 ++ [QmpReceive (QmpReturn v1); QmpSend "cont" []]
             ++ received n2
        /\ currentStatus (snd r) = paused).
Proof.
  intros Hq Hs. cbv zeta. unfold loadSnapshot, qmp_loadSnapshot, execute.
  rewrite Hq, Hs.
  split; [| split; [| split; [| split]]].
  - intros n1 v1 n2 v2 rest ->.
    rewrite await_response_reads_return. cbn [socket inbox].
    rewrite await_response_reads_return.
    cbn [fst snd progress trace currentStatus].
    split; [reflexivity |]. split; [| reflexivity].
    f_equal. cbn [app]. rewrite <- !app_assoc. reflexivity.
  - intros n1 cls desc rest ->.
    rewrite await_response_reads_error.
    cbn [fst snd progress trace currentStatus message].
    split; [reflexivity |]. split; [| reflexivity].
    f_equal. cbn [app]. rewrite <- !app_assoc. reflexivity.
  - intros n1 v1 n2 cls desc rest ->.
    rewrite await_response_reads_return. cbn [socket inbox].
    rewrite await_response_reads_error.
    cbn [fst snd progress trace currentStatus message].
    split; [reflexivity |]. split; [| reflexivity].
    f_equal. cbn [app]. rewrite <- !app_assoc. reflexivity.
  - intros n1 ->.
    rewrite await_response_reads_events.
    cbn [fst snd progress trace currentStatus].
    split; [reflexivity |]. split; reflexivity.
  - intros n1 v1 n2 ->.
    rewrite await_response_reads_return. cbn [socket inbox].
    rewrite await_response_reads_events.
    cbn [fst snd progress trace currentStatus].
    split; [reflexivity |]. split; [| reflexivity].
    f_equal. cbn [app]. rewrite <- !app_assoc, ?app_nil_r. reflexivity.
Qed.

(** The emulator reports a [STOP] event and then refuses the [loadvm]:
    [snapshot:load-failed] is the last thing emitted, with the message of
    the error that is thrown. *)
Lemma C9_loadSnapshot_event_order_witness :
  let b := connected_backend [QmpEvent "STOP"; QmpError "GenericError" "no snapshot"] [] in
  let e := {| error_class := ProtocolError;
              message := "QMP error (GenericError): no snapshot" |} in
  fst (loadSnapshot "s1" 10 20 b) = Thrown e
  /\ trace (snd (loadSnapshot "s1" 10 20 b))
     = [Emit (StatusEvent paused); Emit (SnapshotLoadingEvent "s1" 10);
        QmpSend "human-monitor-command" [("command-line", "loadvm s1"%string)];
        QmpReceive (QmpEvent "STOP");
        QmpReceive (QmpError "GenericError" "no snapshot");
        Emit (SnapshotLoadFailedEvent "s1" 20 "QMP error (GenericError): no snapshot")]
  /\ currentStatus (snd (loadSnapshot "s1" 10 20 b)) = paused.
Proof.
  destruct (C9_loadSnapshot_event_order
              (connected_backend [QmpEvent "STOP"; QmpError "GenericError" "no snapshot"] [])
              {| socket := true;
                 inbox := [QmpEvent "STOP"; QmpError "GenericError" "no snapshot"] |}
              "s1" 10 20 eq_refl eq_refl) as (_ & Hfail & _).
  exact (Hfail ["STOP"%string] "GenericError"%string "no snapshot"%string [] eq_refl).
Defined.

Example loadSnapshot_failure_trace :
  loadSnapshot "s1" 10 20
    (connected_backend [QmpEvent "STOP"; QmpError "GenericError" "no snapshot"] [])
  = (Thrown {| error_class := ProtocolError;
               message := "QMP error (GenericError): no snapshot" |},
     {| qmp := Some {| socket := true; inbox := [] |};
        gdb := Some {| Gdb.connected := true; Gdb.sent := []; Gdb.replies := [] |};
        currentStatus := paused; breakpoints := []; nextBpId := 1;
        trace := [Emit (StatusEvent paused); Emit (SnapshotLoadingEvent "s1" 10);
                  QmpSend "human-monitor-command" [("command-line", "loadvm s1"%string)];
                  QmpReceive (QmpEvent "STOP");
                  QmpReceive (QmpError "GenericError" "no snapshot");
                  Emit (SnapshotLoadFailedEvent "s1" 20
                          "QMP error (GenericError): no snapshot")] |}).
Proof. reflexivity. Qed.

(** The sibling path: [removeBreakpoint] writes [z0] to the stub before it
    deletes the entry, so table and registry are both empty afterwards. *)
Example removeBreakpoint_keeps_sets_equal :
  let b0 := connected_backend [] ["OK"%string; "OK"%string] in
  let g0 := {| Gdb.connected := true; Gdb.sent := [];
               Gdb.replies := ["OK"%string; "OK"%string] |} in
  let b1 := snd (setBreakpoint execution (parseAddress "0x1000") b0) in
  let b2 := snd (removeBreakpoint "bp_1" b1) in
  table_addresses b1 = ["1000"%string]
  /\ (stub_registered g0 <$> gdb b1) = Some ["1000"%string]
  /\ (Gdb.sent <$> gdb b2) = Some ["Z0,1000,1"%string; "z0,1000,1"%string]
  /\ table_addresses b2 = []
  /\ (stub_registered g0 <$> gdb b2) = Some [].
Proof. vm_compute. repeat split; reflexivity. Qed.

(** C5 on the code: an execution breakpoint is set at 0x1000, which puts
    it in the table and, with the stub's [OK], in the stub's registry;
    then a snapshot is loaded.  The load empties the table and writes
    nothing to the debug stub, so the registry still holds 0x1000: the two
    sets differ after the operation. *)
Theorem C5_loadSnapshot_leaves_stub_breakpoints :
  let b0 := connected_backend [QmpReturn EmptyString; QmpReturn EmptyString] ["OK"%string] in
  let g0 := {| Gdb.connected := true; Gdb.sent := []; Gdb.replies := ["OK"%string] |} in
  let b1 := snd (setBreakpoint execution (parseAddress "0x1000") b0) in
  let b2 := snd (loadSnapshot "s1" 10 20 b1) in
  (table_addresses b1 = ["1000"%string]
   /\ (stub_registered g0 <$> gdb b1) = Some ["1000"%string])
  /\ fst (loadSnapshot "s1" 10 20 b1) = Returned tt
  /\ table_addresses b2 = []
  /\ fst (listBreakpoints b2) = Returned []
  /\ gdb b2 = gdb b1
  /\ (stub_registered g0 <$> gdb b2) = Some ["1000"%string].
Proof.
  vm_compute. repeat split; reflexivity.
Qed.

End QemuFacts.

Module CaptureFacts.
Import JS Errors Address Capture.
Local Open Scope list_scope.

Section PipelineFacts.

Context {Registers World : Type} {backend : Backend Registers World}.
Context (writeFileSync : string -> Buffer -> World -> outcome unit * World).
Context (stringify : Registers -> Buffer).

Abbreviation M := (@Capture.M World).

Lemma erase_returned {A B : Type} (o : outcome A) (o' : outcome B) :
  erase o = erase o' -> returned o' = returned o.
Proof. destruct o, o'; cbn; intros H; try discriminate H; reflexivity. Qed.

Lemma ended_as_retype {A B : Type} (c : Call) (o : outcome A) (o' : outcome B)
  (w : World) :
  erase o = erase o' ->
  ended_as writeFileSync c o w -> ended_as writeFileSync c o' w.
Proof.
  intros He (Hr & C & op & w0 & Hp & Hw & Ho). split.
  - now rewrite (erase_returned o o' He).
  - exists C, op, w0. repeat split; [exact Hp | exact Hw | congruence].
Qed.

Lemma stage_ret (P : Call -> bool) {A : Type} (a : A) :
  stage writeFileSync P (ret a : M A).
Proof.
  intros st. exists []. cbn. rewrite app_nil_r. repeat split; constructor.
Qed.

Lemma stage_invoke (P : Call -> bool) {A : Type} (c : Call)
  (op : World -> outcome A * World) :
  P c = true -> performs writeFileSync c A op ->
  stage writeFileSync P (invoke c op).
Proof.
  intros Hc Hp st. unfold invoke. destruct (op (world st)) as [o w] eqn:E.
  exists [(c, returned o)]. cbn [snd fst calls world].
  split; [reflexivity |]. split; [repeat constructor; exact Hc |].
  assert (Hend : returned o = false -> ended_as writeFileSync c o w).
  { intros Hr. split; [exact Hr |]. exists A, op, (world st).
    rewrite E. repeat split. exact Hp. }
  destruct o; cbn [returned] in *;
    try (exists [], c; split; [reflexivity |]; split; [constructor | now apply Hend]).
  repeat constructor.
Qed.

Lemma stage_bind (P : Call -> bool) {A B : Type} (m : M A) (k : A -> M B) :
  stage writeFileSync P m -> (forall a, stage writeFileSync P (k a)) ->
  stage writeFileSync P (m ≫= k).
Proof.
  intros Hm Hk st. unfold mbind, M_bind, bind.
  destruct (Hm st) as (l1 & Hl1 & Hn1 & Ho1).
  destruct (m st) as [o1 st1]. cbn [fst snd] in *.
  destruct o1 as [a | e | |];
    try (exists l1; cbn [fst snd]; split; [assumption |]; split; [assumption |];
         destruct Ho1 as (pre & c & -> & Hpre & Hend); exists pre, c;
         split; [reflexivity |]; split; [assumption |];
         now apply (ended_as_retype c _ _ _ eq_refl Hend)).
  destruct (Hk a st1) as (l2 & Hl2 & Hn2 & Ho2).
  exists (l1 ++ l2). rewrite Hl2, Hl1, app_assoc.
  split; [reflexivity |]. split; [apply Forall_app; now split |].
  destruct (fst (k a st1)).
  - apply Forall_app; now split.
  - destruct Ho2 as (pre & c & -> & Hpre & Hend). exists (l1 ++ pre), c.
    rewrite app_assoc. split; [reflexivity |]. split; [apply Forall_app; now split | exact Hend].
  - destruct Ho2 as (pre & c & -> & Hpre & Hend). exists (l1 ++ pre), c.
    rewrite app_assoc. split; [reflexivity |]. split; [apply Forall_app; now split | exact Hend].
  - destruct Ho2 as (pre & c & -> & Hpre & Hend). exists (l1 ++ pre), c.
    rewrite app_assoc. split; [reflexivity |]. split; [apply Forall_app; now split | exact Hend].
Qed.

Ltac stage_steps :=
  repeat first
    [ apply stage_ret
    | apply stage_invoke; [reflexivity | constructor]
    | apply stage_bind; [| intros ?] ].

Lemma stage_ranges (dir : string) (ranges : list MemoryRange) :
  forall result,
    stage writeFileSync is_capture (capture_ranges writeFileSync dir ranges result).
Proof.
  induction ranges as [| range rest IH]; intros result; cbn [capture_ranges].
  - apply stage_ret.
  - apply stage_bind; [stage_steps |]. intros data.
    apply stage_bind; [stage_steps |]. intros _.
    apply IH.
Qed.

(** The last stage: [resume], then the result is returned. *)
Lemma captures_final {A : Type} (r : A) :
  captures_then_resume writeFileSync (invoke CResume resume;; (ret r : M A)).
Proof.
  intros st. unfold mbind, M_bind, bind, invoke, ret.
  destruct (resume (world st)) as [o w] eqn:E.
  exists []. split; [constructor |]. split; [constructor |].
  assert (Hend : forall (o' : outcome A),
            returned o = false -> erase o = erase o' ->
            ended_as writeFileSync CResume o' w).
  { intros o' Hr He. split; [now rewrite (erase_returned o o' He) |].
    exists unit, resume, (world st). rewrite E. repeat split; [constructor | exact He]. }
  destruct o as [[] | e | |]; cbn [fst snd calls world returned app].
  - right. right. split; [reflexivity |]. now exists r.
  - right. left. split; [reflexivity |]. now apply Hend.
  - right. left. split; [reflexivity |]. now apply Hend.
  - right. left. split; [reflexivity |]. now apply Hend.
Qed.

Lemma captures_bind {A B : Type} (m : M A) (k : A -> M B) :
  stage writeFileSync is_capture m ->
  (forall a, captures_then_resume writeFileSync (k a)) ->
  captures_then_resume writeFileSync (m ≫= k).
Proof.
  intros Hm Hk st. unfold mbind, M_bind, bind.
  destruct (Hm st) as (l1 & Hl1 & Hn1 & Ho1).
  destruct (m st) as [o1 st1]. cbn [fst snd] in *.
  destruct o1 as [a | e | |];
    try (destruct Ho1 as (pre & c & -> & Hpre & Hend);
         apply Forall_app in Hn1 as [Hn1 Hc];
         exists pre; split; [exact Hpre |]; split; [exact Hn1 |];
         left; exists c; cbn [fst snd];
         split; [now inversion Hc |]; split; [exact Hl1 |];
         now apply (ended_as_retype c _ _ _ eq_refl Hend)).
  destruct (Hk a st1) as (l2 & Hs2 & Hc2 & Hcases).
  exists (l1 ++ l2).
  split; [apply Forall_app; now split |]. split; [apply Forall_app; now split |].
  rewrite Hl1 in Hcases.
  destruct Hcases as [(c & Hc & Hcalls & Hend) | [(Hcalls & Hend) | (Hcalls & Hres)]].
  - left. exists c. rewrite Hcalls, <- !app_assoc.
    split; [assumption |]. split; [reflexivity | assumption].
  - right. left. rewrite Hcalls, <- !app_assoc.
    split; [reflexivity | assumption].
  - right. right. rewrite Hcalls, <- !app_assoc.
    split; [reflexivity | assumption].
Qed.

Lemma pause_at {B : Type} (k : unit -> M B) :
  (forall a, captures_then_resume writeFileSync (k a)) ->
  pause_branch writeFileSync (invoke CPause pause ≫= k).
Proof.
  intros Hk st. unfold mbind, M_bind, bind, invoke.
  destruct (pause (world st)) as [o w] eqn:E.
  exists []. split; [constructor |]. split; [constructor |].
  assert (Hend : forall (o' : outcome B),
            returned o = false -> erase o = erase o' ->
            ended_as writeFileSync CPause o' w).
  { intros o' Hr He. split; [now rewrite (erase_returned o o' He) |].
    exists unit, pause, (world st). rewrite E. repeat split; [constructor | exact He]. }
  destruct o as [[] | e | |]; cbn [returned];
    try (left; exists CPause; cbn [fst snd calls world app];
         split; [now right |]; split; [reflexivity |]; now apply Hend).
  destruct (Hk tt {| world := w; calls := calls st ++ [(CPause, true)] |})
    as (caps & Hs & Hc & Hcases).
  cbn [calls] in Hcases. right. exists caps.
  split; [exact Hs |]. split; [exact Hc |]. cbn [app].
  destruct Hcases as [(c & Hcc & Hcalls & Hend') | [(Hcalls & Hend') | (Hcalls & Hres)]].
  - left. exists c. rewrite Hcalls, <- !app_assoc.
    split; [assumption |]. split; [reflexivity | assumption].
  - right. left. rewrite Hcalls, <- !app_assoc.
    split; [reflexivity | assumption].
  - right. right. rewrite Hcalls, <- !app_assoc.
    split; [reflexivity | assumption].
Qed.

Lemma pause_after {A B : Type} (m : M A) (k : A -> M B) :
  stage writeFileSync is_prelude m ->
  (forall a, pause_branch writeFileSync (k a)) ->
  pause_branch writeFileSync (m ≫= k).
Proof.
  intros Hm Hk st. unfold mbind, M_bind, bind.
  destruct (Hm st) as (l1 & Hl1 & Hn1 & Ho1).
  destruct (m st) as [o1 st1]. cbn [fst snd] in *.
  destruct o1 as [a | e | |];
    try (destruct Ho1 as (pre & c & -> & Hpre & Hend);
         apply Forall_app in Hn1 as [Hn1 Hc];
         exists pre; split; [exact Hpre |]; split; [exact Hn1 |];
         left; exists c; cbn [fst snd];
         split; [left; now inversion Hc |]; split; [exact Hl1 |];
         now apply (ended_as_retype c _ _ _ eq_refl Hend)).
  destruct (Hk a st1) as (l2 & Hs2 & Hp2 & Hcases).
  exists (l1 ++ l2).
  split; [apply Forall_app; now split |]. split; [apply Forall_app; now split |].
  rewrite Hl1 in Hcases.
  destruct Hcases as [(c & Hc & Hcalls & Hend) | (caps & Hs & Hcc & Hcases)].
  - left. exists c. rewrite Hcalls, <- !app_assoc.
    split; [assumption |]. split; [reflexivity | assumption].
  - right. exists caps. split; [exact Hs |]. split; [exact Hcc |].
    destruct Hcases as [(c & Hc & Hcalls & Hend) | [(Hcalls & Hend) | (Hcalls & Hres)]].
    + left. exists c. rewrite Hcalls, <- !app_assoc.
    split; [assumption |]. split; [reflexivity | assumption].
    + right. left. rewrite Hcalls, <- !app_assoc.
    split; [reflexivity | assumption].
    + right. right. rewrite Hcalls, <- !app_assoc.
    split; [reflexivity | assumption].
Qed.

(** C10: a run without breakpoint makes its calls in this order: the
    prelude (snapshot load, key injection and their waits), [pause], the
    captures (reads of framebuffer, screenshot, registers and memory
    ranges, and the writes of their files), [resume]; and it makes no call
    after one that did not return.  So the log of a run is one of:
    - prelude calls that returned, then a prelude call or the [pause] that
      did not return;
    - prelude calls and the [pause], all returned, then capture calls that
      returned, then a capture call that did not return: no [resume] is
      made and the backend is left as that call left it, paused;
    - all those calls returned, then a [resume] that did not return;
    - all those calls returned, then a [resume] that returned: only then
      does the run return.
    In the first three cases the run ends as the call that did not return:
    when the operation threw, the run throws the same error to the
    caller. *)
Theorem C10_failure_after_pause_skips_resume
  (dir : string) (request : CaptureRequest) (now : Z) (st : RunState World) :
  breakpoint request = None ->
  let o := fst (run writeFileSync stringify dir request now st) in
  let st' := snd (run writeFileSync stringify dir request now st) in
  exists before : list (Call * bool),
    Forall succeeded before
    /\ Forall (fun e => is_prelude (fst e) = true) before
    /\ ((exists c, (is_prelude c = true \/ c = CPause)
                   /\ calls st' = calls st ++ before ++ [(c, false)]
                   /\ ended_as writeFileSync c o (world st'))
        \/ exists captures : list (Call * bool),
             Forall succeeded captures
             /\ Forall (fun e => is_capture (fst e) = true) captures
             /\ ((exists c, is_capture c = true
                            /\ calls st'
                               = calls st ++ before ++ [(CPause, true)] ++ captures
                                 ++ [(c, false)]
                            /\ ended_as writeFileSync c o (world st'))
                 \/ (calls st'
                     = calls st ++ before ++ [(CPause, true)] ++ captures
                       ++ [(CResume, false)]
                     /\ ended_as writeFileSync CResume o (world st'))
                 \/ (calls st'
                     = calls st ++ before ++ [(CPause, true)] ++ captures
                       ++ [(CResume, true)]
                     /\ exists result, o = Returned result))).
Proof.
  intros Hbp. cbv zeta. revert st.
  change (pause_branch writeFileSync (run writeFileSync stringify dir request now)).
  unfold run. rewrite Hbp.
  apply pause_after.
  { destruct (snapshot request) as [[| c s] |]; unfold sleep; stage_steps. }
  intros _. apply pause_after.
  { destruct (keys request) as [[| k ks] |]; unfold sleep; stage_steps. }
  intros _. apply pause_at. intros _.
  apply captures_bind.
  { destruct (not_false (captureFramebuffer request)); cbv zeta; stage_steps. }
  intros r1. apply captures_bind.
  { destruct (not_false (captureScreenshot request)); stage_steps. }
  intros r2. apply captures_bind.
  { destruct (not_false (captureRegisters request)); stage_steps. }
  intros r3. apply captures_bind.
  { destruct (memoryRanges request) as [ranges |]; [apply stage_ranges | apply stage_ret]. }
  intros r4. apply captures_final.
Qed.

End PipelineFacts.

(** On the sample backend the screenshot throws after the pause: the
    error reaches the caller, [resume] is never called and the paused flag
    stays set. *)
Example run_screenshot_failure :
  run flag_writeFileSync flag_stringify "captures" sample_request 0
    {| world := false; calls := [] |}
  = (Thrown {| error_class := PlainError;
               message := "Screenshots require interactive DOSBox-X session (Ctrl+F5)" |},
     {| world := true; calls := [(CPause, true); (CScreenshot, false)] |}).
Proof. reflexivity. Qed.

(** On the sample backend the screenshot is refused after the pause: the
    log ends with that call, and the run throws the error of the
    screenshot. *)
Lemma C10_failure_after_pause_skips_resume_witness :
  let st := {| world := false; calls := [] |} in
  let o := fst (run flag_writeFileSync flag_stringify "captures" sample_request 0 st) in
  let st' := snd (run flag_writeFileSync flag_stringify "captures" sample_request 0 st) in
  o = Thrown {| error_class := PlainError;
                message := "Screenshots require interactive DOSBox-X session (Ctrl+F5)" |}
  /\ calls st' = [(CPause, true); (CScreenshot, false)]
  /\ world st' = true
  /\ exists before : list (Call * bool),
       Forall succeeded before
       /\ Forall (fun e => is_prelude (fst e) = true) before
       /\ ((exists c, (is_prelude c = true \/ c = CPause)
                      /\ calls st' = calls st ++ before ++ [(c, false)]
                      /\ ended_as flag_writeFileSync c o (world st'))
           \/ exists captures : list (Call * bool),
                Forall succeeded captures
                /\ Forall (fun e => is_capture (fst e) = true) captures
                /\ ((exists c, is_capture c = true
                               /\ calls st'
                                  = calls st ++ before ++ [(CPause, true)] ++ captures
                                    ++ [(c, false)]
                               /\ ended_as flag_writeFileSync c o (world st'))
                    \/ (calls st'
                        = calls st ++ before ++ [(CPause, true)] ++ captures
                          ++ [(CResume, false)]
                        /\ ended_as flag_writeFileSync CResume o (world st'))
                    \/ (calls st'
                        = calls st ++ before ++ [(CPause, true)] ++ captures
                          ++ [(CResume, true)]
                        /\ exists result, o = Returned result))).
Proof.
  split; [reflexivity |]. split; [reflexivity |]. split; [reflexivity |].
  exact (C10_failure_after_pause_skips_resume flag_writeFileSync flag_stringify
           "captures" sample_request 0 {| world := false; calls := [] |} eq_refl).
Defined.

End CaptureFacts.


(* ===================================================================== *)
(** * Further properties of the address functions *)
(* ===================================================================== *)

Module AddressMore.
Import JS Address Literal.

Lemma wrap32_mod16 (z : Z) : wrap32 z mod 2 ^ 16 = z mod 2 ^ 16.
Proof.
  pose proof (AddressFacts.wrap32_mod z) as H.
  assert (Hd : (2 ^ 16 | 2 ^ 32)) by (exists (2 ^ 16); lia).
  rewrite <- (Z.mod_mod_divide (wrap32 z) (2 ^ 32) (2 ^ 16) Hd), H.
  apply Z.mod_mod_divide, Hd.
Qed.

Lemma band_mask16 (n : number) :
  band n (Num 65535) = Num (value_or_zero n mod 65536).
Proof.
  unfold band. change (ToInt32 (Num 65535)) with 65535.
  rewrite AddressFacts.land_ones16. f_equal.
  destruct n as [| z]; cbn [ToInt32 value_or_zero]; [reflexivity |].
  apply wrap32_mod16.
Qed.

(** X1: [segOffToLinear] is total on numbers: it masks both parts to 16
    bits ([NaN] counting as 0) and returns the integer
    [(seg mod 2^16) * 16 + off mod 2^16], which lies in 0..0x10FFEF; it
    never returns [NaN] and never a negative or larger value. *)
Theorem segOffToLinear_total (seg off : number) :
  segOffToLinear seg off
  = Num ((value_or_zero seg mod 65536) * 16 + value_or_zero off mod 65536)
  /\ 0 <= (value_or_zero seg mod 65536) * 16 + value_or_zero off mod 65536 <= 1114095.
Proof.
  pose proof (Z.mod_pos_bound (value_or_zero seg) 65536 ltac:(lia)) as Hs.
  pose proof (Z.mod_pos_bound (value_or_zero off) 65536 ltac:(lia)) as Ho.
  split; [| lia].
  unfold segOffToLinear. rewrite !band_mask16.
  unfold add, shl, ToInt32. change (4 mod 32) with 4.
  rewrite (AddressFacts.wrap32_id (value_or_zero seg mod 65536)) by lia.
  rewrite Z.shiftl_mul_pow2 by lia.
  rewrite AddressFacts.wrap32_id by lia. f_equal.
Qed.

(** X2: [linearToSegOff] is total on numbers: the segment is bits 4..19
    and the offset bits 0..3 of the integer ([NaN] counting as 0), so the
    segment is always in 0..65535 and the offset in 0..15. *)
Theorem linearToSegOff_total (lin : number) :
  linearToSegOff lin
  = {| segment := Num ((value_or_zero lin / 16) mod 65536);
       offset := Num (value_or_zero lin mod 16) |}
  /\ 0 <= (value_or_zero lin / 16) mod 65536 < 65536
  /\ 0 <= value_or_zero lin mod 16 < 16.
Proof.
  split; [| split; apply Z.mod_pos_bound; lia].
  destruct lin as [| z]; [reflexivity |].
  apply AddressFacts.linearToSegOff_fields.
Qed.

(** X3: for a literal that contains a colon [parseAddress] never yields a
    [NaN] linear: the parts are parsed as hex and put in [segOff] as they
    are (possibly [NaN], possibly beyond 16 bits), while the linear is
    computed from their low 16 bits, a part that does not parse counting
    as 0; the linear is always an integer in 0..0x10FFEF. *)
Theorem parseAddress_colon_linear (input : string) :
  includes input ":" = true ->
  let a := parseAddress input in
  segment (segOff a) = parseInt (element (split input ":") 0) 16
  /\ offset (segOff a) = parseInt (element (split input ":") 1) 16
  /\ linear a
     = Num ((value_or_zero (segment (segOff a)) mod 65536) * 16
            + value_or_zero (offset (segOff a)) mod 65536)
  /\ exists z, linear a = Num z /\ 0 <= z <= 1114095.
Proof.
  intros Hc a. subst a. unfold parseAddress. rewrite Hc. cbn [segOff segment offset linear].
  split; [reflexivity |]. split; [reflexivity |].
  destruct (segOffToLinear_total (parseInt (element (split input ":") 0) 16)
              (parseInt (element (split input ":") 1) 16)) as [Heq Hr].
  split; [exact Heq |]. eexists. split; [exact Heq | exact Hr].
Qed.

Lemma parseAddress_colon_linear_witness :
  let a := parseAddress "zz:12345" in
  segment (segOff a) = parseInt (element (split "zz:12345" ":") 0) 16
  /\ offset (segOff a) = parseInt (element (split "zz:12345" ":") 1) 16
  /\ linear a
     = Num ((value_or_zero (segment (segOff a)) mod 65536) * 16
            + value_or_zero (offset (segOff a)) mod 65536)
  /\ exists z, linear a = Num z /\ 0 <= z <= 1114095.
Proof. apply (parseAddress_colon_linear "zz:12345"). reflexivity. Defined.

Example parseAddress_garbage_segment :
  parseAddress "zz:12345"
  = {| linear := Num 9029; segOff := {| segment := NaN; offset := Num 74565 |} |}.
Proof. reflexivity. Qed.

Ltac split_ascii c := destruct c as [[] [] [] [] [] [] [] []].

Lemma digit16_facts (c : ascii) :
  is_digit 16 c = true ->
  radix_digit 16 c = Some (HexText.digit_or_zero c)
  /\ Ascii.eqb c ":" = false /\ Ascii.eqb "x" c = false /\ Ascii.eqb "X" c = false.
Proof.
  split_ascii c; intros H; try discriminate H; repeat split; reflexivity.
Qed.

Lemma digit10_facts (c : ascii) :
  is_digit 10 c = true ->
  radix_digit 10 c = Some (HexText.digit_or_zero c)
  /\ is_digit 16 c = true /\ is_whitespace c = false
  /\ Ascii.eqb c "-" = false /\ Ascii.eqb c "+" = false.
Proof.
  split_ascii c; intros H; try discriminate H; repeat split; reflexivity.
Qed.

Lemma parse_digits_run (radix : Z) (s : string) (v : Z) :
  (forall c, is_digit radix c = true ->
             radix_digit radix c = Some (HexText.digit_or_zero c)) ->
  all_digits radix s = true ->
  parse_digits radix s (Some v) = Some (digits_value radix s v).
Proof.
  intros Hd. revert v. induction s as [| c rest IH]; intros v H; cbn in *.
  - reflexivity.
  - apply andb_prop in H as [Hc Hr]. rewrite (Hd c Hc). apply IH, Hr.
Qed.

Lemma parse_digits_first (radix : Z) (c : ascii) (rest : string) :
  (forall c, is_digit radix c = true ->
             radix_digit radix c = Some (HexText.digit_or_zero c)) ->
  all_digits radix (String c rest) = true ->
  parse_digits radix (String c rest) None
  = Some (digits_value radix (String c rest) 0).
Proof.
  intros Hd H. cbn in *. apply andb_prop in H as [Hc Hr]. rewrite (Hd c Hc).
  apply parse_digits_run; assumption.
Qed.

Lemma all_digits_app (radix : Z) (a b : string) :
  all_digits radix (a ++ b) = all_digits radix a && all_digits radix b.
Proof.
  induction a as [| c a IH]; [reflexivity |].
  rewrite FormatFacts.append_cons. cbn [all_digits]. rewrite IH. now rewrite andb_assoc.
Qed.

Lemma digits_value_app (radix : Z) (a b : string) (v : Z) :
  digits_value radix (a ++ b) v = digits_value radix b (digits_value radix a v).
Proof.
  revert v. induction a as [| c a IH]; intros v; [reflexivity |].
  rewrite FormatFacts.append_cons. cbn [digits_value]. apply IH.
Qed.

Lemma hex_char_digit (d : Z) :
  0 <= d < 16 ->
  is_digit 16 (hex_char d) = true /\ HexText.digit_or_zero (hex_char d) = d.
Proof.
  intros H.
  destruct d as [| p | p]; [split; reflexivity | | lia].
  do 5 (try destruct p as [p | p |]); try lia; split; reflexivity.
Qed.

(** The digits [toString(16)] prints for a non-negative integer denote it. *)
Lemma hex_digits_denote (fuel : nat) (n : Z) :
  0 <= n < 16 ^ (Z.of_nat fuel + 1) ->
  all_digits 16 (hex_digits fuel n) = true
  /\ digits_value 16 (hex_digits fuel n) 0 = n
  /\ hex_digits fuel n <> EmptyString.
Proof.
  revert n. induction fuel as [| f IH]; intros n Hn.
  - change (16 ^ (Z.of_nat 0 + 1)) with 16 in Hn.
    destruct (hex_char_digit (n mod 16)) as [Hu Hd].
    { apply Z.mod_pos_bound. lia. }
    cbn. rewrite Hu, Hd. repeat split; try discriminate.
    apply Z.mod_small. lia.
  - cbn [hex_digits].
    destruct (hex_char_digit (n mod 16)) as [Hu Hd].
    { apply Z.mod_pos_bound. lia. }
    destruct (Z.eqb_spec (n / 16) 0) as [Hz | Hz].
    + cbn. rewrite Hu, Hd. repeat split; try discriminate.
      pose proof (Z.div_mod n 16 ltac:(lia)). lia.
    + assert (Hq : 0 <= n / 16 < 16 ^ (Z.of_nat f + 1)).
      { split; [apply Z.div_pos; lia |].
        apply Z.div_lt_upper_bound; [lia |].
        replace (Z.of_nat (S f) + 1) with (Z.succ (Z.of_nat f + 1)) in Hn by lia.
        rewrite Z.pow_succ_r in Hn by lia. lia. }
      destruct (IH (n / 16) Hq) as (Ha & Hv & Hne).
      rewrite all_digits_app, digits_value_app.
      cbn. rewrite Ha, Hu, Hv, Hd. repeat split.
      * pose proof (Z.div_mod n 16 ltac:(lia)). lia.
      * destruct (hex_digits f (n / 16)); [congruence | discriminate].
Qed.

Lemma toString16_denote (n : Z) :
  0 <= n ->
  all_digits 16 (toString16 (Num n)) = true
  /\ digits_value 16 (toString16 (Num n)) 0 = n
  /\ toString16 (Num n) <> EmptyString.
Proof.
  intros Hn. unfold toString16.
  destruct (Z.ltb_spec n 0) as [Hneg | _]; [lia |].
  apply hex_digits_denote. split; [lia |].
  rewrite Z2Nat.id by apply Z.log2_nonneg.
  destruct (Z.eq_dec n 0) as [-> | Hnz]; [reflexivity |].
  pose proof (Z.log2_spec n ltac:(lia)) as [_ Hlt].
  eapply Z.lt_le_trans; [exact Hlt |].
  replace (Z.succ (Z.log2 n)) with (Z.log2 n + 1) by lia.
  apply Z.pow_le_mono_l. lia.
Qed.

Lemma includes_digits16 (s : string) :
  all_digits 16 s = true -> includes s ":" = false.
Proof.
  induction s as [| c s IH]; cbn; intros H; [reflexivity |].
  apply andb_prop in H as [Hc Hs].
  destruct (digit16_facts c Hc) as (_ & -> & _). exact (IH Hs).
Qed.

Lemma parseInt_0x (x : ascii) (s : string) :
  (x = "x" \/ x = "X")%char ->
  parseInt (String "0" (String x s)) 16
  = match parse_digits 16 s None with
    | Some v => Num (1 * v)
    | None => NaN
    end.
Proof. intros [-> | ->]; reflexivity. Qed.

Lemma includes_0x (x : ascii) (s : string) :
  (x = "x" \/ x = "X")%char ->
  includes (String "0" (String x s)) ":" = includes s ":".
Proof. intros [-> | ->]; reflexivity. Qed.

Lemma hex_literal_parses (x : ascii) (n : Z) :
  (x = "x" \/ x = "X")%char -> 0 <= n ->
  parseAddress (String "0" (String x (toString16 (Num n))))
  = {| linear := Num n; segOff := linearToSegOff (Num n) |}.
Proof.
  intros Hx Hn. destruct (toString16_denote n Hn) as (Ha & Hv & Hne).
  destruct (toString16 (Num n)) as [| c rest] eqn:E; [congruence |].
  pose proof (includes_digits16 _ Ha) as Hinc.
  pose proof (parse_digits_first 16 c rest
                (fun c H => proj1 (digit16_facts c H)) Ha) as Hp.
  rewrite Hv in Hp.
  assert (Hparse : parseInt (String "0" (String x (String c rest))) 16 = Num n).
  { rewrite (parseInt_0x x _ Hx), Hp. f_equal. lia. }
  unfold parseAddress. rewrite (includes_0x x) by exact Hx. rewrite Hinc.
  destruct Hx as [-> | ->].
  - change (startsWith (String "0" (String "x" (String c rest))) "0x") with true.
    cbn [orb]. now rewrite Hparse.
  - change (startsWith (String "0" (String "X" (String c rest))) "0x") with false.
    change (startsWith (String "0" (String "X" (String c rest))) "0X") with true.
    cbn [orb]. now rewrite Hparse.
Qed.

(** X4: a hex literal round-trips: for every integer [n] from 0 to
    [Number.MAX_SAFE_INTEGER] (2^53 - 1), the literal [0x] (or [0X])
    followed by [n.toString(16)] parses to a [DosAddress] whose linear is
    [n] and whose pair is [linearToSegOff n]. *)
Theorem parseAddress_hex_literal (n : Z) :
  0 <= n <= MAX_SAFE_INTEGER ->
  parseAddress ("0x" ++ toString16 (Num n))
  = {| linear := Num n; segOff := linearToSegOff (Num n) |}
  /\ parseAddress ("0X" ++ toString16 (Num n))
     = {| linear := Num n; segOff := linearToSegOff (Num n) |}.
Proof.
  intros [Hn _]. split.
  - exact (hex_literal_parses "x" n (or_introl eq_refl) Hn).
  - exact (hex_literal_parses "X" n (or_intror eq_refl) Hn).
Qed.

Lemma parseAddress_hex_literal_witness :
  parseAddress ("0x" ++ toString16 (Num 655360))
  = {| linear := Num 655360; segOff := linearToSegOff (Num 655360) |}
  /\ parseAddress ("0X" ++ toString16 (Num 655360))
     = {| linear := Num 655360; segOff := linearToSegOff (Num 655360) |}.
Proof. apply (parseAddress_hex_literal 655360). unfold MAX_SAFE_INTEGER. lia. Defined.

Lemma decimal_digits (d : Decimal.uint) :
  all_digits 10 (DecimalString.NilEmpty.string_of_uint d) = true
  /\ forall acc : nat,
       digits_value 10 (DecimalString.NilEmpty.string_of_uint d) (Z.of_nat acc)
       = Z.of_nat (Nat.of_uint_acc d acc).
Proof.
  induction d as [| d [IHa IHv] | d [IHa IHv] | d [IHa IHv] | d [IHa IHv]
                  | d [IHa IHv] | d [IHa IHv] | d [IHa IHv] | d [IHa IHv]
                  | d [IHa IHv] | d [IHa IHv]];
    (split; [try reflexivity; cbn [DecimalString.NilEmpty.string_of_uint all_digits];
             rewrite IHa; reflexivity |]);
    intros acc; cbn [DecimalString.NilEmpty.string_of_uint digits_value Nat.of_uint_acc];
    try reflexivity;
    rewrite Nat.tail_mul_spec, <- IHv; f_equal;
    unfold HexText.digit_or_zero;
    match goal with
    | |- context [digit_value ?c] =>
        let v := eval vm_compute in (digit_value c) in change (digit_value c) with v
    end; lia.
Qed.

Lemma decimal_denote (n : nat) :
  all_digits 10 (decimal n) = true
  /\ digits_value 10 (decimal n) 0 = Z.of_nat n
  /\ decimal n <> EmptyString.
Proof.
  unfold decimal, DecimalString.NilZero.string_of_uint.
  pose proof (DecimalNat.Unsigned.of_to n) as Hn. unfold Nat.of_uint in Hn.
  destruct (decimal_digits (Nat.to_uint n)) as [Ha Hv].
  specialize (Hv 0%nat). rewrite Hn in Hv.
  destruct (Nat.to_uint n) eqn:E;
    (split; [exact Ha | split; [exact Hv | discriminate]]).
Qed.

Lemma parseInt_decimal_start (c : ascii) (rest : string) :
  is_digit 10 c = true ->
  parseInt (String c rest) 10
  = match parse_digits 10 (String c rest) None with
    | Some v => Num (1 * v)
    | None => NaN
    end.
Proof. split_ascii c; intros H; try discriminate H; reflexivity. Qed.

Lemma startsWith_decimal (s : string) (x : ascii) :
  all_digits 10 s = true -> (x = "x" \/ x = "X")%char ->
  startsWith s (String "0" (String x EmptyString)) = false.
Proof.
  intros Ha Hx. destruct s as [| c [| c2 r]]; [reflexivity | |].
  - cbn. apply andb_false_r.
  - cbn in Ha. apply andb_prop in Ha as [_ Ha]. apply andb_prop in Ha as [Hc2 _].
    destruct (digit10_facts c2 Hc2) as (_ & H16 & _).
    destruct (digit16_facts c2 H16) as (_ & _ & Hx1 & Hx2).
    cbn [startsWith]. destruct Hx as [-> | ->]; [rewrite Hx1 | rewrite Hx2];
      apply andb_false_r.
Qed.

Lemma all_digits_10_16 (s : string) :
  all_digits 10 s = true -> all_digits 16 s = true.
Proof.
  induction s as [| c s IH]; cbn; intros H; [reflexivity |].
  apply andb_prop in H as [Hc Hs].
  destruct (digit10_facts c Hc) as (_ & -> & _). exact (IH Hs).
Qed.

(** X5: a decimal literal round-trips: for every natural number [n] up to
    [Number.MAX_SAFE_INTEGER] (2^53 - 1), its decimal numeral parses to a
    [DosAddress] whose linear is [n] and whose pair is [linearToSegOff n]. *)
Theorem parseAddress_decimal_literal (n : nat) :
  Z.of_nat n <= MAX_SAFE_INTEGER ->
  parseAddress (decimal n)
  = {| linear := Num (Z.of_nat n); segOff := linearToSegOff (Num (Z.of_nat n)) |}.
Proof.
  intros _. destruct (decimal_denote n) as (Ha & Hv & Hne).
  destruct (decimal n) as [| c rest] eqn:E; [congruence |].
  pose proof (includes_digits16 _ (all_digits_10_16 _ Ha)) as Hinc.
  pose proof (parse_digits_first 10 c rest
                (fun c H => proj1 (digit10_facts c H)) Ha) as Hp.
  rewrite Hv in Hp.
  assert (Hc : is_digit 10 c = true).
  { cbn in Ha. now apply andb_prop in Ha as [Hc _]. }
  unfold parseAddress. rewrite Hinc.
  rewrite (startsWith_decimal _ "x"%char Ha) by now left.
  rewrite (startsWith_decimal _ "X"%char Ha) by now right.
  cbn [orb]. rewrite (parseInt_decimal_start c rest Hc), Hp.
  replace (1 * Z.of_nat n) with (Z.of_nat n) by lia. reflexivity.
Qed.

Lemma parseAddress_decimal_literal_witness :
  parseAddress (decimal 4096)
  = {| linear := Num (Z.of_nat 4096);
       segOff := linearToSegOff (Num (Z.of_nat 4096)) |}.
Proof. apply (parseAddress_decimal_literal 4096). unfold MAX_SAFE_INTEGER. lia. Defined.

Lemma hex_digits_length (fuel : nat) :
  forall (n : Z) (k : nat),
    0 <= n < 16 ^ Z.of_nat (S k) ->
    (1 <= String.length (hex_digits fuel n) <= S k)%nat.
Proof.
  induction fuel as [| f IH]; intros n k Hn; cbn [hex_digits].
  - cbn. lia.
  - destruct (Z.eqb_spec (n / 16) 0) as [Hz | Hz]; [cbn; lia |].
    assert (Hlen : forall a b, String.length (a ++ b)
                               = (String.length a + String.length b)%nat).
    { intros a b. induction a as [| x a IHa]; [reflexivity |].
      rewrite FormatFacts.append_cons. cbn. now rewrite IHa. }
    rewrite Hlen. cbn [String.length].
    destruct k as [| k'].
    + exfalso. apply Hz. apply Z.div_small. change (16 ^ Z.of_nat 1) with 16 in Hn. lia.
    + assert (Hq : 0 <= n / 16 < 16 ^ Z.of_nat (S k')).
      { split; [apply Z.div_pos; lia |].
        apply Z.div_lt_upper_bound; [lia |].
        rewrite (Nat2Z.inj_succ (S k')), Z.pow_succ_r in Hn by lia. lia. }
      specialize (IH (n / 16) k' Hq). lia.
Qed.

(** X6: for 16-bit values [formatSegOff] prints exactly nine characters:
    four upper-case hex digits, a colon, four upper-case hex digits. *)
Theorem formatSegOff_shape (seg off : Z) :
  0 <= seg < 65536 -> 0 <= off < 65536 ->
  exists a b : string,
    formatSegOff (Num seg) (Num off) = a ++ ":" ++ b
    /\ String.length a = 4%nat /\ String.length b = 4%nat
    /\ HexText.all_upper_hex a = true /\ HexText.all_upper_hex b = true
    /\ String.length (formatSegOff (Num seg) (Num off)) = 9%nat.
Proof.
  intros Hs Ho.
  assert (Hlen : forall a b, String.length (a ++ b)
                             = (String.length a + String.length b)%nat).
  { intros a b. induction a as [| x a IHa]; [reflexivity |].
    rewrite FormatFacts.append_cons. cbn. now rewrite IHa. }
  assert (Hup : forall s, String.length (toUpperCase s) = String.length s).
  { induction s as [| x s IHs]; cbn; [reflexivity | now rewrite IHs]. }
  assert (Hrep : forall k, String.length (repeat_char "0" k) = k).
  { induction k as [| k IHk]; cbn; [reflexivity | now rewrite IHk]. }
  assert (Hhalf : forall n, 0 <= n < 65536 ->
            String.length (padStart (toUpperCase (toString16 (Num n))) 4 "0") = 4%nat
            /\ HexText.all_upper_hex (padStart (toUpperCase (toString16 (Num n))) 4 "0")
               = true).
  { intros n Hn.
    destruct (FormatFacts.toString16_value n ltac:(lia)) as (Ha & _ & Hne).
    assert (Hne' : toUpperCase (toString16 (Num n)) <> EmptyString).
    { destruct (toString16 (Num n)); [congruence | discriminate]. }
    destruct (FormatFacts.padStart_zero_value _ 4 Ha Hne') as (Hpa & _ & _).
    split; [| exact Hpa].
    unfold padStart. rewrite Hlen, Hrep, Hup.
    unfold toString16. destruct (Z.ltb_spec n 0) as [Hneg | _]; [lia |].
    pose proof (hex_digits_length (Z.to_nat (Z.log2 n)) n 3 ltac:(cbn; lia)). lia. }
  destruct (Hhalf seg Hs) as [Hl1 Ha1]. destruct (Hhalf off Ho) as [Hl2 Ha2].
  eexists _, _. split; [reflexivity |].
  repeat split; try assumption.
  unfold formatSegOff. rewrite !Hlen, Hl1, Hl2. reflexivity.
Qed.

Lemma formatSegOff_shape_witness :
  exists a b : string,
    formatSegOff (Num 40960) (Num 31) = a ++ ":" ++ b
    /\ String.length a = 4%nat /\ String.length b = 4%nat
    /\ HexText.all_upper_hex a = true /\ HexText.all_upper_hex b = true
    /\ String.length (formatSegOff (Num 40960) (Num 31)) = 9%nat.
Proof. apply (formatSegOff_shape 40960 31); lia. Defined.

End AddressMore.

(* ===================================================================== *)
(** ** The remote-debug client: memory writes, registers, packet framing *)
(* ===================================================================== *)

Module GdbCodecFacts.
Import JS Errors Gdb GdbCodec Literal.

Lemma hex_of_byte_decodes (b : byte) (rest : string) :
  buffer_from_hex (hex_of_byte b ++ rest) = b :: buffer_from_hex rest.
Proof.
  unfold hex_of_byte.
  rewrite !FormatFacts.append_cons, FormatFacts.append_nil.
  destruct b; reflexivity.
Qed.

(** X7: the hex text [writeMemory] makes of a buffer ([toString('hex')])
    is read back by [Buffer.from(text, 'hex')], as [readMemory] uses it, to
    the same bytes; it has two characters a byte. *)
Theorem hex_roundtrip (data : Buffer) :
  buffer_from_hex (buffer_to_hex data) = data
  /\ String.length (buffer_to_hex data) = (2 * length data)%nat.
Proof.
  induction data as [| b rest [IH1 IH2]]; [split; reflexivity |].
  cbn [buffer_to_hex]. split.
  - now rewrite hex_of_byte_decodes, IH1.
  - unfold hex_of_byte. rewrite !FormatFacts.append_cons, FormatFacts.append_nil.
    cbn [String.length length]. rewrite IH2. lia.
Qed.

Lemma strip_0x_digits (s : string) :
  all_digits 16 s = true -> strip_0x s = s.
Proof.
  destruct s as [| c [| c2 r]]; [reflexivity | |].
  - intros _. AddressMore.split_ascii c; reflexivity.
  - intros H. apply andb_prop in H as [_ H]. apply andb_prop in H as [Hc2 _].
    AddressMore.split_ascii c; try reflexivity.
    AddressMore.split_ascii c2; try discriminate Hc2; reflexivity.
Qed.

Lemma parseInt16_start (c : ascii) (rest : string) :
  is_digit 16 c = true ->
  parseInt (String c rest) 16
  = match parse_digits 16 (strip_0x (String c rest)) None with
    | Some v => Num (1 * v)
    | None => NaN
    end.
Proof. AddressMore.split_ascii c; intros H; try discriminate H; reflexivity. Qed.

(** [parseInt(s, 16)] of a non-empty run of hex digits is the number the
    run denotes. *)
Lemma parseInt16_digits (s : string) :
  all_digits 16 s = true -> s <> EmptyString ->
  parseInt s 16 = Num (digits_value 16 s 0).
Proof.
  intros Ha Hne. destruct s as [| c rest]; [congruence |].
  assert (Hc : is_digit 16 c = true).
  { cbn in Ha. now apply andb_prop in Ha as [Hc _]. }
  rewrite (parseInt16_start c rest Hc), (strip_0x_digits _ Ha).
  rewrite (AddressMore.parse_digits_first 16 c rest
             (fun c H => proj1 (AddressMore.digit16_facts c H)) Ha).
  f_equal. lia.
Qed.

Lemma parseInt16_toString16 (n : Z) :
  0 <= n -> parseInt (toString16 (Num n)) 16 = Num n.
Proof.
  intros Hn. destruct (AddressMore.toString16_denote n Hn) as (Ha & Hv & Hne).
  now rewrite (parseInt16_digits _ Ha Hne), Hv.
Qed.

Lemma includes_nondigit (s : string) (c : ascii) :
  is_digit 16 c = false -> all_digits 16 s = true -> includes s c = false.
Proof.
  intros Hc. induction s as [| a s IH]; cbn; intros H; [reflexivity |].
  apply andb_prop in H as [Ha Hs]. rewrite (IH Hs), orb_false_r.
  destruct (Ascii.eqb_spec a c) as [-> |]; [congruence | reflexivity].
Qed.

Lemma includes_app (a b : string) (c : ascii) :
  includes (a ++ b) c = includes a c || includes b c.
Proof.
  induction a as [| x a IH]; [reflexivity |].
  rewrite FormatFacts.append_cons. cbn [includes]. rewrite IH. apply orb_assoc.
Qed.

Lemma append_assoc (a b c : string) : (a ++ b) ++ c = a ++ b ++ c.
Proof.
  induction a as [| x a IH]; [reflexivity |].
  rewrite !FormatFacts.append_cons. now rewrite IH.
Qed.

(** X8: the packet [writeMemory] sends reads back to its arguments: it is
    [M], the address, a comma, the length, a colon and the data, where the
    address and the length parse (radix 16) to [addr] and [data.length],
    the data part decodes to [data], and neither separator occurs before
    its place.  The call returns exactly when the reply is [OK]; any other
    reply is thrown as a [ProtocolError] that quotes it. *)
Theorem writeMemory_packet (addr : Z) (data : Buffer) (c : GdbClient)
  (r : string) (rs : list string) :
  0 <= addr -> connected c = true -> replies c = r :: rs ->
  exists (a l hex : string) (c' : GdbClient),
    writeMemory (Num addr) data c
    = (if String.eqb r "OK" then Returned tt else Thrown (write_error r), c')
    /\ sent c' = (sent c ++ [("M" ++ a ++ "," ++ l ++ ":" ++ hex)%string])%list
    /\ replies c' = rs
    /\ parseInt a 16 = Num addr
    /\ parseInt l 16 = Num (Z.of_nat (length data))
    /\ buffer_from_hex hex = data
    /\ includes a "," = false
    /\ includes (a ++ "," ++ l) ":" = false.
Proof.
  intros Hn Hc Hr.
  destruct (AddressMore.toString16_denote addr Hn) as (Ha & _ & _).
  destruct (AddressMore.toString16_denote (Z.of_nat (length data)) ltac:(lia))
    as (Hl & _ & _).
  exists (toString16 (Num addr)), (toString16 (Num (Z.of_nat (length data)))),
    (buffer_to_hex data).
  eexists. split; [| split; [| split; [| split; [| split; [| split; [| split]]]]]].
  - unfold writeMemory, command. rewrite Hc, Hr.
    destruct (String.eqb r "OK"); reflexivity.
  - cbn [sent]. unfold write_header. now rewrite !append_assoc.
  - reflexivity.
  - now apply parseInt16_toString16.
  - apply parseInt16_toString16. lia.
  - apply hex_roundtrip.
  - now apply includes_nondigit.
  - rewrite !includes_app. cbn [includes Ascii.eqb Bool.eqb orb].
    rewrite (includes_nondigit _ ":"%char eq_refl Ha).
    now rewrite (includes_nondigit _ ":"%char eq_refl Hl).
Qed.

Lemma writeMemory_packet_witness :
  exists (a l hex : string) (c' : GdbClient),
    writeMemory (Num 753664) [x41; x1f] (answering "OK")
    = (if String.eqb "OK" "OK" then Returned tt else Thrown (write_error "OK"), c')
    /\ sent c' = (sent (answering "OK") ++ [("M" ++ a ++ "," ++ l ++ ":" ++ hex)%string])%list
    /\ replies c' = []
    /\ parseInt a 16 = Num 753664
    /\ parseInt l 16 = Num (Z.of_nat (length [x41; x1f]))
    /\ buffer_from_hex hex = [x41; x1f]
    /\ includes a "," = false
    /\ includes (a ++ "," ++ l) ":" = false.
Proof.
  apply (writeMemory_packet 753664 [x41; x1f] (answering "OK") "OK" []);
    [lia | reflexivity | reflexivity].
Defined.

Lemma byte_value_range (b : byte) : 0 <= byte_value b < 256.
Proof. unfold byte_value. pose proof (Byte.to_N_bounded b). lia. Qed.

Lemma word_range (raw : Buffer) (i : nat) : 0 <= word raw i < 2 ^ 32.
Proof.
  unfold word.
  pose proof (byte_value_range (nth (4 * i) raw x00)).
  pose proof (byte_value_range (nth (4 * i + 1) raw x00)).
  pose proof (byte_value_range (nth (4 * i + 2) raw x00)).
  pose proof (byte_value_range (nth (4 * i + 3) raw x00)).
  change (2 ^ 32) with 4294967296. lia.
Qed.

Lemma skipn_nth_cons (raw : Buffer) (k : nat) :
  (k < length raw)%nat -> skipn k raw = nth k raw x00 :: skipn (S k) raw.
Proof.
  revert k. induction raw as [| b raw IH]; intros k H; cbn in H; [lia |].
  destruct k as [| k]; [reflexivity |]. cbn. apply IH. lia.
Qed.

Lemma readUInt32LE_some (raw : Buffer) (i : nat) :
  (4 * i + 4 <= length raw)%nat -> readUInt32LE raw (i * 4) = Some (word raw i).
Proof.
  intros H. unfold readUInt32LE, word.
  replace (i * 4)%nat with (4 * i)%nat by lia.
  rewrite (skipn_nth_cons raw (4 * i)) by lia.
  rewrite (skipn_nth_cons raw (S (4 * i))) by lia.
  rewrite (skipn_nth_cons raw (S (S (4 * i)))) by lia.
  rewrite (skipn_nth_cons raw (S (S (S (4 * i))))) by lia.
  replace (4 * i + 1)%nat with (S (4 * i)) by lia.
  replace (4 * i + 2)%nat with (S (S (4 * i))) by lia.
  replace (4 * i + 3)%nat with (S (S (S (4 * i)))) by lia.
  reflexivity.
Qed.

Lemma readUInt32LE_none (raw : Buffer) (offset : nat) :
  (length raw < offset + 4)%nat -> readUInt32LE raw offset = None.
Proof.
  intros H. unfold readUInt32LE.
  pose proof (length_skipn offset raw) as Hl.
  destruct (skipn offset raw) as [| b0 [| b1 [| b2 [| b3 l]]]]; try reflexivity.
  cbn in Hl. lia.
Qed.

(** X9: [readRegisters] on a reply that does not start with [E]: when the
    reply decodes to fewer than 64 bytes the call ends in the range error
    of [readUInt32LE] and yields no registers; otherwise it returns the
    registers, the first ten being the little-endian 32-bit words 0..9 of
    the reply and the six segment registers the words 10..15 reduced to
    their low 16 bits. *)
Theorem readRegisters_decodes (c : GdbClient) (r : string) (rs : list string) :
  connected c = true -> replies c = r :: rs -> startsWith r "E" = false ->
  ((length (buffer_from_hex r) < 64)%nat -> fst (readRegisters c) = RangeError)
  /\ ((64 <= length (buffer_from_hex r))%nat ->
      exists regs : Registers,
        fst (readRegisters c) = Settled (Returned regs)
        /\ (forall i, (i < 10)%nat ->
              register i regs = Num (word (buffer_from_hex r) i))
        /\ (forall i, (10 <= i < 16)%nat ->
              register i regs = Num (word (buffer_from_hex r) i mod 65536))
        /\ (forall i, (i < 16)%nat ->
              exists v, register i regs = Num v /\ 0 <= v < 2 ^ 32)).
Proof.
  intros Hc Hr HE. unfold readRegisters, command. rewrite Hc, Hr, HE.
  set (raw := buffer_from_hex r). split; intros Hlen.
  - assert (Hlast : reg16 raw 5 = None).
    { unfold reg16. rewrite readUInt32LE_none by (cbn; lia). reflexivity. }
    unfold decode_registers. rewrite Hlast.
    repeat match goal with
           | |- context [reg32 raw ?i] => destruct (reg32 raw i); cbn [mbind option_bind]
           | |- context [reg16 raw ?i] => destruct (reg16 raw i); cbn [mbind option_bind]
           end; reflexivity.
  - assert (H32 : forall i, (i < 10)%nat -> reg32 raw i = Some (Num (word raw i))).
    { intros i Hi. unfold reg32. rewrite readUInt32LE_some by lia. reflexivity. }
    assert (H16 : forall i, (i < 6)%nat ->
                    reg16 raw i = Some (Num (word raw (10 + i) mod 65536))).
    { intros i Hi. unfold reg16. rewrite readUInt32LE_some by lia.
      cbn [mbind option_bind]. now rewrite AddressMore.band_mask16. }
    unfold decode_registers.
    rewrite !H32, !H16 by lia. cbn [mbind option_bind fst].
    eexists. split; [reflexivity |].
    assert (Hw : forall i, 0 <= word raw i mod 65536 < 2 ^ 32).
    { intros i. pose proof (Z.mod_pos_bound (word raw i) 65536 ltac:(lia)).
      change (2 ^ 32) with 4294967296. lia. }
    split; [| split].
    + intros i Hi. do 10 (destruct i as [| i]; [reflexivity |]). lia.
    + intros i Hi. do 10 (destruct i as [| i]; [lia |]).
      do 6 (destruct i as [| i]; [reflexivity |]). lia.
    + intros i Hi.
      do 10 (destruct i as [| i]; [eexists; split; [reflexivity | apply word_range] |]).
      do 6 (destruct i as [| i]; [eexists; split; [reflexivity | apply Hw] |]). lia.
Qed.

Lemma readRegisters_decodes_witness :
  ((length (buffer_from_hex sample_dump) < 64)%nat ->
   fst (readRegisters (answering sample_dump)) = RangeError)
  /\ ((64 <= length (buffer_from_hex sample_dump))%nat ->
      exists regs : Registers,
        fst (readRegisters (answering sample_dump)) = Settled (Returned regs)
        /\ (forall i, (i < 10)%nat ->
              register i regs = Num (word (buffer_from_hex sample_dump) i))
        /\ (forall i, (10 <= i < 16)%nat ->
              register i regs = Num (word (buffer_from_hex sample_dump) i mod 65536))
        /\ (forall i, (i < 16)%nat ->
              exists v, register i regs = Num v /\ 0 <= v < 2 ^ 32)).
Proof.
  apply (readRegisters_decodes (answering sample_dump) sample_dump []); reflexivity.
Defined.

(** The sample dump has [cs] with a set high half: it is cut to 16 bits. *)
Example readRegisters_sample :
  exists regs, fst (readRegisters (answering sample_dump)) = Settled (Returned regs)
               /\ eax regs = Num 305419896 /\ cs regs = Num 4660
               /\ es regs = Num 47104.
Proof. eexists. split; [vm_compute; reflexivity | repeat split]. Qed.

End GdbCodecFacts.

Module GdbWireFacts.
Import JS Errors GdbWire.
Local Open Scope list_scope.
Local Open Scope nat_scope.

Lemma index_of_absent (c : ascii) (l : list ascii) :
  forallb (fun a => negb (Ascii.eqb a c)) l = true -> index_of c l = None.
Proof.
  induction l as [| a l IH]; cbn; intros H; [reflexivity |].
  apply andb_prop in H as [Ha Hl]. apply negb_true_iff in Ha.
  now rewrite Ha, (IH Hl).
Qed.

Lemma index_of_first (c : ascii) (l1 l2 : list ascii) :
  forallb (fun a => negb (Ascii.eqb a c)) l1 = true ->
  index_of c (l1 ++ c :: l2) = Some (length l1).
Proof.
  induction l1 as [| a l1 IH]; cbn; intros H.
  - now rewrite Ascii.eqb_refl.
  - apply andb_prop in H as [Ha Hl]. apply negb_true_iff in Ha.
    now rewrite Ha, (IH Hl).
Qed.

Lemma free_of_chars (c : ascii) (b : Buffer) :
  free_of c b = true ->
  forallb (fun a => negb (Ascii.eqb a c)) (toString_ascii b) = true.
Proof.
  unfold free_of, toString_ascii. induction b as [| x b IH]; cbn; intros H;
    [reflexivity |].
  apply andb_prop in H as [Hx Hb]. now rewrite Hx, (IH Hb).
Qed.

(** [tryParse] on the first [k] bytes of a stream that holds a packet after
    some noise: nothing before the second checksum character is there, the
    payload and the bytes behind the packet from then on. *)
Lemma tryParse_prefix (noise payload rest : Buffer) (x y : byte) (k : nat) :
  free_of "$" noise = true -> free_of "#" payload = true ->
  tryParse (firstn k (noise ++ x24 :: payload ++ x23 :: x :: y :: rest))
  = if length noise + length payload + 4 <=? k
    then Some (string_of_list_ascii (toString_ascii payload),
               firstn (k - (length noise + length payload + 4)) rest)
    else None.
Proof.
  intros Hn Hp. apply free_of_chars in Hn, Hp.
  set (full := noise ++ x24 :: payload ++ x23 :: x :: y :: rest).
  set (P := length noise + length payload + 4).
  unfold tryParse, indexOf. rewrite skipn_O.
  unfold toString_ascii in *. rewrite <- firstn_map.
  assert (Hfull : map ascii_char full
                  = map ascii_char noise
                    ++ "$"%char :: map ascii_char payload
                    ++ "#"%char :: map ascii_char [x; y] ++ map ascii_char rest).
  { unfold full. rewrite map_app. cbn [map]. rewrite map_app. reflexivity. }
  rewrite Hfull.
  set (N := map ascii_char noise) in *. set (Q := map ascii_char payload) in *.
  set (R := map ascii_char rest).
  assert (HN : length N = length noise) by apply length_map.
  assert (HQ : length Q = length payload) by apply length_map.
  destruct (Nat.leb_spec (S (length N)) k) as [Hk1 | Hk1].
  2:{ (* the dollar sign is not there yet *)
      rewrite firstn_app.
      replace (k - length N) with 0 by lia. cbn [firstn]. rewrite app_nil_r.
      rewrite index_of_absent.
      - cbn. destruct (Nat.leb_spec P k); [unfold P in *; lia | reflexivity].
      - rewrite <- (firstn_skipn k N) in Hn. rewrite forallb_app in Hn.
        now apply andb_prop in Hn as [Hn _]. }
  rewrite firstn_app, (firstn_all2 N) by lia.
  destruct (k - length N) as [| k1] eqn:Ek; [lia |]. cbn [firstn].
  rewrite index_of_first by exact Hn. cbn [mbind option_bind].
  rewrite !Nat.add_0_l.
  rewrite skipn_app, skipn_all, Nat.sub_diag. cbn [skipn app index_of].
  change (Ascii.eqb "$" "#") with false. cbv iota.
  destruct (Nat.leb_spec (S (length Q)) k1) as [Hk2 | Hk2].
  2:{ (* the hash sign is not there yet *)
      rewrite firstn_app.
      replace (k1 - length Q) with 0 by lia. cbn [firstn]. rewrite app_nil_r.
      rewrite index_of_absent.
      - cbn. destruct (Nat.leb_spec P k); [unfold P in *; lia | reflexivity].
      - rewrite <- (firstn_skipn k1 Q) in Hp. rewrite forallb_app in Hp.
        now apply andb_prop in Hp as [Hp _]. }
  rewrite firstn_app, (firstn_all2 Q) by lia.
  destruct (k1 - length Q) as [| k2] eqn:Ek2; [lia |]. cbn [firstn].
  rewrite index_of_first by exact Hp. cbn [mbind option_bind].
  rewrite !length_app. cbn [length]. rewrite !length_app. cbn [length].
  rewrite length_firstn.
  destruct (Nat.leb_spec P k) as [HP | HP].
  - (* both checksum characters are there *)
    assert (Hk2' : 2 <= k2) by (unfold P in HP; lia).
    destruct (Nat.leb_spec (length N + S (length Q + S (Nat.min k2 (length (map ascii_char [x; y] ++ R)))))
                (length N + S (length Q) + 2)) as [Hle | Hgt].
    { rewrite length_app in Hle. cbn [length map] in Hle. lia. }
    f_equal. f_equal.
    + unfold substring. f_equal.
      rewrite skipn_app, skipn_all2 by lia. rewrite app_nil_l.
      replace (length N + 1 - length N) with 1 by lia. cbn [skipn].
      replace (length N + S (length Q) - (length N + 1)) with (length Q) by lia.
      rewrite skipn_O, firstn_app, firstn_all, Nat.sub_diag. cbn [firstn].
      now rewrite app_nil_r.
    + unfold full.
      replace (length N + S (length Q) + 3) with P by (unfold P; lia).
      rewrite skipn_firstn_comm. f_equal.
      replace (noise ++ x24 :: payload ++ x23 :: x :: y :: rest)
        with ((noise ++ x24 :: payload ++ [x23; x; y]) ++ rest).
      2:{ rewrite <- !app_assoc. cbn. rewrite <- !app_assoc. reflexivity. }
      assert (Hlen : length (noise ++ x24 :: payload ++ [x23; x; y]) = P).
      { rewrite length_app. cbn [length]. rewrite length_app. cbn [length].
        unfold P. lia. }
      rewrite skipn_app, Hlen, Nat.sub_diag, skipn_all2 by lia. reflexivity.
  - (* a checksum character is missing *)
    destruct (Nat.leb_spec (length N + S (length Q + S (Nat.min k2 (length (map ascii_char [x; y] ++ R)))))
                (length N + S (length Q) + 2)) as [Hle | Hgt]; [reflexivity |].
    unfold P in HP. lia.
Qed.

(** X10: [recvPacket] returns the payload of the first packet in the
    stream however the stream is cut into chunks: with the buffered bytes
    and the chunks to come making up some noise free of [$], then [$], a
    payload free of [#], [#] and two more bytes, it returns the payload and
    leaves exactly the bytes behind the packet.  The noise is dropped and
    the two checksum bytes are not looked at. *)
Theorem recvPacket_any_chunking (incoming : list Buffer)
  (buffer noise payload rest : Buffer) (x y : byte) :
  buffer ++ concat incoming = noise ++ x24 :: payload ++ x23 :: x :: y :: rest ->
  free_of "$" noise = true -> free_of "#" payload = true ->
  exists remaining later : _,
    recvPacket incoming buffer
    = (Returned (string_of_list_ascii (toString_ascii payload)), remaining, later)
    /\ remaining ++ concat later = rest.
Proof.
  intros H Hn Hp. revert buffer H.
  induction incoming as [| chunk later IH]; intros buffer H.
  - cbn [concat] in H. rewrite app_nil_r in H. subst buffer.
    cbn [recvPacket].
    pose proof (tryParse_prefix noise payload rest x y
                  (length (noise ++ x24 :: payload ++ x23 :: x :: y :: rest))
                  Hn Hp) as HT.
    rewrite firstn_all in HT. rewrite HT.
    assert (Hlen : length (noise ++ x24 :: payload ++ x23 :: x :: y :: rest)
                   = length noise + length payload + 4 + length rest).
    { rewrite length_app. cbn [length]. rewrite length_app. cbn [length]. lia. }
    rewrite Hlen.
    destruct (Nat.leb_spec (length noise + length payload + 4)
                (length noise + length payload + 4 + length rest)); [| lia].
    eexists _, _. split; [reflexivity |].
    cbn [concat]. rewrite app_nil_r. apply firstn_all2. lia.
  - cbn [recvPacket].
    pose proof (tryParse_prefix noise payload rest x y (length buffer) Hn Hp) as HT.
    rewrite <- H in HT. rewrite firstn_app, firstn_all, Nat.sub_diag in HT.
    cbn [firstn] in HT. rewrite app_nil_r in HT. rewrite HT.
    destruct (Nat.leb_spec (length noise + length payload + 4) (length buffer))
      as [HP | HP].
    + eexists _, _. split; [reflexivity |].
      assert (Hlen : length (noise ++ x24 :: payload ++ [x23; x; y])
                     = length noise + length payload + 4).
      { rewrite length_app. cbn [length]. rewrite length_app. cbn [length]. lia. }
      assert (Hre : noise ++ x24 :: payload ++ x23 :: x :: y :: rest
                    = (noise ++ x24 :: payload ++ [x23; x; y]) ++ rest).
      { rewrite <- !app_assoc. cbn. rewrite <- !app_assoc. reflexivity. }
      rewrite Hre in H. apply app_eq_app in H as [mid [[Hb Hr] | [Hb Hr]]].
      * rewrite Hb, length_app, Hlen.
        replace (length noise + length payload + 4 + length mid
                 - (length noise + length payload + 4)) with (length mid) by lia.
        rewrite Hr, firstn_app, firstn_all, Nat.sub_diag. cbn [firstn].
        now rewrite app_nil_r.
      * assert (Hm : mid = []).
        { apply (f_equal (@length _)) in Hb. rewrite Hlen, length_app in Hb.
          destruct mid; [reflexivity | cbn in Hb; lia]. }
        subst mid. rewrite app_nil_r in Hb. cbn [app] in Hr.
        rewrite <- Hb, Hlen, Nat.sub_diag. cbn [firstn app]. exact Hr.
    + apply IH. cbn [concat] in H. now rewrite <- app_assoc.
Qed.

Lemma recvPacket_any_chunking_witness :
  exists remaining later : _,
    recvPacket [[x4f; x4b; x23]; [x30]; [x30; x2b]] [x2b; x24]
    = (Returned (string_of_list_ascii (toString_ascii [x4f; x4b])), remaining, later)
    /\ remaining ++ concat later = [x2b].
Proof.
  apply (recvPacket_any_chunking [[x4f; x4b; x23]; [x30]; [x30; x2b]]
           [x2b; x24] [x2b] [x4f; x4b] [x2b] x30 x30); reflexivity.
Defined.

Lemma utf8_seven_bit (c : ascii) :
  (N_of_ascii c <? 128)%N = true ->
  map Gdb.byte_of_Z (utf8 c) = [byte_of_ascii c]
  /\ ascii_char (byte_of_ascii c) = c.
Proof.
  AddressMore.split_ascii c; intros H; try discriminate H; split; reflexivity.
Qed.

Lemma utf8_bytes_app (a b : string) :
  utf8_bytes (a ++ b)%string = utf8_bytes a ++ utf8_bytes b.
Proof.
  induction a as [| c a IH]; [reflexivity |].
  rewrite FormatFacts.append_cons. cbn [utf8_bytes]. now rewrite IH, app_assoc.
Qed.

Lemma wire_app (a b : string) : wire (a ++ b)%string = wire a ++ wire b.
Proof. unfold wire. now rewrite utf8_bytes_app, map_app. Qed.

Lemma wire_seven_bit (s : string) :
  seven_bit s = true ->
  wire s = bytes_of s
  /\ string_of_list_ascii (toString_ascii (bytes_of s)) = s
  /\ length (bytes_of s) = String.length s.
Proof.
  unfold wire, bytes_of, seven_bit, toString_ascii.
  induction s as [| c s IH]; cbn [list_ascii_of_string forallb utf8_bytes map];
    intros H; [repeat split |].
  apply andb_prop in H as [Hc Hs]. destruct (IH Hs) as (IH1 & IH2 & IH3).
  destruct (utf8_seven_bit c Hc) as [Hu Ha].
  rewrite map_app, Hu, IH1. cbn [app string_of_list_ascii length String.length].
  now rewrite Ha, IH2, IH3.
Qed.

Lemma free_of_includes (s : string) (c : ascii) :
  seven_bit s = true -> includes s c = false -> free_of c (bytes_of s) = true.
Proof.
  unfold seven_bit, bytes_of, free_of.
  induction s as [| a s IH]; cbn [list_ascii_of_string forallb map includes];
    intros H Hi; [reflexivity |].
  apply andb_prop in H as [Ha Hs]. apply orb_false_elim in Hi as [Hac Hi].
  destruct (utf8_seven_bit a Ha) as [_ ->]. now rewrite Hac, (IH Hs Hi).
Qed.

(** The checksum field: two characters, both 7-bit. *)
Lemma checksum_field (n : Z) :
  (0 <= n < 256)%Z ->
  exists c1 c2 : ascii,
    padStart (toString16 (Num n)) 2 "0" = String c1 (String c2 EmptyString)
    /\ seven_bit (String c1 (String c2 EmptyString)) = true.
Proof.
  intros Hn. destruct n as [| p | p]; [eexists _, _; split; reflexivity | | lia].
  do 9 (try destruct p as [p | p |]); try lia;
    eexists _, _; split; reflexivity.
Qed.

Lemma string_length_app (a b : string) :
  String.length (a ++ b)%string = String.length a + String.length b.
Proof.
  induction a as [| x a IHa]; [reflexivity |].
  rewrite FormatFacts.append_cons. cbn. now rewrite IHa.
Qed.

(** X11: what [sendPacket] frames, [recvPacket] reads back: for 7-bit data
    without [#], the text written is four characters longer than the data
    ([$], [#] and a two-digit checksum), and one run of [tryParse] on its
    bytes, followed by anything, yields the data and leaves what follows. *)
Theorem sendPacket_reads_back (data : string) (rest : Buffer) :
  seven_bit data = true -> includes data "#" = false ->
  String.length (packet data) = String.length data + 4
  /\ tryParse (wire (packet data) ++ rest) = Some (data, rest).
Proof.
  intros H7 Hh.
  assert (Hcs : (0 <= checksum data < 256)%Z).
  { unfold checksum. apply Z.mod_pos_bound. lia. }
  destruct (checksum_field _ Hcs) as (c1 & c2 & Hf & Hf7).
  destruct (wire_seven_bit data H7) as (Hw & Hback & Hlen).
  destruct (wire_seven_bit _ Hf7) as (Hwf & _ & _).
  unfold packet. rewrite Hf. split.
  - rewrite FormatFacts.append_cons, FormatFacts.append_nil.
    cbn [String.length]. rewrite !string_length_app. cbn [String.length]. lia.
  - rewrite !wire_app, Hw, Hwf.
    change (wire "$") with [x24]. change (wire "#") with [x23].
    cbn [bytes_of list_ascii_of_string map app].
    rewrite <- app_assoc. cbn [app].
    pose proof (tryParse_prefix [] (bytes_of data) rest
                  (byte_of_ascii c1) (byte_of_ascii c2)
                  (length (x24 :: bytes_of data
                             ++ x23 :: byte_of_ascii c1 :: byte_of_ascii c2 :: rest))
                  eq_refl (free_of_includes data "#" H7 Hh)) as HT.
    cbn [app] in HT. rewrite firstn_all in HT. rewrite HT. clear HT.
    cbn [length]. rewrite length_app. cbn [length].
    destruct (Nat.leb_spec (0 + length (bytes_of data) + 4)
                (S (length (bytes_of data) + S (S (S (length rest))))));
      [| lia].
    rewrite Hback. f_equal. f_equal. apply firstn_all2. lia.
Qed.

Lemma sendPacket_reads_back_witness :
  String.length (packet "m1000,40") = String.length "m1000,40" + 4
  /\ tryParse (wire (packet "m1000,40") ++ [x2b]) = Some ("m1000,40"%string, [x2b]).
Proof. apply (sendPacket_reads_back "m1000,40" [x2b]); reflexivity. Defined.

End GdbWireFacts.

(* ===================================================================== *)
(** ** The machine-control client and the backend: further properties *)
(* ===================================================================== *)

Module QmpKeysFacts.
Import JS Errors Qemu QmpKeys.
Local Open Scope list_scope.
Local Open Scope nat_scope.

Lemma await_response_events (events : list string) (reply : QmpMessage)
  (rest : list QmpMessage) :
  is_event reply = false ->
  await_response (map QmpEvent events ++ reply :: rest)
  = (reply_outcome reply, rest,
     map (fun n => QmpReceive (QmpEvent n)) events ++ [QmpReceive reply]).
Proof.
  intros Hr. induction events as [| n events IH]; cbn [map app await_response].
  - destruct reply; [reflexivity | reflexivity | discriminate Hr].
  - now rewrite IH.
Qed.

Lemma execute_events_reply (command : string)
  (arguments : list (string * string)) (events : list string)
  (reply : QmpMessage) (rest : list QmpMessage) :
  is_event reply = false ->
  execute command arguments
    {| socket := true; inbox := map QmpEvent events ++ reply :: rest |}
  = (reply_outcome reply, {| socket := true; inbox := rest |},
     QmpSend command arguments
       :: map (fun n => QmpReceive (QmpEvent n)) events ++ [QmpReceive reply]).
Proof.
  intros Hr. unfold execute. cbn [socket inbox].
  now rewrite await_response_events.
Qed.

(** X12: [execute] reads the socket up to the first reply and no further:
    with any number of events queued before a reply, it passes the events
    on in order, ends as the reply says (its value, or a [ProtocolError]
    naming class and description), and leaves everything behind the reply
    unread.  With only events queued it reads them all and never settles. *)
Theorem execute_reads_to_first_reply (command : string)
  (arguments : list (string * string)) (events : list string)
  (reply : QmpMessage) (rest : list QmpMessage) :
  is_event reply = false ->
  execute command arguments
    {| socket := true; inbox := map QmpEvent events ++ reply :: rest |}
  = (reply_outcome reply, {| socket := true; inbox := rest |},
     QmpSend command arguments
       :: map (fun n => QmpReceive (QmpEvent n)) events ++ [QmpReceive reply])
  /\ execute command arguments {| socket := true; inbox := map QmpEvent events |}
     = (Unsettled, {| socket := true; inbox := [] |},
        QmpSend command arguments :: map (fun n => QmpReceive (QmpEvent n)) events).
Proof.
  intros Hr. split.
  - now apply execute_events_reply.
  - unfold execute. cbn [socket inbox].
    assert (H : await_response (map QmpEvent events)
                = (@Unsettled string, [], map (fun n => QmpReceive (QmpEvent n)) events)).
    { induction events as [| n events IH]; cbn [map await_response];
        [reflexivity | now rewrite IH]. }
    now rewrite H.
Qed.

Lemma execute_reads_to_first_reply_witness :
  execute "cont" []
    {| socket := true;
       inbox := map QmpEvent ["STOP"; "RESUME"] ++ QmpError "GenericError" "busy" :: [QmpReturn "late"] |}
  = (reply_outcome (QmpError "GenericError" "busy"),
     {| socket := true; inbox := [QmpReturn "late"] |},
     QmpSend "cont" []
       :: map (fun n => QmpReceive (QmpEvent n)) ["STOP"; "RESUME"]
          ++ [QmpReceive (QmpError "GenericError" "busy")])
  /\ execute "cont" [] {| socket := true; inbox := map QmpEvent ["STOP"; "RESUME"] |}
     = (Unsettled, {| socket := true; inbox := [] |},
        QmpSend "cont" [] :: map (fun n => QmpReceive (QmpEvent n)) ["STOP"; "RESUME"]).
Proof.
  apply (execute_reads_to_first_reply "cont" [] ["STOP"; "RESUME"]
           (QmpError "GenericError" "busy") [QmpReturn "late"]).
  reflexivity.
Defined.

Lemma requests_app (a b : list Action) : requests (a ++ b) = requests a ++ requests b.
Proof. unfold requests. apply flat_map_app. Qed.

Lemma sendKey_reply (key : string) (reply : QmpMessage) (rest : list QmpMessage) :
  is_event reply = false ->
  sendKey key 100 {| socket := true; inbox := reply :: rest |}
  = (reply_outcome reply, {| socket := true; inbox := rest |},
     [QmpSend "send-key" (key_arguments key 100); QmpReceive reply]).
Proof.
  intros Hr. unfold sendKey.
  exact (execute_events_reply "send-key" (key_arguments key 100) [] reply rest Hr).
Qed.

(** X13: [sendKeysSequence] sends one [send-key] request for every key, in
    the order of the keys, as long as each is answered with a return; at
    the first request answered with an error it throws that error as a
    [ProtocolError] and the keys behind it are never sent.  In both cases
    it reads exactly one reply for every request it sent. *)
Theorem sendKeysSequence_in_order (keys : list string) (values : list string)
  (tail : list QmpMessage) :
  length values <= length keys ->
  (length values < length keys ->
   exists cls desc rest, tail = QmpError cls desc :: rest) ->
  exists acts,
    requests acts = map key_request (firstn (S (length values)) keys)
    /\ ((length values = length keys ->
         sendKeysSequence keys {| socket := true; inbox := map QmpReturn values ++ tail |}
         = (Returned tt, {| socket := true; inbox := tail |}, acts))
        /\ (forall cls desc rest, tail = QmpError cls desc :: rest ->
            length values < length keys ->
            sendKeysSequence keys
              {| socket := true; inbox := map QmpReturn values ++ tail |}
            = (Thrown (qmp_error cls desc), {| socket := true; inbox := rest |}, acts))).
Proof.
  revert values tail. induction keys as [| key keys IH]; intros values tail Hle Herr.
  - destruct values; [| cbn in Hle; lia]. exists []. split; [reflexivity |].
    split; [reflexivity |]. intros cls desc rest _ Hlt. cbn in Hlt. lia.
  - destruct values as [| v values].
    + destruct (Herr ltac:(cbn; lia)) as (cls & desc & rest & ->).
      exists [QmpSend "send-key" (key_arguments key 100); QmpReceive (QmpError cls desc)].
      split; [reflexivity |]. split; [discriminate |].
      intros cls' desc' rest' Heq _. injection Heq as <- <- <-.
      cbn [sendKeysSequence map app].
      now rewrite (sendKey_reply key (QmpError cls desc) _ eq_refl).
    + cbn [length] in *.
      destruct (IH values tail ltac:(lia)) as (acts & Hreq & Hok & Hfail).
      { intros Hlt. apply Herr. lia. }
      exists ([QmpSend "send-key" (key_arguments key 100); QmpReceive (QmpReturn v)] ++ acts).
      split; [| split].
      * rewrite requests_app, Hreq. reflexivity.
      * intros Hlen. cbn [sendKeysSequence map app].
        rewrite (sendKey_reply key (QmpReturn v) _ eq_refl). cbn [reply_outcome].
        rewrite Hok by lia. reflexivity.
      * intros cls desc rest Heq Hlt. cbn [sendKeysSequence map app].
        rewrite (sendKey_reply key (QmpReturn v) _ eq_refl). cbn [reply_outcome].
        rewrite (Hfail cls desc rest Heq) by lia. reflexivity.
Qed.

Lemma sendKeysSequence_in_order_witness :
  exists acts,
    requests acts = map key_request (firstn (S (length ["r1"])) ["ret"; "a"; "b"])
    /\ ((length ["r1"] = length ["ret"; "a"; "b"] ->
         sendKeysSequence ["ret"; "a"; "b"]
           {| socket := true;
              inbox := map QmpReturn ["r1"] ++ [QmpError "GenericError" "no such key"] |}
         = (Returned tt,
            {| socket := true; inbox := [QmpError "GenericError" "no such key"] |}, acts))
        /\ (forall cls desc rest,
              [QmpError "GenericError" "no such key"] = QmpError cls desc :: rest ->
              length ["r1"] < length ["ret"; "a"; "b"] ->
              sendKeysSequence ["ret"; "a"; "b"]
                {| socket := true;
                   inbox := map QmpReturn ["r1"] ++ [QmpError "GenericError" "no such key"] |}
              = (Thrown (qmp_error cls desc), {| socket := true; inbox := rest |}, acts))).
Proof.
  apply (sendKeysSequence_in_order ["ret"; "a"; "b"] ["r1"]
           [QmpError "GenericError" "no such key"]).
  - cbn. lia.
  - intros _. eexists _, _, _. reflexivity.
Defined.

End QmpKeysFacts.

Module QemuOpsFacts.
Import JS Errors Address JsMap Qemu QemuOps.
Local Open Scope list_scope.
Local Open Scope nat_scope.

Lemma to_uint_nonnil (n : nat) : Nat.to_uint n <> Decimal.Nil.
Proof.
  intros H. pose proof (DecimalNat.Unsigned.of_to n) as Hn. rewrite H in Hn.
  cbn in Hn. subst n. discriminate H.
Qed.

Lemma decimal_inj (n m : nat) : decimal n = decimal m -> n = m.
Proof.
  unfold decimal. intros H.
  apply (f_equal DecimalString.NilZero.uint_of_string) in H.
  rewrite !DecimalString.NilZero.usu in H by apply to_uint_nonnil.
  injection H as H. now apply DecimalNat.Unsigned.to_uint_inj.
Qed.

Lemma bp_id_inj (n m : nat) : bp_id n = bp_id m -> n = m.
Proof.
  unfold bp_id. rewrite !FormatFacts.append_cons, !FormatFacts.append_nil.
  intros H. injection H as H. now apply decimal_inj.
Qed.

Lemma map_set_keys {V : Type} (k : string) (v : V) (m : list (string * V)) :
  map fst (map_set k v m)
  = if existsb (String.eqb k) (map fst m) then map fst m else map fst m ++ [k].
Proof.
  induction m as [| [k' v'] m IH]; cbn [map_set map fst existsb app]; [reflexivity |].
  destruct (String.eqb_spec k k') as [-> | Hne]; cbn [orb map fst]; [reflexivity |].
  rewrite IH. now destruct (existsb (String.eqb k) (map fst m)).
Qed.

Lemma map_delete_cons {V : Type} (k k' : string) (v' : V) (m : list (string * V)) :
  map_delete k ((k', v') :: m)
  = if String.eqb k k' then map_delete k m else (k', v') :: map_delete k m.
Proof.
  unfold map_delete. rewrite filter_cons. cbn [fst].
  destruct (String.eqb k k'); reflexivity.
Qed.

Lemma map_delete_keys_sub {V : Type} (k i : string) (m : list (string * V)) :
  In i (map fst (map_delete k m)) -> In i (map fst m).
Proof.
  induction m as [| [k' v'] m IH]; [intros [] |].
  rewrite map_delete_cons. destruct (String.eqb k k'); cbn [map fst In].
  - intros H. right. now apply IH.
  - intros [H | H]; [now left | right; now apply IH].
Qed.

Lemma map_delete_keys_nodup {V : Type} (k : string) (m : list (string * V)) :
  List.NoDup (map fst m) -> List.NoDup (map fst (map_delete k m)).
Proof.
  induction m as [| [k' v'] m IH]; intros H; [constructor |].
  rewrite map_delete_cons. cbn [map fst] in H. inversion H as [| x l Hx Hl]; subst.
  destruct (String.eqb k k'); [now apply IH |].
  cbn [map fst]. constructor; [| now apply IH].
  intros Hin. apply Hx. eapply map_delete_keys_sub, Hin.
Qed.

Lemma existsb_eqb_In (k : string) (l : list string) :
  existsb (String.eqb k) l = true <-> In k l.
Proof.
  rewrite existsb_exists. split.
  - intros (x & Hx & He). apply String.eqb_eq in He. now subst.
  - intros H. exists k. split; [exact H | apply String.eqb_refl].
Qed.

Lemma setBreakpoint_cases (t : BreakpointType) (a : DosAddress) (b : QemuBackend) :
  (exists bp b', setBreakpoint t a b = (Returned bp, b')
                 /\ id bp = bp_id (nextBpId b)
                 /\ breakpoints b' = map_set (id bp) (linear a, bp) (breakpoints b)
                 /\ nextBpId b' = S (nextBpId b))
  \/ (exists o b', setBreakpoint t a b = (o, b')
                   /\ (forall bp, o <> Returned bp)
                   /\ breakpoints b' = breakpoints b
                   /\ nextBpId b' = nextBpId b).
Proof.
  unfold setBreakpoint.
  destruct (gdb b) as [g |]; [| right; eexists _, _; repeat split; discriminate].
  destruct t; try (right; eexists _, _; repeat split; discriminate).
  destruct (Gdb.setBreakpoint (linear a) g) as [o g'].
  destruct o as [[] | e | |];
    [left | right | right | right]; eexists _, _; repeat split; discriminate.
Qed.

Lemma removeBreakpoint_frame (i : string) (b : QemuBackend) :
  nextBpId (snd (removeBreakpoint i b)) = nextBpId b
  /\ (breakpoints (snd (removeBreakpoint i b)) = breakpoints b
      \/ breakpoints (snd (removeBreakpoint i b)) = map_delete i (breakpoints b)).
Proof.
  unfold removeBreakpoint.
  destruct (gdb b) as [g |]; [| split; [reflexivity | now left]].
  destruct (map_get i (breakpoints b)) as [entry |]; [| split; [reflexivity | now left]].
  destruct (Gdb.removeBreakpoint (fst entry) g) as [o g'].
  destruct o; cbn; split; auto.
Qed.

Lemma loadSnapshot_frame (name : string) (t0 t1 : Z) (b : QemuBackend) :
  nextBpId (snd (loadSnapshot name t0 t1 b)) = nextBpId b
  /\ (breakpoints (snd (loadSnapshot name t0 t1 b)) = breakpoints b
      \/ breakpoints (snd (loadSnapshot name t0 t1 b)) = []).
Proof.
  unfold loadSnapshot.
  destruct (qmp b) as [c |]; [| split; [reflexivity | now left]].
  destruct (qmp_loadSnapshot name c) as [[o1 c1] a1].
  destruct o1; try (cbn; split; auto; fail).
  destruct (execute "cont" [] c1) as [[o2 c2] a2].
  destruct o2; cbn; split; auto.
Qed.

Lemma apply_op_ok (op : Op) (b : QemuBackend) :
  table_ok b ->
  fst (apply_op op b) = map bp_id (seq (nextBpId b) (length (fst (apply_op op b))))
  /\ nextBpId (snd (apply_op op b)) = nextBpId b + length (fst (apply_op op b))
  /\ table_ok (snd (apply_op op b))
  /\ (forall i, In i (table_ids (snd (apply_op op b))) ->
                In i (table_ids b) \/ In i (fst (apply_op op b))).
Proof.
  intros [Hold Hnd]. destruct op as [t a | i | name t0 t1]; cbn [apply_op].
  - destruct (setBreakpoint_cases t a b)
      as [(bp & b' & -> & Hid & Hbps & Hnext) | (o & b' & -> & Hno & Hbps & Hnext)].
    + cbn [fst snd length seq map]. rewrite Hid, Hnext.
      assert (Hfresh : existsb (String.eqb (bp_id (nextBpId b))) (table_ids b) = false).
      { apply not_true_is_false. intros H. apply existsb_eqb_In in H.
        destruct (Hold _ H) as (k & Hk & He). apply bp_id_inj in He. lia. }
      assert (Hkeys : table_ids b' = table_ids b ++ [bp_id (nextBpId b)]).
      { unfold table_ids. rewrite Hbps, map_set_keys, Hid.
        unfold table_ids in Hfresh. now rewrite Hfresh. }
      split; [reflexivity |]. split; [lia |]. split; [split |].
      * intros i Hi. rewrite Hkeys in Hi. apply in_app_or in Hi as [Hi | [<- | []]].
        -- destruct (Hold i Hi) as (k & Hk & He). exists k. split; [lia | exact He].
        -- exists (nextBpId b). split; [lia | reflexivity].
      * rewrite Hkeys. apply NoDup_ListNoDup, NoDup_app. repeat split.
        -- now apply NoDup_ListNoDup.
        -- intros x Hx Hx'. apply list_elem_of_In in Hx.
           apply list_elem_of_In in Hx'. destruct Hx' as [<- | []].
           apply existsb_eqb_In in Hx. congruence.
        -- apply NoDup_singleton.
      * intros i Hi. rewrite Hkeys in Hi.
        apply in_app_or in Hi as [Hi | Hi]; [now left | now right].
    + assert (Hres : (let (y, b'0) := (o, b') in
                      match y with
                      | Returned bp => ([id bp], b'0)
                      | _ => ([], b'0)
                      end) = ([], b')).
      { destruct o as [bp | | |]; [now destruct (Hno bp) | | |]; reflexivity. }
      rewrite Hres. cbn [fst snd length seq map]. unfold table_ok, table_ids.
      rewrite Hbps, Hnext. repeat split; auto; lia.
  - destruct (removeBreakpoint_frame i b) as [Hnext [Hbps | Hbps]];
      cbn [fst snd length seq map]; unfold table_ok, table_ids;
      rewrite Hbps, Hnext; (split; [reflexivity |]); (split; [lia |]).
    + repeat split; auto.
    + split; [split |].
      * intros x Hx. apply Hold. eapply map_delete_keys_sub, Hx.
      * now apply map_delete_keys_nodup.
      * intros x Hx. left. eapply map_delete_keys_sub, Hx.
  - destruct (loadSnapshot_frame name t0 t1 b) as [Hnext [Hbps | Hbps]];
      cbn [fst snd length seq map]; unfold table_ok, table_ids;
      rewrite Hbps, Hnext; (split; [reflexivity |]); (split; [lia |]).
    + repeat split; auto.
    + cbn. repeat split; [intros x [] | constructor | intros x []].
Qed.

Lemma run_ops_ok (ops : list Op) :
  forall b, table_ok b ->
    fst (run_ops ops b) = map bp_id (seq (nextBpId b) (length (fst (run_ops ops b))))
    /\ nextBpId (snd (run_ops ops b)) = nextBpId b + length (fst (run_ops ops b))
    /\ table_ok (snd (run_ops ops b))
    /\ (forall i, In i (table_ids (snd (run_ops ops b))) ->
                  In i (table_ids b) \/ In i (fst (run_ops ops b))).
Proof.
  induction ops as [| op ops IH]; intros b Hb; cbn [run_ops].
  - cbn [fst snd length seq map]. split; [reflexivity |]. split; [lia |].
    split; [exact Hb |]. intros i Hi. now left.
  - destruct (apply_op_ok op b Hb) as (Hids & Hnext & Hok & Hsub).
    destruct (apply_op op b) as [ids b1]. cbn [fst snd] in *.
    destruct (IH b1 Hok) as (Hids' & Hnext' & Hok' & Hsub').
    destruct (run_ops ops b1) as [ids' b2]. cbn [fst snd] in *.
    rewrite length_app, seq_app, map_app, <- Hids, <- Hnext, <- Hids'.
    split; [reflexivity |]. split; [lia |]. split; [exact Hok' |].
    intros i Hi. destruct (Hsub' i Hi) as [H | H].
    + destruct (Hsub i H) as [H' | H']; [now left | right; apply in_or_app; now left].
    + right. apply in_or_app. now right.
Qed.

Lemma NoDup_map_inj {A B : Type} (f : A -> B) (l : list A) :
  (forall x y, f x = f y -> x = y) -> List.NoDup l -> List.NoDup (map f l).
Proof.
  intros Hinj. induction 1 as [| x l Hx Hl IH]; cbn [map]; constructor; [| exact IH].
  intros Hin. apply in_map_iff in Hin as (y & Hy & Hin).
  apply Hinj in Hy. subst y. contradiction.
Qed.

(** X14: breakpoint ids are never handed out twice.  Over any sequence of
    [setBreakpoint], [removeBreakpoint] and [loadSnapshot] calls on a
    backend whose table starts empty, whatever the stub and the emulator
    answer, the ids returned by the successful [setBreakpoint] calls are
    [bp_n], [bp_(n+1)], ... for the counter value [n] at the start, without
    gap or repetition; removing a breakpoint or loading a snapshot never
    frees an id for reuse, a failed call uses none up, and the table only
    ever holds ids that were returned, each once. *)
Theorem breakpoint_ids_never_reused (ops : list Op) (b : QemuBackend) :
  breakpoints b = [] ->
  fst (run_ops ops b) = map bp_id (seq (nextBpId b) (length (fst (run_ops ops b))))
  /\ List.NoDup (fst (run_ops ops b))
  /\ nextBpId (snd (run_ops ops b)) = nextBpId b + length (fst (run_ops ops b))
  /\ List.NoDup (table_ids (snd (run_ops ops b)))
  /\ (forall i, In i (table_ids (snd (run_ops ops b))) -> In i (fst (run_ops ops b))).
Proof.
  intros Hempty.
  assert (Hb : table_ok b).
  { unfold table_ok, table_ids. rewrite Hempty. split; [intros i [] | constructor]. }
  destruct (run_ops_ok ops b Hb) as (Hids & Hnext & [_ Hnd] & Hsub).
  split; [exact Hids |]. split; [| split; [exact Hnext | split; [exact Hnd |]]].
  - rewrite Hids. apply NoDup_map_inj; [apply bp_id_inj | apply List.seq_NoDup].
  - intros i Hi. destruct (Hsub i Hi) as [H | H]; [| exact H].
    unfold table_ids in H. rewrite Hempty in H. destruct H.
Qed.

Lemma breakpoint_ids_never_reused_witness :
  let b := connected_backend [QmpReturn EmptyString; QmpReturn EmptyString] ["OK"; "OK"; "OK"; "OK"] in
  let ops := [OpSet execution (parseAddress "0x7c00"); OpRemove "bp_1";
              OpLoad "s" 0 1; OpSet execution (parseAddress "0x7c00")] in
  fst (run_ops ops b) = map bp_id (seq (nextBpId b) (length (fst (run_ops ops b))))
  /\ List.NoDup (fst (run_ops ops b))
  /\ nextBpId (snd (run_ops ops b)) = nextBpId b + length (fst (run_ops ops b))
  /\ List.NoDup (table_ids (snd (run_ops ops b)))
  /\ (forall i, In i (table_ids (snd (run_ops ops b))) -> In i (fst (run_ops ops b))).
Proof.
  exact (breakpoint_ids_never_reused _ (connected_backend _ _) eq_refl).
Defined.

(** After set, remove, snapshot load and set again the second breakpoint
    is [bp_2], not [bp_1] again. *)
Example breakpoint_ids_sample :
  fst (run_ops [OpSet execution (parseAddress "0x7c00"); OpRemove "bp_1";
                OpLoad "s" 0 1; OpSet execution (parseAddress "0x7c00")]
         (connected_backend [QmpReturn EmptyString; QmpReturn EmptyString]
            ["OK"; "OK"; "OK"; "OK"]))
  = ["bp_1"; "bp_2"]%string.
Proof. reflexivity. Qed.

End QemuOpsFacts.

Module QemuConnectFacts.
Import JS Errors Qemu QemuConnect.

Lemma retry_skips_failures {T : Type} (factory : nat -> outcome T) (label : string)
  (j : nat) :
  forall (d fuel a : nat) (slept : Z),
    (a + d = j)%nat -> (j <= maxAttempts)%nat -> (1 <= a)%nat ->
    (forall i, (a <= i < j)%nat -> exists e, factory i = Thrown e) ->
    retry (d + fuel) a factory label slept
    = retry fuel j factory label (slept + delayMs * Z.of_nat d).
Proof.
  induction d as [| d IH]; intros fuel a slept Hj Hmax Ha Hfail.
  - replace a with j by lia. cbn [Nat.add]. f_equal. lia.
  - cbn [Nat.add retry].
    destruct (Nat.leb_spec a maxAttempts) as [_ | Hgt]; [| lia].
    destruct (Hfail a ltac:(lia)) as [e ->].
    destruct (Nat.eqb_spec a maxAttempts) as [Heq | _]; [lia |].
    rewrite (IH fuel (a + 1)%nat) by (try lia; intros i Hi; apply Hfail; lia).
    f_equal. lia.
Qed.

(** X15: [connectWithRetry] calls the factory until it first does not
    throw, and at most 20 times: when the calls before the [j]-th throw
    and the [j]-th does not, the factory is called exactly [j] times, the
    result is that of the [j]-th call, and 500 ms are slept after each of
    the [j-1] failures; when all 20 calls throw, it throws a plain error
    that names the label, the count 20 and the message of the last
    failure, after 19 sleeps.  The final [Unreachable] is never thrown. *)
Theorem connectWithRetry_attempts {T : Type} (factory : nat -> outcome T)
  (label : string) (j : nat) :
  (1 <= j <= 20)%nat ->
  (forall i, (1 <= i < j)%nat -> exists e, factory i = Thrown e) ->
  ((forall e, factory j <> Thrown e) ->
   connectWithRetry factory label = (factory j, j, 500 * (Z.of_nat j - 1)))
  /\ (forall e, factory j = Thrown e -> j = 20%nat ->
      connectWithRetry factory label = (Thrown (failure label e), 20%nat, 9500)).
Proof.
  intros Hj Hfail. unfold connectWithRetry.
  assert (Hfuel : S maxAttempts = ((j - 1) + S (maxAttempts - (j - 1)))%nat).
  { unfold maxAttempts. lia. }
  rewrite Hfuel.
  rewrite (retry_skips_failures factory label j (j - 1) _ 1 0)
    by (unfold maxAttempts; try lia; exact Hfail).
  cbn [retry]. destruct (Nat.leb_spec j maxAttempts) as [_ | Hgt];
    [| unfold maxAttempts in Hgt; lia].
  unfold delayMs. split.
  - intros Hok. destruct (factory j) as [v | e | |] eqn:E.
    + do 2 f_equal. lia.
    + now destruct (Hok e).
    + do 2 f_equal. lia.
    + do 2 f_equal. lia.
  - intros e He H20. rewrite He. subst j. reflexivity.
Qed.

Lemma connectWithRetry_attempts_witness :
  ((forall e, failing_first 3 4 <> Thrown e) ->
   connectWithRetry (failing_first 3) "GDB" = (failing_first 3 4, 4%nat, 500 * (Z.of_nat 4 - 1)))
  /\ (forall e, failing_first 3 4 = Thrown e -> 4%nat = 20%nat ->
      connectWithRetry (failing_first 3) "GDB" = (Thrown (failure "GDB" e), 20%nat, 9500)).
Proof.
  apply (connectWithRetry_attempts (failing_first 3) "GDB" 4); [lia |].
  intros i Hi. unfold failing_first.
  destruct (Nat.leb_spec i 3) as [_ | Hgt]; [eexists; reflexivity | lia].
Defined.

(** Twenty refusals: the error names the label and the last failure. *)
Example connectWithRetry_gives_up :
  connectWithRetry (failing_first 20) "GDB"
  = (Thrown {| error_class := PlainError;
               message := "Failed to connect GDB after 20 attempts: GDB connection error: ECONNREFUSED" |},
     20%nat, 9500).
Proof. reflexivity. Qed.

End QemuConnectFacts.

(* ===================================================================== *)
(** ** The capture pipeline: further properties *)
(* ===================================================================== *)

Module CaptureChecksFacts.
Import JS Errors Address Sha256 JsMap Capture CaptureChecks.
Local Open Scope list_scope.

Lemma map_get_set_eq {V : Type} (k : string) (v : V) (m : list (string * V)) :
  map_get k (map_set k v m) = Some v.
Proof.
  induction m as [| [k' v'] m IH]; cbn [map_set map_get].
  - now rewrite String.eqb_refl.
  - destruct (String.eqb_spec k k') as [-> | Hne]; cbn [map_get].
    + now rewrite String.eqb_refl.
    + destruct (String.eqb_spec k k'); [contradiction | exact IH].
Qed.

Lemma map_get_set_ne {V : Type} (k k0 : string) (v : V) (m : list (string * V)) :
  k0 <> k -> map_get k0 (map_set k v m) = map_get k0 m.
Proof.
  intros Hne. induction m as [| [k' v'] m IH]; cbn [map_set map_get].
  - destruct (String.eqb_spec k0 k); [contradiction | reflexivity].
  - destruct (String.eqb_spec k k') as [-> | Hkk]; cbn [map_get].
    + destruct (String.eqb_spec k0 k'); [contradiction | reflexivity].
    + now rewrite IH.
Qed.

Section ChecksFacts.

Context {Registers World : Type} {backend : Backend Registers World}.
Context (writeFileSync : string -> Buffer -> World -> outcome unit * World).
Context (stringify : Registers -> Buffer).

Abbreviation M := (@Capture.M World).

Lemma bind_returned {A B : Type} (m : M A) (k : A -> M B)
  (st st' : RunState World) (b : B) :
  (m ≫= k) st = (Returned b, st') ->
  exists a st1, m st = (Returned a, st1) /\ k a st1 = (Returned b, st').
Proof.
  unfold mbind, M_bind, bind. destruct (m st) as [[a | e | |] st1]; try discriminate.
  intros H. now exists a, st1.
Qed.

Lemma ret_returned {A : Type} (a b : A) (st st' : RunState World) :
  (ret a : M A) st = (Returned b, st') -> b = a.
Proof. unfold ret. now intros [= ->]. Qed.

(** What the loop over the memory ranges does to a result. *)
Lemma capture_ranges_result (dir : string) (ranges : list MemoryRange) :
  forall (result r : CaptureResult Registers) (st st' : RunState World),
    capture_ranges writeFileSync dir ranges result st = (Returned r, st') ->
    r_prefix r = r_prefix result /\ timestamp r = timestamp result
    /\ framebuffer r = framebuffer result /\ r_screenshot r = r_screenshot result
    /\ ((forall f data, map_get f (memoryDumps result) = Some data ->
                        map_get f (checksums result) = Some (sha256 data)) ->
        forall f data, map_get f (memoryDumps r) = Some data ->
                       map_get f (checksums r) = Some (sha256 data))
    /\ (forall k, ~ In k (map range_filename ranges) ->
                  map_get k (checksums r) = map_get k (checksums result)
                  /\ map_get k (memoryDumps r) = map_get k (memoryDumps result))
    /\ (forall k, In k (map range_filename ranges) -> map_get k (memoryDumps r) <> None).
Proof.
  induction ranges as [| range rest IH]; intros result r st st' H;
    cbn [capture_ranges] in H.
  - apply ret_returned in H. subst r. repeat split; auto.
  - apply bind_returned in H as (data & s1 & _ & H).
    apply bind_returned in H as (u & s2 & _ & H).
    apply IH in H as (Hp & Ht & Hf & Hs & Hchk & Hout & Hin).
    cbn [with_dump r_prefix timestamp framebuffer r_screenshot memoryDumps checksums]
      in *.
    split; [exact Hp |]. split; [exact Ht |]. split; [exact Hf |].
    split; [exact Hs |]. split; [| split].
    + intros Hres. apply Hchk. intros f d Hd.
      destruct (String.eqb_spec f (range_filename range)) as [-> | Hne].
      * rewrite map_get_set_eq in Hd. injection Hd as <-. apply map_get_set_eq.
      * rewrite map_get_set_ne in Hd by exact Hne.
        rewrite map_get_set_ne by exact Hne. now apply Hres.
    + intros k Hk. cbn [map In] in Hk.
      assert (Hne : k <> range_filename range) by (intros ->; apply Hk; now left).
      assert (Hrest : ~ In k (map range_filename rest))
        by (intros Hr; apply Hk; now right).
      destruct (Hout k Hrest) as [H1 H2].
      rewrite H1, H2. now rewrite !map_get_set_ne by exact Hne.
    + intros k Hk. cbn [map In] in Hk.
      destruct (in_dec String.string_dec k (map range_filename rest)) as [Hr | Hr];
        [now apply Hin |].
      destruct Hk as [<- | Hk]; [| contradiction].
      destruct (Hout _ Hr) as [_ H2]. rewrite H2, map_get_set_eq. discriminate.
Qed.

(** X16: what a returned capture result holds.  It carries the prefix of
    the request and the time of the start; every memory dump in it has the
    SHA-256 of its bytes under the same file name in [checksums], and
    there is a dump for every range of the request; the framebuffer and the
    screenshot have their digest under [framebuffer] and [screenshot]
    unless a memory range is given that very file name, whose digest then
    takes the place. *)
Theorem run_result_checksums (dir : string) (request : CaptureRequest) (now : Z)
  (st st' : RunState World) (r : CaptureResult Registers) :
  run writeFileSync stringify dir request now st = (Returned r, st') ->
  r_prefix r = prefix request /\ timestamp r = now
  /\ (forall f data, map_get f (memoryDumps r) = Some data ->
                     map_get f (checksums r) = Some (sha256 data))
  /\ (forall f, In f (range_names request) <-> map_get f (memoryDumps r) <> None)
  /\ (forall data, framebuffer r = Some data -> ~ In "framebuffer" (range_names request) ->
                   map_get "framebuffer" (checksums r) = Some (sha256 data))
  /\ (forall data, r_screenshot r = Some data -> ~ In "screenshot" (range_names request) ->
                   map_get "screenshot" (checksums r) = Some (sha256 data)).
Proof.
  intros H. unfold run in H.
  apply bind_returned in H as (u1 & s1 & _ & H).
  apply bind_returned in H as (u2 & s2 & _ & H).
  apply bind_returned in H as (u3 & s3 & _ & H).
  apply bind_returned in H as (r1 & s4 & H1 & H).
  apply bind_returned in H as (r2 & s5 & H2 & H).
  apply bind_returned in H as (r3 & s6 & H3 & H).
  apply bind_returned in H as (r4 & s7 & H4 & H).
  apply bind_returned in H as (u4 & s8 & _ & H).
  apply ret_returned in H. subst r4.
  set (r0 := {| r_prefix := prefix request; framebuffer := None; r_screenshot := None;
                screenshotFormat := if String.eqb backend_type "qemu" then "ppm" else "bmp";
                registers := None; memoryDumps := []; checksums := [];
                timestamp := now |}) in *.
  assert (E1 : r1 = r0 \/ exists data, r1 = with_framebuffer data r0).
  { destruct (not_false (captureFramebuffer request)).
    - apply bind_returned in H1 as (data & t1 & _ & H1).
      apply bind_returned in H1 as (u & t2 & _ & H1).
      apply ret_returned in H1. right. now exists data.
    - apply ret_returned in H1. now left. }
  assert (E2 : r2 = r1 \/ exists data format, r2 = with_screenshot data format r1).
  { destruct (not_false (captureScreenshot request)).
    - apply bind_returned in H2 as (ss & t1 & _ & H2).
      apply bind_returned in H2 as (u & t2 & _ & H2).
      apply ret_returned in H2. right. now exists (fst ss), (snd ss).
    - apply ret_returned in H2. now left. }
  assert (E3 : r3 = r2 \/ exists regs, r3 = with_registers regs r2).
  { destruct (not_false (captureRegisters request)).
    - apply bind_returned in H3 as (regs & t1 & _ & H3).
      apply bind_returned in H3 as (u & t2 & _ & H3).
      apply ret_returned in H3. right. now exists regs.
    - apply ret_returned in H3. now left. }
  assert (P3 : r_prefix r3 = prefix request /\ timestamp r3 = now
               /\ memoryDumps r3 = []
               /\ (forall data, framebuffer r3 = Some data ->
                     map_get "framebuffer" (checksums r3) = Some (sha256 data))
               /\ (forall data, r_screenshot r3 = Some data ->
                     map_get "screenshot" (checksums r3) = Some (sha256 data))).
  { destruct E1 as [-> | [d1 ->]], E2 as [-> | (d2 & f2 & ->)], E3 as [-> | [g3 ->]];
      cbn; repeat split; try discriminate; intros data [= ->]; reflexivity. }
  destruct P3 as (Pp & Pt & Pd & Pf & Ps).
  unfold range_names.
  destruct (memoryRanges request) as [ranges |].
  - apply capture_ranges_result in H4 as (Hp & Ht & Hf & Hs & Hchk & Hout & Hin).
    split; [congruence |]. split; [congruence |]. split; [| split; [| split]].
    + apply Hchk. rewrite Pd. intros f data Hd. discriminate Hd.
    + intros f. split; [apply Hin |]. intros Hsome.
      destruct (in_dec String.string_dec f (map range_filename ranges)) as [Hr | Hr];
        [exact Hr |].
      destruct (Hout f Hr) as [_ H2']. rewrite H2', Pd in Hsome. now destruct Hsome.
    + intros data Hd Hno. destruct (Hout _ Hno) as [-> _]. apply Pf. congruence.
    + intros data Hd Hno. destruct (Hout _ Hno) as [-> _]. apply Ps. congruence.
  - apply ret_returned in H4. subst r.
    split; [exact Pp |]. split; [exact Pt |]. rewrite Pd.
    split; [intros f data Hd; discriminate Hd |]. split; [| split].
    + intros f. split; [intros [] | intros Hn; now destruct Hn].
    + intros data Hd _. now apply Pf.
    + intros data Hd _. now apply Ps.
Qed.

Lemma fail_stop_ret (P : Call -> bool) {A : Type} (a : A) : fail_stop P (ret a : M A).
Proof.
  intros st. exists []. cbn. rewrite app_nil_r.
  split; [reflexivity |]. split; [constructor | intros c []].
Qed.

Lemma fail_stop_throw (P : Call -> bool) {A : Type} (e : JsError) :
  fail_stop P (throw e : M A).
Proof.
  intros st. exists []. cbn. rewrite app_nil_r.
  split; [reflexivity |]. split; [constructor | intros c []].
Qed.

Lemma fail_stop_the_world (P : Call -> bool) : fail_stop P (the_world : M World).
Proof.
  intros st. exists []. cbn. rewrite app_nil_r.
  split; [reflexivity |]. split; [constructor | intros c []].
Qed.

Lemma fail_stop_invoke (P : Call -> bool) {A : Type} (c : Call)
  (op : World -> outcome A * World) :
  P c = true -> fail_stop P (invoke c op).
Proof.
  intros Hc st. unfold invoke. destruct (op (world st)) as [o w].
  exists [(c, returned o)]. cbn [snd fst calls].
  split; [reflexivity |]. split; [repeat constructor; exact Hc |].
  intros c' [H | []]. injection H as <- Hr.
  split; [exact Hr |]. exists []. rewrite Hr. split; [reflexivity | constructor].
Qed.

Lemma all_succeeded (l : list (Call * bool)) :
  (forall c, ~ In (c, false) l) -> Forall succeeded l.
Proof.
  intros H. apply Forall_forall. intros [c ok] Hin. apply list_elem_of_In in Hin.
  destruct ok; [reflexivity | now destruct (H c)].
Qed.

Lemma fail_stop_bind (P : Call -> bool) {A B : Type} (m : M A) (k : A -> M B) :
  fail_stop P m -> (forall a, fail_stop P (k a)) -> fail_stop P (m ≫= k).
Proof.
  intros Hm Hk st. unfold mbind, M_bind, bind.
  destruct (Hm st) as (l1 & Hl1 & HP1 & Hf1).
  destruct (m st) as [o1 st1]. cbn [fst snd] in *.
  destruct o1 as [a | e | |];
    try (exists l1; cbn [fst snd]; split; [assumption |]; split; assumption).
  destruct (Hk a st1) as (l2 & Hl2 & HP2 & Hf2).
  exists (l1 ++ l2). rewrite Hl2, Hl1, app_assoc.
  split; [reflexivity |]. split; [apply Forall_app; now split |].
  assert (Hs1 : Forall succeeded l1).
  { apply all_succeeded. intros c Hc. now destruct (Hf1 c Hc) as [Hr _]. }
  intros c Hc. apply in_app_or in Hc as [Hc | Hc].
  - now destruct (Hf1 c Hc) as [Hr _].
  - destruct (Hf2 c Hc) as (Hr & pre & -> & Hpre). split; [exact Hr |].
    exists (l1 ++ pre). rewrite app_assoc. split; [reflexivity |].
    apply Forall_app. now split.
Qed.

Lemma fail_stop_ranges (P : Call -> bool) (dir : string) (ranges : list MemoryRange) :
  (forall c, is_pause c = false -> is_wait c = false -> is_remove c = false ->
             P c = true) ->
  forall result, fail_stop P (capture_ranges writeFileSync dir ranges result).
Proof.
  intros HP. induction ranges as [| range rest IH]; intros result; cbn [capture_ranges].
  - apply fail_stop_ret.
  - apply fail_stop_bind; [now apply fail_stop_invoke, HP |]. intros data.
    apply fail_stop_bind; [now apply fail_stop_invoke, HP |]. intros _.
    apply IH.
Qed.

Ltac fail_stop_steps HP :=
  repeat first
    [ apply fail_stop_ret
    | apply fail_stop_throw
    | apply fail_stop_the_world
    | apply fail_stop_ranges; exact HP
    | apply fail_stop_invoke; apply HP; reflexivity
    | apply fail_stop_bind; [| intros ?] ].

(** The snapshot and key stages. *)
Lemma fail_stop_snapshot (P : Call -> bool) (request : CaptureRequest) :
  (forall c, is_pause c = false -> is_wait c = false -> is_remove c = false ->
             P c = true) ->
  fail_stop P (match snapshot request with
               | Some (String c s) =>
                   invoke (CLoadSnapshot (String c s)) (loadSnapshot (String c s));;
                   sleep 1000
               | _ => ret tt
               end : M unit).
Proof.
  intros HP. destruct (snapshot request) as [[| c s] |]; unfold sleep; fail_stop_steps HP.
Qed.

Lemma fail_stop_keys (P : Call -> bool) (request : CaptureRequest) :
  (forall c, is_pause c = false -> is_wait c = false -> is_remove c = false ->
             P c = true) ->
  fail_stop P (match keys request with
               | Some (k :: ks) =>
                   invoke CSendKeys (sendKeys (k :: ks) (keyDelay request));;
                   sleep (or_default (waitTime request) 2 * 1000)
               | _ => ret tt
               end : M unit).
Proof.
  intros HP. destruct (keys request) as [[| k ks] |]; unfold sleep; fail_stop_steps HP.
Qed.

(** The wait of the breakpoint branch. *)
Lemma fail_stop_wait (P : Call -> bool) (request : CaptureRequest) :
  (forall c, is_pause c = false -> is_remove c = false -> P c = true) ->
  fail_stop P (match getGdb with
               | Some get =>
                   w ← the_world;
                   if get w then
                     invoke (CWaitForStop (or_default (timeout request) 30 * 1000))
                       (waitForStop (or_default (timeout request) 30 * 1000));;
                     ret tt
                   else
                     throw {| error_class := PlainError;
                              message := "QEMU GDB connection is not available for breakpoint capture" |}
               | None => sleep (or_default (timeout request) 30 * 1000)
               end : M unit).
Proof.
  intros HP. destruct getGdb as [get |]; unfold sleep; [| fail_stop_steps HP].
  apply fail_stop_bind; [apply fail_stop_the_world |]. intros w.
  destruct (get w); fail_stop_steps HP.
Qed.

(** The stages after the stop: framebuffer, screenshot, registers, memory
    ranges, resume. *)
Lemma fail_stop_captures (P : Call -> bool) (dir : string) (request : CaptureRequest)
  (result : CaptureResult Registers) :
  (forall c, is_pause c = false -> is_wait c = false -> is_remove c = false ->
             P c = true) ->
  fail_stop P
    (result ←
       (if not_false (captureFramebuffer request) then
          let addr := parseAddress ("0x" ++ toString16 (Num MODE_13H_ADDRESS)) in
          data ← invoke (CReadMemory addr MODE_13H_SIZE) (readMemory addr MODE_13H_SIZE);
          let fbPath := join dir (prefix request ++ "_framebuffer.bin") in
          invoke (CWriteFile fbPath) (writeFileSync fbPath data);;
          ret (with_framebuffer data result)
        else ret result);
     result ←
       (if not_false (captureScreenshot request) then
          ss ← invoke CScreenshot screenshot;
          let ssPath := join dir (prefix request ++ "_screenshot." ++ snd ss) in
          invoke (CWriteFile ssPath) (writeFileSync ssPath (fst ss));;
          ret (with_screenshot (fst ss) (snd ss) result)
        else ret result);
     result ←
       (if not_false (captureRegisters request) then
          regs ← invoke CReadRegisters readRegisters;
          let regPath := join dir (prefix request ++ "_registers.json") in
          invoke (CWriteFile regPath) (writeFileSync regPath (stringify regs));;
          ret (with_registers regs result)
        else ret result);
     result ←
       match memoryRanges request with
       | Some ranges => capture_ranges writeFileSync dir ranges result
       | None => ret result
       end;
     invoke CResume resume;;
     ret result : M (CaptureResult Registers)).
Proof.
  intros HP.
  apply fail_stop_bind.
  { destruct (not_false (captureFramebuffer request)); cbv zeta; fail_stop_steps HP. }
  intros r1. apply fail_stop_bind.
  { destruct (not_false (captureScreenshot request)); fail_stop_steps HP. }
  intros r2. apply fail_stop_bind.
  { destruct (not_false (captureRegisters request)); fail_stop_steps HP. }
  intros r3. apply fail_stop_bind.
  { destruct (memoryRanges request); fail_stop_steps HP. }
  intros r4. fail_stop_steps HP.
Qed.

Lemma fail_stop_breakpoint (P : Call -> bool) (request : CaptureRequest) :
  (forall c, is_pause c = false -> P c = true) ->
  (breakpoint request = None -> P CPause = true) ->
  fail_stop P (match breakpoint request with
               | Some a =>
                   bp ← invoke CSetBreakpoint (setBreakpoint a);
                   invoke CResume resume;;
                   match getGdb with
                   | Some get =>
                       w ← the_world;
                       if get w then
                         invoke (CWaitForStop (or_default (timeout request) 30 * 1000))
                           (waitForStop (or_default (timeout request) 30 * 1000));;
                         ret tt
                       else
                         throw {| error_class := PlainError;
                                  message := "QEMU GDB connection is not available for breakpoint capture" |}
                   | None => sleep (or_default (timeout request) 30 * 1000)
                   end;;
                   invoke (CRemoveBreakpoint bp) (removeBreakpoint bp)
               | None => invoke CPause pause
               end : M unit).
Proof.
  intros HP Hpause. destruct (breakpoint request) as [a |].
  - apply fail_stop_bind; [now apply fail_stop_invoke, HP |]. intros bp.
    apply fail_stop_bind; [now apply fail_stop_invoke, HP |]. intros _.
    apply fail_stop_bind; [apply fail_stop_wait; auto |]. intros _.
    now apply fail_stop_invoke, HP.
  - apply fail_stop_invoke. now apply Hpause.
Qed.

(** Every run stops at the first call that does not return. *)
Lemma run_fail_stop (P : Call -> bool) (dir : string) (request : CaptureRequest)
  (now : Z) :
  (forall c, is_pause c = false -> P c = true) ->
  (breakpoint request = None -> P CPause = true) ->
  fail_stop P (run writeFileSync stringify dir request now).
Proof.
  intros HP Hpause. unfold run.
  apply fail_stop_bind; [apply fail_stop_snapshot; auto |]. intros _.
  apply fail_stop_bind; [apply fail_stop_keys; auto |]. intros _.
  apply fail_stop_bind; [now apply fail_stop_breakpoint |]. intros _.
  apply fail_stop_captures. auto.
Qed.

Lemma wbr_no_wait {A : Type} (m : M A) :
  fail_stop (fun c => negb (is_wait c)) m -> waits_before_removes m.
Proof.
  intros Hm st. destruct (Hm st) as (l & Hl & HP & _).
  exists [], l. split; [exact Hl |]. split; [constructor |].
  eapply Forall_impl; [exact HP |]. intros e He. now apply negb_true_iff.
Qed.

Lemma wbr_left {A B : Type} (m : M A) (k : A -> M B) :
  fail_stop (fun c => negb (is_remove c)) m ->
  (forall a, waits_before_removes (k a)) -> waits_before_removes (m ≫= k).
Proof.
  intros Hm Hk st. unfold mbind, M_bind, bind.
  destruct (Hm st) as (l & Hl & HP & _).
  assert (HP' : Forall (fun e => is_remove (fst e) = false) l).
  { eapply Forall_impl; [exact HP |]. intros e He. now apply negb_true_iff. }
  destruct (m st) as [o1 st1]. cbn [fst snd] in *.
  destruct o1 as [a | e | |];
    try (exists l, []; cbn [fst snd]; rewrite app_nil_r;
         split; [assumption |]; split; [assumption | constructor]).
  destruct (Hk a st1) as (l1 & l2 & Hl2 & H1 & H2).
  exists (l ++ l1), l2. rewrite Hl2, Hl, <- !app_assoc.
  split; [reflexivity |]. split; [apply Forall_app; now split | exact H2].
Qed.

Lemma wbr_right {A B : Type} (m : M A) (k : A -> M B) :
  waits_before_removes m ->
  (forall a, fail_stop (fun c => negb (is_wait c)) (k a)) ->
  waits_before_removes (m ≫= k).
Proof.
  intros Hm Hk st. unfold mbind, M_bind, bind.
  destruct (Hm st) as (l1 & l2 & Hl & H1 & H2).
  destruct (m st) as [o1 st1]. cbn [fst snd] in *.
  destruct o1 as [a | e | |];
    try (exists l1, l2; cbn [fst snd]; split; [assumption |]; split; assumption).
  destruct (Hk a st1) as (l & Hl' & HP & _).
  exists l1, (l2 ++ l). rewrite Hl', Hl, <- !app_assoc.
  split; [reflexivity |]. split; [exact H1 |]. apply Forall_app. split; [exact H2 |].
  eapply Forall_impl; [exact HP |]. intros e He. now apply negb_true_iff.
Qed.

(** In every run the wait for the stop comes before the removal of the
    breakpoint. *)
Lemma run_waits_before_removes (dir : string) (request : CaptureRequest) (now : Z) :
  waits_before_removes (run writeFileSync stringify dir request now).
Proof.
  unfold run.
  apply wbr_left; [apply fail_stop_snapshot; now intros c _ _ -> |]. intros _.
  apply wbr_left; [apply fail_stop_keys; now intros c _ _ -> |]. intros _.
  apply wbr_right.
  - destruct (breakpoint request) as [a |].
    + apply wbr_left; [now apply fail_stop_invoke |]. intros bp.
      apply wbr_left; [now apply fail_stop_invoke |]. intros _.
      apply wbr_left; [apply fail_stop_wait; now intros c _ -> |]. intros _.
      apply wbr_no_wait. now apply fail_stop_invoke.
    + apply wbr_no_wait. now apply fail_stop_invoke.
  - intros _. apply fail_stop_captures. now intros c _ ->.
Qed.

(** X17: a run of the pipeline, for any request, makes no call after one
    that did not return: that call is the last, the run does not return,
    and nothing is cleaned up.  In particular, when the wait for the
    breakpoint does not return (the stub reports no stop in time),
    [removeBreakpoint] is never called, so the breakpoint that was set stays
    set.  A run with a breakpoint never calls [pause]. *)
Theorem run_stops_at_first_failure
  (dir : string) (request : CaptureRequest) (now : Z) (st : RunState World) :
  exists added : list (Call * bool),
    calls (snd (run writeFileSync stringify dir request now st)) = calls st ++ added
    /\ (forall c, In (c, false) added ->
          returned (fst (run writeFileSync stringify dir request now st)) = false
          /\ exists steps, added = steps ++ [(c, false)] /\ Forall succeeded steps)
    /\ (forall ms, In (CWaitForStop ms, false) added ->
          forall bp ok, ~ In (CRemoveBreakpoint bp, ok) added)
    /\ (breakpoint request <> None -> forall ok, ~ In (CPause, ok) added).
Proof.
  set (P := fun c => negb (is_pause c)
                     || match breakpoint request with None => true | Some _ => false end).
  assert (HP : forall c, is_pause c = false -> P c = true).
  { intros c Hc. unfold P. now rewrite Hc. }
  assert (Hpause : breakpoint request = None -> P CPause = true).
  { intros Hn. unfold P. now rewrite Hn. }
  destruct (run_fail_stop P dir request now HP Hpause st) as (l & Hl & Hall & Hf).
  destruct (run_waits_before_removes dir request now st) as (l1 & l2 & Hl' & H1 & H2).
  exists l. split; [exact Hl |]. split; [exact Hf |]. split.
  - intros ms Hin bp ok Hrem.
    destruct (Hf _ Hin) as (_ & steps & Hsteps & _).
    assert (Heq : l = l1 ++ l2).
    { rewrite Hl in Hl'. now apply app_inv_head in Hl'. }
    assert (Hlast : l2 = [] \/ exists l2' y, l2 = l2' ++ [y]).
    { destruct l2 as [| z zs]; [now left | right].
      destruct (@exists_last _ (z :: zs) ltac:(discriminate)) as (l2' & y & E).
      now exists l2', y. }
    destruct Hlast as [-> | (l2' & y & ->)].
    + rewrite app_nil_r in Heq. subst l1.
      rewrite Forall_forall in H1. apply list_elem_of_In in Hrem.
      specialize (H1 _ Hrem). discriminate H1.
    + rewrite Heq, app_assoc in Hsteps. apply app_inj_tail in Hsteps as [_ ->].
      apply Forall_app in H2 as [_ H2]. inversion H2 as [| x xs Hx _]; subst.
      discriminate Hx.
  - intros Hbp ok Hin. rewrite Forall_forall in Hall.
    apply list_elem_of_In in Hin. specialize (Hall _ Hin). unfold P in Hall.
    cbn in Hall. destruct (breakpoint request); [discriminate Hall | now apply Hbp].
Qed.

End ChecksFacts.



Lemma run_result_checksums_witness :
  exists r st',
    run flag_writeFileSync flag_stringify "captures" ranges_request 7
      {| world := false; calls := [] |} = (Returned r, st')
    /\ r_prefix r = prefix ranges_request /\ timestamp r = 7
    /\ (forall f data, map_get f (memoryDumps r) = Some data ->
                       map_get f (checksums r) = Some (sha256 data))
    /\ (forall f, In f (range_names ranges_request) <-> map_get f (memoryDumps r) <> None)
    /\ (forall data, framebuffer r = Some data ->
                     ~ In "framebuffer" (range_names ranges_request) ->
                     map_get "framebuffer" (checksums r) = Some (sha256 data))
    /\ (forall data, r_screenshot r = Some data ->
                     ~ In "screenshot" (range_names ranges_request) ->
                     map_get "screenshot" (checksums r) = Some (sha256 data)).
Proof.
  eexists _, _. split; [reflexivity |].
  eapply (run_result_checksums flag_writeFileSync flag_stringify "captures"
            ranges_request 7 {| world := false; calls := [] |}).
  reflexivity.
Defined.

(** On a backend whose stub reports no stop, the breakpoint capture ends
    with the time-out: the breakpoint is still set (the count is 1) and
    neither [removeBreakpoint] nor anything else was called afterwards. *)
Example run_breakpoint_timeout :
  run (backend := timeout_backend) (fun _ _ w => (Returned tt, w)) (fun _ => [])
    "captures" breakpoint_request 0 {| world := 0%nat; calls := [] |}
  = (Thrown {| error_class := TimeoutError; message := "GDB recv timeout" |},
     {| world := 1%nat;
        calls := [(CSetBreakpoint, true); (CResume, true); (CWaitForStop 5000, false)] |}).
Proof. reflexivity. Qed.

End CaptureChecksFacts.

(* ===================================================================== *)
(** ** Memory watches: the table and the timers *)
(* ===================================================================== *)

Module WatchTableFacts.
Import Errors Sha256 MemoryWatch WatchTable.

(** X18: timers and watches stay paired.  After any sequence of client
    messages, timer ticks, settled reads, snapshot events and closed
    connections, every registered watch has a running timer that polls for
    its id, address and size, and every running timer belongs to the watch
    registered under its id: replacing or stopping a watch leaves no timer
    behind.  The period kept for a watch is at least 200 ms when it is a
    number; it is [NaN] for a watch started by a message whose
    [intervalMs] is missing or converts to no number.  When the server
    closes, no watch and no timer is left. *)
Theorem watch_timers_paired (evs : list Event) :
  consistent (run evs initial)
  /\ (forall i r w,
        watches (run evs initial) !! i = Some r -> heap (run evs initial) !! r = Some w ->
        match intervalMs w with
        | JS.NaN => True
        | JS.Num ms => 200 <= ms
        end)
  /\ (forall ws i address size,
        hasBackend (run evs initial) = true
        /\ exists r w,
             watches (run (evs ++ [MemoryWatchMsg ws i address size JS.NaN]) initial) !! i
             = Some r
             /\ heap (run (evs ++ [MemoryWatchMsg ws i address size JS.NaN]) initial) !! r
                = Some w
             /\ intervalMs w = JS.NaN)
  /\ watches (fst (step ServerClosed (run evs initial))) = ∅
  /\ timers (fst (step ServerClosed (run evs initial))) = ∅.
Proof.
  pose proof (MemoryWatchFacts.consistent_run evs initial
                MemoryWatchFacts.initial_consistent) as Hrun.
  split; [exact Hrun |]. split; [| split; [| split]].
  - intros i r w Hi Hw. destruct Hrun as [H1 _].
    destruct (H1 i r Hi) as (w0 & c & Hr & _ & Hint & _).
    assert (w0 = w) by congruence. subst w0. exact Hint.
  - intros ws i address size.
    pose proof (MemoryWatchFacts.run_hasBackend evs initial) as Hb.
    split; [exact Hb |].
    unfold run at 1 2. rewrite !fold_left_app. cbn [fold_left].
    change (fold_left _ evs initial) with (run evs initial).
    cbn [step fst]. rewrite Hb. change (hasBackend initial) with true. cbn iota.
    unfold startMemoryWatch. cbn [watches heap].
    eexists _, _. rewrite lookup_insert_eq. split; [reflexivity |].
    rewrite lookup_app_r by lia. rewrite Nat.sub_diag. split; reflexivity.
  - cbn [step fst]. apply MemoryWatchFacts.stopAllWatches_empty.
  - cbn [step fst]. apply MemoryWatchFacts.stopAllWatches_timers. exact Hrun.
Qed.

(** A [memory:watch] message without [intervalMs]: the period that goes to
    [setInterval] is [NaN], not 200. *)
Example watch_without_interval :
  let s := fst (step (MemoryWatchMsg 1 "w" "0xB8000" 4 JS.NaN) initial) in
  intervalMs <$> heap s !! 0%nat = Some JS.NaN.
Proof. reflexivity. Qed.

End WatchTableFacts.

(* ===================================================================== *)
(** ** Channel subscriptions *)
(* ===================================================================== *)

Module ChannelsFacts.
Import JsMap Channels.
Local Open Scope list_scope.
Local Open Scope nat_scope.

Lemma set_add_spec (ws x : nat) (l : list nat) :
  In x (set_add ws l) <-> x = ws \/ In x l.
Proof.
  unfold set_add. destruct (existsb (Nat.eqb ws) l) eqn:E.
  - split; [now right |]. intros [-> | H]; [| exact H].
    apply existsb_exists in E as (y & Hy & He). apply Nat.eqb_eq in He. now subst.
  - rewrite in_app_iff. cbn. split; [intros [H | [H | []]] | intros [H | H]]; auto.
Qed.

Lemma set_add_nodup (ws : nat) (l : list nat) :
  List.NoDup l -> List.NoDup (set_add ws l).
Proof.
  intros H. unfold set_add. destruct (existsb (Nat.eqb ws) l) eqn:E; [exact H |].
  apply NoDup_ListNoDup, NoDup_app. repeat split.
  - now apply NoDup_ListNoDup.
  - intros x Hx Hx'. apply list_elem_of_In in Hx. apply list_elem_of_In in Hx'.
    destruct Hx' as [<- | []].
    assert (existsb (Nat.eqb ws) l = true); [| congruence].
    apply existsb_exists. exists ws. split; [exact Hx | apply Nat.eqb_refl].
  - apply NoDup_singleton.
Qed.

Lemma set_delete_spec (ws x : nat) (l : list nat) :
  In x (set_delete ws l) <-> x <> ws /\ In x l.
Proof.
  unfold set_delete. rewrite filter_In, negb_true_iff, Nat.eqb_neq. intuition.
Qed.

Lemma set_delete_nodup (ws : nat) (l : list nat) :
  List.NoDup l -> List.NoDup (set_delete ws l).
Proof. apply List.NoDup_filter. Qed.

Lemma map_get_removeClient (ws : nat) (channel : string) (subs : Subscriptions) :
  map_get channel (removeClient ws subs)
  = option_map (set_delete ws) (map_get channel subs).
Proof.
  unfold removeClient. induction subs as [| [k l] subs IH]; [reflexivity |].
  cbn [map map_get fst snd]. destruct (String.eqb channel k); [reflexivity | exact IH].
Qed.

(** How one call changes the set of a channel. *)
Lemma apply_op_lookup (op : Op) (subs : Subscriptions) (channel : string)
  (l' : list nat) :
  map_get channel (apply_op op subs) = Some l' ->
  exists l, (map_get channel subs = Some l \/ l = [])
            /\ (l' = l
                \/ (exists ws, op = Subscribe ws channel /\ l' = set_add ws l)
                \/ (exists ws, (op = Unsubscribe ws channel \/ op = RemoveClient ws)
                               /\ l' = set_delete ws l)).
Proof.
  destruct op as [ws ch | ws ch | ws]; cbn [apply_op].
  - unfold subscribe. destruct (map_get ch subs) as [l |] eqn:E.
    + rewrite E. destruct (String.eqb_spec channel ch) as [-> | Hne].
      * rewrite CaptureChecksFacts.map_get_set_eq. intros [= <-].
        exists l. split; [now left |]. right. left. now exists ws.
      * rewrite CaptureChecksFacts.map_get_set_ne by exact Hne. intros H.
        exists l'. split; [now left | now left].
    + rewrite CaptureChecksFacts.map_get_set_eq.
      destruct (String.eqb_spec channel ch) as [-> | Hne].
      * rewrite CaptureChecksFacts.map_get_set_eq. intros [= <-].
        exists []. split; [now right |]. right. left. now exists ws.
      * rewrite !CaptureChecksFacts.map_get_set_ne by exact Hne. intros H.
        exists l'. split; [now left | now left].
  - unfold unsubscribe. destruct (map_get ch subs) as [l |] eqn:E.
    + destruct (String.eqb_spec channel ch) as [-> | Hne].
      * rewrite CaptureChecksFacts.map_get_set_eq. intros [= <-].
        exists l. split; [now left |]. right. right. exists ws. split; [now left | reflexivity].
      * rewrite CaptureChecksFacts.map_get_set_ne by exact Hne. intros H.
        exists l'. split; [now left | now left].
    + intros H. exists l'. split; [now left | now left].
  - rewrite map_get_removeClient.
    destruct (map_get channel subs) as [l |]; [| discriminate].
    intros [= <-]. exists l. split; [now left |]. right. right.
    exists ws. split; [now right | reflexivity].
Qed.

Lemma sets_ok_apply (op : Op) (subs : Subscriptions) :
  sets_ok subs -> sets_ok (apply_op op subs).
Proof.
  intros Hok channel l' H.
  destruct (apply_op_lookup op subs channel l' H) as (l & Hl & Hcase).
  assert (Hnd : List.NoDup l).
  { destruct Hl as [Hl | ->]; [now apply (Hok channel) | constructor]. }
  destruct Hcase as [-> | [(ws & _ & ->) | (ws & _ & ->)]];
    [exact Hnd | now apply set_add_nodup | now apply set_delete_nodup].
Qed.

Lemma absent_apply (ws : nat) (op : Op) (subs : Subscriptions) :
  subscribes ws op = false -> absent ws subs -> absent ws (apply_op op subs).
Proof.
  intros Hop Hab channel l' H.
  destruct (apply_op_lookup op subs channel l' H) as (l & Hl & Hcase).
  assert (Hno : ~ In ws l).
  { destruct Hl as [Hl | ->]; [now apply (Hab channel) | intros []]. }
  destruct Hcase as [-> | [(ws' & -> & ->) | (ws' & _ & ->)]]; [exact Hno | |].
  - cbn in Hop. apply Nat.eqb_neq in Hop.
    intros Hin. apply set_add_spec in Hin as [Heq | Hin]; [congruence | contradiction].
  - intros Hin. apply set_delete_spec in Hin as [_ Hin]. contradiction.
Qed.

Lemma absent_removeClient (ws : nat) (subs : Subscriptions) :
  absent ws (removeClient ws subs).
Proof.
  intros channel l' H. rewrite map_get_removeClient in H.
  destruct (map_get channel subs) as [l |]; [| discriminate].
  injection H as <-. intros Hin. apply set_delete_spec in Hin as [Hne _]. congruence.
Qed.

Lemma sets_ok_run (ops : list Op) :
  forall subs, sets_ok subs -> sets_ok (run ops subs).
Proof.
  induction ops as [| op ops IH]; intros subs H; [exact H |].
  cbn [run fold_left]. apply IH. now apply sets_ok_apply.
Qed.

Lemma absent_run (ws : nat) (ops : list Op) :
  forallb (fun op => negb (subscribes ws op)) ops = true ->
  forall subs, absent ws subs -> absent ws (run ops subs).
Proof.
  induction ops as [| op ops IH]; intros Hops subs H; [exact H |].
  cbn [forallb] in Hops. apply andb_prop in Hops as [Hop Hops].
  apply negb_true_iff in Hop.
  cbn [run fold_left]. apply IH; [exact Hops |]. now apply absent_apply.
Qed.

Lemma broadcast_recipients (is_open : nat -> bool) (json : string) (l : list nat) :
  map fst (flat_map (fun ws => if is_open ws then [(ws, SendText json)] else []) l)
  = List.filter is_open l.
Proof.
  induction l as [| ws l IH]; [reflexivity |].
  cbn [flat_map List.filter]. rewrite map_app, IH. now destruct (is_open ws).
Qed.

(** X19: who gets a broadcast.  After any sequence of [subscribe],
    [unsubscribe] and [removeClient] calls on a fresh manager, a broadcast
    on a channel is sent to every socket at most once, however often it
    subscribed, and to open sockets only; [broadcastBinary] goes to the
    same sockets in the same order, each getting the JSON text directly
    followed by the binary data.  A socket removed with [removeClient]
    gets no broadcast on any channel as long as it does not subscribe
    again. *)
Theorem broadcast_recipients_once (is_open : nat -> bool) (ops : list Op)
  (channel json : string) (data : Buffer) :
  List.NoDup (map fst (broadcast is_open channel json (run ops [])))
  /\ (forall ws sent, In (ws, sent) (broadcast is_open channel json (run ops [])) ->
        is_open ws = true /\ sent = SendText json)
  /\ broadcastBinary is_open channel json data (run ops [])
     = flat_map (fun e => [e; (fst e, SendBinary data)])
         (broadcast is_open channel json (run ops []))
  /\ (forall ws before after,
        ops = before ++ RemoveClient ws :: after ->
        forallb (fun op => negb (subscribes ws op)) after = true ->
        ~ In ws (map fst (broadcast is_open channel json (run ops [])))).
Proof.
  assert (Hok : sets_ok (run ops [])).
  { apply sets_ok_run. intros ch l H. discriminate H. }
  unfold broadcast, broadcastBinary.
  split; [| split; [| split]].
  - destruct (map_get channel (run ops [])) as [l |] eqn:E; [| constructor].
    rewrite broadcast_recipients. apply List.NoDup_filter. now apply (Hok channel).
  - intros ws sent Hin.
    destruct (map_get channel (run ops [])) as [l |]; [| destruct Hin].
    apply in_flat_map in Hin as (x & _ & Hx).
    destruct (is_open x) eqn:Ex; [| destruct Hx].
    destruct Hx as [[= <- <-] | []]. now split.
  - destruct (map_get channel (run ops [])) as [l |]; [| reflexivity].
    induction l as [| ws l IH]; [reflexivity |].
    cbn [flat_map]. rewrite flat_map_app, <- IH. now destruct (is_open ws).
  - intros ws before after -> Hafter Hin.
    unfold run in *. rewrite fold_left_app in *. cbn [fold_left apply_op] in *.
    set (s := fold_left (fun s op => apply_op op s) before []) in *.
    pose proof (absent_run ws after Hafter _ (absent_removeClient ws s)) as Hab.
    unfold run in Hab.
    destruct (map_get channel
                (fold_left (fun s op => apply_op op s) after (removeClient ws s)))
      as [l |] eqn:E; [| destruct Hin].
    rewrite broadcast_recipients in Hin. apply filter_In in Hin as [Hin _].
    exact (Hab channel l E Hin).
Qed.

(** Subscribing twice and leaving: one message while subscribed, none
    after the connection is removed. *)
Example broadcast_sample :
  broadcast (fun _ => true) "debug" "{}"
    (run [Subscribe 1 "debug"; Subscribe 2 "debug"; Subscribe 1 "debug"] [])
  = [(1, SendText "{}"); (2, SendText "{}")]
  /\ broadcast (fun _ => true) "debug" "{}"
       (run [Subscribe 1 "debug"; Subscribe 2 "debug"; RemoveClient 1] [])
     = [(2, SendText "{}")].
Proof. split; reflexivity. Qed.

End ChannelsFacts.

(* ===================================================================== *)
(** ** The memory routes *)
(* ===================================================================== *)

Module Base64Facts.
Import JS Base64.

Lemma value_digit (i : Z) : 0 <= i < 64 -> value (digit i) = Some i.
Proof.
  intros H. destruct i as [| p | p]; [reflexivity | | lia].
  do 6 (try destruct p as [p | p |]); try lia; reflexivity.
Qed.

Lemma byte_of_value (b : byte) : Gdb.byte_of_Z (byte_value b) = b.
Proof. destruct b; reflexivity. Qed.

Lemma octet_value_range (b : byte) : 0 <= byte_value b < 256.
Proof. unfold byte_value. pose proof (Byte.to_N_bounded b). lia. Qed.

Ltac digits_in_range :=
  repeat match goal with
         | |- context [value (digit ?i)] =>
             rewrite (value_digit i) by (Z.div_mod_to_equations; lia)
         end.

Lemma values_encode (data : Buffer) :
  forall n, (length data <= n)%nat ->
  pack (values (encode data)) = data
  /\ String.length (encode data) = (4 * ((length data + 2) / 3))%nat.
Proof.
  intros n. revert data. induction n as [| n IH]; intros data Hn.
  - destruct data; [split; reflexivity | cbn in Hn; lia].
  - destruct data as [| a [| b [| c rest]]].
    + split; reflexivity.
    + pose proof (octet_value_range a). cbn [encode values]. digits_in_range.
      change (value "=") with (@None Z). cbn [Ascii.eqb Bool.eqb pack].
      split; [| reflexivity].
      replace (byte_value a / 4 * 4 + byte_value a mod 4 * 16 / 16) with (byte_value a)
        by (Z.div_mod_to_equations; lia).
      now rewrite byte_of_value.
    + pose proof (octet_value_range a). pose proof (octet_value_range b).
      cbn [encode values]. digits_in_range.
      change (value "=") with (@None Z). cbn [Ascii.eqb Bool.eqb pack].
      split; [| reflexivity].
      replace (byte_value a / 4 * 4 + (byte_value a mod 4 * 16 + byte_value b / 16) / 16)
        with (byte_value a) by (Z.div_mod_to_equations; lia).
      replace ((byte_value a mod 4 * 16 + byte_value b / 16) mod 16 * 16
               + byte_value b mod 16 * 4 / 4)
        with (byte_value b) by (Z.div_mod_to_equations; lia).
      now rewrite !byte_of_value.
    + pose proof (octet_value_range a). pose proof (octet_value_range b).
      pose proof (octet_value_range c).
      destruct (IH rest ltac:(cbn in Hn; lia)) as [IH1 IH2].
      cbn [encode values]. digits_in_range. cbn [pack]. rewrite IH1. split.
      * replace (byte_value a / 4 * 4 + (byte_value a mod 4 * 16 + byte_value b / 16) / 16)
          with (byte_value a) by (Z.div_mod_to_equations; lia).
        replace ((byte_value a mod 4 * 16 + byte_value b / 16) mod 16 * 16
                 + (byte_value b mod 16 * 4 + byte_value c / 64) / 4)
          with (byte_value b) by (Z.div_mod_to_equations; lia).
        replace ((byte_value b mod 16 * 4 + byte_value c / 64) mod 4 * 64
                 + byte_value c mod 64)
          with (byte_value c) by (Z.div_mod_to_equations; lia).
        now rewrite !byte_of_value.
      * cbn [String.length length]. rewrite IH2.
        replace (S (S (S (length rest))) + 2)%nat with (length rest + 2 + 1 * 3)%nat by lia.
        rewrite Nat.div_add by lia. lia.
Qed.

End Base64Facts.

Module MemoryRoutesFacts.
Import JS Errors Address Sha256 MemoryRoutes.

(** X20: what [GET /memory] returns can be posted back.  When the address
    parameter parses to a linear address [n >= 0] and the backend returns
    [data], the JSON response carries the length and the SHA-256 of
    [data], an address text that parses to the same linear address [n],
    and a base64 text that [POST /memory] decodes to [data] again: posting
    the two back asks the backend to write exactly [data] at [n] and
    reports [data.length] bytes written. *)
Theorem memory_read_then_write (b : Backend) (address_param size_param : string)
  (n : Z) (data : Buffer) :
  linear (parseAddress address_param) = Num n -> 0 <= n ->
  readMemory b (parseAddress address_param) (parseInt size_param 10) = Returned data ->
  exists echoed encoded : string,
    get_memory (Some b) address_param size_param None
    = ReadJson echoed (length data) encoded (sha256 data)
    /\ parseAddress echoed = {| linear := Num n; segOff := linearToSegOff (Num n) |}
    /\ Base64.decode encoded = data
    /\ String.length encoded = (4 * ((length data + 2) / 3))%nat
    /\ post_memory (Some b) echoed encoded
       = match writeMemory b {| linear := Num n; segOff := linearToSegOff (Num n) |} data with
         | Returned _ => WriteJson true (length data)
         | other => failed other
         end.
Proof.
  intros Hlin Hn Hread.
  exists ("0x" ++ toString16 (Num n)), (Base64.encode data).
  pose proof (AddressMore.hex_literal_parses "x" n (or_introl eq_refl) Hn) as Hecho.
  destruct (Base64Facts.values_encode data (length data) (le_n _)) as [Hdec Hlen].
  split; [| split; [| split; [| split]]].
  - unfold get_memory. now rewrite Hread, Hlin.
  - exact Hecho.
  - exact Hdec.
  - exact Hlen.
  - unfold post_memory.
    change (parseAddress ("0x" ++ toString16 (Num n)))
      with (parseAddress (String "0" (String "x" (toString16 (Num n))))).
    rewrite Hecho. unfold Base64.decode. now rewrite Hdec.
Qed.

Lemma memory_read_then_write_witness :
  exists echoed encoded : string,
    get_memory (Some sample_backend) "0040:0000" "4" None
    = ReadJson echoed (length [x4d; x5a; x90; x00]) encoded (sha256 [x4d; x5a; x90; x00])
    /\ parseAddress echoed = {| linear := Num 1024; segOff := linearToSegOff (Num 1024) |}
    /\ Base64.decode encoded = [x4d; x5a; x90; x00]
    /\ String.length encoded = (4 * ((length [x4d; x5a; x90; x00] + 2) / 3))%nat
    /\ post_memory (Some sample_backend) echoed encoded
       = match writeMemory sample_backend
                 {| linear := Num 1024; segOff := linearToSegOff (Num 1024) |}
                 [x4d; x5a; x90; x00] with
         | Returned _ => WriteJson true (length [x4d; x5a; x90; x00])
         | other => failed other
         end.
Proof.
  apply (memory_read_then_write sample_backend "0040:0000" "4" 1024 [x4d; x5a; x90; x00]);
    [reflexivity | lia | reflexivity].
Defined.

(** The four bytes [4D 5A 90 00] travel as [TVqQAA==]. *)
Example base64_sample :
  Base64.encode [x4d; x5a; x90; x00] = "TVqQAA=="
  /\ Base64.decode "TVqQAA==" = [x4d; x5a; x90; x00]
  /\ Base64.decode "TVqQ AA" = [x4d; x5a; x90; x00].
Proof. repeat split. Qed.

End MemoryRoutesFacts.

(* ===================================================================== *)
(** ** The configuration file of the session-based backend *)
(* ===================================================================== *)

Module ConfigFileFacts.
Import JS JsMap ConfigFile.
Local Open Scope list_scope.

Lemma split_plain (s : string) (c : ascii) :
  includes s c = false -> split s c = [s].
Proof.
  induction s as [| a s IH]; cbn [includes split]; intros H; [reflexivity |].
  apply orb_false_elim in H as [Ha Hs]. now rewrite Ha, (IH Hs).
Qed.

Lemma split_app_sep (a b : string) (c : ascii) :
  includes a c = false -> split (a ++ String c b)%string c = a :: split b c.
Proof.
  induction a as [| x a IH]; intros H.
  - rewrite FormatFacts.append_nil. cbn [split]. now rewrite Ascii.eqb_refl.
  - cbn [includes] in H. apply orb_false_elim in H as [Hx Ha].
    rewrite FormatFacts.append_cons. cbn [split]. now rewrite Hx, (IH Ha).
Qed.

(** Splitting what [join] made of lines without line feed gives the lines
    back. *)
Lemma split_join_lines (l : string) (lines : list string) :
  forallb plain (l :: lines) = true ->
  split (join_lines (l :: lines)) LF = l :: lines.
Proof.
  revert l. induction lines as [| l2 lines IH]; intros l H.
  - cbn [join_lines]. apply split_plain.
    cbn in H. rewrite andb_true_r in H. now apply negb_true_iff in H.
  - cbn [forallb] in H. apply andb_prop in H as [Hl H].
    change (join_lines (l :: l2 :: lines))
      with (l ++ newline ++ join_lines (l2 :: lines))%string.
    change (newline ++ join_lines (l2 :: lines))%string
      with (String LF (join_lines (l2 :: lines))).
    rewrite split_app_sep by (now apply negb_true_iff in Hl).
    now rewrite IH.
Qed.

Lemma trimEnd_fixed_cons (c : ascii) (s : string) :
  trimEnd s = s -> (s = EmptyString -> is_whitespace c = false) ->
  trimEnd (String c s) = String c s.
Proof.
  intros Hs Hc. cbn [trimEnd]. rewrite Hs. destruct s; [| reflexivity].
  now rewrite Hc.
Qed.

Lemma trimEnd_app (a b : string) :
  trimEnd b = b -> b <> EmptyString -> trimEnd (a ++ b)%string = (a ++ b)%string.
Proof.
  intros Hb Hne. induction a as [| x a IH]; [exact Hb |].
  rewrite FormatFacts.append_cons. apply trimEnd_fixed_cons; [exact IH |].
  intros H. destruct a; [now rewrite FormatFacts.append_nil in H | discriminate H].
Qed.

Lemma trimEnd_idem (s : string) : trimEnd (trimEnd s) = trimEnd s.
Proof.
  induction s as [| c s IH]; [reflexivity |]. cbn [trimEnd].
  destruct (trimEnd s) as [| r rs] eqn:E.
  - destruct (is_whitespace c) eqn:Ec; [reflexivity |]. cbn. now rewrite Ec.
  - cbn [trimEnd]. cbn [trimEnd] in IH. destruct (trimEnd rs) eqn:E2.
    + destruct (is_whitespace r); [discriminate IH | now rewrite IH].
    + now rewrite IH.
Qed.

Lemma trim_start_fixed (s : string) :
  trim_start s = s <-> match s with
                       | EmptyString => True
                       | String c _ => is_whitespace c = false
                       end.
Proof.
  destruct s as [| c s]; [easy |]. cbn [trim_start].
  destruct (is_whitespace c) eqn:E; split; try easy.
  intros H. exfalso.
  assert (Hlen : forall t, (String.length (trim_start t) <= String.length t)%nat).
  { induction t as [| x t IHt]; cbn; [lia |]. destruct (is_whitespace x); cbn; lia. }
  pose proof (Hlen s) as Hl. rewrite H in Hl. cbn in Hl. lia.
Qed.

Lemma trim_start_app (a b : string) :
  trim_start a = a -> a <> EmptyString -> trim_start (a ++ b)%string = (a ++ b)%string.
Proof.
  intros Ha Hne. destruct a as [| c a]; [congruence |].
  apply trim_start_fixed in Ha. rewrite FormatFacts.append_cons.
  cbn [trim_start]. now rewrite Ha.
Qed.

(** A string fixed by [trim] is fixed by both halves of it. *)
Lemma trim_fixed (s : string) :
  trim s = s -> trimEnd s = s /\ trim_start s = s.
Proof.
  unfold trim. intros H.
  assert (Hlen1 : forall t, (String.length (trim_start t) <= String.length t)%nat).
  { induction t as [| x t IHt]; cbn; [lia |]. destruct (is_whitespace x); cbn; lia. }
  assert (Hlen2 : forall t, (String.length (trimEnd t) <= String.length t)%nat).
  { induction t as [| x t IHt]; cbn; [lia |].
    destruct (trimEnd t); [destruct (is_whitespace x) |]; cbn in *; lia. }
  assert (Hsame : forall t, String.length (trim_start t) = String.length t ->
                            trim_start t = t).
  { intros t Ht. destruct t as [| x t]; [reflexivity |]. cbn [trim_start] in *.
    destruct (is_whitespace x); [| reflexivity].
    pose proof (Hlen1 t). cbn in Ht. lia. }
  assert (Hend : trimEnd s = s).
  { assert (Hl : String.length (trimEnd s) = String.length s).
    { pose proof (Hlen1 (trimEnd s)). pose proof (Hlen2 s). rewrite H in *. lia. }
    rewrite <- H at 2. symmetry. apply Hsame.
    rewrite H. now rewrite Hl. }
  split; [exact Hend |]. now rewrite Hend in H.
Qed.

Lemma endsWith_app_last (s : string) (c : ascii) :
  endsWith (s ++ String c EmptyString)%string c = true.
Proof.
  induction s as [| a s IH]; [cbn; apply Ascii.eqb_refl |].
  rewrite FormatFacts.append_cons. cbn [endsWith].
  destruct (s ++ String c EmptyString)%string eqn:E; [| exact IH].
  destruct s; discriminate E.
Qed.

Lemma drop_last_app (s : string) (c : ascii) :
  drop_last (s ++ String c EmptyString)%string = s.
Proof.
  induction s as [| a s IH]; [reflexivity |].
  rewrite FormatFacts.append_cons. cbn [drop_last].
  destruct (s ++ String c EmptyString)%string eqn:E; [destruct s; discriminate E |].
  now rewrite IH.
Qed.

Lemma includes_app_char (a b : string) (c : ascii) :
  includes (a ++ String c b)%string c = true.
Proof.
  induction a as [| x a IH].
  - rewrite FormatFacts.append_nil. cbn [includes]. now rewrite Ascii.eqb_refl.
  - rewrite FormatFacts.append_cons. cbn [includes]. rewrite IH. apply orb_true_r.
Qed.

Lemma before_after_app (a b : string) (c : ascii) :
  includes a c = false ->
  before (a ++ String c b)%string c = a /\ after (a ++ String c b)%string c = b.
Proof.
  induction a as [| x a IH]; intros H.
  - rewrite FormatFacts.append_nil. cbn [before after]. now rewrite Ascii.eqb_refl.
  - cbn [includes] in H. apply orb_false_elim in H as [Hx Ha].
    rewrite FormatFacts.append_cons. cbn [before after]. rewrite Hx.
    destruct (IH Ha) as [-> ->]. now split.
Qed.

Lemma includes_app2 (a b : string) (c : ascii) :
  includes (a ++ b)%string c = includes a c || includes b c.
Proof.
  induction a as [| x a IH]; [reflexivity |].
  rewrite FormatFacts.append_cons. cbn [includes]. rewrite IH. apply orb_assoc.
Qed.

Lemma map_set_fresh {V : Type} (k : string) (v : V) (m : list (string * V)) :
  ~ In k (map fst m) -> map_set k v m = m ++ [(k, v)].
Proof.
  induction m as [| [k' v'] m IH]; intros H; [reflexivity |].
  cbn [map fst In] in H. cbn [map_set].
  destruct (String.eqb_spec k k') as [-> | Hne]; [exfalso; apply H; now left |].
  cbn [app]. rewrite IH; [reflexivity |]. intros Hin. apply H. now right.
Qed.

Lemma map_get_fresh {V : Type} (k : string) (m : list (string * V)) :
  ~ In k (map fst m) -> map_get k m = None.
Proof.
  induction m as [| [k' v'] m IH]; intros H; [reflexivity |].
  cbn [map fst In] in H. cbn [map_get].
  destruct (String.eqb_spec k k') as [-> | Hne]; [exfalso; apply H; now left |].
  apply IH. intros Hin. apply H. now right.
Qed.

Lemma map_get_last {V : Type} (k : string) (v : V) (m : list (string * V)) :
  ~ In k (map fst m) -> map_get k (m ++ [(k, v)]) = Some v.
Proof.
  induction m as [| [k' v'] m IH]; intros H.
  - cbn. now rewrite String.eqb_refl.
  - cbn [map fst In] in H. cbn [app map_get].
    destruct (String.eqb_spec k k') as [-> | Hne]; [exfalso; apply H; now left |].
    apply IH. intros Hin. apply H. now right.
Qed.

Lemma map_set_last {V : Type} (k : string) (v v' : V) (m : list (string * V)) :
  ~ In k (map fst m) -> map_set k v' (m ++ [(k, v)]) = m ++ [(k, v')].
Proof.
  induction m as [| [k0 v0] m IH]; intros H.
  - cbn. now rewrite String.eqb_refl.
  - cbn [map fst In] in H. cbn [app map_set].
    destruct (String.eqb_spec k k0) as [-> | Hne]; [exfalso; apply H; now left |].
    rewrite IH; [reflexivity |]. intros Hin. apply H. now right.
Qed.

Lemma startsWith_nil (s : string) : startsWith s EmptyString = true.
Proof. destruct s; reflexivity. Qed.

(** A section header. *)
Lemma load_header (name : string) (st : Loader) :
  well_formed_name name = true ->
  load_line st ("[" ++ name ++ "]")%string
  = {| config :=
         match map_get name (sections (config st)) with
         | Some _ => config st
         | None => {| sections := map_set name [] (sections (config st));
                      autoexecLines := autoexecLines (config st) |}
         end;
       currentSection := Some name;
       inAutoexec := false |}.
Proof.
  unfold well_formed_name. intros H.
  apply andb_prop in H as [H Hlow]. apply andb_prop in H as [H Hauto].
  apply andb_prop in H as [_ Hne].
  apply String.eqb_eq in Hlow. apply negb_true_iff in Hauto.
  assert (Hline : ("[" ++ name ++ "]")%string = String "[" (name ++ "]")) by reflexivity.
  assert (Hend : trimEnd (String "[" (name ++ "]")) = String "[" (name ++ "]")).
  { apply trimEnd_fixed_cons; [| reflexivity].
    apply trimEnd_app; [reflexivity | discriminate]. }
  unfold load_line. rewrite Hline, Hend. unfold trim. rewrite Hend.
  cbn [trim_start]. change (is_whitespace "[") with false. cbv iota.
  unfold bracketed. cbn [startsWith]. change (Ascii.eqb "[" "[") with true.
  rewrite startsWith_nil. cbn [andb].
  assert (He : endsWith (String "[" (name ++ "]")) "]" = true).
  { cbn [endsWith]. destruct (name ++ "]")%string eqn:E;
      [destruct name; discriminate E |].
    rewrite <- E. apply endsWith_app_last. }
  rewrite He. cbn [slice_inner]. rewrite drop_last_app, Hlow, Hauto. cbn [negb andb].
  destruct (map_get name (sections (config st))); reflexivity.
Qed.

(** A [key=value] line in a section. *)
Lemma load_entry (e : string * string) (name : string)
  (secs : list (string * list (string * string))) (entries : list (string * string))
  (auto : list string) :
  well_formed_entry e = true -> name <> EmptyString ->
  map_get name secs = Some entries ->
  load_line {| config := {| sections := secs; autoexecLines := auto |};
               currentSection := Some name; inAutoexec := false |}
    (entry_line e)
  = {| config := {| sections := map_set name (map_set (fst e) (snd e) entries) secs;
                    autoexecLines := auto |};
       currentSection := Some name; inAutoexec := false |}.
Proof.
  destruct e as [k v]. unfold well_formed_entry, entry_line. cbn [fst snd].
  intros H Hname Hget.
  apply andb_prop in H as [H Hbr]. apply andb_prop in H as [H Hhash].
  apply andb_prop in H as [H Htv]. apply andb_prop in H as [H Htk].
  apply andb_prop in H as [_ Heq].
  apply negb_true_iff in Hbr, Hhash, Heq.
  apply String.eqb_eq in Htv, Htk.
  destruct (trim_fixed _ Htk) as [Hke Hks]. destruct (trim_fixed _ Htv) as [Hve Hvs].
  set (line := (k ++ "=" ++ v)%string) in *.
  assert (Hline : line = (k ++ String "=" v)%string) by reflexivity.
  assert (Hend : trimEnd line = line).
  { rewrite Hline. apply trimEnd_app; [| discriminate].
    apply trimEnd_fixed_cons; [exact Hve | reflexivity]. }
  assert (Hstart : trim_start line = line).
  { rewrite Hline. destruct k as [| c k]; [reflexivity |].
    now apply trim_start_app. }
  assert (Hhash' : startsWith line "#" = false).
  { rewrite Hline. destruct k as [| c k]; [reflexivity |].
    rewrite FormatFacts.append_cons. cbn [startsWith] in *.
    rewrite startsWith_nil in *. exact Hhash. }
  assert (Htrim : trim line = line) by (unfold trim; now rewrite Hend, Hstart).
  unfold load_line. rewrite Hend, Htrim.
  rewrite Hbr. cbn [inAutoexec currentSection truthy].
  destruct name as [| n0 name']; [congruence |]. cbv iota.
  rewrite Hhash'. rewrite Hline at 1. rewrite includes_app_char. cbn [negb andb].
  cbn [config sections autoexecLines]. rewrite Hget.
  destruct (before_after_app k v "=" Heq) as [Hb Ha].
  rewrite Hline, Hb, Ha, Htk, Htv. reflexivity.
Qed.

(** The empty line that closes a section. *)
Lemma load_blank (st : Loader) :
  inAutoexec st = false -> load_line st EmptyString = st.
Proof.
  intros H. unfold load_line. cbn [trimEnd trim trim_start bracketed startsWith andb].
  unfold trim. cbn. rewrite H. destruct (truthy (currentSection st)); reflexivity.
Qed.

(** A line of the autoexec section. *)
Lemma load_autoexec_line (l : string) (cfg : Config) (cur : option string) :
  well_formed_line l = true ->
  load_line {| config := cfg; currentSection := cur; inAutoexec := true |} l
  = {| config := {| sections := sections cfg;
                    autoexecLines := autoexecLines cfg ++ [l] |};
       currentSection := cur; inAutoexec := true |}.
Proof.
  unfold well_formed_line. intros H.
  apply andb_prop in H as [H Hbr]. apply andb_prop in H as [_ He].
  apply String.eqb_eq in He. apply negb_true_iff in Hbr.
  unfold load_line. rewrite He, Hbr. reflexivity.
Qed.

Lemma well_formed_name_nonempty (name : string) :
  well_formed_name name = true -> name <> EmptyString.
Proof.
  unfold well_formed_name. intros H.
  apply andb_prop in H as [H _]. apply andb_prop in H as [H _].
  apply andb_prop in H as [_ H]. apply negb_true_iff in H.
  now apply String.eqb_neq in H.
Qed.

(** The entries of one section, read in order. *)
Lemma load_entries (name : string) (pre : list (string * list (string * string)))
  (auto : list string) (entries : list (string * string)) :
  forall done : list (string * string),
    name <> EmptyString -> ~ In name (map fst pre) ->
    List.NoDup (map fst (done ++ entries)) ->
    forallb well_formed_entry entries = true ->
    fold_left load_line (map entry_line entries)
      {| config := {| sections := pre ++ [(name, done)]; autoexecLines := auto |};
         currentSection := Some name; inAutoexec := false |}
    = {| config := {| sections := pre ++ [(name, done ++ entries)];
                      autoexecLines := auto |};
         currentSection := Some name; inAutoexec := false |}.
Proof.
  induction entries as [| e entries IH]; intros done Hname Hpre Hnd Hwf.
  - cbn [map fold_left]. now rewrite app_nil_r.
  - cbn [forallb] in Hwf. apply andb_prop in Hwf as [He Hwf].
    cbn [map fold_left].
    rewrite (load_entry e name _ done auto He Hname (map_get_last name done pre Hpre)).
    rewrite map_set_last by exact Hpre.
    assert (Hfresh : ~ In (fst e) (map fst done)).
    { rewrite map_app in Hnd. cbn [map] in Hnd.
      apply NoDup_remove_2 in Hnd. intros Hin. apply Hnd.
      apply in_or_app. now left. }
    rewrite (map_set_fresh (fst e) (snd e) done Hfresh).
    replace (fst e, snd e) with e by now destruct e.
    rewrite (IH (done ++ [e]) Hname Hpre); [now rewrite <- app_assoc | | exact Hwf].
    now rewrite <- app_assoc.
Qed.

(** The sections, read in order. *)
Lemma load_sections (rest : list (string * list (string * string))) :
  forall (pre : list (string * list (string * string))) (cur : option string),
    List.NoDup (map fst (pre ++ rest)) ->
    (forall s, In s rest ->
       well_formed_name (fst s) = true
       /\ List.NoDup (map fst (snd s))
       /\ forallb well_formed_entry (snd s) = true) ->
    exists cur',
      fold_left load_line (flat_map section_lines rest)
        {| config := {| sections := pre; autoexecLines := [] |};
           currentSection := cur; inAutoexec := false |}
      = {| config := {| sections := pre ++ rest; autoexecLines := [] |};
           currentSection := cur'; inAutoexec := false |}.
Proof.
  induction rest as [| [name entries] rest IH]; intros pre cur Hnd Hwf.
  - exists cur. cbn [flat_map fold_left]. now rewrite app_nil_r.
  - destruct (Hwf (name, entries) (or_introl eq_refl)) as (Hname & Hnde & Hwfe).
    cbn [fst snd] in *.
    assert (Hfresh : ~ In name (map fst pre)).
    { rewrite map_app in Hnd. cbn [map fst] in Hnd.
      apply NoDup_remove_2 in Hnd. intros Hin. apply Hnd.
      apply in_or_app. now left. }
    cbn [flat_map]. unfold section_lines at 1. cbn [fst snd].
    rewrite <- app_comm_cons. cbn [fold_left].
    rewrite (load_header name _ Hname). cbn [config sections autoexecLines].
    rewrite (map_get_fresh name pre Hfresh), (map_set_fresh name [] pre Hfresh).
    rewrite <- app_assoc, fold_left_app.
    rewrite (load_entries name pre [] entries [] (well_formed_name_nonempty _ Hname)
               Hfresh Hnde Hwfe).
    cbn [app fold_left].
    rewrite load_blank by reflexivity.
    destruct (IH (pre ++ [(name, entries)]) (Some name)) as [cur' Hrest].
    + now rewrite <- app_assoc.
    + intros s Hs. apply Hwf. now right.
    + exists cur'. rewrite Hrest. now rewrite <- app_assoc.
Qed.

(** The lines of the autoexec section, read in order. *)
Lemma load_autoexec (lines : list string) :
  forall (cfg : Config) (cur : option string),
    forallb well_formed_line lines = true ->
    fold_left load_line lines
      {| config := cfg; currentSection := cur; inAutoexec := true |}
    = {| config := {| sections := sections cfg;
                      autoexecLines := autoexecLines cfg ++ lines |};
         currentSection := cur; inAutoexec := true |}.
Proof.
  induction lines as [| l lines IH]; intros cfg cur Hwf.
  - cbn [fold_left]. rewrite app_nil_r. now destruct cfg.
  - cbn [forallb] in Hwf. apply andb_prop in Hwf as [Hl Hwf].
    cbn [fold_left]. rewrite (load_autoexec_line l cfg cur Hl), (IH _ _ Hwf).
    cbn [sections autoexecLines]. now rewrite <- app_assoc.
Qed.

Lemma entry_plain (e : string * string) :
  well_formed_entry e = true -> plain (entry_line e) = true.
Proof.
  unfold well_formed_entry, entry_line, plain. intros H.
  do 5 (apply andb_prop in H as [H _]). apply andb_prop in H as [Hk Hv].
  apply negb_true_iff in Hk, Hv. apply negb_true_iff.
  rewrite !includes_app2, Hk, Hv. reflexivity.
Qed.

Lemma lines_plain (c : Config) :
  well_formed c -> forallb plain (lines_of c) = true.
Proof.
  intros (_ & Hsecs & Hauto). unfold lines_of.
  rewrite forallb_app. apply andb_true_intro. split.
  - apply forallb_forall. intros l Hl. apply in_flat_map in Hl as (s & Hs & Hl).
    destruct (Hsecs s Hs) as (Hname & _ & Hent).
    unfold section_lines in Hl. destruct Hl as [<- | Hl].
    + unfold well_formed_name in Hname. do 3 (apply andb_prop in Hname as [Hname _]).
      unfold plain in *. apply negb_true_iff in Hname. apply negb_true_iff.
      rewrite !includes_app2, Hname. reflexivity.
    + apply in_app_or in Hl as [Hl | [<- | []]]; [| reflexivity].
      apply in_map_iff in Hl as (e & <- & He). apply entry_plain.
      rewrite forallb_forall in Hent. now apply Hent.
  - cbn [forallb]. apply andb_true_intro. split; [reflexivity |].
    apply forallb_forall. intros l Hl. rewrite forallb_forall in Hauto.
    specialize (Hauto l Hl). unfold well_formed_line in Hauto.
    now do 2 (apply andb_prop in Hauto as [Hauto _]).
Qed.

(** X21: a configuration file is read back as it was written.  For a
    configuration whose section names are lower-case, not empty and not
    [autoexec], whose keys and values are trimmed, hold no line feed (and
    the keys no [=] and no leading [#]), and none of whose lines, trimmed,
    starts with [[] and ends with []], [new DosboxConfig(path)] on the file
    that [write(path)] made has the same sections with the same entries in
    the same order and the same autoexec lines. *)
Theorem load_write_roundtrip (c : Config) :
  well_formed c -> load (write c) = c.
Proof.
  intros Hwf. pose proof (lines_plain c Hwf) as Hplain.
  destruct Hwf as (Hnd & Hsecs & Hauto).
  unfold load, write.
  destruct (lines_of c) as [| l lines] eqn:E.
  { unfold lines_of in E. destruct (flat_map section_lines (sections c)); discriminate E. }
  rewrite (split_join_lines l lines Hplain), <- E. unfold lines_of.
  rewrite fold_left_app.
  destruct (load_sections (sections c) [] None Hnd Hsecs) as [cur' Hrun].
  unfold empty. rewrite Hrun. cbn [app fold_left].
  assert (Hhead : forall st, load_line st "[autoexec]"
                             = {| config := config st;
                                  currentSection := Some "autoexec";
                                  inAutoexec := true |}) by reflexivity.
  rewrite Hhead, (load_autoexec _ _ _ Hauto). cbn [config sections autoexecLines app].
  now destruct c.
Qed.

Lemma defaults_well_formed : well_formed defaults.
Proof.
  split; [| split].
  - cbn. repeat constructor; cbn; intuition discriminate.
  - intros s Hs. cbn in Hs.
    repeat (destruct Hs as [<- | Hs];
            [split; [reflexivity |];
             split; [cbn; repeat constructor; cbn; intuition discriminate
                    | reflexivity] |]).
    destruct Hs.
  - reflexivity.
Qed.

Lemma load_write_roundtrip_witness : load (write defaults) = defaults.
Proof. apply (load_write_roundtrip defaults). exact defaults_well_formed. Defined.

(** A line of the autoexec section in brackets is read as a section
    header, and the lines behind it are lost. *)
Example load_write_bracketed_line :
  load (write {| sections := []; autoexecLines := ["[x]"; "C:"] |})
  = {| sections := [("x", [])]; autoexecLines := [] |}.
Proof. reflexivity. Qed.

(** X22: [get] after [set].  A value set under a section and a key is
    what [get] returns for that key under any spelling of the section name
    that agrees up to case; every other section and key reads as before,
    and the autoexec lines are untouched.  Keys are case-sensitive. *)
Theorem get_after_set (section key value section' key' : string) (c : Config) :
  get section' key' (set section key value c)
  = (if String.eqb (toLowerCase section') (toLowerCase section) && String.eqb key' key
     then Some value
     else get section' key' c)
  /\ autoexecLines (set section key value c) = autoexecLines c.
Proof.
  split; [| reflexivity].
  unfold get, set. cbn [sections].
  set (sec := toLowerCase section). set (sec' := toLowerCase section').
  assert (Hsecs : exists entries,
             map_get sec (match map_get sec (sections c) with
                          | Some _ => sections c
                          | None => map_set sec [] (sections c)
                          end) = Some entries
             /\ (map_get sec (sections c) = Some entries
                 \/ (map_get sec (sections c) = None /\ entries = []))).
  { destruct (map_get sec (sections c)) as [e |] eqn:E.
    - exists e. split; [exact E | now left].
    - exists []. split; [apply CaptureChecksFacts.map_get_set_eq | now right]. }
  destruct Hsecs as (entries & Hget & Hcase). rewrite Hget.
  destruct (String.eqb_spec sec' sec) as [-> | Hne]; cbn [andb].
  - rewrite CaptureChecksFacts.map_get_set_eq.
    destruct (String.eqb_spec key' key) as [-> | Hk].
    + apply CaptureChecksFacts.map_get_set_eq.
    + rewrite CaptureChecksFacts.map_get_set_ne by exact Hk.
      destruct Hcase as [-> | [-> ->]]; reflexivity.
  - rewrite CaptureChecksFacts.map_get_set_ne by exact Hne.
    destruct (map_get sec (sections c)); [reflexivity |].
    now rewrite CaptureChecksFacts.map_get_set_ne by exact Hne.
Qed.

End ConfigFileFacts.

(* ===================================================================== *)
(** ** Looking up binaries and the emulator command line *)
(* ===================================================================== *)

Module LookupFacts.
Import JS Lookup.
Local Open Scope list_scope.

(** What the loop over the candidates returns is the first candidate that
    is there, not empty, and exists. *)
Lemma first_existing_first (env : Env) (cands : list (option string)) :
  match first_existing env cands with
  | Some r =>
      existsSync env r = true /\ r <> EmptyString
      /\ exists pre post,
           cands = pre ++ Some r :: post
           /\ forall c, In (Some c) pre -> c = EmptyString \/ existsSync env c = false
  | None => forall c, In (Some c) cands -> c = EmptyString \/ existsSync env c = false
  end.
Proof.
  induction cands as [| [[| a s] |] cands IH]; cbn [first_existing].
  - intros c [].
  - destruct (first_existing env cands) as [r |].
    + destruct IH as (He & Hne & pre & post & -> & Hpre).
      split; [exact He |]. split; [exact Hne |].
      exists (Some EmptyString :: pre), post. split; [reflexivity |].
      intros c [[= <-] | Hc]; [now left | now apply Hpre].
    + intros c [[= <-] | Hc]; [now left | now apply IH].
  - destruct (existsSync env (String a s)) eqn:E.
    + split; [exact E |]. split; [discriminate |].
      exists [], cands. split; [reflexivity | intros c []].
    + destruct (first_existing env cands) as [r |].
      * destruct IH as (He & Hne & pre & post & -> & Hpre).
        split; [exact He |]. split; [exact Hne |].
        exists (Some (String a s) :: pre), post. split; [reflexivity |].
        intros c [[= <-] | Hc]; [now right | now apply Hpre].
      * intros c [[= <-] | Hc]; [now right | now apply IH].
  - destruct (first_existing env cands) as [r |].
    + destruct IH as (He & Hne & pre & post & -> & Hpre).
      split; [exact He |]. split; [exact Hne |].
      exists (None :: pre), post. split; [reflexivity |].
      intros c [Hc | Hc]; [discriminate Hc | now apply Hpre].
    + intros c [Hc | Hc]; [discriminate Hc | now apply IH].
Qed.

Lemma which_in_found (env : Env) (command : string) (paths : list string) :
  match which_in env command paths with
  | Some r =>
      existsSync env r = true
      /\ exists pre dir post,
           paths = pre ++ dir :: post /\ r = (dir ++ "/" ++ command)%string
           /\ forall d, In d pre -> existsSync env (d ++ "/" ++ command)%string = false
  | None => forall dir, In dir paths ->
                        existsSync env (dir ++ "/" ++ command)%string = false
  end.
Proof.
  induction paths as [| dir paths IH]; cbn [which_in]; [intros d [] |].
  destruct (existsSync env (dir ++ "/" ++ command)%string) eqn:E.
  - split; [exact E |]. exists [], dir, paths.
    split; [reflexivity |]. split; [reflexivity | intros d []].
  - destruct (which_in env command paths) as [r |].
    + destruct IH as (He & pre & d & post & -> & -> & Hpre). split; [exact He |].
      exists (dir :: pre), d, post. split; [reflexivity |]. split; [reflexivity |].
      intros d' [<- | Hd]; [exact E | now apply Hpre].
    + intros d [<- | Hd]; [exact E | now apply IH].
Qed.

(** X23: the binary [resolveDosboxBinary] returns is the first of the
    candidates (the preferred path, [DOSBOX_X_BIN], the two application
    bundles, [dosbox-x] and [dosbox] on the [PATH], the Homebrew default,
    in this order) that is not empty and is on disk: every candidate
    before it is absent, empty or not on disk.  So a preferred path that
    exists always wins, and nothing is returned only when no candidate
    exists.  [which] returns [dir/command] for the first directory of the
    [PATH] that has the command, or nothing when no directory has it. *)
Theorem resolveDosboxBinary_first_existing (env : Env) (preferred : option string)
  (command : string) :
  match resolveDosboxBinary env preferred with
  | Some r =>
      existsSync env r = true /\ r <> EmptyString
      /\ (exists pre post,
            candidates env preferred = pre ++ Some r :: post
            /\ forall c, In (Some c) pre -> c = EmptyString \/ existsSync env c = false)
      /\ In (Some r) (candidates env preferred)
      /\ (forall q, preferred = Some q -> q <> EmptyString ->
                    existsSync env q = true -> r = q)
  | None =>
      (forall c, In (Some c) (candidates env preferred) ->
                 c = EmptyString \/ existsSync env c = false)
      /\ existsSync env DEFAULT_DOSBOX_PATH = false
  end
  /\ match which env command with
     | Some r =>
         existsSync env r = true
         /\ exists pre dir post,
              split (match PATH env with Some p => p | None => EmptyString end) ":"
              = pre ++ dir :: post
              /\ r = (dir ++ "/" ++ command)%string
              /\ forall d, In d pre -> existsSync env (d ++ "/" ++ command)%string = false
     | None =>
         forall dir,
           In dir (split (match PATH env with Some p => p | None => EmptyString end) ":") ->
           existsSync env (dir ++ "/" ++ command)%string = false
     end.
Proof.
  split; [| apply which_in_found].
  unfold resolveDosboxBinary.
  pose proof (first_existing_first env (candidates env preferred)) as H.
  destruct (first_existing env (candidates env preferred)) as [r |].
  - destruct H as (He & Hne & pre & post & Hc & Hpre).
    split; [exact He |]. split; [exact Hne |].
    split; [now exists pre, post |]. split.
    + rewrite Hc. apply in_or_app. right. now left.
    + intros q -> Hq Hex. destruct pre as [| p pre].
      * cbn in Hc. now injection Hc as Hc _.
      * cbn in Hc. injection Hc as <- _.
        destruct (Hpre q (or_introl eq_refl)); congruence.
  - split; [exact H |].
    destruct (H DEFAULT_DOSBOX_PATH) as [Hd | Hd]; [| discriminate Hd | exact Hd].
    unfold candidates. apply in_or_app. right. apply in_or_app. right.
    cbn. auto.
Qed.

(** With the emulator in the second directory of the [PATH] only, and
    [DOSBOX_X_BIN] set to the empty string, that one is found. *)
Example resolveDosboxBinary_sample :
  resolveDosboxBinary sample_env None = Some "/usr/local/bin/dosbox-x"
  /\ resolveDosboxBinary sample_env (Some "/opt/dosbox-x") = Some "/usr/local/bin/dosbox-x".
Proof. split; reflexivity. Qed.

End LookupFacts.

Module LauncherFacts.
Import JS Launcher.
Local Open Scope list_scope.

Lemma options_flatten_app (opts : list (string * string)) (b : list string) :
  options (flatten opts ++ b) = opts ++ options b.
Proof.
  induction opts as [| [f v] opts IH]; [reflexivity |].
  cbn [flatten flat_map fst snd app options]. fold (flatten opts). now rewrite IH.
Qed.

Lemma options_app (a b : list string) :
  flatten (options a) = a -> options (a ++ b) = options a ++ options b.
Proof. intros H. rewrite <- H at 1. apply options_flatten_app. Qed.

Lemma flatten_app (x y : list (string * string)) :
  flatten (x ++ y) = flatten x ++ flatten y.
Proof. apply flat_map_app. Qed.

Lemma paired_app (a b : list string) :
  flatten (options a) = a -> flatten (options b) = b ->
  flatten (options (a ++ b)) = a ++ b.
Proof. intros Ha Hb. now rewrite (options_app a b Ha), flatten_app, Ha, Hb. Qed.

Ltac crack :=
  repeat match goal with
         | |- context [match ?x with _ => _ end] => destruct x
         end.

Ltac crack_in H :=
  repeat match type of H with
         | context [match ?x with _ => _ end] => destruct x
         end.

Ltac segment_paired := crack; reflexivity.

Ltac each_option :=
  crack; repeat (first [apply List.Forall_nil | apply List.Forall_cons]);
  cbn; auto.

(** The arguments of [buildArgs], segment by segment. *)
Lemma buildArgs_options (interactive : bool) (config : QemuLaunchConfig) :
  flatten (options (buildArgs interactive config)) = buildArgs interactive config
  /\ exists o1 o2 o3 o4 o5 o6 o7 o8,
       options (buildArgs interactive config)
       = o1 ++ [("-machine", "pc"); ("-m", show (or_else (ram config) 32));
                ("-rtc", "base=localtime"); ("-drive", boot_drive config);
                ("-boot", "order=c")]
            ++ o2
            ++ [("-display", if is_headless (mode config) then "none"
                             else or_else (display config) "cocoa")]
            ++ o3 ++ [("-vga", "std")] ++ o4 ++ [("-gdb", gdb_stub config)] ++ o5
            ++ [("-monitor", if monitor_on_stdio interactive config
                             then "stdio" else "none")]
            ++ o6 ++ o7 ++ o8
       /\ Forall (fun o => In (fst o) ["-accel"; "-cpu"; "-smp"]) o1
       /\ Forall (fun o => In (fst o) ["-drive"]) o2
       /\ Forall (fun o => In (fst o) ["-vnc"]) o3
       /\ Forall (fun o => In (fst o) ["-audiodev"; "-device"]) o4
       /\ Forall (fun o => In (fst o) ["-qmp"]) o5
       /\ Forall (fun o => In (fst o) ["-serial"]) o6
       /\ Forall (fun o => In (fst o) ["-icount"]) o7
       /\ Forall (fun o => In (fst o) ["-loadvm"]) o8
       /\ (o7 <> [] -> mode config = Record_ \/ mode config = Replay)
       /\ (length o2 <= 2)%nat.
Proof.
  unfold buildArgs.
  set (s1 := match given (accel config) with Some a => ["-accel"; a] | None => [] end).
  set (s2 := match given (cpu config) with Some c => ["-cpu"; c] | None => [] end).
  set (s3 := match smp config with
             | Some n => if 0 <? n then ["-smp"; show n] else []
             | None => []
             end).
  set (s7 := match given (gameIso config), given (sharedIso config) with
             | Some g, Some s => ["-drive"; cdrom g "2"; "-drive"; cdrom s "3"]
             | None, Some s => ["-drive"; cdrom s "2"]
             | Some g, None => ["-drive"; cdrom g "2"]
             | None, None => []
             end).
  set (s8v := match vncPort config with
              | Some p => if p =? 0 then [] else ["-vnc"; vnc_display p]
              | None => []
              end).
  set (s10 := match audio config with
              | Some false => []
              | _ => ["-audiodev"; audiodev config; "-device";
                      "sb16,audiodev=audio0,iobase=0x220,irq=5,dma=1,dma16=5"]
              end).
  set (s12 := match given (qmpSocketPath config) with
              | Some p => ["-qmp"; qmp_socket p]
              | None => []
              end).
  set (s14 := match mode config, given (serialLogPath config) with
              | Headless, Some p => ["-serial"; serial_file p]
              | _, _ => []
              end).
  set (s15 := match mode config, given (recordFile config) with
              | Record_, Some f => ["-icount"; icount "record" f]
              | Replay, Some f => ["-icount"; icount "replay" f]
              | _, _ => []
              end).
  set (s16 := match given (snapshot config) with
              | Some s => ["-loadvm"; s]
              | None => []
              end).
  assert (P1 : flatten (options s1) = s1) by (subst s1; segment_paired).
  assert (P2 : flatten (options s2) = s2) by (subst s2; segment_paired).
  assert (P3 : flatten (options s3) = s3) by (subst s3; segment_paired).
  assert (P7 : flatten (options s7) = s7) by (subst s7; segment_paired).
  assert (P8 : flatten (options s8v) = s8v) by (subst s8v; segment_paired).
  assert (P10 : flatten (options s10) = s10) by (subst s10; segment_paired).
  assert (P12 : flatten (options s12) = s12) by (subst s12; segment_paired).
  assert (P14 : flatten (options s14) = s14) by (subst s14; segment_paired).
  assert (P15 : flatten (options s15) = s15) by (subst s15; segment_paired).
  assert (P16 : flatten (options s16) = s16) by (subst s16; segment_paired).
  set (d := if is_headless (mode config) then "none" else or_else (display config) "cocoa").
  set (m := if monitor_on_stdio interactive config then "stdio" else "none").
  assert (Hdisplay :
            (if is_headless (mode config) then "-display" :: "none" :: s8v
             else ["-display"; or_else (display config) "cocoa"])
            = flatten [("-display", d)] ++ (if is_headless (mode config) then s8v else [])).
  { subst d. now destruct (is_headless (mode config)). }
  assert (Hmonitor :
            (if monitor_on_stdio interactive config
             then ["-monitor"; "stdio"] else ["-monitor"; "none"])
            = flatten [("-monitor", m)]).
  { subst m. now destruct (monitor_on_stdio interactive config). }
  rewrite Hdisplay, Hmonitor.
  set (s8 := if is_headless (mode config) then s8v else []).
  assert (P8' : flatten (options s8) = s8).
  { subst s8. now destruct (is_headless (mode config)). }
  set (fixed := [("-machine", "pc"); ("-m", show (or_else (ram config) 32));
                 ("-rtc", "base=localtime"); ("-drive", boot_drive config);
                 ("-boot", "order=c")]).
  assert (Hshape :
    s1 ++ s2 ++ s3
      ++ ["-machine"; "pc"; "-m"; show (or_else (ram config) 32); "-rtc"; "base=localtime"]
      ++ ["-drive"; boot_drive config] ++ ["-boot"; "order=c"] ++ s7
      ++ (flatten [("-display", d)] ++ s8) ++ ["-vga"; "std"] ++ s10
      ++ ["-gdb"; gdb_stub config] ++ s12 ++ flatten [("-monitor", m)]
      ++ s14 ++ s15 ++ s16
    = flatten ((options s1 ++ options s2 ++ options s3) ++ fixed ++ options s7
               ++ [("-display", d)] ++ options s8 ++ [("-vga", "std")] ++ options s10
               ++ [("-gdb", gdb_stub config)] ++ options s12 ++ [("-monitor", m)]
               ++ options s14 ++ options s15 ++ options s16)).
  { rewrite !flatten_app, P1, P2, P3, P7, P8', P10, P12, P14, P15, P16.
    cbn [flatten flat_map fst snd app fixed]. rewrite <- !app_assoc. reflexivity. }
  rewrite Hshape.
  assert (Hopts : forall o, options (flatten o) = o).
  { intros o. rewrite <- (app_nil_r (flatten o)), options_flatten_app.
    cbn. apply app_nil_r. }
  rewrite Hopts. split; [reflexivity |].
  exists (options s1 ++ options s2 ++ options s3), (options s7), (options s8),
    (options s10), (options s12), (options s14), (options s15), (options s16).
  split; [now rewrite <- !app_assoc |].
  split; [| split; [| split; [| split; [| split; [| split; [| split; [| split; [| split]]]]]]]].
  - subst s1 s2 s3. rewrite !Forall_app. repeat split; each_option.
  - subst s7. each_option.
  - subst s8 s8v. each_option.
  - subst s10. each_option.
  - subst s12. each_option.
  - subst s14. each_option.
  - subst s15. each_option.
  - subst s16. each_option.
  - subst s15. intros Hne.
    destruct (mode config); auto;
      destruct (given (recordFile config)); cbn in Hne; congruence.
  - subst s7. crack; cbn; lia.
Qed.

Lemma not_in_segment (f v : string) (known : list string)
  (o : list (string * string)) :
  Forall (fun o => In (fst o) known) o -> ~ In f known -> ~ In (f, v) o.
Proof.
  intros F Hf Hin. rewrite List.Forall_forall in F. apply Hf. exact (F _ Hin).
Qed.

Ltac find_in :=
  repeat first [apply in_eq | apply in_cons | (apply in_or_app; right)].

Ltac only_there :=
  let H := fresh "H" in
  intros H; rewrite !in_app_iff in H; cbn [In] in H;
  decompose [or] H; clear H; try congruence; try contradiction;
  match goal with
  | Hin : In _ ?o, F : Forall _ ?o |- _ =>
      exfalso; eapply (not_in_segment _ _ _ o F); [| exact Hin];
      cbn; intuition discriminate
  end.

(** X24: the command line of the emulator.  [buildArgs] always yields
    options in pairs, every option from the fixed list of nineteen; the
    monitor, the debug stub and the display are each given exactly one
    value: the monitor [stdio] only for an interactive launcher in
    interactive or record mode and [none] otherwise, the stub the
    configured port or 1234, the display [none] in headless mode whatever
    the configuration asks for.  The boot disk is always there, with at
    most two more drives, and an [-icount] option only in record or replay
    mode. *)
Theorem buildArgs_options_paired (interactive : bool) (config : QemuLaunchConfig) :
  flatten (options (buildArgs interactive config)) = buildArgs interactive config
  /\ Forall (fun o => In (fst o) flags) (options (buildArgs interactive config))
  /\ (forall v, In ("-monitor", v) (options (buildArgs interactive config))
                <-> v = if monitor_on_stdio interactive config then "stdio" else "none")
  /\ (forall v, In ("-gdb", v) (options (buildArgs interactive config))
                <-> v = gdb_stub config)
  /\ (forall v, In ("-display", v) (options (buildArgs interactive config))
                <-> v = if is_headless (mode config) then "none"
                        else or_else (display config) "cocoa")
  /\ In ("-drive", boot_drive config) (options (buildArgs interactive config))
  /\ (length (List.filter (fun o => String.eqb (fst o) "-drive")
                (options (buildArgs interactive config))) <= 3)%nat
  /\ ((exists v, In ("-icount", v) (options (buildArgs interactive config))) ->
      mode config = Record_ \/ mode config = Replay).
Proof.
  destruct (buildArgs_options interactive config)
    as (Hpaired & o1 & o2 & o3 & o4 & o5 & o6 & o7 & o8 & Heq
        & F1 & F2 & F3 & F4 & F5 & F6 & F7 & F8 & Hrr & Hdrives).
  split; [exact Hpaired |]. rewrite Heq. clear Heq Hpaired.
  split; [| split; [| split; [| split; [| split; [| split]]]]].
  - assert (Hsub : forall known (o : list (string * string)),
               Forall (fun o => In (fst o) known) o ->
               (forall f, In f known -> In f flags) ->
               Forall (fun o => In (fst o) flags) o).
    { intros known o F Hk. eapply List.Forall_impl; [| exact F].
      intros a Ha. now apply Hk. }
    rewrite !Forall_app.
    repeat split;
      try (eapply Hsub; [eassumption |]; intros f Hf; cbn in Hf;
           decompose [or] Hf; subst; cbn; tauto);
      repeat (first [apply List.Forall_nil | apply List.Forall_cons]); cbn; tauto.
  - intros v. split; [only_there |]. intros ->. cbn [app]. find_in.
  - intros v. split; [only_there |]. intros ->. cbn [app]. find_in.
  - intros v. split; [only_there |]. intros ->. cbn [app]. find_in.
  - cbn [app]. find_in.
  - rewrite !List.filter_app, !length_app. cbn [List.filter fst String.eqb length].
    assert (Hz : forall known (o : list (string * string)),
               Forall (fun o => In (fst o) known) o -> ~ In "-drive" known ->
               length (List.filter (fun o => String.eqb (fst o) "-drive") o) = 0%nat).
    { intros known o F Hk. induction F as [| a l Ha Hl IH]; [reflexivity |].
      cbn [List.filter]. destruct (String.eqb_spec (fst a) "-drive") as [He | _];
        [rewrite He in Ha; contradiction | exact IH]. }
    rewrite (Hz _ _ F1), (Hz _ _ F3), (Hz _ _ F4), (Hz _ _ F5), (Hz _ _ F6),
      (Hz _ _ F7), (Hz _ _ F8) by (cbn; intuition discriminate).
    pose proof (List.filter_length_le (fun o => String.eqb (fst o) "-drive") o2).
    cbn. lia.
  - intros [v Hin]. apply Hrr. intros ->.
    revert Hin. only_there.
Qed.

(** A headless launch with a game disc and a control socket. *)
Example buildArgs_sample :
  buildArgs false sample_config
  = ["-machine"; "pc"; "-m"; "32"; "-rtc"; "base=localtime";
     "-drive"; "file=dos.qcow2,format=qcow2,if=ide,index=0"; "-boot"; "order=c";
     "-drive"; "file=game.iso,media=cdrom,index=2"; "-display"; "none";
     "-vga"; "std"; "-audiodev"; "none,id=audio0";
     "-device"; "sb16,audiodev=audio0,iobase=0x220,irq=5,dma=1,dma16=5";
     "-gdb"; "tcp::1234"; "-qmp"; "unix:/tmp/qmp.sock,server,nowait";
     "-monitor"; "none"]%string.
Proof. reflexivity. Qed.

End LauncherFacts.

(* ===================================================================== *)
(** * The session-based backend *)
(* ===================================================================== *)

Module DosboxFacts.
Import JS Errors Address Dosbox.
Local Open Scope list_scope.

Section ServedFacts.

Context {Registers : Type}.
Context (PATH DOSBOX_X_BIN DOSBOX_X_OUTPUT SDL_RENDER_DRIVER : option string).
Context (emulator : Spawn -> Files -> Files).
Context (no_registers : Registers).
Context (registers_in_log : Buffer -> Registers).
Context (stringify : Registers -> Buffer).

(** [get] after [set], for the same section and key and for another
    section. *)
Lemma get_set_same (section key value : string) (c : ConfigFile.Config) :
  ConfigFile.get section key (ConfigFile.set section key value c) = Some value.
Proof.
  unfold ConfigFile.get, ConfigFile.set. cbn [ConfigFile.sections].
  set (sec := ConfigFile.toLowerCase section).
  destruct (JsMap.map_get sec (ConfigFile.sections c)) as [entries |] eqn:E.
  - rewrite E, CaptureChecksFacts.map_get_set_eq.
    apply CaptureChecksFacts.map_get_set_eq.
  - rewrite !CaptureChecksFacts.map_get_set_eq. reflexivity.
Qed.

Lemma get_set_other (section key value section' key' : string)
  (c : ConfigFile.Config) :
  ConfigFile.toLowerCase section' <> ConfigFile.toLowerCase section ->
  ConfigFile.get section' key' (ConfigFile.set section key value c)
  = ConfigFile.get section' key' c.
Proof.
  intros Hne. unfold ConfigFile.get, ConfigFile.set. cbn [ConfigFile.sections].
  set (sec := ConfigFile.toLowerCase section) in *.
  set (sec' := ConfigFile.toLowerCase section') in *.
  destruct (JsMap.map_get sec (ConfigFile.sections c)) as [entries |] eqn:E.
  - rewrite E. now rewrite CaptureChecksFacts.map_get_set_ne by exact Hne.
  - rewrite CaptureChecksFacts.map_get_set_eq.
    now rewrite !CaptureChecksFacts.map_get_set_ne by exact Hne.
Qed.

(** The configuration of a debugger session names the log and the debug
    script. *)
Lemma session_conf_names (logPath dbgPath : string) (lines : list string)
  (c : ConfigFile.Config) :
  let conf :=
    ConfigFile.setAutoexec lines
      (ConfigFile.set "debugger" "debugrunfile" dbgPath
         (ConfigFile.set "log" "logfile" logPath c)) in
  ConfigFile.get "log" "logfile" conf = Some logPath
  /\ ConfigFile.get "debugger" "debugrunfile" conf = Some dbgPath
  /\ ConfigFile.autoexecLines conf = lines.
Proof.
  cbv zeta. split; [| split; [| reflexivity]].
  - change (ConfigFile.get "log" "logfile"
              (ConfigFile.set "debugger" "debugrunfile" dbgPath
                 (ConfigFile.set "log" "logfile" logPath c)) = Some logPath).
    rewrite get_set_other by discriminate. apply get_set_same.
  - apply (get_set_same "debugger" "debugrunfile").
Qed.

(** A preferred binary that is on the disk is the one a session runs. *)
Lemma preferred_binary_found (w : World) (bin : string) :
  bin <> EmptyString -> is_Some (files w !! bin) ->
  Lookup.resolveDosboxBinary (lookup_env PATH DOSBOX_X_BIN w) (Some bin) = Some bin.
Proof.
  intros Hne Hon. unfold Lookup.resolveDosboxBinary, Lookup.candidates.
  cbn [app Lookup.first_existing]. destruct bin as [| c rest]; [congruence |].
  cbn [lookup_env Lookup.existsSync]. now rewrite bool_decide_eq_true_2.
Qed.

Ltac session_conf :=
  match goal with
  | |- context [conf_write ?c _ _] => exists c
  end.

Ltac session_job :=
  match goal with
  | |- context [emulator ?j _] => exists j
  end.

(** C8, as the code has it.  [writeMemory], [screenshot], [setBreakpoint],
    [step], [saveSnapshot] and [loadSnapshot] throw a plain [Error] with a
    message of their own and change nothing.  [removeBreakpoint], [pause]
    and [resume] do nothing and return, and [listBreakpoints] returns the
    empty list.  [readMemory], [readRegisters], [sendKeys] and [capture]
    are served by one emulator session each: they write the debug script
    and a configuration file (after removing the old log), and then, when
    an emulator binary is found on that disk, spawn exactly one session
    with that binary and the configuration, and return what the session
    left on disk ([readMemory] throws when the dump file is missing);
    when no binary is found they spawn nothing and throw the plain [Error]
    of the session. *)
Theorem C8_dosbox_unsupported_and_served :
  (forall (w : World) (a : DosAddress) (data : Buffer),
     writeMemory a data w
     = (Thrown {| error_class := PlainError;
                  message := "DOSBox-X does not support live memory writes from host" |}, w))
  /\ (forall w : World,
        screenshot w
        = (Thrown {| error_class := PlainError;
                     message := "Screenshots require interactive DOSBox-X session (Ctrl+F5)" |}, w))
  /\ (forall (w : World) (t : Qemu.BreakpointType) (a : DosAddress),
        setBreakpoint t a w
        = (Thrown {| error_class := PlainError;
                     message := "Breakpoints in DOSBox-X are set via debug scripts, not live" |}, w))
  /\ (forall w : World,
        step w
        = (Thrown {| error_class := PlainError;
                     message := "Stepping in DOSBox-X requires a debug session" |}, w))
  /\ (forall (w : World) (name : string),
        saveSnapshot name w
        = (Thrown {| error_class := PlainError;
                     message := "Save states in DOSBox-X are created interactively" |}, w)
        /\ loadSnapshot name w
           = (Thrown {| error_class := PlainError;
                        message := "Save states in DOSBox-X are loaded interactively" |}, w))
  /\ (forall (w : World) (i : string),
        removeBreakpoint i w = (Returned tt, w)
        /\ pause w = (Returned tt, w)
        /\ resume w = (Returned tt, w)
        /\ listBreakpoints w = (Returned [], w))
  /\ (forall (b : DosboxBackend) (w : World),
        let not_found :=
          {| error_class := PlainError;
             message := "DOSBox-X binary not found. Set DOSBOX_X_BIN or install dosbox-x in PATH." |} in
        (forall (a : DosAddress) (size : Z) (now : nat),
           let outPath := join (capturesDir b) ("_mem_" ++ Qemu.decimal now ++ ".bin")%string in
           let logPath := join (capturesDir b) "_mem_read.log" in
           let dbgPath := join (capturesDir b) "_mem_read.cmd" in
           let confPath := join (confDir b) "_mem_read.conf" in
           let r := readMemory PATH DOSBOX_X_BIN DOSBOX_X_OUTPUT SDL_RENDER_DRIVER
                      emulator b a size now w in
           exists conf : ConfigFile.Config,
             let w3 :=
               conf_write conf confPath
                 (script_write
                    [cmd_continueExec;
                     cmd_memdumpBin (segment (segOff a)) (offset (segOff a)) size outPath]
                    dbgPath (rmSync logPath w)) in
             (ConfigFile.get "log" "logfile" conf = Some logPath
              /\ ConfigFile.get "debugger" "debugrunfile" conf = Some dbgPath
              /\ ConfigFile.autoexecLines conf = mount_lines b)
             /\
             match Lookup.resolveDosboxBinary (lookup_env PATH DOSBOX_X_BIN w3)
                     (dosboxBin b) with
             | None => r = (Thrown not_found, w3)
             | Some bin =>
                 exists job,
                   s_bin job = bin
                   /\ s_args job = ["-conf"%string; confPath; "-startdebugger"%string]
                   /\ snd r = {| files := emulator job (files w3);
                                 spawned := spawned w ++ [job] |}
                   /\ fst r
                      = match emulator job (files w3) !! outPath with
                        | Some data => Returned data
                        | None =>
                            Thrown {| error_class := PlainError;
                                      message := ("Memory dump failed. Check "
                                                  ++ logPath)%string |}
                        end
             end)
        /\ (let logPath := join (capturesDir b) "_regs.log" in
            let dbgPath := join (capturesDir b) "_regs.cmd" in
            let confPath := join (confDir b) "_regs.conf" in
            let r := readRegisters PATH DOSBOX_X_BIN DOSBOX_X_OUTPUT SDL_RENDER_DRIVER
                       emulator no_registers registers_in_log b w in
            exists conf : ConfigFile.Config,
              let w3 :=
                conf_write conf confPath
                  (script_write [cmd_continueExec; cmd_showRegisters] dbgPath
                     (rmSync logPath w)) in
              (ConfigFile.get "log" "logfile" conf = Some logPath
               /\ ConfigFile.get "debugger" "debugrunfile" conf = Some dbgPath
               /\ ConfigFile.autoexecLines conf = mount_lines b)
              /\
              match Lookup.resolveDosboxBinary (lookup_env PATH DOSBOX_X_BIN w3)
                      (dosboxBin b) with
              | None => r = (Thrown not_found, w3)
              | Some bin =>
                  exists job,
                    s_bin job = bin
                    /\ s_args job = ["-conf"%string; confPath; "-startdebugger"%string]
                    /\ snd r = {| files := emulator job (files w3);
                                  spawned := spawned w ++ [job] |}
                    /\ fst r
                       = Returned match emulator job (files w3) !! logPath with
                                  | Some text => registers_in_log text
                                  | None => no_registers
                                  end
              end)
        /\ (forall (keys : list string) (delay : option Z),
              let confPath := join (confDir b) "_keys.conf" in
              let r := sendKeys PATH DOSBOX_X_BIN DOSBOX_X_OUTPUT SDL_RENDER_DRIVER
                         emulator b keys delay w in
              exists conf : ConfigFile.Config,
                let w1 := conf_write conf confPath w in
                In (autotype_line (match delay with Some d => d | None => 3 end) keys)
                   (ConfigFile.autoexecLines conf)
                /\ match Lookup.resolveDosboxBinary (lookup_env PATH DOSBOX_X_BIN w1)
                           (dosboxBin b) with
                   | None => r = (Thrown not_found, w1)
                   | Some bin =>
                       exists job,
                         s_bin job = bin
                         /\ s_args job = ["-conf"%string; confPath]
                         /\ r = (Returned tt,
                                 {| files := emulator job (files w1);
                                    spawned := spawned w ++ [job] |})
                   end)
        /\ (forall (request : Capture.CaptureRequest) (now : Z),
              let fbPath :=
                join (capturesDir b) (Capture.prefix request ++ "_framebuffer.bin")%string in
              let logPath :=
                join (capturesDir b) (Capture.prefix request ++ "_debug.log")%string in
              let dbgPath :=
                join (capturesDir b) (Capture.prefix request ++ "_debug.cmd")%string in
              let confPath :=
                join (confDir b) ("_" ++ Capture.prefix request ++ "_session.conf")%string in
              let r := capture PATH DOSBOX_X_BIN DOSBOX_X_OUTPUT SDL_RENDER_DRIVER
                         emulator no_registers registers_in_log stringify
                         b request now w in
              exists (conf : ConfigFile.Config) (script : Buffer),
                let w3 :=
                  conf_write conf confPath
                    (write_file dbgPath script (rmSync logPath w)) in
                (ConfigFile.get "log" "logfile" conf = Some logPath
                 /\ ConfigFile.get "debugger" "debugrunfile" conf = Some dbgPath)
                /\
                match Lookup.resolveDosboxBinary (lookup_env PATH DOSBOX_X_BIN w3)
                        (dosboxBin b) with
                | None => r = (Thrown not_found, w3)
                | Some bin =>
                    exists job result,
                      s_bin job = bin
                      /\ s_args job = ["-conf"%string; confPath; "-startdebugger"%string]
                      /\ spawned (snd r) = spawned w ++ [job]
                      /\ fst r = Returned result
                      /\ Capture.r_prefix result = Capture.prefix request
                      /\ Capture.timestamp result = now
                      /\ Capture.framebuffer result = emulator job (files w3) !! fbPath
                      /\ Capture.r_screenshot result = None
                      /\ Capture.memoryDumps result = []
                end)).
Proof.
  repeat (split; [intros; reflexivity |]).
  split; [intros; repeat split; reflexivity |].
  split; [intros; repeat split; reflexivity |].
  intros b w not_found. split; [| split; [| split]].
  - intros a size now outPath logPath dbgPath confPath r.
    subst r outPath logPath dbgPath confPath. unfold readMemory.
    destruct (applyVideoSettings DOSBOX_X_OUTPUT b ConfigFile.defaults None)
      as [conf output].
    session_conf. cbv zeta. split; [apply session_conf_names |].
    unfold session_launch.
    destruct (Lookup.resolveDosboxBinary _ (dosboxBin b)) as [bin |]; [| reflexivity].
    session_job. split; [reflexivity |]. split; [reflexivity |].
    cbn [files].
    match goal with
    | |- context [emulator ?j ?f !! ?p] => destruct (emulator j f !! p) as [data |]
    end; cbn [fst snd]; split; reflexivity.
  - cbv zeta. unfold readRegisters.
    destruct (applyVideoSettings DOSBOX_X_OUTPUT b ConfigFile.defaults None)
      as [conf output].
    session_conf. split; [apply session_conf_names |].
    unfold session_launch.
    destruct (Lookup.resolveDosboxBinary _ (dosboxBin b)) as [bin |]; [| reflexivity].
    session_job. split; [reflexivity |]. split; [reflexivity |].
    cbn [fst snd]. split; [reflexivity |].
    unfold parseLastRegisters. cbn [files].
    match goal with
    | |- context [emulator ?j ?f !! ?p] => destruct (emulator j f !! p)
    end; reflexivity.
  - intros keys delay confPath r. subst r confPath. unfold sendKeys.
    destruct (applyVideoSettings DOSBOX_X_OUTPUT b ConfigFile.defaults None)
      as [conf output].
    session_conf. cbv zeta. split.
    + cbn [ConfigFile.setAutoexec ConfigFile.autoexecLines].
      apply in_or_app. right. now left.
    + unfold session_launch.
      destruct (Lookup.resolveDosboxBinary _ (dosboxBin b)) as [bin |]; [| reflexivity].
      session_job. split; [reflexivity |]. split; reflexivity.
  - intros request now fbPath logPath dbgPath confPath r.
    subst r fbPath logPath dbgPath confPath. unfold capture.
    destruct (applyVideoSettings DOSBOX_X_OUTPUT b ConfigFile.defaults None)
      as [conf output].
    unfold script_write. session_conf.
    match goal with
    | |- context [write_file _ ?sc (rmSync _ _)] => exists sc
    end.
    cbv zeta.
    split; [pose proof (session_conf_names
                          (join (capturesDir b) (Capture.prefix request ++ "_debug.log"))
                          (join (capturesDir b) (Capture.prefix request ++ "_debug.cmd"))
                          (mount_lines b
                           ++ match Capture.keys request with
                              | Some (k :: ks) =>
                                  [autotype_line (match Capture.waitTime request with
                                                  | Some s => s
                                                  | None => 3
                                                  end) (k :: ks)]
                              | _ => []
                              end ++ ["CD \GAME"%string]) conf) as (H1 & H2 & _);
            split; [exact H1 | exact H2] |].
    unfold session_launch.
    destruct (Lookup.resolveDosboxBinary _ (dosboxBin b)) as [bin |]; [| reflexivity].
    session_job. eexists. split; [reflexivity |]. split; [reflexivity |].
    cbn [fst snd]. split.
    + destruct (Capture.not_false (Capture.captureRegisters request));
        cbn [spawned write_file]; reflexivity.
    + split; [reflexivity |]. cbn [Capture.r_prefix Capture.timestamp Capture.framebuffer
                                    Capture.r_screenshot Capture.memoryDumps files].
      repeat split; reflexivity.
Qed.

End ServedFacts.

(** [readMemory] on the sample surroundings: one session is spawned with
    the debugger switch, the configuration names the log and the debug
    script, and the dump the session leaves is returned. *)
Example readMemory_served :
  let r := readMemory None None None None sample_emulator sample_backend
             (parseAddress "B800:0000") 2 7 sample_disk in
  fst r = Returned [x4d; x5a]
  /\ spawned (snd r)
     = [{| s_bin := "/usr/bin/dosbox-x";
           s_args := ["-conf"; "conf/_mem_read.conf"; "-startdebugger"]%string;
           s_cwd := "."; s_env := Some ("SDL_RENDER_DRIVER", "software")%string;
           s_timeout := 30 |}]
  /\ files (snd r) !! "captures/_mem_read.cmd"%string
     = Some (list_byte_of_string
               ("C" ++ newline ++ "MEMDUMPBIN B800:0000 2 captures/_mem_7.bin" ++ newline)%string)
  /\ (ConfigFile.load <$> (string_of_list_byte <$> files (snd r) !! "conf/_mem_read.conf"%string))
     = Some (ConfigFile.setAutoexec ["MOUNT C " ++ dquote ++ "drive_c" ++ dquote; "C:"]%string
               (ConfigFile.set "debugger" "debugrunfile" "captures/_mem_read.cmd"
                  (ConfigFile.set "log" "logfile" "captures/_mem_read.log"
                     ConfigFile.defaults))).
Proof. vm_compute. repeat split; reflexivity. Qed.

(** Without an emulator on the disk nothing is spawned. *)
Example readMemory_without_binary :
  readMemory None None None None sample_emulator sample_backend
    (parseAddress "B800:0000") 2 7 {| files := ∅; spawned := [] |}
  = (Thrown {| error_class := PlainError;
               message := "DOSBox-X binary not found. Set DOSBOX_X_BIN or install dosbox-x in PATH." |},
     {| files := {[ "conf/_mem_read.conf"%string
                    := list_byte_of_string
                         (ConfigFile.write
                            (ConfigFile.setAutoexec
                               ["MOUNT C " ++ dquote ++ "drive_c" ++ dquote; "C:"]%string
                               (ConfigFile.set "debugger" "debugrunfile" "captures/_mem_read.cmd"
                                  (ConfigFile.set "log" "logfile" "captures/_mem_read.log"
                                     ConfigFile.defaults))));
                   "captures/_mem_read.cmd"%string
                    := list_byte_of_string
                         ("C" ++ newline ++ "MEMDUMPBIN B800:0000 2 captures/_mem_7.bin"
                          ++ newline)%string ]};
        spawned := [] |}).
Proof. vm_compute. reflexivity. Qed.

(** C8 as stated fails: on the session-based backend [pause], [resume] and
    [removeBreakpoint] return normally without doing anything, and
    [listBreakpoints] returns an empty list; none of them raises an
    error. *)
Lemma C8_dosbox_pause_returns_silently :
  let w := {| files := ∅; spawned := [] |} in
  pause w = (Returned tt, w)
  /\ resume w = (Returned tt, w)
  /\ removeBreakpoint "bp_1" w = (Returned tt, w)
  /\ listBreakpoints w = (Returned [], w)
  /\ (forall e : JsError, fst (pause w) <> Thrown e).
Proof.
  cbv zeta. repeat split. intros e. discriminate.
Qed.

End DosboxFacts.

(* ===================================================================== *)
(** ** The session-based backend: what is on disk before a run *)
(* ===================================================================== *)

Module DosboxDiskFacts.
Import JS Errors Address Sha256 Dosbox DosboxDisk.

Lemma endsWith_app (a b : string) (c : ascii) :
  b <> EmptyString ->
  ConfigFile.endsWith (a ++ b)%string c = ConfigFile.endsWith b c.
Proof.
  intros Hb. induction a as [| x a IH]; [reflexivity |].
  rewrite FormatFacts.append_cons. cbn [ConfigFile.endsWith].
  destruct (a ++ b)%string eqn:E; [| exact IH].
  destruct a; [now rewrite FormatFacts.append_nil in E | discriminate E].
Qed.

Lemma app_nonempty (p s : string) : s <> EmptyString -> (p ++ s)%string <> EmptyString.
Proof.
  intros Hs. destruct p; [now rewrite FormatFacts.append_nil | discriminate].
Qed.

(** Paths under [join] with different last characters are different. *)
Lemma join_differs (d1 d2 n1 n2 : string) (c : ascii) :
  n1 <> EmptyString -> n2 <> EmptyString ->
  ConfigFile.endsWith n1 c = true -> ConfigFile.endsWith n2 c = false ->
  join d1 n1 <> join d2 n2.
Proof.
  intros H1 H2 E1 E2 Heq. apply (f_equal (fun s => ConfigFile.endsWith s c)) in Heq.
  unfold join in Heq.
  rewrite !endsWith_app in Heq by (repeat apply app_nonempty; assumption).
  congruence.
Qed.

Ltac other_path :=
  apply not_eq_sym; apply (join_differs _ _ _ _ "n"%char);
  [ repeat apply app_nonempty; discriminate
  | repeat apply app_nonempty; discriminate
  | rewrite !endsWith_app by (repeat apply app_nonempty; discriminate); reflexivity
  | rewrite !endsWith_app by (repeat apply app_nonempty; discriminate); reflexivity ].

Section DiskFacts.

Context {Registers : Type}.
Context (PATH DOSBOX_X_BIN DOSBOX_X_OUTPUT SDL_RENDER_DRIVER : option string).
Context (emulator : Spawn -> Files -> Files).
Context (no_registers : Registers).
Context (registers_in_log : Buffer -> Registers).
Context (stringify : Registers -> Buffer).

(** X25: [capture] on the session-based backend can return an old
    framebuffer.  The framebuffer file is not removed before the session,
    and after it the result takes whatever is at that path: when the
    emulator binary of the backend is on the disk, the session does not
    write the file (also when the request says [captureFramebuffer:
    false]) and a file of an earlier capture with the same prefix is
    there, the result carries that old file as its framebuffer, with its
    SHA-256 under [framebuffer]. *)
Theorem capture_returns_old_framebuffer (b : DosboxBackend)
  (request : Capture.CaptureRequest) (now : Z) (w : World)
  (bin : string) (old : Buffer) :
  dosboxBin b = Some bin -> bin <> EmptyString ->
  is_Some (files w !! bin) -> bin <> capture_log b request ->
  (forall job f, emulator job f !! framebuffer_path b request
                 = f !! framebuffer_path b request) ->
  files w !! framebuffer_path b request = Some old ->
  exists result,
    fst (capture PATH DOSBOX_X_BIN DOSBOX_X_OUTPUT SDL_RENDER_DRIVER emulator
           no_registers registers_in_log stringify b request now w) = Returned result
    /\ Capture.framebuffer result = Some old
    /\ Capture.checksums result = [("framebuffer", sha256 old)].
Proof.
  intros Hbin Hne Hon Hlog Hidle Hold. unfold capture.
  destruct (applyVideoSettings DOSBOX_X_OUTPUT b ConfigFile.defaults None)
    as [conf output].
  unfold session_launch. rewrite Hbin.
  rewrite (DosboxFacts.preferred_binary_found PATH DOSBOX_X_BIN _ bin Hne).
  2:{ unfold conf_write, script_write, write_file, rmSync. cbn [files].
      fold (capture_log b request).
      destruct (decide (join (confDir b) ("_" ++ Capture.prefix request ++ "_session.conf")
                        = bin)) as [<- | H1];
        [rewrite lookup_insert_eq; eauto |].
      rewrite lookup_insert_ne by exact H1.
      destruct (decide (join (capturesDir b) (Capture.prefix request ++ "_debug.cmd")
                        = bin)) as [<- | H2];
        [rewrite lookup_insert_eq; eauto |].
      rewrite lookup_insert_ne by exact H2.
      rewrite lookup_delete_ne by (apply not_eq_sym; exact Hlog). exact Hon. }
  cbn [files fst].
  match goal with
  | |- context [emulator ?j ?f !! ?p] => assert (Hfb : emulator j f !! p = Some old)
  end.
  { change (join (capturesDir b) (Capture.prefix request ++ "_framebuffer.bin"))
      with (framebuffer_path b request).
    rewrite Hidle. unfold conf_write, script_write, write_file, rmSync. cbn [files].
    unfold framebuffer_path.
    rewrite lookup_insert_ne by other_path.
    rewrite lookup_insert_ne by other_path.
    rewrite lookup_delete_ne by other_path.
    exact Hold. }
  rewrite Hfb.
  eexists. split; [reflexivity |]. split; reflexivity.
Qed.

(** X26: [readRegisters] on the session-based backend never reads an old
    log.  The log file is removed before the session is started, so two
    disks that differ only in that file give the same result and the same
    disk afterwards: the registers returned come from what the session
    wrote, or are empty when it wrote nothing. *)
Theorem readRegisters_ignores_old_log (b : DosboxBackend) (w1 w2 : World) :
  spawned w1 = spawned w2 ->
  (forall p, p <> registers_log b -> files w1 !! p = files w2 !! p) ->
  readRegisters PATH DOSBOX_X_BIN DOSBOX_X_OUTPUT SDL_RENDER_DRIVER emulator
    no_registers registers_in_log b w1
  = readRegisters PATH DOSBOX_X_BIN DOSBOX_X_OUTPUT SDL_RENDER_DRIVER emulator
      no_registers registers_in_log b w2.
Proof.
  intros Hs Hf.
  assert (Hrm : rmSync (registers_log b) w1 = rmSync (registers_log b) w2).
  { unfold rmSync. rewrite Hs. f_equal. apply map_eq. intros p.
    destruct (decide (registers_log b = p)) as [<- | Hne].
    - now rewrite !lookup_delete_eq.
    - rewrite !lookup_delete_ne by exact Hne. apply Hf. congruence. }
  unfold readRegisters. fold (registers_log b). now rewrite Hrm.
Qed.

End DiskFacts.

Lemma capture_returns_old_framebuffer_witness :
  exists result,
    fst (capture (Registers := unit) None None None None idle_emulator tt
           (fun _ => tt) (fun _ => []) sample_backend bare_request 0 old_disk)
    = Returned result
    /\ Capture.framebuffer result = Some [x0f; x0f]
    /\ Capture.checksums result = [("framebuffer", sha256 [x0f; x0f])].
Proof.
  apply (capture_returns_old_framebuffer (Registers := unit) None None None None
           idle_emulator tt (fun _ => tt) (fun _ => [])
           sample_backend bare_request 0 old_disk "/usr/bin/dosbox-x" [x0f; x0f]).
  - reflexivity.
  - discriminate.
  - vm_compute. eauto.
  - vm_compute. discriminate.
  - intros job f. reflexivity.
  - vm_compute. reflexivity.
Defined.

Lemma readRegisters_ignores_old_log_witness :
  readRegisters (Registers := unit) None None None None idle_emulator tt (fun _ => tt)
    sample_backend
    {| files := {["captures/_regs.log" := [x45]]}; spawned := [] |}
  = readRegisters (Registers := unit) None None None None idle_emulator tt (fun _ => tt)
      sample_backend
      {| files := ∅; spawned := [] |}.
Proof.
  apply (readRegisters_ignores_old_log (Registers := unit) None None None None
           idle_emulator tt (fun _ => tt) sample_backend).
  - reflexivity.
  - intros p Hp. cbn [files]. rewrite lookup_empty.
    apply lookup_singleton_ne. intros Heq. apply Hp. now rewrite <- Heq.
Defined.

End DosboxDiskFacts.
